(* ===== verification/_CoqProject ===== *)
-Q . S2P
Prelude.v
GoStrings.v
FatImage.v
FatTable.v
FatReader.v
IsoImage.v
IsoReader.v
Overlay.v
MacAddr.v
Types.v
NodeStore.v
IsoCache.v
KernelNet.v
IpxeScript.v
Regex.v
Rewriter.v
Http.v
Server.v
ServerFacts.v
GoHeap.v
GoHeapFacts.v
ApiTypes.v
DeepCopy.v
DeepCopyFacts.v
QueryFacts.v
Concurrent.v
RelyGuarantee.v
Locks.v
Together.v
ConcurrentFacts.v
InjectFacts.v
