(* ===== verification/Prelude.v ===== *)
(** * maas-boot-proxy: a verified model

    The repository packages MAAS for Kubernetes.  Its program code is the boot
    proxy (images/maas-boot-proxy, Go), an HTTP server that stands between bare
    metal machines and a MAAS rack controller.  It composes boot images in
    memory, serves the initramfs overlay that sets up bonded interfaces, and
    proxies everything else to the rack, rewriting the URLs in what comes back
    and putting a node's static network configuration on the kernel command
    line.  Beside it stands the Go API of the custom resource that describes a
    machine (api/v1alpha1), with its generated deep copies.  This development
    models both, operation by operation, and proves what each part promises to
    the next.

    ** Parts, files and sources

    Sources without a directory are under src/images/maas-boot-proxy.

    - [Prelude]: bytes, machine integers and their wrap-around, the [outcome] of
      a Go call (value, error, panic), slices into one buffer with their bounds
      checks, and the [executes] calculus that turns a program of buffer stores
      into a list of writes.
    - [GoStrings]: the functions of the packages strings, bytes, fmt, utf8,
      utf16 and path that the program calls, [path.Clean] and [path.Join] among
      them.  Case mapping and white space outside ASCII
      are the interface [Unicode] with its laws [UnicodeLaws].
    - [FatImage], [FatTable], [FatReader] (isoimage.go, second half): [Fat] is
      [buildESPImage] and its helpers on the image buffer; [FatTable] relates
      [setFAT12] to the table it represents; [FatReader] has a FAT12 driver
      (boot sector, directories with long names, cluster chains) and reads the
      composed volume back with it.
    - [IsoImage], [IsoReader] (isoimage.go, first half): [Iso] is [buildBootISO];
      [IsoReader] follows El Torito and ISO 9660 from the finished image.
    - [Overlay] (overlay.go): the tree walk and the newc archive, a newc reader,
      and the listing of a tree that the archive must contain.
    - [MacAddr] (nodes_store.go, end): [net.ParseMAC] and the canonical keys.
    - [Types] (types.go): the records, and the interfaces [Json] and [Sha256].
    - [NodeStore] (nodes_store.go): [Store] is the nodes file and its reloads;
      [Interleave] runs any number of concurrent reloads, one lock section or
      file read at a time, while the file changes.
    - [IsoCache] (iso_cache.go): the cache with its entries in a heap, because
      callers keep the pointers [Get] and [Set] return; the clock readings of an
      operation are arguments.
    - [KernelNet] (main.go, [buildKernelNet] and [injectOverlayInitrd]) with the
      reader of the overlay's hook (initramfs-bond-overlay) and of the kernel.
    - [IpxeScript] (iso_builder.go): [fmt.Sscanf] on PCI addresses, the
      configuration hashes, the scripts, and the labels and jumps of a script.
    - [Regex]: the package regexp for the constructs the program's patterns use
      (leftmost-first matching with backtracking, replacement templates), with a
      declarative matching relation it is proved against.
    - [Rewriter] (rewriter.go): base64, the line wrapper, [rewriteData].  gzip
      and tar are the interface [Archive].
    - [Http], [Server] (main.go): header and query maps; configuration,
      reloading, [Watch], [resolveNode], [cachedISO], the request handler with
      its four branches, and the start-up of [main].
    - [ServerFacts]: [Running] is the server as a step relation (requests,
      reloads, sweeps), and the theorems about the whole.
    - [InjectFacts]: the kernel arguments in a proxied configuration, and what
      a dollar sign in them does.
    - [QueryFacts]: the encoder and the parser of query strings as inverses.
    - [Concurrent]: the goroutines.  [Goroutine.prog] is a program of actions:
      taking and releasing one of the three read-write locks (of the
      configuration, the node store and the cache), reads of the disk and the
      clock, waits, questions to the rack, and what is done inside a section;
      [Conc] gives [ServeHTTP], [Watch] and the reaper, and all they call, at
      this grain, with the same names as in [Server].
    - [RelyGuarantee]: timelines of the shared state, the weakest precondition
      [wp] of a program among others, and pools of goroutines with their locks
      and steps.  A goroutine whose lock is held steps only when it is free.
    - [Locks]: programs that pair their locks, hold one at a time and have a
      bounded number of actions ([disciplined]); the locks of a pool of such
      programs agree with who is inside a section ([locks_ok]), and nobody is
      blocked for good ([not_blocked], [run_to_end]).
    - [Together]: what the goroutines rely on, the specification of each
      program, and what a right answer is ([answer]).
    - [ConcurrentFacts]: the lock discipline of the programs, the server that
      runs them all, and the theorems about it.
    - [GoHeap], [GoHeapFacts]: Go's memory as far as the deep copies see it, a
      heap of typed cells for pointers, slices and maps, over a universe of
      types; the loops of generated code; what a value in a heap stands for
      ([resolve]), and what an independent copy is ([deep_copies]).
    - [ApiTypes] (api/v1alpha1/shared_types.go, maasmachine_types.go): a record
      per struct.  The types of apimachinery are the interface [K8s].
    - [DeepCopy], [DeepCopyFacts] (api/v1alpha1/zz_generated.deepcopy.go): every
      generated function, on the interface [K8sCopy] with [K8sCopyLaws].

    The handler calls [resolveNode], which calls [ReloadAll] ([Server.Reload]),
    which calls [reloadConfig] and the store's [Reload]; a resolved node goes to
    [RenderNodeIPXEScript] and [buildBootISO] through [cachedISO], or to
    [buildKernelNet] on the proxied body after [rewriteData].

    ** What the theorems show

    - Images: a partition that [buildESPImage] returns gives both files back
      through a FAT12 driver ([esp_roundtrip], [esp_allocation],
      [setFAT12_read]); firmware that follows El Torito reaches it
      ([boot_iso_boots]), the volume is consistent ([boot_iso_volume]), and
      each error happens exactly when it should, never a panic
      ([buildBootISO_outcome]); no conversion to a narrower integer truncates
      ([boot_iso_bounds]).
    - Scripts: jumps have targets ([node_script_closed],
      [generic_script_closed]), PCI addresses have one form
      ([formatIPXEPCI_canonical]), the hash determines the image
      ([config_hash_covers]), except for one ambiguity
      ([config_hash_ambiguous]).
    - Overlay: a newc reader gets the tree back ([overlay_roundtrip]) and errors
      are exactly the unreadable nodes ([overlay_errors]).
    - Keys and nodes: canonicalization is idempotent and identifies exactly the
      spellings of an address ([normalizeKey_idem], [normalizeKey_notations],
      [normalizeMAC_identifies]); reloading on every branch ([reload_outcome],
      [reload_lookup], [diffNodes_counts]); under any interleaving the store
      holds the nodes of one good document ([store_last_good]), and when a
      reload returns it is the document that this reload read
      ([reload_fresh]), though a slow reload can put an older one back after a
      faster one ([reload_overtaken]); duplicate
      spellings are resolved by map order ([clash_depends_on_order]).
    - Cache: lookups, time to live and sweeps ([cache_get], [cache_set_get],
      [reap_transparent]); a pointer handed out stays valid
      ([cache_pointer_stable]).
    - Kernel arguments: the hook and the kernel read back the node's fields
      ([bonded_cmdline], [single_cmdline]); they take the place of MAAS's own
      argument ([kernel_args_injected]), where a [kernel_net] with a dollar sign
      is a template and not verbatim ([kernel_net_not_verbatim]); the overlay line goes before the
      boot line ([inject_before_boot]), or is glued to the last line
      ([inject_without_newline]).
    - Rewriting: an archive stays an archive with its files rewritten and its
      checksum line renewed ([archive_rewritten]), wrapping implements its
      specification ([wrap_writes]), rack URLs are replaced and nothing else
      ([rack_urls_replaced]), and exactly a broken payload leads back to the
      plain substitutions ([payload_cases]).
    - Server: in every reachable state the cache, the overrides and the node
      tables are in order ([server_invariant]), so that the image a node gets is
      the current one ([node_image_current], for records the hash covers and
      without digest collisions); resolving ends ([resolve_terminates]) and
      waits for a node that comes late ([late_node_served]); what the rack and
      the client get ([proxy_contract]); the environment wins
      ([overrides_in_force]); the query reaches the rack unchanged
      ([query_forwarded]).
    - Concurrency: with any number of goroutines at any points of their code,
      the invariants hold and every answer is right for moments within its
      request ([concurrent_answers]); there is no deadlock, and every request
      ends within a number of actions that the configured wait determines
      ([concurrent_requests_end]).
    - API: every [DeepCopy] returns an independent copy ([api_deep_copy],
      [deep_copy_object]) and never fails on a well-typed heap
      ([deep_copy_total]).

    ** Bounds and fuel

    Loops of the source that count are structural on their count.  The FAT12
    reader has fuel for 4096 clusters and 513 directory entries, more than a
    FAT12 volume of this program can have (4084 and 512).  Readers of byte
    strings (newc, regular expressions, replacement templates, UTF-8) have the
    length of their input as fuel and consume at least a byte per round.  The
    retry loop of [resolveNode] has its number of rounds as fuel;
    [resolve_terminates] shows that the configured wait divided by the poll
    interval, plus two, is enough for it to return, and [concurrent_answers] that
    it is enough among other goroutines.  [Watch] and the reaper, which never
    end, are given any finite number of rounds.  [resolve] follows references to
    a depth; 7 more than the apimachinery types need is enough for every API
    type, which [deep_copy_total] proves.  Go's [int] is 64 bits wide
    and lengths stay below 2^32, so sizes are plain [Z]; wrap-around is written
    out where the source converts to a narrower type ([u8], [u16], [u32],
    [byte]).

    ** What is not modelled

    - net/http itself: parsing requests, [ServeContent]'s ranges and conditional
      requests, connections.  A response is the value handed to the library.
    - JSON, SHA-256, gzip and tar, [time.ParseDuration], Unicode tables beyond
      ASCII: parameters with their documented behaviour as named laws.
      MD5, which [rewriteData] writes into an archive's header, likewise.
    - Log lines, except those of the node store, whose de-duplication is state.
    - Go's memory model: actions happen in one total order.  What is done
      between taking and releasing a lock is one action of its own, which the
      exclusion of the lock justifies.  That a waiting writer keeps new readers
      out of a [sync.RWMutex] is not modelled: a model reader may still enter,
      which only adds behaviours, and no goroutine takes a lock while it holds
      one ([disciplined]), so nobody waits for itself.
    - The scheme registration of the API (groupversion_info.go), and what
      apimachinery and controller-runtime do with the types; JSON tags and
      validation markers.  The heap of [GoHeap] ignores the capacity of slices,
      which the generated code never extends, and passes the target struct of
      [DeepCopyInto] by value: the caller assigns the result.
    - The chart, the container images, their patches and the shell and Python
      tools, which are not Go; the overlay's shell hook only as the reader in
      [KernelNet]. *)

From Stdlib Require Export Ascii String.
From stdpp Require Export base list numbers gmap strings.
Export ListNotations.
#[global] Open Scope Z_scope.

(** ** Bytes and Go strings

    A Go [string] and a Go [[]byte] are both finite sequences of 8-bit
    values; both are [list ascii] here, so the conversions [[]byte(s)] and
    [string(b)] of the source are the identity.  String literals are Rocq
    strings, inserted by a coercion. *)

Abbreviation bytes := (list ascii).
Coercion list_ascii_of_string : string >-> list.

Declare Scope go_scope.
Delimit Scope go_scope with go.
Open Scope go_scope.

(** The value of a byte, and the conversion [byte(z)], which keeps the low
    eight bits. *)
Definition b2z (a : ascii) : Z := Z.of_N (N_of_ascii a).
Definition z2b (z : Z) : ascii := ascii_of_N (Z.to_N (z mod 256)).

(** Wrap-around of the unsigned machine integers of the source. *)
Definition u8 (z : Z) : Z := z mod 2 ^ 8.
Definition u16 (z : Z) : Z := z mod 2 ^ 16.
Definition u32 (z : Z) : Z := z mod 2 ^ 32.

(** [len(b)], as a Go [int]. *)
Abbreviation zlen b := (Z.of_nat (length b)).

(** ** Automation *)

(** Rewriting with list lengths, and the arithmetic facts it needs. *)
Create Rewrite HintDb len.

Ltac zify_div := Z.to_euclidean_division_equations.

Ltac len := autorewrite with len in *; try lia.

Tactic Notation "unfold_mod" := unfold u8, u16, u32 in *.

(** Case analysis on the boolean comparisons of [Z] in the goal or context. *)
Ltac zcase :=
  match goal with
  | |- context [Z.ltb ?a ?b] => destruct (Z.ltb_spec a b)
  | |- context [Z.leb ?a ?b] => destruct (Z.leb_spec a b)
  | |- context [Z.eqb ?a ?b] => destruct (Z.eqb_spec a b)
  | H : context [Z.ltb ?a ?b] |- _ => destruct (Z.ltb_spec a b)
  | H : context [Z.leb ?a ?b] |- _ => destruct (Z.leb_spec a b)
  | H : context [Z.eqb ?a ?b] |- _ => destruct (Z.eqb_spec a b)
  end.

(** ** Conversions between bytes and integers *)

Lemma b2z_range a : 0 <= b2z a < 256.
Proof. unfold b2z. pose proof (N_ascii_bounded a). lia. Qed.

Lemma b2z_z2b z : b2z (z2b z) = z mod 256.
Proof.
  unfold b2z, z2b. pose proof (Z.mod_pos_bound z 256 ltac:(lia)).
  rewrite N_ascii_embedding; lia.
Qed.

Lemma z2b_b2z a : z2b (b2z a) = a.
Proof.
  unfold z2b. pose proof (b2z_range a). rewrite Z.mod_small by lia.
  unfold b2z. rewrite N2Z.id. apply ascii_N_embedding.
Qed.

Lemma z2b_mod z : z2b (z mod 256) = z2b z.
Proof. unfold z2b. by rewrite Z.mod_mod by lia. Qed.

Lemma b2z_inj a b : b2z a = b2z b -> a = b.
Proof. intros H. by rewrite <- (z2b_b2z a), <- (z2b_b2z b), H. Qed.

Lemma z2b_small_inj x y : 0 <= x < 256 -> 0 <= y < 256 -> z2b x = z2b y -> x = y.
Proof.
  intros Hx Hy H. apply (f_equal b2z) in H.
  rewrite !b2z_z2b, !Z.mod_small in H by lia. done.
Qed.

(** ** Windows of a byte sequence *)

(** [b[o:o+n]], for a range that lies in [b]. *)
Definition sub {A} (o n : Z) (b : list A) : list A :=
  take (Z.to_nat n) (drop (Z.to_nat o) b).

(** [b] with the elements from offset [o] on replaced by [d]; meant for a
    range that lies in [b]. *)
Definition splice {A} (o : Z) (d b : list A) : list A :=
  take (Z.to_nat o) b ++ d ++ drop (Z.to_nat (o + zlen d)) b.

(** [make([]byte, n)]. *)
Definition make (n : Z) : bytes := replicate (Z.to_nat n) (z2b 0).

Section windows.
Context {A : Type}.
Implicit Types (b c d : list A) (o n : Z).

Lemma zlen_sub o n b :
  0 <= o -> 0 <= n -> o + n <= zlen b -> zlen (sub o n b) = n.
Proof. intros. unfold sub. rewrite length_take, length_drop. lia. Qed.

Lemma zlen_splice o d b :
  0 <= o -> o + zlen d <= zlen b -> zlen (splice o d b) = zlen b.
Proof.
  intros. unfold splice. rewrite !length_app, length_take, length_drop. lia.
Qed.

Lemma sub_app_l o n b c :
  0 <= o -> o + n <= zlen b -> sub o n (b ++ c) = sub o n b.
Proof.
  intros. unfold sub. destruct (decide (n <= 0)).
  { by replace (Z.to_nat n) with 0%nat by lia. }
  rewrite drop_app_le by lia. rewrite take_app_le; [done|].
  rewrite length_drop. lia.
Qed.

Lemma sub_app_r o n b c :
  zlen b <= o -> sub o n (b ++ c) = sub (o - zlen b) n c.
Proof.
  intros. unfold sub. rewrite drop_app_ge by lia. do 2 f_equal. lia.
Qed.

Lemma sub_all b n : n = zlen b -> sub 0 n b = b.
Proof. intros ->. unfold sub. simpl. apply take_ge. lia. Qed.

Lemma sub_all_at b o n : o = 0 -> n = zlen b -> sub o n b = b.
Proof. intros ->. apply sub_all. Qed.

Lemma sub_nil o n : sub o n (@nil A) = [].
Proof. unfold sub. by rewrite drop_nil, take_nil. Qed.

Lemma sub_empty o n b : n <= 0 -> sub o n b = [].
Proof. intros. unfold sub. by replace (Z.to_nat n) with 0%nat by lia. Qed.

Lemma sub_sub o n o' n' b :
  0 <= o -> 0 <= o' -> o' + n' <= n -> sub o' n' (sub o n b) = sub (o + o') n' b.
Proof.
  intros. unfold sub. destruct (decide (n' <= 0)).
  { by replace (Z.to_nat n') with 0%nat by lia. }
  rewrite skipn_firstn_comm, take_take, drop_drop.
  f_equal; [lia|]. f_equal. lia.
Qed.

Lemma sub_drop o n k b :
  0 <= o -> 0 <= k -> sub o n (drop (Z.to_nat k) b) = sub (k + o) n b.
Proof. intros. unfold sub. rewrite drop_drop. do 2 f_equal. lia. Qed.

Lemma sub_cat o n m b :
  0 <= o -> 0 <= n -> 0 <= m -> sub o (n + m) b = sub o n b ++ sub (o + n) m b.
Proof.
  intros. unfold sub.
  rewrite Z2Nat.inj_add, Z2Nat.inj_add by lia.
  rewrite <- drop_drop. symmetry. apply take_take_drop.
Qed.

(** Reading a window that a write does not touch. *)
Lemma sub_splice_ne o n o' d b :
  0 <= o -> 0 <= n -> 0 <= o' -> o' + zlen d <= zlen b ->
  o + n <= o' \/ o' + zlen d <= o ->
  sub o n (splice o' d b) = sub o n b.
Proof.
  intros Ho Hn Ho' Hd [H|H]; unfold splice.
  - rewrite sub_app_l by (rewrite ?length_take; lia).
    rewrite <- (take_drop (Z.to_nat o') b) at 2.
    rewrite sub_app_l by (rewrite ?length_take; lia). done.
  - rewrite app_assoc, sub_app_r
      by (rewrite length_app, length_take; lia).
    unfold sub. rewrite drop_drop. do 2 f_equal.
    rewrite length_app, length_take. lia.
Qed.

(** Reading a window that lies in what was written. *)
Lemma sub_splice_in o n o' d b :
  0 <= o' -> 0 <= n -> o' <= o -> o + n <= o' + zlen d -> o' <= zlen b ->
  sub o n (splice o' d b) = sub (o - o') n d.
Proof.
  intros. unfold splice.
  rewrite sub_app_r by (rewrite length_take; lia).
  rewrite sub_app_l by (rewrite length_take; lia).
  f_equal. rewrite length_take. lia.
Qed.

Lemma sub_splice_eq o n d b :
  0 <= o <= zlen b -> n = zlen d -> sub o n (splice o d b) = d.
Proof.
  intros ? ->. rewrite sub_splice_in by lia. rewrite Z.sub_diag. by apply sub_all.
Qed.

Lemma sub_1_lookup o b x :
  0 <= o -> b !! Z.to_nat o = Some x -> sub o 1 b = [x].
Proof.
  intros Ho Hx. unfold sub. change (Z.to_nat 1) with 1%nat.
  by rewrite (drop_S _ _ _ Hx).
Qed.
End windows.

Lemma sub_make o n m :
  0 <= o -> 0 <= n -> o + n <= m -> sub o n (make m) = make n.
Proof.
  intros. unfold sub, make. rewrite drop_replicate, take_replicate. f_equal. lia.
Qed.

Lemma zlen_make n : 0 <= n -> zlen (make n) = n.
Proof. intros. unfold make. rewrite length_replicate. lia. Qed.

(** ** Fixed-width integers in memory

    [encoding/binary]: little- and big-endian encodings of unsigned
    integers, and their decodings. *)

Definition le16 (v : Z) : bytes := [z2b v; z2b (Z.shiftr v 8)].
Definition be16 (v : Z) : bytes := [z2b (Z.shiftr v 8); z2b v].
Definition le32 (v : Z) : bytes :=
  [z2b v; z2b (Z.shiftr v 8); z2b (Z.shiftr v 16); z2b (Z.shiftr v 24)].
Definition be32 (v : Z) : bytes :=
  [z2b (Z.shiftr v 24); z2b (Z.shiftr v 16); z2b (Z.shiftr v 8); z2b v].

Fixpoint le_dec (b : bytes) : Z :=
  match b with
  | [] => 0
  | x :: b' => b2z x + 256 * le_dec b'
  end.

Definition be_dec (b : bytes) : Z := le_dec (reverse b).

Lemma le_dec_le16 v : le_dec (le16 v) = u16 v.
Proof.
  unfold le_dec, le16, u16. rewrite !b2z_z2b, Z.shiftr_div_pow2 by lia.
  zify_div; lia.
Qed.

Lemma le_dec_le32 v : le_dec (le32 v) = u32 v.
Proof.
  unfold le_dec, le32, u32. rewrite !b2z_z2b, !Z.shiftr_div_pow2 by lia.
  change (2 ^ 8) with 256. change (2 ^ 16) with (256 * 256).
  change (2 ^ 24) with (256 * 256 * 256).
  change (2 ^ 32) with (256 * 256 * 256 * 256).
  rewrite <- !Z.div_div by lia. zify_div; lia.
Qed.

Lemma be_dec_be16 v : be_dec (be16 v) = u16 v.
Proof. apply le_dec_le16. Qed.

Lemma be_dec_be32 v : be_dec (be32 v) = u32 v.
Proof. apply le_dec_le32. Qed.

Lemma le_dec_range b : 0 <= le_dec b < 256 ^ zlen b.
Proof.
  induction b as [|x b IH]; simpl le_dec; [simpl; lia|].
  pose proof (b2z_range x). change (length (x :: b)) with (S (length b)).
  rewrite Nat2Z.inj_succ, Z.pow_succ_r by lia. lia.
Qed.

(** ** Results

    A Go function may return a value, return an error, or panic (an index
    or slice out of range). *)

Inductive outcome (E A : Type) : Type :=
| Ret (a : A)
| Err (e : E)
| Panic.
Arguments Ret {E A} a.
Arguments Err {E A} e.
Arguments Panic {E A}.

#[global] Instance outcome_ret E : MRet (outcome E) := fun A a => Ret a.
#[global] Instance outcome_bind E : MBind (outcome E) := fun A B f m =>
  match m with Ret a => f a | Err e => Err e | Panic => Panic end.

(** ** Byte buffers and slices

    A Go slice is a window of a backing array.  Code that writes through
    slices of one array is a computation in the state of that array; an
    access out of range panics. *)

Record slice := Slice { s_off : Z; s_len : Z; s_cap : Z }.

Definition bufM (E A : Type) : Type := bytes -> outcome E (bytes * A).

#[global] Instance bufM_ret E : MRet (bufM E) := fun A a b => Ret (b, a).
#[global] Instance bufM_bind E : MBind (bufM E) := fun A B f m b =>
  match m b with
  | Ret (b', a) => f a b'
  | Err e => Err e
  | Panic => Panic
  end.

(** The whole array as a slice. *)
Definition whole (n : Z) : slice := Slice 0 n n.

(** [s[lo:]] *)
Definition slice_from {E} (s : slice) (lo : Z) : bufM E slice := fun b =>
  if (0 <=? lo) && (lo <=? s_len s)
  then Ret (b, Slice (s_off s + lo) (s_len s - lo) (s_cap s - lo)) else Panic.

(** [s[lo:hi]]; the upper bound is checked against the capacity. *)
Definition slice_range {E} (s : slice) (lo hi : Z) : bufM E slice := fun b =>
  if (0 <=? lo) && (lo <=? hi) && (hi <=? s_cap s)
  then Ret (b, Slice (s_off s + lo) (hi - lo) (s_cap s - lo)) else Panic.

(** [s[i]] and [s[i] = v] *)
Definition get {E} (s : slice) (i : Z) : bufM E Z := fun b =>
  if (0 <=? i) && (i <? s_len s)
  then Ret (b, le_dec (sub (s_off s + i) 1 b)) else Panic.

Definition set {E} (s : slice) (i v : Z) : bufM E unit := fun b =>
  if (0 <=? i) && (i <? s_len s)
  then Ret (splice (s_off s + i) [z2b v] b, tt) else Panic.

(** [copy(dst, src)]: copies as many bytes as fit and returns their number. *)
Definition copy {E} (dst : slice) (src : bytes) : bufM E Z := fun b =>
  let n := Z.min (s_len dst) (zlen src) in
  Ret (splice (s_off dst) (sub 0 n src) b, n).

(** [binary.LittleEndian.PutUint16(s, v)] and its siblings: all the bytes
    must lie in [s]. *)
Definition put_bytes {E} (s : slice) (d : bytes) : bufM E unit := fun b =>
  if zlen d <=? s_len s then Ret (splice (s_off s) d b, tt) else Panic.

Definition PutUint16LE {E} (s : slice) (v : Z) : bufM E unit := put_bytes s (le16 v).
Definition PutUint16BE {E} (s : slice) (v : Z) : bufM E unit := put_bytes s (be16 v).
Definition PutUint32LE {E} (s : slice) (v : Z) : bufM E unit := put_bytes s (le32 v).
Definition PutUint32BE {E} (s : slice) (v : Z) : bufM E unit := put_bytes s (be32 v).

(** [binary.LittleEndian.Uint16(s)] *)
Definition Uint16LE {E} (s : slice) : bufM E Z := fun b =>
  if 2 <=? s_len s then Ret (b, le_dec (sub (s_off s) 2 b)) else Panic.

Definition fail {E A} (e : E) : bufM E A := fun _ => Err e.

(** Run a computation on a fresh zeroed array and return the array. *)
Definition run_make {E} (n : Z) (m : slice -> bufM E unit) : outcome E bytes :=
  match m (whole n) (make n) with
  | Ret (b, _) => Ret b
  | Err e => Err e
  | Panic => Panic
  end.

(** ** Sequences of writes

    What the buffer computations of the image builders amount to: a list of
    writes at absolute offsets, the later ones last. *)

Definition write : Type := Z * bytes.

Definition apply_writes (ws : list write) (b : bytes) : bytes :=
  foldl (fun b w => splice w.1 w.2 b) b ws.

Definition write_ok (n : Z) (w : write) : Prop := 0 <= w.1 /\ w.1 + zlen w.2 <= n.

Definition disjoint_from (o n : Z) (w : write) : Prop :=
  o + n <= w.1 \/ w.1 + zlen w.2 <= o.

(** [executes n m ws a]: on every array of length [n], [m] neither fails nor
    panics, performs the writes [ws], all of them in range, and returns
    [a]. *)
Definition executes {E A} (n : Z) (m : bufM E A) (ws : list write) (a : A) : Prop :=
  Forall (write_ok n) ws /\
  forall b, zlen b = n -> m b = Ret (apply_writes ws b, a).

Section writes.
Implicit Types (ws : list write) (b : bytes) (w : write).

Lemma apply_writes_app ws1 ws2 b :
  apply_writes (ws1 ++ ws2) b = apply_writes ws2 (apply_writes ws1 b).
Proof. apply foldl_app. Qed.

Lemma zlen_apply_writes ws b :
  Forall (write_ok (zlen b)) ws -> zlen (apply_writes ws b) = zlen b.
Proof.
  revert b. induction ws as [|[o d] ws IH]; intros b Hok; [done|].
  inversion_clear Hok as [|?? [H1 H2] Hws]. simpl in *.
  rewrite IH by (rewrite zlen_splice by lia; done). by apply zlen_splice.
Qed.

(** A window that no write touches keeps its contents. *)
Lemma sub_writes_ne o n ws b :
  0 <= o -> 0 <= n -> Forall (write_ok (zlen b)) ws -> Forall (disjoint_from o n) ws ->
  sub o n (apply_writes ws b) = sub o n b.
Proof.
  revert b. induction ws as [|[o' d] ws IH]; intros b Ho Hn Hok Hd; [done|].
  inversion_clear Hok as [|?? [H1 H2] Hws].
  inversion_clear Hd as [|?? Hd1 Hd2]. unfold disjoint_from in Hd1. simpl in *.
  rewrite IH by (done || (rewrite zlen_splice by lia; done)).
  by apply sub_splice_ne.
Qed.

(** A window inside the [i]-th write, untouched by the later ones, holds
    what that write put there. *)
Lemma sub_writes_in i o' d o n ws b :
  ws !! i = Some (o', d) -> Forall (write_ok (zlen b)) ws ->
  Forall (disjoint_from o n) (drop (S i) ws) ->
  o' <= o -> 0 <= n -> o + n <= o' + zlen d ->
  sub o n (apply_writes ws b) = sub (o - o') n d.
Proof.
  intros Hi Hok Hd H1 H2 H3. pose proof Hok as Hok'.
  rewrite <- (take_drop_middle _ _ _ Hi) in Hok |- *.
  apply Forall_app in Hok as [Ha Hb].
  inversion_clear Hb as [|?? [Hw1 Hw2] Hc]. simpl in Hw1, Hw2.
  rewrite apply_writes_app. cbn [apply_writes foldl fst snd].
  fold (apply_writes (drop (S i) ws)).
  change (sub o n (apply_writes (drop (S i) ws)
    (splice o' d (apply_writes (take i ws) b))) = sub (o - o') n d).
  rewrite sub_writes_ne; try done; try lia.
  - apply sub_splice_in; try lia. rewrite zlen_apply_writes by done. lia.
  - by rewrite zlen_splice; rewrite ?zlen_apply_writes.
Qed.

Lemma executes_ret {E A} n (a : A) : executes n (mret a : bufM E A) [] a.
Proof. split; [constructor | done]. Qed.

Lemma executes_bind {E A B} n (m : bufM E A) (f : A -> bufM E B) ws a ws' c :
  executes n m ws a -> executes n (f a) ws' c ->
  executes n (m ≫= f) (ws ++ ws') c.
Proof.
  intros [H1 H2] [H3 H4]. split; [by apply Forall_app|]. intros b Hb.
  rewrite apply_writes_app. unfold mbind, bufM_bind. rewrite H2 by done.
  apply H4. rewrite zlen_apply_writes; [done | by rewrite Hb].
Qed.

Lemma executes_slice_from {E} n (s : slice) lo :
  0 <= lo <= s_len s ->
  executes n (slice_from s lo : bufM E slice) []
    (Slice (s_off s + lo) (s_len s - lo) (s_cap s - lo)).
Proof.
  intros H. split; [constructor|]. intros b _. unfold slice_from.
  by rewrite (proj2 (Z.leb_le 0 lo)), (proj2 (Z.leb_le lo (s_len s))) by lia.
Qed.

Lemma executes_slice_range {E} n (s : slice) lo hi :
  0 <= lo <= hi -> hi <= s_cap s ->
  executes n (slice_range s lo hi : bufM E slice) []
    (Slice (s_off s + lo) (hi - lo) (s_cap s - lo)).
Proof.
  intros H1 H2. split; [constructor|]. intros b _. unfold slice_range.
  by rewrite (proj2 (Z.leb_le 0 lo)), (proj2 (Z.leb_le lo hi)),
    (proj2 (Z.leb_le hi (s_cap s))) by lia.
Qed.

Lemma executes_set {E} n (s : slice) i v :
  0 <= s_off s -> s_off s + s_len s <= n -> 0 <= i < s_len s ->
  executes n (set s i v : bufM E unit) [(s_off s + i, [z2b v])] tt.
Proof.
  intros H1 H2 H3. split; [repeat constructor; simpl; lia|].
  intros b _. unfold set.
  by rewrite (proj2 (Z.leb_le 0 i)), (proj2 (Z.ltb_lt i (s_len s))) by lia.
Qed.

Lemma executes_put_bytes {E} n (s : slice) d :
  0 <= s_off s -> s_off s + s_len s <= n -> zlen d <= s_len s ->
  executes n (put_bytes s d : bufM E unit) [(s_off s, d)] tt.
Proof.
  intros H1 H2 H3. split; [repeat constructor; simpl; lia|].
  intros b _. unfold put_bytes. by rewrite (proj2 (Z.leb_le _ (s_len s))) by lia.
Qed.

Lemma executes_copy {E} n (s : slice) d :
  0 <= s_off s -> s_off s + s_len s <= n -> zlen d <= s_len s ->
  executes n (copy s d : bufM E Z) [(s_off s, d)] (zlen d).
Proof.
  intros H1 H2 H3. split; [repeat constructor; simpl; lia|].
  intros b _. unfold copy. rewrite Z.min_r by lia. by rewrite sub_all.
Qed.

Lemma run_make_executes {E} n (m : slice -> bufM E unit) ws :
  0 <= n -> executes n (m (whole n)) ws tt ->
  run_make n m = Ret (apply_writes ws (make n)).
Proof.
  intros Hn [_ H]. unfold run_make. rewrite H by by apply zlen_make. done.
Qed.
End writes.

(** Symbolic execution of a buffer computation: the list of writes is built
    up by unification, the range conditions are left to [lia]. *)
Ltac buf_lia :=
  cbn [s_off s_len s_cap whole length app list_ascii_of_string] in *;
  autorewrite with len in *; lia.

Ltac buf_step :=
  lazymatch goal with
  | |- executes _ (mret _) _ _ => apply executes_ret
  | |- executes _ (mbind _ _) _ _ => eapply executes_bind; [buf_step | cbn beta]
  | |- executes _ (slice_from _ _) _ _ => apply executes_slice_from; buf_lia
  | |- executes _ (slice_range _ _ _) _ _ => apply executes_slice_range; buf_lia
  | |- executes _ (set _ _ _) _ _ => apply executes_set; buf_lia
  | |- executes _ (put_bytes _ _) _ _ => apply executes_put_bytes; buf_lia
  | |- executes _ (PutUint16LE _ _) _ _ => apply executes_put_bytes; buf_lia
  | |- executes _ (PutUint16BE _ _) _ _ => apply executes_put_bytes; buf_lia
  | |- executes _ (PutUint32LE _ _) _ _ => apply executes_put_bytes; buf_lia
  | |- executes _ (PutUint32BE _ _) _ _ => apply executes_put_bytes; buf_lia
  | |- executes _ (copy _ _) _ _ => apply executes_copy; buf_lia
  end.

Ltac buf_exec := repeat buf_step.

Lemma length_le16 v : length (le16 v) = 2%nat.
Proof. done. Qed.
Lemma length_be16 v : length (be16 v) = 2%nat.
Proof. done. Qed.
Lemma length_le32 v : length (le32 v) = 4%nat.
Proof. done. Qed.
Lemma length_be32 v : length (be32 v) = 4%nat.
Proof. done. Qed.

#[export] Hint Rewrite @length_app @length_take @length_drop @length_replicate
  length_le16 length_be16 length_le32 length_be32 @length_reverse @length_fmap : len.

(** ** Blocks of writes

    An image is written block by block; the contents of a block depend only
    on the writes of that block. *)

Definition shift (o : Z) (ws : list write) : list write :=
  (fun w => (o + w.1, w.2)) <$> ws.

Section blocks.
Implicit Types (ws : list write) (b d : bytes).

Lemma shift_ok o n m ws :
  0 <= o -> o + m <= n -> Forall (write_ok m) ws -> Forall (write_ok n) (shift o ws).
Proof.
  intros Ho Hn H. unfold shift. rewrite Forall_fmap. eapply Forall_impl; [exact H|].
  intros [w d] [H1 H2]. unfold write_ok in *. cbn in *. lia.
Qed.

Lemma shift_disjoint o n o' m ws :
  Forall (write_ok m) ws -> o + n <= o' \/ o' + m <= o ->
  Forall (disjoint_from o n) (shift o' ws).
Proof.
  intros H Hd. unfold shift. rewrite Forall_fmap. eapply Forall_impl; [exact H|].
  intros [w d] [H1 H2]. unfold disjoint_from. cbn in *. lia.
Qed.

Lemma sub_splice_inside {A} o n o' (d b : list A) :
  0 <= o -> 0 <= o' -> o' + zlen d <= n -> o + n <= zlen b ->
  sub o n (splice (o + o') d b) = splice o' d (sub o n b).
Proof.
  intros Ho Ho' Hd Hn.
  replace n with (o' + (zlen d + (n - o' - zlen d))) by lia.
  rewrite !sub_cat by lia.
  rewrite sub_splice_ne, sub_splice_eq, sub_splice_ne by lia.
  assert (Hl : zlen (sub o o' b) = o') by (apply zlen_sub; lia).
  assert (Hl2 : zlen (sub (o + o') (zlen d) b) = zlen d) by (apply zlen_sub; lia).
  unfold splice at 1.
  rewrite take_app_length' by lia. f_equal. f_equal.
  rewrite app_assoc, drop_app_length'; [done|]. rewrite length_app. lia.
Qed.

(** The contents of a block after its own writes. *)
Lemma sub_shift o n ws b :
  0 <= o -> o + n <= zlen b -> Forall (write_ok n) ws ->
  sub o n (apply_writes (shift o ws) b) = apply_writes ws (sub o n b).
Proof.
  intros Ho Hn. revert b Hn. induction ws as [|[w d] ws IH]; intros b Hn Hok; [done|].
  inversion_clear Hok as [|?? [H1 H2] Hws]. cbn [fst snd] in *.
  change (apply_writes (shift o ((w, d) :: ws)) b)
    with (apply_writes (shift o ws) (splice (o + w) d b)).
  rewrite IH; [|rewrite zlen_splice; lia|done].
  rewrite sub_splice_inside by lia. done.
Qed.
End blocks.

(** Reading back one block of an image that started out zeroed. *)
Lemma block_read N o n ws1 ws ws2 :
  0 <= o -> 0 <= n -> o + n <= N ->
  Forall (write_ok N) (ws1 ++ shift o ws ++ ws2) -> Forall (write_ok n) ws ->
  Forall (disjoint_from o n) ws1 -> Forall (disjoint_from o n) ws2 ->
  sub o n (apply_writes (ws1 ++ shift o ws ++ ws2) (make N)) = apply_writes ws (make n).
Proof.
  intros Ho Hn HN Hok Hws H1 H2. rewrite !apply_writes_app.
  apply Forall_app in Hok as [Hok1 [Hok Hok2]%Forall_app].
  assert (Hm : zlen (make N) = N) by (apply zlen_make; lia).
  assert (Hl1 : zlen (apply_writes ws1 (make N)) = N)
    by (rewrite zlen_apply_writes; rewrite Hm; done).
  assert (Hl2 : zlen (apply_writes (shift o ws) (apply_writes ws1 (make N))) = N)
    by (rewrite zlen_apply_writes; rewrite Hl1; done).
  rewrite sub_writes_ne by (rewrite ?Hl2; done).
  rewrite sub_shift by (rewrite ?Hl1; done).
  rewrite sub_writes_ne by (rewrite ?Hm; done).
  by rewrite sub_make by lia.
Qed.

Lemma shift_app o ws1 ws2 : shift o (ws1 ++ ws2) = shift o ws1 ++ shift o ws2.
Proof. apply fmap_app. Qed.

(** ** Chunks of equal length *)

Lemma zlen_concat {A} (k : Z) (l : list (list A)) :
  Forall (fun x => zlen x = k) l -> zlen (concat l) = k * zlen l.
Proof.
  induction 1 as [|x l Hx Hl IH]; [cbn; lia|]. cbn [concat length].
  rewrite length_app. lia.
Qed.

Lemma sub_concat {A} (k : Z) (l : list (list A)) (i : nat) x :
  0 <= k -> Forall (fun x => zlen x = k) l -> l !! i = Some x ->
  sub (k * Z.of_nat i) k (concat l) = x.
Proof.
  intros Hk Hl. revert i. induction Hl as [|y l Hy Hl IH]; intros i Hi; [done|].
  destruct i as [|i]; cbn in Hi |- *.
  - injection Hi as ->. rewrite sub_app_l by lia. apply sub_all_at; lia.
  - rewrite sub_app_r by lia. rewrite Hy.
    replace (k * Z.of_nat (S i) - k) with (k * Z.of_nat i) by lia. by apply IH.
Qed.

(** ** Maps *)

(** Counting the entries of a map through the list it is visited as. *)
Lemma count_filter {A} (P : bytes * A -> Prop) `{forall x, Decision (P x)} (m : gmap bytes A) :
  length (filter P (map_to_list m)) = size (filter P m).
Proof.
  rewrite map_filter_alt, <- length_map_to_list.
  rewrite map_to_list_to_map; [done|].
  eapply sublist_NoDup; [apply (NoDup_fst_map_to_list m)|].
  apply fmap_sublist, sublist_filter.
Qed.

Lemma length_filter_split {A} (P Q : A -> Prop) `{forall x, Decision (P x)}
    `{forall x, Decision (Q x)} (l : list A) :
  (forall x, x ∈ l -> P x <-> ~ Q x) -> (length (filter P l) + length (filter Q l) = length l)%nat.
Proof.
  induction l as [|x l IH]; intros HPQ; [done|]. rewrite !filter_cons.
  specialize (IH (fun y Hy => HPQ y (list_elem_of_further _ _ _ Hy))).
  pose proof (HPQ x (list_elem_of_here _ _)).
  destruct (decide (P x)), (decide (Q x)); cbn [length]; try lia; tauto.
Qed.
