(* ===== verification/GoStrings.v ===== *)
(** * The parts of Go's [strings], [bytes], [unicode/utf8] and [fmt] the
    proxy uses

    Strings are byte sequences.  The ASCII behaviour is written out; the two
    functions that consult the Unicode tables ([strings.ToLower] and
    [strings.TrimSpace] on strings that are not ASCII) go through the
    interface [Unicode], whose laws are what the documentation of these
    functions promises. *)

From S2P Require Import Prelude.

(** ** Byte classes *)

Definition is_ascii (c : ascii) : bool := b2z c <? 128.
Definition all_ascii (s : bytes) : bool := forallb is_ascii s.

(** The ASCII white space of [unicode.IsSpace]: tab, newline, vertical tab,
    form feed, carriage return and space. *)
Definition is_space (c : ascii) : bool :=
  let z := b2z c in (z =? 32) || ((9 <=? z) && (z <=? 13)).

Definition is_upper (c : ascii) : bool :=
  let z := b2z c in (65 <=? z) && (z <=? 90).

Definition lower_char (c : ascii) : ascii :=
  if is_upper c then z2b (b2z c + 32) else c.

(** The newline byte. *)
Definition nl : ascii := z2b 10.

(** ** Unicode interface *)

Class Unicode := {
  (** [strings.Map(unicode.ToLower, s)] *)
  uni_lower : bytes -> bytes;
  (** [strings.TrimFunc(s, unicode.IsSpace)] *)
  uni_trim : bytes -> bytes;
  (** [strings.TrimRightFunc(s, unicode.IsSpace)] *)
  uni_trim_right : bytes -> bytes;
  (** [unicode.IsLetter(r) || unicode.IsDigit(r)] above ASCII *)
  uni_letter : Z -> bool;
}.

(** ** Scanning *)

Fixpoint drop_while (p : ascii -> bool) (s : bytes) : bytes :=
  match s with
  | [] => []
  | c :: s' => if p c then drop_while p s' else s
  end.

Fixpoint take_while (p : ascii -> bool) (s : bytes) : bytes :=
  match s with
  | [] => []
  | c :: s' => if p c then c :: take_while p s' else []
  end.

Definition drop_while_end (p : ascii -> bool) (s : bytes) : bytes :=
  reverse (drop_while p (reverse s)).

Definition ascii_eqb (a b : ascii) : bool := bool_decide (a = b).

Fixpoint HasPrefix (s p : bytes) : bool :=
  match p, s with
  | [], _ => true
  | _ :: _, [] => false
  | x :: p', y :: s' => ascii_eqb x y && HasPrefix s' p'
  end.

Definition HasSuffix (s p : bytes) : bool := HasPrefix (reverse s) (reverse p).

(** [strings.Index] and [strings.LastIndex]: the position of the first or
    last occurrence, [-1] when there is none. *)
Fixpoint Index (s p : bytes) : Z :=
  if HasPrefix s p then 0
  else match s with
       | [] => -1
       | _ :: s' => let i := Index s' p in if i <? 0 then -1 else i + 1
       end.

Fixpoint LastIndex (s p : bytes) : Z :=
  match s with
  | [] => if HasPrefix [] p then 0 else -1
  | _ :: s' =>
      let i := LastIndex s' p in
      if 0 <=? i then i + 1 else if HasPrefix s p then 0 else -1
  end.

Definition Contains (s p : bytes) : bool := 0 <=? Index s p.

(** [strings.Count(s, c)] for a one-byte substring. *)
Definition CountByte (s : bytes) (c : ascii) : Z :=
  zlen (filter (fun x => x = c) s).

(** [strings.TrimRight] with a set of ASCII bytes. *)
Definition TrimRight (s cut : bytes) : bytes :=
  drop_while_end (fun c => bool_decide (c ∈ cut)) s.

(** [strings.ReplaceAll(s, old, new)] for a non-empty [old]; [skip] counts
    the bytes of a matched [old] that remain to be dropped. *)
Fixpoint replace_from (old new s : bytes) (skip : nat) : bytes :=
  match s, skip with
  | [], _ => []
  | _ :: s', S k => replace_from old new s' k
  | c :: s', O =>
      if HasPrefix s old then new ++ replace_from old new s' (length old - 1)
      else c :: replace_from old new s' 0
  end.

Definition ReplaceAll (s old new : bytes) : bytes := replace_from old new s 0.

(** [strings.Join] *)
Fixpoint Join (l : list bytes) (sep : bytes) : bytes :=
  match l with
  | [] => []
  | [x] => x
  | x :: l' => x ++ sep ++ Join l' sep
  end.

(** The pieces between the occurrences of a byte; [w] is the piece under
    way. *)
Fixpoint split_byte (sep : ascii) (w s : bytes) : list bytes :=
  match s with
  | [] => [w]
  | c :: s' => if ascii_eqb c sep then w :: split_byte sep [] s' else split_byte sep (w ++ [c]) s'
  end.

(** ** Slash-separated paths ([path.Clean] and [path.Join]) *)

Module Path.

(** The elements of a path are processed from the left; [out] is the result
    so far, last element first. *)
Fixpoint clean_loop (rooted : bool) (out elems : list bytes) : list bytes :=
  match elems with
  | [] => reverse out
  | e :: elems' =>
      if bool_decide (e = []) || bool_decide (e = "."%string) then clean_loop rooted out elems'
      else if bool_decide (e = ".."%string) then
        match out with
        | top :: out' =>
            if bool_decide (top = ".."%string) then clean_loop rooted (e :: out) elems'
            else clean_loop rooted out' elems'
        | [] => clean_loop rooted (if rooted then [] else [e]) elems'
        end
      else clean_loop rooted (e :: out) elems'
  end.

Definition Clean (p : bytes) : bytes :=
  let rooted := HasPrefix p "/"%string in
  let out := (if rooted then "/"%string else []) ++
    Join (clean_loop rooted [] (split_byte "/" [] p)) "/"%string in
  if bool_decide (out = []) then "."%string else out.

(** [path.Join] of two elements. *)
Definition Join2 (a b : bytes) : bytes :=
  match a, b with
  | [], [] => []
  | [], _ => Clean b
  | _, _ => Clean (a ++ "/"%string ++ b)
  end.

(** A proper element names something: it is not empty, holds no slash and is
    neither the directory itself nor its parent. *)
Definition proper (e : bytes) : bool :=
  negb (bool_decide (e = [])) && negb (bool_decide (e = "."%string)) &&
  negb (bool_decide (e = ".."%string)) && negb (bool_decide ("/"%char ∈ e)).

End Path.

(** ** Case and space *)

Section unicode.
Context `{U : Unicode}.

Definition ToLower (s : bytes) : bytes :=
  if all_ascii s then lower_char <$> s else uni_lower s.

(** The end of the string, once the front is trimmed; [r] is the reversed
    string. *)
Fixpoint trim_stop (r : bytes) : bytes :=
  match r with
  | [] => []
  | c :: r' =>
      if negb (is_ascii c) then uni_trim_right (reverse r)
      else if is_space c then trim_stop r' else reverse r
  end.

Fixpoint TrimSpace (s : bytes) : bytes :=
  match s with
  | [] => []
  | c :: s' =>
      if negb (is_ascii c) then uni_trim s
      else if is_space c then TrimSpace s' else trim_stop (reverse s)
  end.

(** [strings.EqualFold] against the two header names of the proxy,
    [Accept-Encoding] and [Content-Length].  The only code points above
    ASCII that fold to ASCII letters fold to [s] and [k], which neither
    name contains. *)
Definition EqualFold (s t : bytes) : bool :=
  bool_decide (lower_char <$> s = lower_char <$> t).
End unicode.

(** What the documentation of the Unicode versions promises: lower-casing and
    trimming give strings they leave alone, and lower-casing a string that is
    trimmed leaves it trimmed (no space has a case). *)
Class UnicodeLaws (U : Unicode) : Prop := {
  uni_lower_fix s :
    all_ascii s = false -> ToLower (uni_lower s) = uni_lower s;
  uni_trim_fix s : TrimSpace (uni_trim s) = uni_trim s;
  uni_trim_right_fix c s :
    is_ascii c = true -> is_space c = false ->
    TrimSpace (uni_trim_right (c :: s)) = uni_trim_right (c :: s);
  uni_lower_trim s :
    all_ascii s = false -> TrimSpace s = s -> TrimSpace (uni_lower s) = uni_lower s;
  (** Only U+0130 and U+212A have an ASCII lower case, [i] and [k]. *)
  uni_lower_mark s :
    all_ascii s = false ->
    Exists (fun c => is_ascii c = false \/ c = "i"%char \/ c = "k"%char) (uni_lower s);
}.

(** ** Numbers in text *)

Definition hex_digit (upper : bool) (d : Z) : ascii :=
  if d <? 10 then z2b (48 + d) else z2b ((if upper then 55 else 87) + d).

(** The digits of [n] in base [base], without leading zeros; [fuel] bounds
    their number. *)
Fixpoint digits (fuel : nat) (base : Z) (upper : bool) (n : Z) : bytes :=
  match fuel with
  | O => []
  | S f =>
      if n <? base then [hex_digit upper n]
      else digits f base upper (n / base) ++ [hex_digit upper (n mod base)]
  end.

Definition pad_left (w : Z) (c : ascii) (s : bytes) : bytes :=
  replicate (Z.to_nat (w - zlen s)) c ++ s.

(** [fmt] verbs for unsigned integers: [%d], [%0wx] and [%0wX]; 64 digits
    cover every 64-bit value in these bases. *)
Definition fmt_d (n : Z) : bytes := digits 64 10 false n.
Definition fmt_x (w n : Z) : bytes := pad_left w (z2b 48) (digits 64 16 false n).
Definition fmt_X (w n : Z) : bytes := pad_left w (z2b 48) (digits 64 16 true n).

(** ** UTF-8 and UTF-16 *)

Definition cont_byte (c : ascii) : bool := (128 <=? b2z c) && (b2z c <? 192).

(** [utf8.DecodeRune] on a non-empty string: the code point and its width;
    an invalid encoding yields U+FFFD of width one. *)
Definition decode_rune (s : bytes) : Z * nat :=
  let bad := (65533, 1%nat) in
  match s with
  | [] => (65533, 0%nat)
  | a :: s1 =>
      let x := b2z a in
      if x <? 128 then (x, 1%nat)
      else if (x <? 194) || (244 <? x) then bad
      else match s1 with
      | [] => bad
      | b :: s2 =>
          if negb (cont_byte b) then bad
          else
          let y := b2z b in
          if x <? 224 then ((x - 192) * 64 + (y - 128), 2%nat)
          else match s2 with
          | [] => bad
          | c :: s3 =>
              if negb (cont_byte c) then bad
              else
              let z := b2z c in
              if x <? 240 then
                let r := (x - 224) * 4096 + (y - 128) * 64 + (z - 128) in
                if (r <? 2048) || ((55296 <=? r) && (r <=? 57343)) then bad else (r, 3%nat)
              else match s3 with
              | [] => bad
              | d :: _ =>
                  if negb (cont_byte d) then bad
                  else
                  let r := (x - 240) * 262144 + (y - 128) * 4096
                           + (z - 128) * 64 + (b2z d - 128) in
                  if (r <? 65536) || (1114111 <? r) then bad else (r, 4%nat)
              end
          end
      end
  end.

(** [[]rune(s)]; every step consumes at least one byte. *)
Fixpoint runes_fuel (fuel : nat) (s : bytes) : list Z :=
  match fuel, s with
  | O, _ | _, [] => []
  | S f, _ => let '(r, n) := decode_rune s in r :: runes_fuel f (drop n s)
  end.

Definition runes (s : bytes) : list Z := runes_fuel (length s) s.

(** [utf16.Encode] *)
Definition utf16_encode (rs : list Z) : list Z :=
  flat_map (fun r =>
    if (r <? 55296) || ((57344 <=? r) && (r <? 65536)) then [r]
    else if (65536 <=? r) && (r <=? 1114111)
    then [55296 + (r - 65536) / 1024; 56320 + (r - 65536) mod 1024]
    else [65533]) rs.

(** ** Hexadecimal round trip *)

Definition hex_val (c : ascii) : option Z :=
  let z := b2z c in
  if (48 <=? z) && (z <=? 57) then Some (z - 48)
  else if (65 <=? z) && (z <=? 70) then Some (z - 55)
  else if (97 <=? z) && (z <=? 102) then Some (z - 87)
  else None.

(** The number a string of hexadecimal digits denotes. *)
Fixpoint parse_hex (acc : Z) (s : bytes) : option Z :=
  match s with
  | [] => Some acc
  | c :: s' => match hex_val c with Some d => parse_hex (16 * acc + d) s' | None => None end
  end.

Lemma hex_val_digit up d : 0 <= d < 16 -> hex_val (hex_digit up d) = Some d.
Proof.
  intros Hd. unfold hex_val, hex_digit.
  assert (E : forall z, 0 <= z < 256 -> b2z (z2b z) = z)
    by (intros; rewrite b2z_z2b; apply Z.mod_small; lia).
  destruct (Z.ltb_spec d 10), up; rewrite E by lia; repeat zcase; cbn; f_equal; lia.
Qed.

Lemma parse_hex_app acc s t :
  parse_hex acc (s ++ t) =
  match parse_hex acc s with Some a => parse_hex a t | None => None end.
Proof.
  revert acc. induction s as [|c s IH]; intros acc; [done|]. cbn.
  destruct (hex_val c); [apply IH | done].
Qed.

Lemma parse_hex_digits up f n acc :
  0 <= n < 16 ^ Z.of_nat f -> (0 < f)%nat ->
  exists k, zlen (digits f 16 up n) = k /\ 1 <= k <= Z.of_nat f /\
    parse_hex acc (digits f 16 up n) = Some (acc * 16 ^ k + n).
Proof.
  revert n acc. induction f as [|f IH]; intros n acc Hn Hf; [lia|].
  cbn [digits]. destruct (Z.ltb_spec n 16) as [Hlt|Hge].
  { exists 1. split; [done|]. split; [lia|]. cbn. rewrite hex_val_digit by lia.
    f_equal. lia. }
  destruct (decide (f = 0%nat)) as [->|Hf0]; [cbn in Hn; lia|].
  destruct (IH (n / 16) acc) as (k & Hk & Hk1 & Hp); [|lia|].
  { rewrite Nat2Z.inj_succ, Z.pow_succ_r in Hn by lia. zify_div; lia. }
  exists (k + 1). rewrite length_app. cbn [length]. split; [lia|]. split; [lia|].
  rewrite parse_hex_app, Hp. cbn. rewrite hex_val_digit by (zify_div; lia).
  f_equal. rewrite Z.pow_add_r by lia. zify_div; lia.
Qed.

Lemma parse_hex_zeros k s : parse_hex 0 (replicate k (z2b 48) ++ s) = parse_hex 0 s.
Proof. induction k as [|k IH]; [done|]. cbn [replicate app parse_hex]. exact IH. Qed.

Lemma digits_fuel f g base up n :
  2 <= base -> 0 <= n < base ^ Z.of_nat f -> (0 < f <= g)%nat ->
  digits g base up n = digits f base up n.
Proof.
  intros Hb. revert g n. induction f as [|f IH]; intros g n Hn Hg; [lia|].
  destruct g as [|g]; [lia|]. cbn [digits]. destruct (Z.ltb_spec n base); [done|].
  f_equal. apply IH; [|].
  - rewrite Nat2Z.inj_succ, Z.pow_succ_r in Hn by lia.
    split; [apply Z.div_pos; lia|]. apply Z.div_lt_upper_bound; lia.
  - destruct f; [|lia]. cbn in Hn. lia.
Qed.

(** Eight upper-case digits denote every 32-bit number. *)
Lemma parse_fmt_X n :
  0 <= n < 2 ^ 32 -> zlen (fmt_X 8 n) = 8 /\ parse_hex 0 (fmt_X 8 n) = Some n.
Proof.
  intros Hn. change (2 ^ 32) with (16 ^ Z.of_nat 8) in Hn. unfold fmt_X, pad_left.
  rewrite (digits_fuel 8 64) by lia.
  destruct (parse_hex_digits true 8 n 0 Hn ltac:(lia)) as (k & Hk & Hk1 & Hp).
  rewrite length_app, length_replicate, parse_hex_zeros, Hp. split; [lia|]. done.
Qed.

(** At least as many digits as asked for. *)
Lemma zlen_fmt_X w n : 0 <= w -> w <= zlen (fmt_X w n).
Proof. intros. unfold fmt_X, pad_left. rewrite length_app, length_replicate. lia. Qed.

(** ** Substrings *)

Lemma HasPrefix_spec s p : HasPrefix s p = true <-> exists t, s = p ++ t.
Proof.
  revert p. induction s as [|c s IH]; intros [|x p]; cbn.
  - split; [by exists []|done].
  - split; [done|]. by intros [t [=]].
  - split; [by exists (c :: s)|done].
  - unfold ascii_eqb. rewrite andb_true_iff, bool_decide_eq_true, IH. split.
    + intros [-> [t ->]]. by exists t.
    + intros [t [= -> ->]]. eauto.
Qed.

(** [LastIndex] finds the last occurrence, and misses none. *)
Lemma LastIndex_spec s p :
  p <> [] ->
  (LastIndex s p = -1 /\ forall a b, s <> a ++ p ++ b) \/
  (exists a b, s = a ++ p ++ b /\ LastIndex s p = zlen a /\
     forall a' b', s = a' ++ p ++ b' -> (length a' <= length a)%nat).
Proof.
  intros Hp. induction s as [|c s IH].
  { left. destruct p as [|x p]; [done|]. split; [done|]. by intros [|] b. }
  assert (Hskip : forall a b, c :: s = a ++ p ++ b -> a <> [] ->
    exists a', a = c :: a' /\ s = a' ++ p ++ b).
  { intros [|d a] b E Ha; [done|]. injection E as -> ->. by exists a. }
  cbn [LastIndex]. destruct IH as [[E Hno]|(a & b & -> & E & Hmax)].
  - rewrite E. cbn [Z.leb Z.compare]. destruct (HasPrefix (c :: s) p) eqn:Hpre.
    + right. apply HasPrefix_spec in Hpre as [t Ht]. exists [], t. split; [done|]. split; [done|].
      intros a' b' E'. destruct a' as [|d a']; [cbn; lia|].
      apply Hskip in E' as (a'' & _ & E'); [|done]. by apply Hno in E'.
    + left. split; [done|]. intros a b E'. destruct a as [|d a].
      * assert (HasPrefix (c :: s) p = true) by (apply HasPrefix_spec; by exists b). congruence.
      * apply Hskip in E' as (a'' & _ & E'); [|done]. by apply Hno in E'.
  - right. rewrite E. exists (c :: a), b. destruct (Z.leb_spec 0 (zlen a)); [|lia].
    split; [done|]. split; [cbn [length]; lia|]. intros a' b' E'.
    destruct a' as [|d a']; [cbn; lia|].
    apply Hskip in E' as (a'' & [= -> ->] & E'); [|done]. apply Hmax in E'. cbn. lia.
Qed.

(** ** Splitting and joining *)

Lemma ascii_eqb_refl a : ascii_eqb a a = true.
Proof. unfold ascii_eqb. by rewrite bool_decide_true. Qed.

Lemma ascii_eqb_neq a b : a <> b -> ascii_eqb a b = false.
Proof. intros. unfold ascii_eqb. by rewrite bool_decide_false. Qed.

Lemma split_byte_app c w p s : c ∉ p -> split_byte c w (p ++ s) = split_byte c (w ++ p) s.
Proof.
  revert w. induction p as [|x p IH]; intros w Hn; [by rewrite app_nil_r|].
  apply not_elem_of_cons in Hn as [Hc Hn]. cbn [app split_byte].
  rewrite ascii_eqb_neq by done. rewrite IH by done. by rewrite <- app_assoc.
Qed.

Lemma Join_cons x y l sep : Join (x :: y :: l) sep = x ++ sep ++ Join (y :: l) sep.
Proof. done. Qed.

Lemma Join_snoc l x sep : l <> [] -> Join (l ++ [x]) sep = Join l sep ++ sep ++ x.
Proof.
  intros Hl. induction l as [|y l IH]; [done|]. destruct l as [|z l]; [done|].
  cbn [app] in *. rewrite !Join_cons, IH by done. by rewrite <- !app_assoc.
Qed.

Lemma split_byte_Join c l :
  l <> [] -> Forall (fun p => c ∉ p) l -> split_byte c [] (Join l [c]) = l.
Proof.
  intros Hl Hf. induction Hf as [|p l Hp Hf IH]; [done|]. destruct l as [|q l].
  - cbn [Join]. by rewrite <- (app_nil_r p), split_byte_app, app_nil_r.
  - rewrite Join_cons, split_byte_app by done. cbn [split_byte app].
    by rewrite ascii_eqb_refl, IH.
Qed.

Module PathFacts.
Import Path.

(** A relative path in its shortest form, other than the dot. *)
Definition clean_path (p : bytes) : Prop :=
  exists els, els <> [] /\ Forall (fun e => proper e = true) els /\ p = Join els "/"%string.

Lemma proper_spec e : proper e = true ->
  e <> [] /\ e <> ("."%string : bytes) /\ e <> (".."%string : bytes) /\ "/"%char ∉ e.
Proof.
  unfold proper. intros H. apply andb_prop in H as [H H4]. apply andb_prop in H as [H H3].
  apply andb_prop in H as [H1 H2].
  apply negb_true_iff, bool_decide_eq_false in H1, H2, H3, H4. done.
Qed.

Lemma clean_loop_proper rooted out els :
  Forall (fun e => proper e = true) els -> clean_loop rooted out els = reverse out ++ els.
Proof.
  intros Hf. revert out. induction Hf as [|e els He _ IH]; intros out;
    [by rewrite app_nil_r|].
  apply proper_spec in He as (H1 & H2 & H3 & _). cbn [clean_loop].
  rewrite !bool_decide_false by done. cbn [orb]. rewrite IH, reverse_cons.
  by rewrite <- app_assoc.
Qed.

Lemma Clean_clean p : clean_path p -> Clean p = p.
Proof.
  intros (els & Hne & Hf & ->). unfold Clean.
  assert (Hs : Forall (fun e => "/"%char ∉ e) els).
  { eapply Forall_impl; [exact Hf|]. intros e He. apply (proper_spec e He). }
  change ("/"%string : bytes) with ["/"%char].
  rewrite split_byte_Join, clean_loop_proper by done. cbn [reverse app].
  destruct els as [|e els]; [done|]. apply Forall_cons in Hf as [He Hf].
  apply proper_spec in He as (He1 & _ & _ & He4). destruct e as [|c e]; [done|].
  assert (Hc : ascii_eqb "/" c = false).
  { apply ascii_eqb_neq. intros <-. apply He4. left. }
  assert (E : exists t, Join ((c :: e) :: els) ["/"%char] = c :: t).
  { destruct els as [|q els]; [by exists e|]. rewrite Join_cons. by eexists. }
  destruct E as [t E]. rewrite E. cbn [HasPrefix]. rewrite Hc. cbn [andb app].
  change (reverse [] ++ (c :: e) :: els) with ((c :: e) :: els).
  by rewrite E, bool_decide_false.
Qed.

(** Joining an element to such a path appends it behind a slash. *)
Lemma Join2_clean p n :
  clean_path p -> proper n = true ->
  Join2 p n = p ++ "/"%string ++ n /\ clean_path (p ++ "/"%string ++ n).
Proof.
  intros Hp Hn. assert (Hc : clean_path (p ++ "/"%string ++ n)).
  { destruct Hp as (els & Hne & Hf & ->). exists (els ++ [n]). split_and!.
    - by destruct els.
    - apply Forall_app. split; [done|]. by apply Forall_cons_2, Forall_nil_2.
    - by rewrite Join_snoc. }
  split; [|done]. unfold Join2. destruct p as [|c p].
  - destruct Hp as ([|e els] & Hne & Hf & E); [done|].
    apply Forall_cons in Hf as [He _]. apply proper_spec in He as (He & _).
    by destruct els, e.
  - by apply Clean_clean.
Qed.
End PathFacts.
