(* ===== verification/FatImage.v ===== *)
(** * The FAT12 EFI System Partition ([isoimage.go], second half)

    [Fat] translates the builder: directory entries, the long-file-name
    entry, the packed 12-bit allocation table and [buildESPImage]. *)

From S2P Require Import Prelude GoStrings.

(** The errors of [buildBootISO] and [buildESPImage]. *)
Inductive imgError :=
| EmptyEFI
| EmptyScript
| TooManyClusters (clusters : Z).

Module Fat.

Definition fatSectorSize : Z := 512.
Definition fatClusterSectors : Z := 4.
Definition fatClusterSize : Z := fatSectorSize * fatClusterSectors.
Definition fatRootEntries : Z := 512.
Definition fatRootSectors : Z := fatRootEntries * 32 / fatSectorSize.
Definition fatMaxClusters : Z := 4084.
Definition fatDate : Z := Z.lor (Z.lor (Z.shiftl (2000 - 1980) 9) (Z.shiftl 1 5)) 1.
Definition attrDir : Z := 16.
Definition attrLFN : Z := 15.
Definition autoexecName : bytes := "autoexec.ipxe".

Definition shortName (base ext : bytes) : outcome imgError bytes :=
  match
    (n8 ← slice_range (whole 11) 0 8;
     _ ← copy n8 base;
     ne ← slice_from (whole 11) 8;
     _ ← copy ne ext; mret tt) (replicate 11 (z2b 32))
  with Ret (b, _) => Ret b | Err e => Err e | Panic => Panic end.

Definition fatDirEntry (name : bytes) (attr first size : Z) : outcome imgError bytes :=
  run_make 32 (fun e =>
    _ ← copy e name;
    _ ← set e 11 attr;
    s16 ← slice_from e 16; _ ← PutUint16LE s16 fatDate;
    s18 ← slice_from e 18; _ ← PutUint16LE s18 fatDate;
    s24 ← slice_from e 24; _ ← PutUint16LE s24 fatDate;
    s26 ← slice_from e 26; _ ← PutUint16LE s26 first;
    s28 ← slice_from e 28; PutUint32LE s28 size).

(** [sum = (sum&1)<<7 + sum>>1 + c] over the bytes of the short name, in
    8-bit arithmetic. *)
Definition lfn_step (sum : Z) (c : ascii) : Z :=
  u8 (u8 (Z.shiftl (Z.land sum 1) 7) + Z.shiftr sum 1 + b2z c).

Definition lfn_sum (short : bytes) : Z := foldl lfn_step 0 short.

(** The thirteen UTF-16 units of the entry: the name, a terminating zero and
    padding. *)
Definition lfn_char (u : list Z) (i : nat) : Z :=
  if (i <? length u)%nat then u !!! i
  else if (i =? length u)%nat then 0 else 65535.

Definition lfn_chars (long : bytes) : list Z :=
  lfn_char (utf16_encode (runes long)) <$> seq 0 13.

Definition lfn_slots : list (Z * nat) := [(1, 5%nat); (14, 6%nat); (28, 2%nat)].

Fixpoint put_units (e : slice) (o : Z) (us : list Z) : bufM imgError unit :=
  match us with
  | [] => mret tt
  | u :: us' => s ← slice_from e o; _ ← PutUint16LE s u; put_units e (o + 2) us'
  end.

Fixpoint put_slots (e : slice) (slots : list (Z * nat)) (us : list Z) : bufM imgError unit :=
  match slots with
  | [] => mret tt
  | (o, n) :: slots' =>
      _ ← put_units e o (take n us); put_slots e slots' (drop n us)
  end.

Definition fatLFNEntry (long short : bytes) : outcome imgError bytes :=
  run_make 32 (fun e =>
    _ ← set e 0 65;
    _ ← set e 11 attrLFN;
    _ ← set e 13 (lfn_sum short);
    put_slots e lfn_slots (lfn_chars long)).

Definition setFAT12 (fat : slice) (i v : Z) : bufM imgError unit :=
  let off := i * 3 / 2 in
  if i mod 2 =? 0 then
    _ ← set fat off v;
    x ← get fat (off + 1);
    set fat (off + 1) (Z.lor (Z.land x 240) (Z.land (u8 (Z.shiftr v 8)) 15))
  else
    x ← get fat off;
    _ ← set fat off (Z.lor (Z.land x 15) (Z.shiftl (u8 (Z.land v 15)) 4));
    set fat (off + 1) (Z.shiftr v 4).

(** [for i := 0; i < n; i++ { ... }] of [chain], with [k = n - i] rounds
    left. *)
Fixpoint chain_loop (fat : slice) (first n i : Z) (k : nat) : bufM imgError unit :=
  match k with
  | O => mret tt
  | S k' =>
      let next := if i =? n - 1 then 4095 else u16 (first + i + 1) in
      _ ← setFAT12 fat (first + i) next;
      chain_loop fat first n (i + 1) k'
  end.

Definition chain (fat : slice) (first n : Z) : bufM imgError unit :=
  chain_loop fat first n 0 (Z.to_nat n).

Definition chainLen (n : Z) : Z :=
  let c := (n + fatClusterSize - 1) / fatClusterSize in
  if c =? 0 then 1 else c.

(** The cluster layout: 2 is [/EFI], 3 is [/EFI/BOOT], then the two files. *)
Definition efiDir : Z := 2.
Definition bootDir : Z := 3.
Definition efiFirst : Z := 4.

Record layout := Layout {
  efiCl : Z; scriptCl : Z; scriptFirst : Z; clusters : Z;
  fatSectors : Z; rootStart : Z; dataStart : Z; totalSectors : Z;
}.

Definition esp_layout (efiLen scriptLen : Z) : layout :=
  let efiCl := chainLen efiLen in
  let scriptCl := chainLen scriptLen in
  let scriptFirst := efiFirst + efiCl in
  let clusters := scriptFirst + scriptCl - 2 in
  let fatBytes := ((clusters + 2) * 3 + 1) / 2 in
  let fatSectors := (fatBytes + fatSectorSize - 1) / fatSectorSize in
  let rootStart := 1 + 2 * fatSectors in
  let dataStart := rootStart + fatRootSectors in
  let totalSectors := dataStart + clusters * fatClusterSectors in
  Layout efiCl scriptCl scriptFirst clusters fatSectors rootStart dataStart totalSectors.

Definition write_boot_sector (L : layout) (bs : slice) : bufM imgError unit :=
  _ ← copy bs [z2b 235; z2b 60; z2b 144];
  s3 ← slice_from bs 3; _ ← copy s3 "IPXEBOOT"%string;
  s11 ← slice_from bs 11; _ ← PutUint16LE s11 fatSectorSize;
  _ ← set bs 13 fatClusterSectors;
  s14 ← slice_from bs 14; _ ← PutUint16LE s14 1;
  _ ← set bs 16 2;
  s17 ← slice_from bs 17; _ ← PutUint16LE s17 fatRootEntries;
  s19 ← slice_from bs 19; _ ← PutUint16LE s19 (u16 (totalSectors L));
  _ ← set bs 21 248;
  s22 ← slice_from bs 22; _ ← PutUint16LE s22 (u16 (fatSectors L));
  s24 ← slice_from bs 24; _ ← PutUint16LE s24 32;
  s26 ← slice_from bs 26; _ ← PutUint16LE s26 64;
  _ ← set bs 36 128;
  _ ← set bs 38 41;
  s39 ← slice_from bs 39; _ ← PutUint32LE s39 439041101;
  s43 ← slice_from bs 43; _ ← copy s43 "IPXEBOOT   "%string;
  s54 ← slice_from bs 54; _ ← copy s54 "FAT12   "%string;
  _ ← set bs 510 85;
  set bs 511 170.

Definition build_fat (L : layout) : outcome imgError bytes :=
  run_make (fatSectors L * fatSectorSize) (fun fat =>
    _ ← setFAT12 fat 0 4088;
    _ ← setFAT12 fat 1 4095;
    _ ← setFAT12 fat efiDir 4095;
    _ ← setFAT12 fat bootDir 4095;
    _ ← chain fat efiFirst (efiCl L);
    chain fat (scriptFirst L) (scriptCl L)).

(** [put(dst, entries...)]: [dst = dst[copy(dst, e):]] for each entry. *)
Fixpoint put (dst : slice) (entries : list bytes) : bufM imgError unit :=
  match entries with
  | [] => mret tt
  | e :: es => n ← copy dst e; dst' ← slice_from dst n; put dst' es
  end.

(** [cluster(n)]: the image from the first byte of cluster [n] on. *)
Definition cluster (L : layout) (img : slice) (n : Z) : bufM imgError slice :=
  slice_from img ((dataStart L + (n - 2) * fatClusterSectors) * fatSectorSize).

(** The entries of the three directories. *)
Definition root_entries (L : layout) (script : bytes) : outcome imgError (list bytes) :=
  scriptShort ← shortName "AUTOEXEC"%string "IPX"%string;
  efiName ← shortName "EFI"%string ""%string;
  e1 ← fatLFNEntry autoexecName scriptShort;
  e2 ← fatDirEntry scriptShort 32 (u16 (scriptFirst L)) (u32 (zlen script));
  e3 ← fatDirEntry efiName attrDir efiDir 0;
  mret [e1; e2; e3].

Definition efi_entries : outcome imgError (list bytes) :=
  dot ← shortName "."%string ""%string;
  dotdot ← shortName ".."%string ""%string;
  bootName ← shortName "BOOT"%string ""%string;
  e1 ← fatDirEntry dot attrDir efiDir 0;
  e2 ← fatDirEntry dotdot attrDir 0 0;
  e3 ← fatDirEntry bootName attrDir bootDir 0;
  mret [e1; e2; e3].

Definition boot_entries (efi : bytes) : outcome imgError (list bytes) :=
  dot ← shortName "."%string ""%string;
  dotdot ← shortName ".."%string ""%string;
  efiName ← shortName "BOOTX64"%string "EFI"%string;
  e1 ← fatDirEntry dot attrDir bootDir 0;
  e2 ← fatDirEntry dotdot attrDir efiDir 0;
  e3 ← fatDirEntry efiName 32 (u16 efiFirst) (u32 (zlen efi));
  mret [e1; e2; e3].

(** A computation on other memory, inside a buffer computation. *)
Definition lift {A} (o : outcome imgError A) : bufM imgError A := fun b =>
  match o with Ret a => Ret (b, a) | Err e => Err e | Panic => Panic end.

Definition write_image (L : layout) (efi script : bytes) (img : slice) : bufM imgError unit :=
  bs ← slice_range img 0 fatSectorSize;
  _ ← write_boot_sector L bs;
  fat ← lift (build_fat L);
  s1 ← slice_from img fatSectorSize; _ ← copy s1 fat;
  s2 ← slice_from img ((1 + fatSectors L) * fatSectorSize); _ ← copy s2 fat;
  root ← lift (root_entries L script);
  sr ← slice_from img (rootStart L * fatSectorSize); _ ← put sr root;
  efis ← lift efi_entries;
  s3 ← cluster L img efiDir; _ ← put s3 efis;
  boots ← lift (boot_entries efi);
  s4 ← cluster L img bootDir; _ ← put s4 boots;
  s5 ← cluster L img efiFirst; _ ← copy s5 efi;
  s6 ← cluster L img (scriptFirst L); _ ← copy s6 script;
  mret tt.

Definition buildESPImage (efi script : bytes) : outcome imgError bytes :=
  if zlen script =? 0 then Err EmptyScript
  else
    let L := esp_layout (zlen efi) (zlen script) in
    if fatMaxClusters <? clusters L then Err (TooManyClusters (clusters L))
    else run_make (totalSectors L * fatSectorSize) (write_image L efi script).

End Fat.

Example esp_small :
  match Fat.buildESPImage "MZ-efi-binary"%string "#!ipxe"%string with
  | Ret b => zlen b | _ => -1 end = 26112.
Proof. vm_compute. reflexivity. Qed.

(** ** Directory entries in closed form *)

Module FatFacts.
Import Fat.

Ltac unfold_fat :=
  unfold fatRootSectors, fatClusterSize, fatSectorSize, fatClusterSectors,
    fatRootEntries, fatMaxClusters, efiDir, bootDir, efiFirst in *;
  change (512 * 32 / 512) with 32 in *; change (512 * 4) with 2048 in *.

Definition dir_bytes (name : bytes) (attr first size : Z) : bytes :=
  name ++ [z2b attr] ++ make 4 ++ le16 fatDate ++ le16 fatDate ++ make 4
  ++ le16 fatDate ++ le16 first ++ le32 size.

Lemma fatDirEntry_eq name attr first size :
  zlen name = 11 ->
  fatDirEntry name attr first size = Ret (dir_bytes name attr first size).
Proof.
  intros H. do 11 (destruct name as [|? name]; [done|]).
  destruct name; [|simpl in H; lia]. reflexivity.
Qed.

Lemma zlen_dir_bytes name attr first size :
  zlen name = 11 -> zlen (dir_bytes name attr first size) = 32.
Proof. intros H. unfold dir_bytes, make. len. simpl. len. Qed.

Definition lfn_bytes : bytes :=
  z2b <$> [65; 97; 0; 117; 0; 116; 0; 111; 0; 101; 0; 15; 0; 51; 120; 0; 101; 0; 99; 0;
   46; 0; 105; 0; 112; 0; 0; 0; 120; 0; 101; 0].

Lemma fatLFNEntry_autoexec :
  fatLFNEntry autoexecName "AUTOEXECIPX"%string = Ret lfn_bytes.
Proof. vm_compute. reflexivity. Qed.

Lemma root_entries_eq L script :
  root_entries L script =
  Ret [lfn_bytes;
       dir_bytes "AUTOEXECIPX"%string 32 (u16 (scriptFirst L)) (u32 (zlen script));
       dir_bytes "EFI        "%string attrDir efiDir 0].
Proof.
  unfold root_entries.
  change (shortName "AUTOEXEC"%string "IPX"%string)
    with (Ret (E := imgError) (list_ascii_of_string "AUTOEXECIPX")).
  change (shortName "EFI"%string ""%string)
    with (Ret (E := imgError) (list_ascii_of_string "EFI        ")).
  cbn [mbind outcome_bind]. rewrite fatLFNEntry_autoexec. cbn [mbind outcome_bind].
  by rewrite !fatDirEntry_eq.
Qed.

Lemma efi_entries_eq :
  efi_entries =
  Ret [dir_bytes ".          "%string attrDir efiDir 0;
       dir_bytes "..         "%string attrDir 0 0;
       dir_bytes "BOOT       "%string attrDir bootDir 0].
Proof. vm_compute. reflexivity. Qed.

Lemma boot_entries_eq efi :
  boot_entries efi =
  Ret [dir_bytes ".          "%string attrDir bootDir 0;
       dir_bytes "..         "%string attrDir efiDir 0;
       dir_bytes "BOOTX64 EFI"%string 32 (u16 efiFirst) (u32 (zlen efi))].
Proof.
  unfold boot_entries.
  change (shortName "."%string ""%string)
    with (Ret (E := imgError) (list_ascii_of_string ".          ")).
  change (shortName ".."%string ""%string)
    with (Ret (E := imgError) (list_ascii_of_string "..         ")).
  change (shortName "BOOTX64"%string "EFI"%string)
    with (Ret (E := imgError) (list_ascii_of_string "BOOTX64 EFI")).
  cbn [mbind outcome_bind]. by rewrite !fatDirEntry_eq.
Qed.
End FatFacts.
