(* ===== verification/FatTable.v ===== *)
(** * The packed 12-bit allocation table

    [fat_next] reads an entry the way a FAT12 driver does; the lemmas relate
    it to [setFAT12] and to the chains the builder links. *)

From S2P Require Import Prelude GoStrings FatImage.
Import Fat FatFacts.

(** The entry of cluster [c]: the low or high twelve bits of the little-endian
    word at offset [c * 3 / 2]. *)
Definition fat_next (fat : bytes) (c : Z) : Z :=
  let v := le_dec (sub (c * 3 / 2) 2 fat) in
  if c mod 2 =? 0 then Z.land v 4095 else Z.shiftr v 4.

(** ** Nibbles *)

Lemma forall_below (n : nat) (P : Z -> bool) :
  forallb P (Z.of_nat <$> seq 0 n) = true -> forall x, 0 <= x < Z.of_nat n -> P x = true.
Proof.
  intros H x Hx. rewrite forallb_forall in H. apply H.
  apply list_elem_of_In, list_elem_of_fmap. exists (Z.to_nat x).
  split; [lia|]. apply elem_of_seq. lia.
Qed.

Lemma land_240 x : 0 <= x < 256 -> Z.land x 240 = 16 * (x / 16).
Proof.
  intros Hx. apply Z.eqb_eq.
  apply (forall_below 256 (fun x => Z.land x 240 =? 16 * (x / 16))); [by vm_compute|done].
Qed.

Lemma land_15 x : Z.land x 15 = x mod 16.
Proof. apply (Z.land_ones x 4). lia. Qed.

Lemma land_4095 x : Z.land x 4095 = x mod 4096.
Proof. apply (Z.land_ones x 12). lia. Qed.

Lemma lor_nibbles a c : 0 <= a < 16 -> 0 <= c < 16 -> Z.lor (16 * a) c = 16 * a + c.
Proof.
  intros Ha Hc. apply Z.eqb_eq.
  set (P := fun x => Z.lor (16 * (x / 16)) (x mod 16) =? 16 * (x / 16) + x mod 16).
  assert (HP : P (16 * a + c) = true)
    by (apply (forall_below 256 P); [by vm_compute | lia]).
  unfold P in HP. replace ((16 * a + c) / 16) with a in HP by (zify_div; lia).
  by replace ((16 * a + c) mod 16) with c in HP by (zify_div; lia).
Qed.

(** ** [setFAT12] in closed form *)

(** The two bytes [setFAT12] leaves at the entry of [i], from the two bytes
    found there. *)
Definition fat_pair (i v x y : Z) : bytes :=
  if i mod 2 =? 0 then [z2b v; z2b (16 * (y / 16) + (v / 256) mod 16)]
  else [z2b (x mod 16 + 16 * (v mod 16)); z2b (v / 16)].

Definition fat_set (i v : Z) (fat : bytes) : bytes :=
  let o := i * 3 / 2 in
  splice o (fat_pair i v (le_dec (sub o 1 fat)) (le_dec (sub (o + 1) 1 fat))) fat.

Lemma length_fat_pair i v x y : length (fat_pair i v x y) = 2%nat.
Proof. unfold fat_pair. by destruct (_ =? _). Qed.
#[export] Hint Rewrite length_fat_pair : len.

Lemma le_dec_byte_range o b : 0 <= le_dec (sub o 1 b) < 256.
Proof.
  pose proof (le_dec_range (sub o 1 b)) as H.
  assert (length (sub o 1 b) <= 1)%nat
    by (unfold sub; rewrite length_take; change (Z.to_nat 1) with 1%nat; lia).
  destruct (length (sub o 1 b)) as [|[|]]; simpl in H; lia.
Qed.

Lemma splice_splice_next {A} o (x y : A) b :
  0 <= o -> o + 1 < zlen b ->
  splice (o + 1) [y] (splice o [x] b) = splice o [x; y] b.
Proof.
  intros Ho Hb. unfold splice.
  change (zlen [y]) with 1. change (zlen [x]) with 1. change (zlen [x; y]) with 2.
  assert (Hl : length (take (Z.to_nat o) b) = Z.to_nat o) by (rewrite length_take; lia).
  rewrite take_app_ge, (drop_app_ge _ _ (Z.to_nat (o + 1 + 1))) by lia. rewrite Hl.
  replace (Z.to_nat (o + 1) - Z.to_nat o)%nat with 1%nat by lia.
  replace (Z.to_nat (o + 1 + 1) - Z.to_nat o)%nat with 2%nat by lia.
  cbn [app take drop]. rewrite drop_drop, <- app_assoc. cbn [app].
  by replace (Z.to_nat (o + 1) + 1)%nat with (Z.to_nat (o + 2)) by lia.
Qed.

Lemma setFAT12_run n i v b :
  zlen b = n -> 0 <= i -> i * 3 / 2 + 1 < n -> 0 <= v ->
  setFAT12 (whole n) i v b = Ret (fat_set i v b, tt).
Proof.
  intros Hn Hi Hr Hv. assert (Ho : 0 <= i * 3 / 2) by (zify_div; lia).
  unfold setFAT12, fat_set, fat_pair, mbind, bufM_bind, set, get.
  cbn [whole s_off s_len]. rewrite !Z.add_0_l.
  rewrite (proj2 (Z.leb_le 0 (i * 3 / 2))), (proj2 (Z.ltb_lt (i * 3 / 2) n)),
    (proj2 (Z.leb_le 0 (i * 3 / 2 + 1))), (proj2 (Z.ltb_lt (i * 3 / 2 + 1) n)) by lia.
  cbn [andb]. pose proof (le_dec_byte_range (i * 3 / 2) b).
  pose proof (le_dec_byte_range (i * 3 / 2 + 1) b).
  destruct (i mod 2 =? 0).
  - rewrite sub_splice_ne by (cbn [length]; lia).
    rewrite splice_splice_next by lia. do 4 f_equal.
    rewrite land_240, land_15, lor_nibbles by (zify_div; lia).
    unfold u8. rewrite Z.shiftr_div_pow2 by lia. do 2 f_equal.
    change (2 ^ 8) with 256. zify_div; lia.
  - rewrite splice_splice_next by lia. do 3 f_equal.
    rewrite Z.shiftr_div_pow2 by lia. unfold u8.
    rewrite !land_15, Z.shiftl_mul_pow2 by lia.
    change (2 ^ 8) with 256. change (2 ^ 4) with 16.
    rewrite (Z.mod_small (v mod 16) 256) by (zify_div; lia).
    rewrite Z.lor_comm, (Z.mul_comm _ 16), lor_nibbles by (zify_div; lia).
    by rewrite (Z.add_comm (16 * _)).
Qed.

Lemma zlen_fat_set i v b :
  0 <= i -> i * 3 / 2 + 1 < zlen b -> zlen (fat_set i v b) = zlen b.
Proof. intros. unfold fat_set. apply zlen_splice; [zify_div; lia|]. len. Qed.

(** ** Reading back *)

Lemma le_dec_sub2 o b :
  0 <= o -> o + 2 <= zlen b ->
  le_dec (sub o 2 b) = le_dec (sub o 1 b) + 256 * le_dec (sub (o + 1) 1 b).
Proof.
  intros Ho Hb. change 2 with (1 + 1). rewrite sub_cat by lia.
  pose proof (zlen_sub o 1 b ltac:(lia) ltac:(lia) ltac:(lia)) as Hl.
  destruct (sub o 1 b) as [|x [|? ?]]; simpl in Hl; [lia| |lia].
  simpl. lia.
Qed.

Lemma fat_next_eq fat c :
  0 <= c -> c * 3 / 2 + 1 < zlen fat ->
  fat_next fat c =
    let x := le_dec (sub (c * 3 / 2) 1 fat) in
    let y := le_dec (sub (c * 3 / 2 + 1) 1 fat) in
    if c mod 2 =? 0 then x + 256 * (y mod 16) else x / 16 + 16 * y.
Proof.
  intros Hc Hl. assert (0 <= c * 3 / 2) by (zify_div; lia).
  unfold fat_next. rewrite le_dec_sub2 by lia. cbn zeta.
  pose proof (le_dec_byte_range (c * 3 / 2) fat).
  pose proof (le_dec_byte_range (c * 3 / 2 + 1) fat).
  destruct (c mod 2 =? 0).
  - rewrite land_4095. zify_div; lia.
  - rewrite Z.shiftr_div_pow2 by lia. change (2 ^ 4) with 16. zify_div; lia.
Qed.

(** The two bytes of an entry after a write to the table. *)
Lemma fat_set_byte i v fat o :
  0 <= i -> i * 3 / 2 + 1 < zlen fat -> 0 <= o ->
  le_dec (sub o 1 (fat_set i v fat)) =
    let p := fat_pair i v (le_dec (sub (i * 3 / 2) 1 fat)) (le_dec (sub (i * 3 / 2 + 1) 1 fat)) in
    if o =? i * 3 / 2 then le_dec (sub 0 1 p)
    else if o =? i * 3 / 2 + 1 then le_dec (sub 1 1 p)
    else le_dec (sub o 1 fat).
Proof.
  intros Hi Hl Ho. assert (0 <= i * 3 / 2) by (zify_div; lia). unfold fat_set.
  zcase; [subst o|zcase; [subst o|]].
  - rewrite sub_splice_in by len. by rewrite Z.sub_diag.
  - rewrite sub_splice_in by len. do 3 f_equal. lia.
  - by rewrite sub_splice_ne by len.
Qed.

Lemma sub_pair_0 {A} (x y : A) : sub 0 1 [x; y] = [x].
Proof. done. Qed.

Lemma sub_pair_1 {A} (x y : A) : sub 1 1 [x; y] = [y].
Proof. done. Qed.

Lemma le_dec_single x : le_dec [z2b x] = x mod 256.
Proof. simpl. rewrite b2z_z2b. lia. Qed.

(** The read-over-write law of the table: an entry holds the twelve low bits
    of what was last stored, and storing it disturbs no other entry. *)
Lemma fat_next_set i j v fat :
  0 <= i -> 0 <= j -> i * 3 / 2 + 1 < zlen fat -> j * 3 / 2 + 1 < zlen fat ->
  0 <= v < 4096 ->
  fat_next (fat_set i v fat) j = if j =? i then v else fat_next fat j.
Proof.
  intros Hi Hj Hil Hjl Hv.
  assert (0 <= i * 3 / 2 /\ 0 <= j * 3 / 2) as [Hoi Hoj] by (zify_div; lia).
  rewrite !fat_next_eq by (rewrite ?zlen_fat_set; lia).
  rewrite !fat_set_byte by lia. cbn zeta.
  pose proof (le_dec_byte_range (i * 3 / 2) fat).
  pose proof (le_dec_byte_range (i * 3 / 2 + 1) fat).
  unfold fat_pair. destruct (Z.eqb_spec (i mod 2) 0) as [Ei|Ei];
    destruct (Z.eqb_spec (j mod 2) 0) as [Ej|Ej];
    rewrite !sub_pair_0, !sub_pair_1, !le_dec_single;
    repeat zcase; try (exfalso; zify_div; lia); try done; subst;
    try (replace (j * 3 / 2) with (i * 3 / 2 + 1) by (zify_div; lia));
    try (replace (j * 3 / 2 + 1) with (i * 3 / 2) by (zify_div; lia));
    zify_div; lia.
Qed.

(** ** The table as a function

    [represents m fat f]: the array [fat] of [m] bytes holds the table [f].
    Each operation of the builder is an update of [f]. *)

Definition entry_ok (m c : Z) : Prop := 0 <= c /\ c * 3 / 2 + 1 < m.

Definition represents (m : Z) (fat : bytes) (f : Z -> Z) : Prop :=
  zlen fat = m /\ forall c, entry_ok m c -> fat_next fat c = f c.

Lemma represents_make m : 0 <= m -> represents m (make m) (fun _ => 0).
Proof.
  intros Hm. split; [by apply zlen_make|]. intros c [Hc1 Hc2].
  assert (0 <= c * 3 / 2) by (zify_div; lia).
  rewrite fat_next_eq by (rewrite ?zlen_make; lia).
  rewrite !sub_make by lia. cbn. by destruct (_ =? _).
Qed.

Lemma represents_set m i v fat f :
  represents m fat f -> entry_ok m i -> 0 <= v < 4096 ->
  exists fat', setFAT12 (whole m) i v fat = Ret (fat', tt) /\
    represents m fat' (fun c => if c =? i then v else f c).
Proof.
  intros [Hl Hf] [Hi1 Hi2] Hv. exists (fat_set i v fat).
  split; [by apply setFAT12_run; lia|].
  split; [rewrite zlen_fat_set; lia|]. intros c [Hc1 Hc2].
  rewrite fat_next_set by lia. zcase; [done|]. by apply Hf.
Qed.

(** The links of a chain of [n] clusters that starts at [first]. *)
Definition linked (first n : Z) (f : Z -> Z) (c : Z) : Z :=
  if (first <=? c) && (c <? first + n)
  then (if c =? first + n - 1 then 4095 else c + 1) else f c.

Lemma linked_ext first n f g c :
  f c = g c -> linked first n f c = linked first n g c.
Proof. intros H. unfold linked. by destruct (_ && _). Qed.

Lemma represents_ext m fat f g :
  (forall c, entry_ok m c -> f c = g c) -> represents m fat f -> represents m fat g.
Proof. intros H [Hl Hf]. split; [done|]. intros c Hc. rewrite Hf, H; done. Qed.

Lemma chain_loop_represents m first n k i fat f :
  represents m fat f -> 0 <= first -> 0 <= i -> Z.of_nat k = n - i ->
  first + n <= 4095 -> entry_ok m (first + n - 1) ->
  exists fat', chain_loop (whole m) first n i k fat = Ret (fat', tt) /\
    represents m fat' (fun c => if c <? first + i then f c else linked first n f c).
Proof.
  revert i fat f. induction k as [|k IH]; intros i fat f Hr Hf Hi Hk Hn He.
  { exists fat. split; [done|]. eapply represents_ext, Hr.
    intros c _. cbn. unfold linked. repeat zcase; cbn; try done; lia. }
  cbn [chain_loop].
  destruct (represents_set m (first + i) (if i =? n - 1 then 4095 else u16 (first + i + 1))
    fat f Hr) as (fat1 & Hset & Hr1).
  - destruct He. split; [lia|]. zify_div; lia.
  - unfold u16. zcase; [lia|]. rewrite Z.mod_small; lia.
  - unfold mbind, bufM_bind. rewrite Hset.
    destruct (IH (i + 1) fat1 _ Hr1) as (fat' & Hrun & Hr'); try lia; [done|].
    exists fat'. split; [exact Hrun|]. eapply represents_ext, Hr'.
    intros c _. cbn. unfold linked, u16.
    repeat zcase; cbn; try lia; try done; subst; try (rewrite Z.mod_small by lia); lia.
Qed.

Lemma chain_represents m first n fat f :
  represents m fat f -> 0 <= first -> 1 <= n -> first + n <= 4095 ->
  entry_ok m (first + n - 1) ->
  exists fat', chain (whole m) first n fat = Ret (fat', tt) /\
    represents m fat' (linked first n f).
Proof.
  intros Hr Hf Hn1 Hn He. unfold chain.
  destruct (chain_loop_represents m first n (Z.to_nat n) 0 fat f)
    as (fat' & Hrun & Hr'); try done; try lia.
  exists fat'. split; [done|]. eapply represents_ext, Hr'.
  intros c _. cbn. unfold linked. repeat zcase; cbn; try done; lia.
Qed.

(** ** The table of the partition *)

(** What the builder's arithmetic guarantees of a layout it accepts. *)
Record layout_ok (L : layout) : Prop := {
  lo_efi : 1 <= efiCl L;
  lo_script : 1 <= scriptCl L;
  lo_first : scriptFirst L = efiFirst + efiCl L;
  lo_clusters : clusters L = scriptFirst L + scriptCl L - 2;
  lo_max : clusters L <= fatMaxClusters;
  lo_fat : ((clusters L + 2) * 3 + 1) / 2 <= fatSectors L * fatSectorSize;
  lo_fat_max : fatSectors L <= 12;
  lo_root : rootStart L = 1 + 2 * fatSectors L;
  lo_data : dataStart L = rootStart L + fatRootSectors;
  lo_total : totalSectors L = dataStart L + clusters L * fatClusterSectors;
}.

Lemma chainLen_pos n : 0 <= n -> 1 <= chainLen n /\ n <= chainLen n * fatClusterSize.
Proof. intros Hn. unfold chainLen. unfold_fat. zcase; zify_div; lia. Qed.

Lemma esp_layout_ok a b :
  0 <= a -> 0 <= b -> clusters (esp_layout a b) <= fatMaxClusters ->
  layout_ok (esp_layout a b).
Proof.
  intros Ha Hb Hc. pose proof (chainLen_pos a Ha). pose proof (chainLen_pos b Hb).
  unfold esp_layout in *. cbn [clusters] in Hc.
  constructor; cbn [efiCl scriptCl scriptFirst clusters fatSectors rootStart dataStart totalSectors];
    try lia; unfold_fat; zify_div; lia.
Qed.

(** The whole table: reserved entries, the two directories, the two files,
    and free clusters elsewhere. *)
Definition table (L : layout) : Z -> Z :=
  linked (scriptFirst L) (scriptCl L)
    (linked efiFirst (efiCl L)
      (fun c => if c =? 0 then 4088 else if (1 <=? c) && (c <=? 3) then 4095 else 0)).

Lemma build_fat_represents L :
  layout_ok L ->
  exists fat, build_fat L = Ret fat /\ represents (fatSectors L * fatSectorSize) fat (table L).
Proof.
  intros [H1 H2 H3 H4 H5 H6 H7 H8 H9 H10]. unfold build_fat, run_make.
  set (m := fatSectors L * fatSectorSize) in *.
  assert (Hok : forall c, 0 <= c < clusters L + 2 -> entry_ok m c)
    by (intros c Hc; split; [lia | zify_div; lia]).
  unfold_fat.
  assert (Hm : 0 <= m) by (zify_div; lia).
  destruct (represents_set m 0 4088 _ _ (represents_make m Hm))
    as (f0 & E0 & R0); [apply Hok; lia|lia|].
  destruct (represents_set m 1 4095 _ _ R0) as (f1 & E1 & R1); [apply Hok; lia|lia|].
  destruct (represents_set m 2 4095 _ _ R1) as (f2 & E2 & R2); [apply Hok; lia|lia|].
  destruct (represents_set m 3 4095 _ _ R2) as (f3 & E3 & R3); [apply Hok; lia|lia|].
  destruct (chain_represents m 4 (efiCl L) _ _ R3) as (f4 & E4 & R4); try lia;
    [apply Hok; lia|].
  destruct (chain_represents m (scriptFirst L) (scriptCl L) _ _ R4)
    as (f5 & E5 & R5); try lia; [apply Hok; lia|].
  exists f5. unfold mbind, bufM_bind. rewrite E0, E1, E2, E3, E4, E5.
  split; [done|]. eapply represents_ext, R5. intros c [Hc _].
  apply linked_ext, linked_ext. repeat zcase; cbn; try done; lia.
Qed.
