(* ===== verification/FatReader.v ===== *)
(** * A FAT12 reader, and what it finds in the partition

    [read_file] is an independent FAT12 driver, as the firmware (and
    [readFAT12] of [isoimage_test.go]) has one: it takes the geometry from
    the boot sector, finds names through the directories, long names with
    their checksum included, and follows the allocation table. *)

From S2P Require Import Prelude GoStrings FatImage FatTable.
Import Fat FatFacts.

Definition byte_at (b : bytes) (o : Z) : Z := le_dec (sub o 1 b).
Definition word_at (b : bytes) (o : Z) : Z := le_dec (sub o 2 b).
Definition dword_at (b : bytes) (o : Z) : Z := le_dec (sub o 4 b).

(** ** The reader *)

Record geometry := Geometry {
  bytesPerSector : Z; sectorsPerCluster : Z; reservedSectors : Z;
  numFATs : Z; rootEntryCount : Z; sectorsPerFAT : Z;
}.

Definition read_geometry (img : bytes) : option geometry :=
  if bool_decide (sub 54 8 img = "FAT12   "%string)
     && (byte_at img 510 =? 85) && (byte_at img 511 =? 170)
  then Some (Geometry (word_at img 11) (byte_at img 13) (word_at img 14)
               (byte_at img 16) (word_at img 17) (word_at img 22))
  else None.

(** Follow a chain until the end mark or until [size] bytes are read. *)
Fixpoint read_chain (fuel : nat) (img fat : bytes) (data csize c size : Z) (out : bytes)
    : option bytes :=
  if (c <? 4088) && (zlen out <? size) then
    match fuel with
    | O => None
    | S f => read_chain f img fat data csize (fat_next fat c) size
               (out ++ sub (data + (c - 2) * csize) csize img)
    end
  else if zlen out <? size then None else Some (sub 0 size out).

(** The UTF-16 units of a long-name entry, up to the terminator. *)
Definition lfn_units (e : bytes) : list Z :=
  let us := word_at e <$> [1; 3; 5; 7; 9; 14; 16; 18; 20; 22; 24; 28; 30] in
  foldr (fun u r => if (u =? 0) || (u =? 65535) then [] else u :: r) [] us.

Definition trim_name (b : bytes) : bytes := TrimRight b " "%string.

(** The short name of an entry, as [NAME] or [NAME.EXT]. *)
Definition short_of (e : bytes) : bytes :=
  let ext := trim_name (sub 8 3 e) in
  trim_name (sub 0 8 e) ++ (if bool_decide (ext = []) then [] else "."%string ++ ext).

(** First cluster, size and directory flag of the entry called [name];
    [long] is the long-name entry just before, if any. *)
Fixpoint find_entry (fuel : nat) (dir : bytes) (long : option (list Z * Z)) (name : bytes)
    : option (Z * Z * bool) :=
  match fuel with
  | O => None
  | S f =>
      if (zlen dir <? 32) || (byte_at dir 0 =? 0) then None
      else
        let e := sub 0 32 dir in
        let rest := drop 32 dir in
        if byte_at e 11 =? attrLFN
        then find_entry f rest (Some (lfn_units e, byte_at e 13)) name
        else
          let hit_long :=
            match long with
            | Some (us, s) =>
                (s =? lfn_sum (sub 0 11 e)) && bool_decide (us = b2z <$> name)
            | None => false
            end in
          if hit_long || bool_decide (short_of e = name)
          then Some (word_at e 26, dword_at e 28, negb (Z.land (byte_at e 11) attrDir =? 0))
          else find_entry f rest None name
  end.

(** Bounds on the work: a FAT12 volume has fewer than 4096 clusters, and the
    directories read here have at most 512 entries. *)
Definition chain_fuel : nat := Z.to_nat 4096.
Definition dir_fuel : nat := Z.to_nat 513.

(** Walk down a path; [find dir None name] looks a name up in a directory and
    [fetch first size] reads the contents of a chain. *)
Fixpoint walk (find : bytes -> option (list Z * Z) -> bytes -> option (Z * Z * bool))
    (fetch : Z -> Z -> option bytes) (csize : Z) (dir : bytes) (path : list bytes)
    : option bytes :=
  match path with
  | [] => None
  | name :: path' =>
      match find dir None name with
      | None => None
      | Some (first, size, isDir) =>
          match path' with
          | [] => fetch first size
          | _ :: _ =>
              if isDir then
                match fetch first csize with
                | Some dir' => walk find fetch csize dir' path'
                | None => None
                end
              else None
          end
      end
  end.

Section reader.
Context (img : bytes) (G : geometry).

Definition g_fat : bytes := drop (Z.to_nat (reservedSectors G * bytesPerSector G)) img.
Definition g_root : Z :=
  (reservedSectors G + numFATs G * sectorsPerFAT G) * bytesPerSector G.
Definition g_data : Z := g_root + rootEntryCount G * 32.
Definition g_csize : Z := sectorsPerCluster G * bytesPerSector G.

Definition read_at (first size : Z) : option bytes :=
  read_chain chain_fuel img g_fat g_data g_csize first size [].

Definition read_path (dir : bytes) (path : list bytes) : option bytes :=
  walk (find_entry dir_fuel) read_at g_csize dir path.

Definition root_dir : bytes := sub g_root (rootEntryCount G * 32) img.
End reader.

Definition read_file (img : bytes) (path : list bytes) : option bytes :=
  G ← read_geometry img; read_path img G (root_dir img G) path.

Definition efiPath : list bytes :=
  [list_ascii_of_string "EFI"; list_ascii_of_string "BOOT";
   list_ascii_of_string "BOOTX64.EFI"].
Definition scriptPath : list bytes := [autoexecName].

Example read_back :
  match buildESPImage "MZ-efi-binary"%string "#!ipxe"%string with
  | Ret b => (read_file b efiPath, read_file b scriptPath)
  | _ => (None, None)
  end = (Some ("MZ-efi-binary"%string : bytes), Some ("#!ipxe"%string : bytes)).
Proof. vm_compute. reflexivity. Qed.

(** ** Following a chain *)

Lemma read_chain_steps img fat data csize first n size (k fuel : nat) :
  (forall i, 0 <= i < n ->
     fat_next fat (first + i) = if i =? n - 1 then 4095 else first + i + 1) ->
  0 < csize -> 2 <= first -> 0 <= data -> first + n <= 4088 ->
  0 <= size <= n * csize -> (Z.of_nat k) <= n ->
  data + (first - 2 + n) * csize <= zlen img ->
  (Z.to_nat n <= k + fuel)%nat ->
  read_chain fuel img fat data csize (if Z.of_nat k =? n then 4095 else first + Z.of_nat k)
    size (sub (data + (first - 2) * csize) (Z.of_nat k * csize) img)
  = Some (sub (data + (first - 2) * csize) size img).
Proof.
  intros Hl Hc Hf Hd Hn Hs Hk Hi Hfu.
  remember (Z.to_nat n - k)%nat as r eqn:Er. revert k fuel Er Hk Hfu.
  induction r as [|r IH]; intros k fuel Er Hk Hfu;
    (assert (Hlen : zlen (sub (data + (first - 2) * csize) (Z.of_nat k * csize) img)
      = Z.of_nat k * csize) by (apply zlen_sub; nia)).
  - replace (Z.of_nat k =? n) with true by (symmetry; apply Z.eqb_eq; lia).
    destruct fuel; cbn [read_chain]; rewrite Hlen; cbn [andb Z.ltb Z.compare Pos.compare];
      (replace (Z.of_nat k * csize <? size) with false by (symmetry; apply Z.ltb_ge; nia));
      change (4095 <? 4088) with false; cbn [andb]; rewrite sub_sub by nia;
      do 2 f_equal; lia.
  - destruct (Z.ltb_spec (Z.of_nat k * csize) size) as [Hlt|Hge].
    + destruct fuel as [|fuel]; [lia|].
      replace (Z.of_nat k =? n) with false by (symmetry; apply Z.eqb_neq; lia).
      cbn [read_chain]. rewrite Hlen.
      replace (first + Z.of_nat k <? 4088) with true by (symmetry; apply Z.ltb_lt; lia).
      replace (Z.of_nat k * csize <? size) with true by (symmetry; apply Z.ltb_lt; lia).
      cbn [andb]. rewrite Hl by lia.
      replace (data + (first + Z.of_nat k - 2) * csize)
        with (data + (first - 2) * csize + Z.of_nat k * csize) by lia.
      rewrite <- sub_cat by nia.
      rewrite <- (IH (S k) fuel) by lia.
      f_equal; [|f_equal; lia].
      destruct (Z.eqb_spec (Z.of_nat k) (n - 1)), (Z.eqb_spec (Z.of_nat (S k)) n); lia.
    + assert (E : forall c, read_chain fuel img fat data csize c size
        (sub (data + (first - 2) * csize) (Z.of_nat k * csize) img)
        = Some (sub (data + (first - 2) * csize) size img)).
      { intros c. destruct fuel; cbn [read_chain]; rewrite Hlen;
        replace (Z.of_nat k * csize <? size) with false by (symmetry; apply Z.ltb_ge; lia);
        rewrite andb_false_r, sub_sub by nia; do 2 f_equal; lia. }
      apply E.
Qed.

Lemma read_chain_ok img fat data csize first n size fuel :
  (forall i, 0 <= i < n ->
     fat_next fat (first + i) = if i =? n - 1 then 4095 else first + i + 1) ->
  0 < csize -> 2 <= first -> 0 <= data -> 1 <= n -> first + n <= 4088 ->
  0 <= size <= n * csize -> data + (first - 2 + n) * csize <= zlen img ->
  (Z.to_nat n <= fuel)%nat ->
  read_chain fuel img fat data csize first size []
  = Some (sub (data + (first - 2) * csize) size img).
Proof.
  intros Hl Hc Hf Hd Hn1 Hn Hs Hi Hfu.
  rewrite <- (read_chain_steps img fat data csize first n size 0 fuel); try done; try lia.
  change (Z.of_nat 0) with 0. rewrite Z.add_0_r.
  replace (0 =? n) with false by (symmetry; apply Z.eqb_neq; lia).
  rewrite Z.mul_0_l, sub_empty by lia. done.
Qed.

(** ** The image as a list of writes *)

Definition boot_writes (L : layout) : list write :=
  [(0, [z2b 235; z2b 60; z2b 144]); (3, list_ascii_of_string "IPXEBOOT");
   (11, le16 fatSectorSize); (13, [z2b fatClusterSectors]); (14, le16 1); (16, [z2b 2]);
   (17, le16 fatRootEntries); (19, le16 (u16 (totalSectors L))); (21, [z2b 248]);
   (22, le16 (u16 (fatSectors L))); (24, le16 32); (26, le16 64); (36, [z2b 128]);
   (38, [z2b 41]); (39, le32 439041101); (43, list_ascii_of_string "IPXEBOOT   ");
   (54, list_ascii_of_string "FAT12   "); (510, [z2b 85]); (511, [z2b 170])].

Definition rootOff (L : layout) : Z := rootStart L * fatSectorSize.
Definition clusterOff (L : layout) (n : Z) : Z :=
  (dataStart L + (n - 2) * fatClusterSectors) * fatSectorSize.

Definition root_bytes (L : layout) (script : bytes) : list bytes :=
  [lfn_bytes;
   dir_bytes "AUTOEXECIPX"%string 32 (u16 (scriptFirst L)) (u32 (zlen script));
   dir_bytes "EFI        "%string attrDir efiDir 0].
Definition efi_bytes : list bytes :=
  [dir_bytes ".          "%string attrDir efiDir 0;
   dir_bytes "..         "%string attrDir 0 0;
   dir_bytes "BOOT       "%string attrDir bootDir 0].
Definition boot_bytes (efi : bytes) : list bytes :=
  [dir_bytes ".          "%string attrDir bootDir 0;
   dir_bytes "..         "%string attrDir efiDir 0;
   dir_bytes "BOOTX64 EFI"%string 32 (u16 efiFirst) (u32 (zlen efi))].

(** Three 32-byte entries one after the other. *)
Definition put_writes (o : Z) (es : list bytes) : list write :=
  imap (fun i e => (o + 32 * Z.of_nat i, e)) es.

Definition image_writes (L : layout) (fat efi script : bytes) : list write :=
  boot_writes L ++
  [(fatSectorSize, fat); ((1 + fatSectors L) * fatSectorSize, fat)] ++
  put_writes (rootOff L) (root_bytes L script) ++
  put_writes (clusterOff L efiDir) efi_bytes ++
  put_writes (clusterOff L bootDir) (boot_bytes efi) ++
  [(clusterOff L efiFirst, efi); (clusterOff L (scriptFirst L), script)].

Lemma executes_lift {A} n (o : outcome imgError A) a :
  o = Ret a -> executes n (lift o) [] a.
Proof. intros ->. split; [constructor | done]. Qed.

Lemma executes_eq {E A} n (m : bufM E A) ws ws' a :
  executes n m ws a -> ws = ws' -> executes n m ws' a.
Proof. by intros ? <-. Qed.

Lemma executes_put n s es :
  Forall (fun e : bytes => zlen e = 32) es ->
  0 <= s_off s -> s_off s + s_len s <= n -> 32 * zlen es <= s_len s ->
  executes n (put s es) (put_writes (s_off s) es) tt.
Proof.
  intros Hes. revert s. induction Hes as [|e es He Hes IH]; intros s H1 H2 H3.
  { apply executes_ret. }
  cbn [put]. change (zlen (e :: es)) with (Z.of_nat (S (length es))) in H3.
  eapply executes_eq.
  - eapply executes_bind; [apply executes_copy; lia|].
    eapply executes_bind; [apply executes_slice_from; lia|].
    apply IH; cbn [s_off s_len]; lia.
  - unfold put_writes. cbn [app imap]. f_equal; [f_equal; lia|].
    rewrite He. apply imap_ext. intros i x _. cbn. f_equal. lia.
Qed.

Lemma executes_boot_sector n cap L :
  512 <= n -> executes n (write_boot_sector L (Slice 0 512 cap)) (boot_writes L) tt.
Proof.
  intros Hn. eapply executes_eq; [unfold write_boot_sector; buf_exec|].
  cbn. reflexivity.
Qed.

Lemma Forall_root_bytes L script : Forall (fun e : bytes => zlen e = 32) (root_bytes L script).
Proof. repeat constructor. Qed.
Lemma Forall_efi_bytes : Forall (fun e : bytes => zlen e = 32) efi_bytes.
Proof. repeat constructor. Qed.
Lemma Forall_boot_bytes efi : Forall (fun e : bytes => zlen e = 32) (boot_bytes efi).
Proof. repeat constructor. Qed.

Lemma length_root_bytes L script : length (root_bytes L script) = 3%nat.
Proof. done. Qed.
Lemma length_efi_bytes : length efi_bytes = 3%nat.
Proof. done. Qed.
Lemma length_boot_bytes efi : length (boot_bytes efi) = 3%nat.
Proof. done. Qed.
#[export] Hint Rewrite length_root_bytes length_efi_bytes length_boot_bytes : len.

(** Running the builder performs exactly these writes, none out of range. *)
Lemma executes_write_image L fat efi script n :
  layout_ok L -> build_fat L = Ret fat -> zlen fat = fatSectors L * fatSectorSize ->
  zlen efi <= efiCl L * fatClusterSize -> zlen script <= scriptCl L * fatClusterSize ->
  n = totalSectors L * fatSectorSize ->
  executes n (write_image L efi script (whole n)) (image_writes L fat efi script) tt.
Proof.
  intros [H1 H2 H3 H4 H5 H6 H7 H8 H9 H10] Hfat Hfl He Hs ->.
  unfold write_image, cluster. unfold_fat. set (N := totalSectors L * 512).
  assert (HN : N = (33 + 2 * fatSectors L + (efiCl L + scriptCl L + 2) * 4) * 512) by lia.
  assert (0 <= fatSectors L) by (zify_div; lia).
  eapply executes_eq.
  { eapply executes_bind; [buf_step|cbn beta].
    eapply executes_bind; [apply executes_boot_sector; lia|cbn beta].
    eapply executes_bind; [by apply executes_lift|cbn beta].
    do 4 (eapply executes_bind; [buf_step|cbn beta]).
    eapply executes_bind; [apply executes_lift, root_entries_eq|cbn beta].
    eapply executes_bind; [buf_step|cbn beta].
    eapply executes_bind; [apply (executes_put _ _ _ (Forall_root_bytes L script)); buf_lia|cbn beta].
    eapply executes_bind; [apply executes_lift, efi_entries_eq|cbn beta].
    eapply executes_bind; [buf_step|cbn beta].
    eapply executes_bind; [apply (executes_put _ _ _ Forall_efi_bytes); buf_lia|cbn beta].
    eapply executes_bind; [apply executes_lift, boot_entries_eq|cbn beta].
    eapply executes_bind; [buf_step|cbn beta].
    eapply executes_bind; [apply (executes_put _ _ _ (Forall_boot_bytes efi)); buf_lia|cbn beta].
    do 4 (eapply executes_bind; [buf_step|cbn beta]).
    apply executes_ret. }
  unfold image_writes, rootOff, clusterOff. unfold_fat. cbn [app s_off whole].
  rewrite !Z.add_0_l. reflexivity.
Qed.

(** ** Directory look-up *)

Lemma find_entry_step f e rest long name :
  zlen e = 32 ->
  find_entry (S f) (e ++ rest) long name =
  (if byte_at e 0 =? 0 then None
   else if byte_at e 11 =? attrLFN
   then find_entry f rest (Some (lfn_units e, byte_at e 13)) name
   else
     let hit_long :=
       match long with
       | Some (us, s) => (s =? lfn_sum (sub 0 11 e)) && bool_decide (us = b2z <$> name)
       | None => false
       end in
     if hit_long || bool_decide (short_of e = name)
     then Some (word_at e 26, dword_at e 28, negb (Z.land (byte_at e 11) attrDir =? 0))
     else find_entry f rest None name).
Proof.
  intros He. cbn [find_entry].
  replace (zlen (e ++ rest) <? 32) with false
    by (symmetry; apply Z.ltb_ge; rewrite length_app; lia).
  cbn [orb]. unfold byte_at at 1. rewrite sub_app_l by lia.
  rewrite (sub_app_l 0 32), (sub_all e 32) by lia.
  rewrite drop_app_length' by lia. done.
Qed.

Section dir_entry.
Context (name : bytes) (attr first size : Z) (Hn : zlen name = 11).

Lemma dir_bytes_name : sub 0 11 (dir_bytes name attr first size) = name.
Proof. unfold dir_bytes. rewrite sub_app_l, sub_all by lia. done. Qed.

Lemma dir_bytes_byte i : 0 <= i < 11 ->
  byte_at (dir_bytes name attr first size) i = byte_at name i.
Proof. intros. unfold byte_at, dir_bytes. by rewrite sub_app_l by lia. Qed.

Lemma dir_bytes_short :
  short_of (dir_bytes name attr first size) = short_of name.
Proof. unfold short_of, dir_bytes. by rewrite !sub_app_l by lia. Qed.

Lemma dir_bytes_attr : byte_at (dir_bytes name attr first size) 11 = u8 attr.
Proof.
  unfold byte_at, dir_bytes. rewrite sub_app_r, Hn by lia.
  rewrite sub_app_l by (cbn; lia). apply le_dec_single.
Qed.

Lemma dir_bytes_first : word_at (dir_bytes name attr first size) 26 = u16 first.
Proof.
  unfold word_at, dir_bytes. rewrite sub_app_r, Hn by lia.
  apply le_dec_le16.
Qed.

Lemma dir_bytes_size : dword_at (dir_bytes name attr first size) 28 = u32 size.
Proof.
  unfold dword_at, dir_bytes. rewrite sub_app_r, Hn by lia.
  apply le_dec_le32.
Qed.
End dir_entry.

(** The test of [find_entry] on an entry with this 11-byte name. *)
Definition name_hit (long : option (list Z * Z)) (short want : bytes) : bool :=
  match long with
  | Some (us, s) => (s =? lfn_sum short) && bool_decide (us = b2z <$> want)
  | None => false
  end || bool_decide (short_of short = want).

Lemma find_entry_dir f name attr first size rest long want :
  zlen name = 11 -> (byte_at name 0 =? 0) || (u8 attr =? attrLFN) = false ->
  find_entry (S f) (dir_bytes name attr first size ++ rest) long want =
  if name_hit long name want
  then Some (u16 first, u32 size, negb (Z.land (u8 attr) attrDir =? 0))
  else find_entry f rest None want.
Proof.
  intros Hn [H1 H2]%orb_false_iff.
  rewrite find_entry_step by by rewrite zlen_dir_bytes.
  rewrite dir_bytes_byte, dir_bytes_attr, dir_bytes_short, dir_bytes_name,
    dir_bytes_first, dir_bytes_size by (done || lia).
  by rewrite H1, H2.
Qed.

Lemma find_entry_lfn f rest want :
  find_entry (S f) (lfn_bytes ++ rest) None want
  = find_entry f rest (Some (lfn_units lfn_bytes, 51)) want.
Proof. rewrite find_entry_step by done. reflexivity. Qed.

(** Evaluate a look-up over known entries; the comparisons of names compute. *)
Ltac find_dir :=
  change dir_fuel with (S (S (S (Z.to_nat 510))));
  unfold root_bytes, efi_bytes, boot_bytes; cbn [concat]; rewrite <- !app_assoc;
  rewrite ?find_entry_lfn;
  repeat (rewrite find_entry_dir by done;
          match goal with
          | |- context [name_hit ?l ?s ?w] =>
              let b := eval vm_compute in (name_hit l s w) in
              change (name_hit l s w) with b
          end; cbv beta iota);
  reflexivity.

Lemma find_root_script L script rest :
  find_entry dir_fuel (concat (root_bytes L script) ++ rest) None autoexecName
  = Some (u16 (u16 (scriptFirst L)), u32 (u32 (zlen script)), false).
Proof. find_dir. Qed.

Lemma find_root_efi L script rest :
  find_entry dir_fuel (concat (root_bytes L script) ++ rest) None "EFI"%string
  = Some (efiDir, 0, true).
Proof. find_dir. Qed.

Lemma find_efi_boot rest :
  find_entry dir_fuel (concat efi_bytes ++ rest) None "BOOT"%string
  = Some (bootDir, 0, true).
Proof. find_dir. Qed.

Lemma find_boot_efi efi rest :
  find_entry dir_fuel (concat (boot_bytes efi) ++ rest) None "BOOTX64.EFI"%string
  = Some (efiFirst, u32 (u32 (zlen efi)), false).
Proof. find_dir. Qed.

(** ** Reading the image back *)

Section built.
Context (L : layout) (fat efi script : bytes).
Context (HL : layout_ok L).
Context (Hfl : represents (fatSectors L * fatSectorSize) fat (table L)).
Context (He : zlen efi <= efiCl L * fatClusterSize).
Context (Hs : zlen script <= scriptCl L * fatClusterSize).

Let N := totalSectors L * fatSectorSize.
Let ws := image_writes L fat efi script.
Let img := apply_writes ws (make N).
Context (Hok : Forall (write_ok N) ws).

Ltac layout_facts :=
  pose proof (lo_efi L HL); pose proof (lo_script L HL); pose proof (lo_first L HL);
  pose proof (lo_clusters L HL); pose proof (lo_max L HL); pose proof (lo_fat_max L HL);
  pose proof (lo_root L HL); pose proof (lo_data L HL); pose proof (lo_total L HL);
  pose proof (lo_fat L HL); pose proof (proj1 Hfl); unfold rootOff, clusterOff in *; unfold_fat;
  assert (0 <= fatSectors L) by (zify_div; lia).

Lemma zlen_img0 : zlen (make N) = N.
Proof. apply zlen_make. subst N. layout_facts. lia. Qed.

Lemma Hok' : Forall (write_ok (zlen (make N))) ws.
Proof. by rewrite zlen_img0. Qed.

Lemma zlen_img : zlen img = N.
Proof. unfold img. rewrite zlen_apply_writes by apply Hok'. apply zlen_img0. Qed.

(** The window in question is disjoint from each write of the list. *)
Ltac solve_disjoint :=
  unfold ws, image_writes, boot_writes, put_writes, root_bytes, efi_bytes, boot_bytes;
  cbn [app imap drop]; repeat (apply Forall_cons_2; [|]); try apply Forall_nil_2;
  unfold disjoint_from, compose; cbn [fst snd];
  rewrite ?zlen_dir_bytes by done; unfold rootOff, clusterOff; unfold_fat; cbn; lia.

(** A read of the [i]-th write. *)
Ltac read_write i :=
  unfold img; rewrite (sub_writes_in i _ _ _ _ ws (make N) eq_refl Hok');
  [ | layout_facts;
      solve_disjoint | .. ].

Lemma geometry_img : read_geometry img = Some (Geometry 512 4 1 2 512 (fatSectors L)).
Proof.
  assert (E1 : sub 54 8 img = "FAT12   "%string) by (by read_write 16%nat).
  assert (E2 : byte_at img 510 = 85) by (unfold byte_at; by read_write 17%nat).
  assert (E3 : byte_at img 511 = 170) by (unfold byte_at; by read_write 18%nat).
  assert (E4 : word_at img 11 = 512) by (unfold word_at; by read_write 2%nat).
  assert (E5 : byte_at img 13 = 4) by (unfold byte_at; by read_write 3%nat).
  assert (E6 : word_at img 14 = 1) by (unfold word_at; by read_write 4%nat).
  assert (E7 : byte_at img 16 = 2) by (unfold byte_at; by read_write 5%nat).
  assert (E8 : word_at img 17 = 512) by (unfold word_at; by read_write 6%nat).
  assert (E9 : word_at img 22 = fatSectors L).
  { unfold word_at. read_write 9%nat; [|done..].
    rewrite Z.sub_diag, sub_all, le_dec_le16 by done. layout_facts. unfold u16.
    rewrite Z.mod_mod, Z.mod_small by lia. done. }
  unfold read_geometry. by rewrite E1, E2, E3, E4, E5, E6, E7, E8, E9.
Qed.

Let G := Geometry 512 4 1 2 512 (fatSectors L).

(** Both copies of the table are the one that was built. *)
Lemma fat_copies_img :
  sub 512 (fatSectors L * 512) img = fat /\
  sub (512 + fatSectors L * 512) (fatSectors L * 512) img = fat.
Proof.
  split.
  - read_write 19%nat; try (layout_facts; cbn; lia).
    apply sub_all_at; layout_facts; lia.
  - read_write 20%nat; try (layout_facts; cbn; lia).
    apply sub_all_at; layout_facts; lia.
Qed.

Lemma sector_count_img : word_at img 19 = u16 (totalSectors L).
Proof.
  unfold word_at. read_write 7%nat; [|done..].
  rewrite Z.sub_diag, sub_all, le_dec_le16 by done. unfold u16. by rewrite Z.mod_mod.
Qed.

(** The first copy of the table is the one that was built. *)
Lemma fat_img c :
  entry_ok (fatSectors L * fatSectorSize) c -> fat_next (g_fat img G) c = table L c.
Proof.
  intros Hc. rewrite <- (proj2 Hfl c Hc). destruct Hc as [Hc1 Hc2].
  assert (0 <= c * 3 / 2) by (zify_div; lia).
  unfold fat_next, g_fat, G. cbn [reservedSectors bytesPerSector].
  change (Z.to_nat (1 * 512)) with (Z.to_nat 512). rewrite sub_drop by lia.
  read_write 19%nat; try (layout_facts; cbn; lia).
  by replace (512 + c * 3 / 2 - fatSectorSize) with (c * 3 / 2) by (unfold_fat; lia).
Qed.

(** The part of a directory after its three entries is empty. *)
Ltac read_free :=
  unfold img; rewrite (sub_writes_ne _ _ ws (make N));
  [ apply sub_make; subst N; layout_facts; lia | layout_facts; lia | lia | apply Hok' | ];
  layout_facts; solve_disjoint.

(** Three consecutive entries, written from the [i]-th write on, and the free
    space after them. *)
Ltac entry_lia := rewrite ?zlen_dir_bytes by done; cbn; lia.

Ltac read_dir o i :=
  assert (0 <= o) by (layout_facts; lia); rewrite !sub_cat by lia;
  unfold root_bytes, efi_bytes, boot_bytes; cbn [concat]; rewrite <- !app_assoc; cbn [app];
  apply (f_equal2 app); [|apply (f_equal2 app); [|apply (f_equal2 app)]];
  [ read_write i; [apply sub_all_at; [lia|reflexivity]|lia|lia|entry_lia]
  | read_write (S i); [apply sub_all_at; [lia|reflexivity]|lia|lia|entry_lia]
  | read_write (S (S i)); [apply sub_all_at; [lia|reflexivity]|lia|lia|entry_lia]
  | read_free ].

Lemma root_img :
  sub (rootOff L) (32 + (32 + (32 + 16288))) img
  = concat (root_bytes L script) ++ make 16288.
Proof. read_dir (rootOff L) 21%nat. Qed.

Lemma efi_dir_img :
  sub (clusterOff L efiDir) (32 + (32 + (32 + 1952))) img
  = concat efi_bytes ++ make 1952.
Proof. read_dir (clusterOff L efiDir) 24%nat. Qed.

Lemma boot_dir_img :
  sub (clusterOff L bootDir) (32 + (32 + (32 + 1952))) img
  = concat (boot_bytes efi) ++ make 1952.
Proof. read_dir (clusterOff L bootDir) 27%nat. Qed.

Lemma efi_img : sub (clusterOff L efiFirst) (zlen efi) img = efi.
Proof. read_write 30%nat; try lia. apply sub_all_at; [lia|done]. Qed.

Lemma script_img : sub (clusterOff L (scriptFirst L)) (zlen script) img = script.
Proof. read_write 31%nat; try lia. apply sub_all_at; [lia|done]. Qed.

Ltac unfold_geo :=
  unfold g_data, g_csize, g_root, G;
  cbn [bytesPerSector sectorsPerCluster reservedSectors numFATs rootEntryCount sectorsPerFAT].

(** Reading a chain of the image. *)
Lemma read_at_img first n size :
  (forall i, 0 <= i < n ->
     table L (first + i) = if i =? n - 1 then 4095 else first + i + 1) ->
  2 <= first -> 1 <= n -> first + n <= clusters L + 2 -> 0 <= size <= n * fatClusterSize ->
  read_at img G first size = Some (sub (clusterOff L first) size img).
Proof.
  intros Ht Hf Hn1 Hn Hsz. unfold read_at.
  assert (Hzl : zlen img = totalSectors L * fatSectorSize) by apply zlen_img.
  rewrite (read_chain_ok _ _ _ _ _ n).
  - do 2 f_equal. unfold_geo. layout_facts. lia.
  - intros i Hi. rewrite fat_img; [by apply Ht|]. layout_facts.
    split; [lia|]. zify_div; lia.
  - done.
  - lia.
  - unfold_geo. layout_facts. lia.
  - lia.
  - layout_facts. lia.
  - unfold_geo. unfold_fat. lia.
  - unfold_geo. layout_facts. lia.
  - unfold chain_fuel. layout_facts. lia.
Qed.

Lemma root_dir_img : root_dir img G = concat (root_bytes L script) ++ make 16288.
Proof.
  unfold root_dir, g_root, G. cbn [reservedSectors numFATs sectorsPerFAT bytesPerSector rootEntryCount].
  rewrite <- root_img. f_equal. layout_facts. lia.
Qed.

Lemma read_script_img : zlen script < 2 ^ 32 -> read_file img scriptPath = Some script.
Proof.
  intros Hlen. unfold read_file. rewrite geometry_img. cbn [mbind option_bind].
  fold G. rewrite root_dir_img. unfold read_path, scriptPath. cbn [walk].
  rewrite find_root_script. unfold u32, u16. rewrite !(Z.mod_small (zlen script)) by lia.
  layout_facts. rewrite !(Z.mod_small (scriptFirst L)) by lia.
  rewrite (read_at_img _ (scriptCl L)); unfold_fat; try lia.
  - f_equal. apply script_img.
  - intros i Hi. unfold table, linked. repeat zcase; cbn; lia.
Qed.

(** The two directories take one cluster each. *)
Lemma read_subdir d :
  2 <= d <= 3 -> read_at img G d 2048 = Some (sub (clusterOff L d) 2048 img).
Proof.
  intros Hd. apply (read_at_img d 1); try (layout_facts; lia).
  intros i Hi. replace i with 0 by lia. change (0 =? 1 - 1) with true. layout_facts.
  unfold table, linked, efiFirst. repeat zcase; cbn; lia.
Qed.

Lemma read_efi_img : zlen efi < 2 ^ 32 -> read_file img efiPath = Some efi.
Proof.
  intros Hlen. unfold read_file. rewrite geometry_img. cbn [mbind option_bind].
  fold G. rewrite root_dir_img. unfold read_path, efiPath. cbn [walk].
  rewrite find_root_efi. cbn match. change (g_csize G) with 2048.
  rewrite read_subdir by (unfold_fat; lia).
  change (sub (clusterOff L efiDir) 2048 img)
    with (sub (clusterOff L efiDir) (32 + (32 + (32 + 1952))) img).
  rewrite efi_dir_img, find_efi_boot. cbn match.
  rewrite read_subdir by (unfold_fat; lia).
  change (sub (clusterOff L bootDir) 2048 img)
    with (sub (clusterOff L bootDir) (32 + (32 + (32 + 1952))) img).
  rewrite boot_dir_img, find_boot_efi. unfold u32.
  rewrite !(Z.mod_small (zlen efi)) by lia.
  rewrite (read_at_img _ (efiCl L)); try (layout_facts; lia).
  - f_equal. apply efi_img.
  - intros i Hi. layout_facts. unfold table, linked, efiFirst. repeat zcase; cbn; lia.
Qed.
End built.

(** ** The builder *)

(** What [buildESPImage] returns when it does not report an error. *)
Lemma buildESPImage_eq efi script :
  let L := esp_layout (zlen efi) (zlen script) in
  script <> [] -> clusters L <= fatMaxClusters ->
  exists fat, represents (fatSectors L * fatSectorSize) fat (table L) /\
    layout_ok L /\
    Forall (write_ok (totalSectors L * fatSectorSize)) (image_writes L fat efi script) /\
    buildESPImage efi script
    = Ret (apply_writes (image_writes L fat efi script) (make (totalSectors L * fatSectorSize))).
Proof.
  intros L Hs Hc. assert (HL : layout_ok L) by (apply esp_layout_ok; [lia|lia|done]).
  destruct (build_fat_represents L HL) as (fat & Hfat & Hr). exists fat.
  assert (Hex : executes (totalSectors L * fatSectorSize)
    (write_image L efi script (whole (totalSectors L * fatSectorSize)))
    (image_writes L fat efi script) tt).
  { apply executes_write_image; try done; [apply Hr| |]; apply chainLen_pos; lia. }
  split; [exact Hr|]. split; [exact HL|]. split; [apply Hex|].
  unfold buildESPImage. fold L.
  replace (zlen script =? 0) with false
    by (symmetry; apply Z.eqb_neq; destruct script; [done|cbn; lia]).
  replace (fatMaxClusters <? clusters L) with false by (symmetry; apply Z.ltb_ge; lia).
  apply run_make_executes; [|done].
  destruct HL as [? ? ? ? ? ? ? ? ? ?]. unfold_fat. zify_div; lia.
Qed.

(** The size limit implies that both files are far below 4 GiB. *)
Lemma clusters_small a b :
  0 <= a -> 0 <= b -> clusters (esp_layout a b) <= fatMaxClusters ->
  a < 2 ^ 32 /\ b < 2 ^ 32.
Proof.
  intros Ha Hb Hc. pose proof (chainLen_pos a Ha). pose proof (chainLen_pos b Hb).
  cbn [esp_layout clusters] in Hc. unfold_fat. lia.
Qed.

(** What the image of two files looks like from outside: its length, the
    16-bit sector count and the two files. *)
Lemma buildESPImage_ok efi script :
  script <> [] ->
  clusters (esp_layout (zlen efi) (zlen script)) <= fatMaxClusters ->
  exists img, buildESPImage efi script = Ret img /\
    zlen img = totalSectors (esp_layout (zlen efi) (zlen script)) * fatSectorSize /\
    read_file img efiPath = Some efi /\ read_file img scriptPath = Some script.
Proof.
  intros Hs Hc. destruct (buildESPImage_eq efi script Hs Hc) as (fat & Hr & HL & Hok & E).
  destruct (clusters_small (zlen efi) (zlen script)) as [Hsm1 Hsm2]; [lia|lia|done|].
  pose proof (proj2 (chainLen_pos (zlen efi) ltac:(lia))).
  pose proof (proj2 (chainLen_pos (zlen script) ltac:(lia))).
  eexists. split; [exact E|]. split; [by eapply zlen_img|].
  split; [by eapply read_efi_img | by eapply read_script_img].
Qed.

(** The sector count of an accepted image fits the 16-bit fields it is
    stored in. *)
Lemma totalSectors_bound L : layout_ok L -> 0 < totalSectors L < 2 ^ 16.
Proof.
  intros [? ? ? ? ? ? ? ? ? ?]. unfold_fat. split; [zify_div; lia|]. lia.
Qed.

(** ** Properties of the partition *)

(** C4: Building the EFI System Partition and reading it back with a FAT12
    driver gives both files unchanged: [/EFI/BOOT/BOOTX64.EFI] is the iPXE
    binary and [/autoexec.ipxe], found by its long name, is the script; and
    the builder neither fails nor panics on any pair of files within the
    FAT12 limit. *)
Theorem esp_roundtrip (efi script : bytes) :
  script <> [] ->
  clusters (esp_layout (zlen efi) (zlen script)) <= fatMaxClusters ->
  exists img, buildESPImage efi script = Ret img /\
    read_file img efiPath = Some efi /\ read_file img scriptPath = Some script.
Proof.
  intros Hs Hc. destruct (buildESPImage_ok efi script Hs Hc) as (img & E & _ & H1 & H2).
  by exists img.
Qed.

Lemma esp_roundtrip_witness :
  exists img, buildESPImage "MZ"%string "#!ipxe"%string = Ret img /\
    read_file img efiPath = Some (list_ascii_of_string "MZ") /\
    read_file img scriptPath = Some (list_ascii_of_string "#!ipxe").
Proof. apply esp_roundtrip; [discriminate | vm_compute; discriminate]. Defined.

(** C24: The allocation table: both copies on the volume are the same, every
    cluster of the volume has the entry the layout gives it (the two
    directories end at once, each file is one chain of consecutive clusters
    that ends with the end mark), no cluster in use is marked free, and the
    16-bit sector count in the boot sector is the true size. *)
Theorem esp_allocation (efi script : bytes) :
  let L := esp_layout (zlen efi) (zlen script) in
  script <> [] -> clusters L <= fatMaxClusters ->
  exists img fat, buildESPImage efi script = Ret img /\
    sub 512 (fatSectors L * 512) img = fat /\
    sub (512 + fatSectors L * 512) (fatSectors L * 512) img = fat /\
    (forall c, 0 <= c < clusters L + 2 -> fat_next fat c = table L c) /\
    (forall c, 2 <= c < clusters L + 2 -> fat_next fat c <> 0) /\
    word_at img 19 * 512 = zlen img.
Proof.
  intros L Hs Hc. destruct (buildESPImage_eq efi script Hs Hc) as (fat & Hr & HL & Hok & E).
  fold L in Hr, HL, Hok, E.
  assert (He : zlen efi <= efiCl L * fatClusterSize) by (apply chainLen_pos; lia).
  assert (Hsc : zlen script <= scriptCl L * fatClusterSize) by (apply chainLen_pos; lia).
  assert (Ht : forall c, 0 <= c < clusters L + 2 -> fat_next fat c = table L c).
  { intros c Hc'. apply Hr. destruct HL. split; [lia|]. unfold_fat. zify_div; lia. }
  eexists _, fat. split; [exact E|].
  destruct (fat_copies_img L fat efi script HL Hr He Hsc Hok) as [H1 H2].
  repeat split; try done.
  - intros c Hc'. rewrite Ht by lia. destruct HL. unfold table, linked. unfold_fat.
    repeat zcase; cbn; lia.
  - rewrite (sector_count_img L fat efi script HL Hr He Hsc Hok).
    rewrite (zlen_img L fat efi script HL Hr He Hsc Hok).
    pose proof (totalSectors_bound L HL). unfold u16. rewrite Z.mod_small by lia. done.
Qed.

Lemma esp_allocation_witness :
  let L := esp_layout (zlen "MZ"%string) (zlen "#!ipxe"%string) in
  exists img fat, buildESPImage "MZ"%string "#!ipxe"%string = Ret img /\
    sub 512 (fatSectors L * 512) img = fat /\
    sub (512 + fatSectors L * 512) (fatSectors L * 512) img = fat /\
    (forall c, 0 <= c < clusters L + 2 -> fat_next fat c = table L c) /\
    (forall c, 2 <= c < clusters L + 2 -> fat_next fat c <> 0) /\
    word_at img 19 * 512 = zlen img.
Proof. apply esp_allocation; [discriminate | vm_compute; discriminate]. Defined.

(** [setFAT12] and a FAT12 driver agree: inside the table the store never
    panics, the entry holds the value stored, and every other entry, the one
    that shares a byte with it included, keeps its value. *)
Theorem setFAT12_read (m i v : Z) (fat : bytes) :
  zlen fat = m -> entry_ok m i -> 0 <= v < 4096 ->
  exists fat', setFAT12 (whole m) i v fat = Ret (fat', tt) /\ zlen fat' = m /\
    forall c, entry_ok m c ->
      fat_next fat' c = if c =? i then v else fat_next fat c.
Proof.
  intros Hm Hi Hv.
  destruct (represents_set m i v fat (fat_next fat)) as (fat' & E & Hl & Hr); try done.
  by exists fat'.
Qed.

Lemma setFAT12_read_witness :
  exists fat', setFAT12 (whole 512) 5 2748 (make 512) = Ret (fat', tt) /\
    zlen fat' = 512 /\
    forall c, entry_ok 512 c ->
      fat_next fat' c = if c =? 5 then 2748 else fat_next (make 512) c.
Proof. apply setFAT12_read; [reflexivity | split; vm_compute; congruence | lia]. Defined.
