(* ===== verification/IsoImage.v ===== *)
(** * The UEFI boot ISO ([isoimage.go], first half)

    [Iso] translates the composer: an ISO 9660 volume with one El Torito
    entry for platform EFI that points at the FAT12 partition. *)

From S2P Require Import Prelude GoStrings FatImage.

Module Iso.
Import Fat.

Definition isoSectorSize : Z := 2048.
Definition espBootPath : bytes := "ESP.IMG;1".
Definition lbaPVD : Z := 16.
Definition lbaBoot : Z := 17.
Definition lbaTerm : Z := 18.
Definition lbaCatalog : Z := 19.
Definition lbaRoot : Z := 20.
Definition lbaPathL : Z := 21.
Definition lbaPathM : Z := 22.
Definition lbaESP : Z := 23.

Definition putBoth16 (b : slice) (v : Z) : bufM imgError unit :=
  _ ← PutUint16LE b v;
  b2 ← slice_from b 2; PutUint16BE b2 v.

Definition putBoth32 (b : slice) (v : Z) : bufM imgError unit :=
  _ ← PutUint32LE b v;
  b4 ← slice_from b 4; PutUint32BE b4 v.

(** Fill the slice with spaces, then copy the text over them. *)
Definition padText (dst : slice) (s : bytes) : bufM imgError unit :=
  _ ← copy dst (replicate (Z.to_nat (s_len dst)) (z2b 32));
  _ ← copy dst s; mret tt.

Definition isoDirRecord (id : bytes) (extent size flags : Z) : outcome imgError bytes :=
  let n := 33 + zlen id in
  let n := if n mod 2 =? 1 then n + 1 else n in
  run_make n (fun r =>
    _ ← set r 0 n;
    r2 ← slice_from r 2; _ ← putBoth32 r2 extent;
    r10 ← slice_from r 10; _ ← putBoth32 r10 size;
    r18 ← slice_from r 18; _ ← copy r18 (z2b <$> [100; 1; 1; 0; 0; 0; 0]);
    _ ← set r 25 flags;
    r28 ← slice_from r 28; _ ← putBoth16 r28 1;
    _ ← set r 32 (zlen id);
    r33 ← slice_from r 33; _ ← copy r33 id; mret tt).

Definition isoDate (unset : bool) : bytes :=
  (if unset then "0000000000000000"%string else "2000010100000000"%string) ++ [z2b 0].

(** [order] is true for little-endian. *)
Definition pathTableBytes (order : bool) : outcome imgError bytes :=
  run_make 10 (fun t =>
    _ ← set t 0 1;
    t2 ← slice_from t 2;
    _ ← (if order then PutUint32LE t2 lbaRoot else PutUint32BE t2 lbaRoot);
    t6 ← slice_from t 6;
    if order then PutUint16LE t6 1 else PutUint16BE t6 1).

Definition sector (img : slice) (lba : Z) : bufM imgError slice :=
  slice_range img (lba * isoSectorSize) ((lba + 1) * isoSectorSize).

(** [padText(pvd[lo:hi], s)] *)
Definition pad_range (p : slice) (lo hi : Z) (s : bytes) : bufM imgError unit :=
  d ← slice_range p lo hi; padText d s.

(** [copy(p[lo:], s)] *)
Definition copy_from (p : slice) (lo : Z) (s : bytes) : bufM imgError unit :=
  d ← slice_from p lo; _ ← copy d s; mret tt.

Definition write_pvd (total : Z) (pvd : slice) : bufM imgError unit :=
  rootRec ← lift (isoDirRecord [z2b 0] lbaRoot isoSectorSize 2);
  _ ← set pvd 0 1;
  _ ← copy_from pvd 1 "CD001"%string;
  _ ← set pvd 6 1;
  _ ← pad_range pvd 8 40 ""%string;
  _ ← pad_range pvd 40 72 "IPXE_BOOT"%string;
  p80 ← slice_from pvd 80; _ ← putBoth32 p80 (u32 total);
  p120 ← slice_from pvd 120; _ ← putBoth16 p120 1;
  p124 ← slice_from pvd 124; _ ← putBoth16 p124 1;
  p128 ← slice_from pvd 128; _ ← putBoth16 p128 isoSectorSize;
  pathTable ← lift (pathTableBytes true);
  p132 ← slice_from pvd 132; _ ← putBoth32 p132 (u32 (zlen pathTable));
  p140 ← slice_from pvd 140; _ ← PutUint32LE p140 lbaPathL;
  p148 ← slice_from pvd 148; _ ← PutUint32BE p148 lbaPathM;
  _ ← copy_from pvd 156 rootRec;
  _ ← pad_range pvd 190 318 ""%string;
  _ ← pad_range pvd 318 446 ""%string;
  _ ← pad_range pvd 446 574 ""%string;
  _ ← pad_range pvd 574 702 ""%string;
  _ ← pad_range pvd 702 739 ""%string;
  _ ← pad_range pvd 739 776 ""%string;
  _ ← pad_range pvd 776 813 ""%string;
  _ ← copy_from pvd 813 (isoDate false);
  _ ← copy_from pvd 830 (isoDate false);
  _ ← copy_from pvd 847 (isoDate true);
  _ ← copy_from pvd 864 (isoDate false);
  set pvd 881 1.

Definition write_boot_record (br : slice) : bufM imgError unit :=
  _ ← copy_from br 1 "CD001"%string;
  _ ← set br 6 1;
  _ ← copy_from br 7 "EL TORITO SPECIFICATION"%string;
  b71 ← slice_from br 71; PutUint32LE b71 lbaCatalog.

Definition write_term (term : slice) : bufM imgError unit :=
  _ ← set term 0 255;
  _ ← copy_from term 1 "CD001"%string;
  set term 6 1.

Definition write_validation (cat : slice) : bufM imgError unit :=
  _ ← set cat 0 1;
  _ ← set cat 1 239;
  c4 ← slice_range cat 4 28; _ ← copy c4 "IPXE UEFI BOOT"%string;
  _ ← set cat 30 85;
  set cat 31 170.

(** [for i := 0; i < 32; i += 2 { sum += Uint16(cat[i:]) }] with [k] rounds
    left; [sum] is a [uint16]. *)
Fixpoint sum_loop (cat : slice) (i sum : Z) (k : nat) : bufM imgError Z :=
  match k with
  | O => mret sum
  | S k' =>
      c ← slice_from cat i;
      w ← Uint16LE c;
      sum_loop cat (i + 2) (u16 (sum + w)) k'
  end.

Definition write_boot_entry (espLen sum : Z) (cat : slice) : bufM imgError unit :=
  c28 ← slice_from cat 28; _ ← PutUint16LE c28 (u16 (- sum));
  _ ← set cat 32 136;
  c38 ← slice_from cat 38; _ ← PutUint16LE c38 (u16 (espLen / 512));
  c40 ← slice_from cat 40; PutUint32LE c40 lbaESP.

(** [off += copy(root[off:], rec)] for each record. *)
Fixpoint put_records (root : slice) (off : Z) (recs : list bytes) : bufM imgError unit :=
  match recs with
  | [] => mret tt
  | r :: rs =>
      d ← slice_from root off;
      n ← copy d r;
      put_records root (off + n) rs
  end.

Definition root_records (espLen : Z) : outcome imgError (list bytes) :=
  r1 ← isoDirRecord [z2b 0] lbaRoot isoSectorSize 2;
  r2 ← isoDirRecord [z2b 1] lbaRoot isoSectorSize 2;
  r3 ← isoDirRecord espBootPath lbaESP (u32 espLen) 0;
  mret [r1; r2; r3].

(** The descriptors up to the catalog's validation entry ... *)
Definition write_descriptors (total : Z) (img : slice) : bufM imgError slice :=
  pvd ← sector img lbaPVD; _ ← write_pvd total pvd;
  br ← sector img lbaBoot; _ ← write_boot_record br;
  term ← sector img lbaTerm; _ ← write_term term;
  cat ← sector img lbaCatalog; _ ← write_validation cat;
  mret cat.

(** ... and what follows the checksum. *)
Definition write_rest (esp : bytes) (sum : Z) (img cat : slice) : bufM imgError unit :=
  _ ← write_boot_entry (zlen esp) sum cat;
  root ← sector img lbaRoot;
  recs ← lift (root_records (zlen esp));
  _ ← put_records root 0 recs;
  pathTable ← lift (pathTableBytes true);
  sl ← sector img lbaPathL; _ ← copy sl pathTable;
  pathTableM ← lift (pathTableBytes false);
  sm ← sector img lbaPathM; _ ← copy sm pathTableM;
  copy_from img (lbaESP * isoSectorSize) esp.

Definition espSectors (espLen : Z) : Z := (espLen + isoSectorSize - 1) / isoSectorSize.

Definition write_iso (total : Z) (esp : bytes) (img : slice) : bufM imgError unit :=
  cat ← write_descriptors total img;
  sum ← sum_loop cat 0 0 16;
  write_rest esp sum img cat.

Definition buildBootISO (efi script : bytes) : outcome imgError bytes :=
  if zlen efi =? 0 then Err EmptyEFI
  else
    esp ← buildESPImage efi script;
    let total := lbaESP + espSectors (zlen esp) in
    run_make (total * isoSectorSize) (write_iso total esp).

End Iso.

Example iso_small :
  match Iso.buildBootISO "MZ"%string "#!ipxe"%string with
  | Ret b => zlen b | _ => -1 end = 73728.
Proof. vm_compute. reflexivity. Qed.
