(* ===== verification/IsoReader.v ===== *)
(** * What firmware finds on the boot ISO

    [eltorito_image] follows the El Torito path as UEFI firmware does: boot
    record, boot catalog with its checksum, default entry.  [iso_file] reads
    a file of the ISO 9660 root directory.  Both lead to the partition that
    was built. *)

From S2P Require Import Prelude GoStrings FatImage FatTable FatReader IsoImage.
Import Fat FatFacts Iso.

(** ** Readers *)

(** The sum of the sixteen little-endian words of a 32-byte entry. *)
Definition entry_sum (e : bytes) : Z :=
  u16 (foldl (fun s i => s + word_at e (2 * Z.of_nat i)) 0 (seq 0 16)).

Definition valid_boot_record (br : bytes) : bool :=
  (byte_at br 0 =? 0) && bool_decide (sub 1 5 br = "CD001"%string)
  && bool_decide (sub 7 23 br = "EL TORITO SPECIFICATION"%string).

(** A validation entry for platform EFI followed by a bootable entry without
    emulation. *)
Definition valid_catalog (cat : bytes) : bool :=
  (byte_at cat 0 =? 1) && (byte_at cat 1 =? 239)
  && (byte_at cat 30 =? 85) && (byte_at cat 31 =? 170) && (entry_sum cat =? 0)
  && (byte_at cat 32 =? 136) && (byte_at cat 33 =? 0).

Definition eltorito_image (iso : bytes) : option bytes :=
  let br := sub (17 * 2048) 2048 iso in
  if valid_boot_record br then
    let cat := sub (dword_at br 71 * 2048) 2048 iso in
    if valid_catalog cat
    then Some (sub (dword_at cat 40 * 2048) (word_at cat 38 * 512) iso) else None
  else None.

(** The record of the file [name] in a directory of ISO 9660 records. *)
Fixpoint find_record (fuel : nat) (dir : bytes) (name : bytes) : option bytes :=
  match fuel with
  | O => None
  | S f =>
      let n := byte_at dir 0 in
      if n =? 0 then None
      else if bool_decide (sub 33 (byte_at dir 32) dir = name)
      then Some (sub 0 n dir)
      else find_record f (drop (Z.to_nat n) dir) name
  end.

Definition iso_file (iso name : bytes) : option bytes :=
  let pvd := sub (16 * 2048) 2048 iso in
  if (byte_at pvd 0 =? 1) && bool_decide (sub 1 5 pvd = "CD001"%string) then
    let dir := sub (dword_at pvd 158 * 2048) (dword_at pvd 166) iso in
    match find_record 64 dir name with
    | Some rec => Some (sub (dword_at rec 2 * 2048) (dword_at rec 10) iso)
    | None => None
    end
  else None.

(** ** The writes of the composer, block by block *)

Definition spaces (n : Z) : bytes := replicate (Z.to_nat n) (z2b 32).

Definition root_rec (id : Z) : bytes :=
  z2b <$> [34; 0; 20; 0; 0; 0; 0; 0; 0; 20; 0; 8; 0; 0; 0; 0; 8; 0; 100; 1; 1; 0; 0; 0; 0;
           2; 0; 0; 1; 0; 0; 1; 1; id].

Definition esp_rec (size : Z) : bytes :=
  (z2b <$> [42; 0; 23; 0; 0; 0; 0; 0; 0; 23]) ++ le32 size ++ be32 size
  ++ (z2b <$> [100; 1; 1; 0; 0; 0; 0; 0; 0; 0; 1; 0; 0; 1; 9]) ++ espBootPath.

Definition path_table (order : bool) : bytes :=
  z2b <$> (if order then [1; 0; 20; 0; 0; 0; 1; 0; 0; 0] else [1; 0; 0; 0; 0; 20; 0; 1; 0; 0]).

Definition pvd_writes (total : Z) : list write :=
  [(0, [z2b 1]); (1, list_ascii_of_string "CD001"); (6, [z2b 1]);
   (8, spaces 32); (8, []); (40, spaces 32); (40, list_ascii_of_string "IPXE_BOOT");
   (80, le32 (u32 total)); (84, be32 (u32 total)); (120, le16 1); (122, be16 1);
   (124, le16 1); (126, be16 1); (128, le16 2048); (130, be16 2048);
   (132, le32 10); (136, be32 10); (140, le32 21); (148, be32 22); (156, root_rec 0);
   (190, spaces 128); (190, []); (318, spaces 128); (318, []); (446, spaces 128); (446, []);
   (574, spaces 128); (574, []); (702, spaces 37); (702, []); (739, spaces 37); (739, []);
   (776, spaces 37); (776, []); (813, isoDate false); (830, isoDate false);
   (847, isoDate true); (864, isoDate false); (881, [z2b 1])].

Definition br_writes : list write :=
  [(1, list_ascii_of_string "CD001"); (6, [z2b 1]);
   (7, list_ascii_of_string "EL TORITO SPECIFICATION"); (71, le32 19)].

Definition term_writes : list write :=
  [(0, [z2b 255]); (1, list_ascii_of_string "CD001"); (6, [z2b 1])].

Definition validation_writes : list write :=
  [(0, [z2b 1]); (1, [z2b 239]); (4, list_ascii_of_string "IPXE UEFI BOOT");
   (30, [z2b 85]); (31, [z2b 170])].

Definition entry_writes (espLen sum : Z) : list write :=
  [(28, le16 (u16 (- sum))); (32, [z2b 136]); (38, le16 (u16 (espLen / 512))); (40, le32 23)].

Definition root_writes (espLen : Z) : list write :=
  [(0, root_rec 0); (34, root_rec 1); (68, esp_rec (u32 espLen))].

Definition descriptor_writes (total : Z) : list write :=
  shift 32768 (pvd_writes total) ++ shift 34816 br_writes ++ shift 36864 term_writes
  ++ shift 38912 validation_writes.

Definition rest_writes (esp : bytes) (sum : Z) : list write :=
  shift 38912 (entry_writes (zlen esp) sum) ++ shift 40960 (root_writes (zlen esp))
  ++ shift 43008 [(0, path_table true)] ++ shift 45056 [(0, path_table false)]
  ++ [(47104, esp)].

Lemma root_rec_eq : isoDirRecord [z2b 0] lbaRoot isoSectorSize 2 = Ret (root_rec 0).
Proof. reflexivity. Qed.

Lemma root_records_eq espLen :
  root_records espLen = Ret [root_rec 0; root_rec 1; esp_rec (u32 espLen)].
Proof. reflexivity. Qed.

Lemma pathTableBytes_eq order : pathTableBytes order = Ret (path_table order).
Proof. by destruct order. Qed.

Lemma length_root_rec id : length (root_rec id) = 34%nat.
Proof. done. Qed.
Lemma length_esp_rec size : length (esp_rec size) = 42%nat.
Proof. done. Qed.
Lemma length_path_table order : length (path_table order) = 10%nat.
Proof. by destruct order. Qed.
Lemma length_isoDate u : length (isoDate u) = 17%nat.
Proof. by destruct u. Qed.
#[export] Hint Rewrite length_root_rec length_esp_rec length_path_table length_isoDate : len.

(** ** Execution *)

Lemma executes_copy_from n p lo s :
  0 <= s_off p -> s_off p + s_len p <= n -> 0 <= lo -> lo + zlen s <= s_len p ->
  executes n (copy_from p lo s) [(s_off p + lo, s)] tt.
Proof. intros. eapply executes_eq; [unfold copy_from; buf_exec|done]. Qed.

Lemma executes_pad_range n p lo hi s :
  0 <= s_off p -> 0 <= lo <= hi -> hi <= s_cap p -> s_off p + hi <= n ->
  zlen s <= hi - lo ->
  executes n (pad_range p lo hi s) [(s_off p + lo, spaces (hi - lo)); (s_off p + lo, s)] tt.
Proof.
  intros. eapply executes_eq; [unfold pad_range, padText; buf_exec|done].
Qed.

Lemma executes_putBoth16 n s v :
  0 <= s_off s -> s_off s + s_len s <= n -> 4 <= s_len s ->
  executes n (putBoth16 s v) [(s_off s, le16 v); (s_off s + 2, be16 v)] tt.
Proof. intros. eapply executes_eq; [unfold putBoth16; buf_exec|done]. Qed.

Lemma executes_putBoth32 n s v :
  0 <= s_off s -> s_off s + s_len s <= n -> 8 <= s_len s ->
  executes n (putBoth32 s v) [(s_off s, le32 v); (s_off s + 4, be32 v)] tt.
Proof. intros. eapply executes_eq; [unfold putBoth32; buf_exec|done]. Qed.

Ltac iso_step :=
  lazymatch goal with
  | |- executes _ (mbind _ _) _ _ => eapply executes_bind; [iso_step | cbn beta]
  | |- executes _ (copy_from _ _ _) _ _ => apply executes_copy_from; buf_lia
  | |- executes _ (pad_range _ _ _ _) _ _ => apply executes_pad_range; buf_lia
  | |- executes _ (putBoth16 _ _) _ _ => apply executes_putBoth16; buf_lia
  | |- executes _ (putBoth32 _ _) _ _ => apply executes_putBoth32; buf_lia
  | |- executes _ (lift (isoDirRecord _ _ _ _)) _ _ => apply executes_lift, root_rec_eq
  | |- executes _ (lift (root_records _)) _ _ => apply executes_lift, root_records_eq
  | |- executes _ (lift (pathTableBytes _)) _ _ => apply executes_lift, pathTableBytes_eq
  | |- _ => buf_step
  end.

Ltac iso_exec := repeat iso_step.

(** Equality of two lists of writes whose offsets are equal by arithmetic. *)
Ltac writes_eq :=
  cbn [shift fmap list_fmap app fst snd s_off s_len s_cap whole];
  repeat (apply (f_equal2 cons); [apply (f_equal2 pair); [lia | reflexivity] |]);
  reflexivity.

Lemma executes_pvd n total o cap :
  0 <= o -> o + 2048 <= n -> 2048 <= cap ->
  executes n (write_pvd total (Slice o 2048 cap)) (shift o (pvd_writes total)) tt.
Proof.
  intros. eapply executes_eq; [unfold write_pvd; iso_exec|].
  unfold pvd_writes. writes_eq.
Qed.

Lemma executes_boot_record n o cap :
  0 <= o -> o + 2048 <= n -> 2048 <= cap ->
  executes n (write_boot_record (Slice o 2048 cap)) (shift o br_writes) tt.
Proof.
  intros. eapply executes_eq; [unfold write_boot_record; iso_exec|].
  unfold br_writes. writes_eq.
Qed.

Lemma executes_term n o cap :
  0 <= o -> o + 2048 <= n -> 2048 <= cap ->
  executes n (write_term (Slice o 2048 cap)) (shift o term_writes) tt.
Proof.
  intros. eapply executes_eq; [unfold write_term; iso_exec|].
  unfold term_writes. writes_eq.
Qed.

Lemma executes_validation n o cap :
  0 <= o -> o + 2048 <= n -> 2048 <= cap ->
  executes n (write_validation (Slice o 2048 cap)) (shift o validation_writes) tt.
Proof.
  intros. eapply executes_eq; [unfold write_validation; iso_exec|].
  unfold validation_writes. writes_eq.
Qed.

Lemma executes_boot_entry n espLen sum o cap :
  0 <= o -> o + 2048 <= n -> 2048 <= cap ->
  executes n (write_boot_entry espLen sum (Slice o 2048 cap))
    (shift o (entry_writes espLen sum)) tt.
Proof.
  intros. eapply executes_eq; [unfold write_boot_entry; iso_exec|].
  unfold entry_writes. writes_eq.
Qed.

Lemma executes_root n espLen o cap :
  0 <= o -> o + 2048 <= n -> 2048 <= cap ->
  executes n (put_records (Slice o 2048 cap) 0
    [root_rec 0; root_rec 1; esp_rec (u32 espLen)]) (shift o (root_writes espLen)) tt.
Proof.
  intros. eapply executes_eq; [cbn [put_records]; iso_exec|].
  unfold root_writes. writes_eq.
Qed.

Lemma executes_sector n N lba :
  0 <= lba -> (lba + 1) * 2048 <= N ->
  executes n (sector (whole N) lba) []
    (Slice (lba * 2048) 2048 (N - lba * 2048)).
Proof.
  intros H1 H2. unfold sector, isoSectorSize.
  replace 2048 with ((lba + 1) * 2048 - lba * 2048) at 4 by lia.
  apply (executes_slice_range _ (whole N)); cbn; lia.
Qed.

Lemma executes_descriptors N total :
  47104 <= N ->
  executes N (write_descriptors total (whole N)) (descriptor_writes total)
    (Slice 38912 2048 (N - 38912)).
Proof.
  intros HN. unfold write_descriptors, lbaPVD, lbaBoot, lbaTerm, lbaCatalog.
  eapply executes_eq.
  { eapply executes_bind; [apply executes_sector; lia|cbn beta].
    eapply executes_bind; [apply executes_pvd; lia|cbn beta].
    eapply executes_bind; [apply executes_sector; lia|cbn beta].
    eapply executes_bind; [apply executes_boot_record; lia|cbn beta].
    eapply executes_bind; [apply executes_sector; lia|cbn beta].
    eapply executes_bind; [apply executes_term; lia|cbn beta].
    eapply executes_bind; [apply executes_sector; lia|cbn beta].
    eapply executes_bind; [apply executes_validation; lia|cbn beta].
    apply executes_ret. }
  cbn [app]. by rewrite app_nil_r.
Qed.

Lemma executes_rest N esp sum :
  47104 + zlen esp <= N ->
  executes N (write_rest esp sum (whole N) (Slice 38912 2048 (N - 38912)))
    (rest_writes esp sum) tt.
Proof.
  intros HN. unfold write_rest, lbaRoot, lbaPathL, lbaPathM.
  eapply executes_eq.
  { eapply executes_bind; [apply executes_boot_entry; lia|cbn beta].
    eapply executes_bind; [apply executes_sector; lia|cbn beta].
    eapply executes_bind; [iso_step|cbn beta].
    eapply executes_bind; [apply executes_root; lia|cbn beta].
    eapply executes_bind; [iso_step|cbn beta].
    eapply executes_bind; [apply executes_sector; lia|cbn beta].
    eapply executes_bind; [iso_step|cbn beta].
    eapply executes_bind; [iso_step|cbn beta].
    eapply executes_bind; [apply executes_sector; lia|cbn beta].
    eapply executes_bind; [iso_step|cbn beta].
    change (lbaESP * isoSectorSize) with 47104. iso_step. }
  reflexivity.
Qed.

(** ** The checksum *)

Fixpoint sum_words (c : bytes) (i sum : Z) (k : nat) : Z :=
  match k with
  | O => sum
  | S k' => sum_words c (i + 2) (u16 (sum + word_at c i)) k'
  end.

Lemma sum_loop_run cat i sum k b :
  0 <= s_off cat -> 32 <= s_len cat -> 0 <= i -> i + 2 * Z.of_nat k <= 32 ->
  sum_loop cat i sum k b = Ret (b, sum_words (sub (s_off cat) 32 b) i sum k).
Proof.
  intros Ho Hl. revert i sum. induction k as [|k IH]; intros i sum Hi Hk; [done|].
  cbn [sum_loop sum_words]. unfold mbind, bufM_bind, slice_from, Uint16LE.
  rewrite (proj2 (Z.leb_le 0 i)), (proj2 (Z.leb_le i (s_len cat))) by lia.
  cbn [andb s_len s_off]. rewrite (proj2 (Z.leb_le 2 (s_len cat - i))) by lia.
  rewrite IH by lia. unfold word_at. rewrite sub_sub by lia. done.
Qed.

(** The validation entry is constant, and so is its checksum. *)
Definition validation_sum : Z := sum_words (apply_writes validation_writes (make 32)) 0 0 16.

Lemma writes_ok_pvd total : Forall (write_ok 2048) (pvd_writes total).
Proof. repeat (apply Forall_cons_2; [by split|]). apply Forall_nil_2. Qed.
Lemma writes_ok_br : Forall (write_ok 2048) br_writes.
Proof. repeat (apply Forall_cons_2; [by split|]). apply Forall_nil_2. Qed.
Lemma writes_ok_term : Forall (write_ok 2048) term_writes.
Proof. repeat (apply Forall_cons_2; [by split|]). apply Forall_nil_2. Qed.
Lemma writes_ok_validation : Forall (write_ok 32) validation_writes.
Proof. repeat (apply Forall_cons_2; [by split|]). apply Forall_nil_2. Qed.
Lemma writes_ok_entry a b : Forall (write_ok 2048) (entry_writes a b).
Proof. repeat (apply Forall_cons_2; [by split|]). apply Forall_nil_2. Qed.
Lemma writes_ok_root a : Forall (write_ok 2048) (root_writes a).
Proof. repeat (apply Forall_cons_2; [by split|]). apply Forall_nil_2. Qed.
Lemma writes_ok_path o : Forall (write_ok 2048) [(0, path_table o)].
Proof. apply Forall_cons_2; [split; cbn; len|]. apply Forall_nil_2. Qed.

Create HintDb isodb.
#[export] Hint Resolve writes_ok_pvd writes_ok_br writes_ok_term writes_ok_validation
  writes_ok_entry writes_ok_root writes_ok_path : isodb.

(** Disjointness of a window from whole blocks. *)
Ltac blocks_disjoint :=
  unfold descriptor_writes, rest_writes; repeat (apply Forall_app; split);
  first
    [ eapply shift_disjoint; [solve [auto with isodb] | lia]
    | repeat constructor; unfold disjoint_from; cbn [fst snd]; lia ].

(** Running the composer on the partition [esp]. *)
Lemma write_iso_run N total esp :
  47104 + zlen esp <= N ->
  write_iso total esp (whole N) (make N)
  = Ret (apply_writes (descriptor_writes total ++ rest_writes esp validation_sum) (make N), tt).
Proof.
  intros HN. destruct (executes_descriptors N total ltac:(lia)) as [Hok1 H1].
  destruct (executes_rest N esp validation_sum HN) as [Hok2 H2].
  unfold write_iso, mbind, bufM_bind. rewrite H1 by (apply zlen_make; lia).
  rewrite sum_loop_run by (cbn; lia). cbn [s_off].
  assert (Hs : sub 38912 32 (apply_writes (descriptor_writes total) (make N))
    = apply_writes validation_writes (make 32)).
  { unfold descriptor_writes in *. rewrite !app_assoc, <- (app_nil_r (shift 38912 _)) in *.
    rewrite <- !app_assoc in *.
    rewrite (app_assoc (shift 32768 _)), (app_assoc _ (shift 36864 _)) in *.
    apply block_read; try done; try lia; auto with isodb; blocks_disjoint. }
  rewrite Hs. fold validation_sum. rewrite apply_writes_app.
  apply H2. rewrite zlen_apply_writes; rewrite zlen_make; try done; lia.
Qed.

(** ** Reading the volume back *)

Section volume.
Context (N total : Z) (esp : bytes).
Context (HN : 47104 + zlen esp <= N).

Let ws := descriptor_writes total ++ rest_writes esp validation_sum.
Let iso := apply_writes ws (make N).

Lemma iso_ok : Forall (write_ok N) ws.
Proof.
  apply Forall_app. split; [apply (executes_descriptors N total); lia|].
  by apply (executes_rest N esp validation_sum).
Qed.

Lemma zlen_iso : zlen iso = N.
Proof.
  unfold iso. rewrite zlen_apply_writes; rewrite zlen_make by lia; [done|]. apply iso_ok.
Qed.

(** The block at offset [o], given the writes before and after it. *)
Ltac read_block ws1 ws2 :=
  unfold iso; pose proof iso_ok as Hok;
  match goal with
  | |- sub ?o _ (apply_writes _ _) = apply_writes ?w _ =>
      replace ws with (ws1 ++ shift o w ++ ws2) in *
        by (unfold ws, descriptor_writes, rest_writes; rewrite ?shift_app, <- ?app_assoc;
            reflexivity)
  end;
  apply block_read; try done; try lia; auto with isodb; try blocks_disjoint.

Lemma pvd_iso : sub 32768 2048 iso = apply_writes (pvd_writes total) (make 2048).
Proof.
  read_block (@nil write)
    (shift 34816 br_writes ++ shift 36864 term_writes ++ shift 38912 validation_writes
     ++ rest_writes esp validation_sum).
Qed.

Lemma br_iso : sub 34816 2048 iso = apply_writes br_writes (make 2048).
Proof.
  read_block (shift 32768 (pvd_writes total))
    (shift 36864 term_writes ++ shift 38912 validation_writes
     ++ rest_writes esp validation_sum).
Qed.

Definition catalog_writes : list write :=
  validation_writes ++ entry_writes (zlen esp) validation_sum.

Lemma writes_ok_catalog : Forall (write_ok 2048) catalog_writes.
Proof. repeat (apply Forall_cons_2; [by split|]). apply Forall_nil_2. Qed.
#[local] Hint Resolve writes_ok_catalog : isodb.

Lemma cat_iso : sub 38912 2048 iso = apply_writes catalog_writes (make 2048).
Proof.
  read_block
    (shift 32768 (pvd_writes total) ++ shift 34816 br_writes ++ shift 36864 term_writes)
    (shift 40960 (root_writes (zlen esp)) ++ shift 43008 [(0, path_table true)]
     ++ shift 45056 [(0, path_table false)] ++ [(47104, esp)]).
Qed.

Lemma root_iso : sub 40960 2048 iso = apply_writes (root_writes (zlen esp)) (make 2048).
Proof.
  read_block
    (descriptor_writes total ++ shift 38912 (entry_writes (zlen esp) validation_sum))
    (shift 43008 [(0, path_table true)]
     ++ shift 45056 [(0, path_table false)] ++ [(47104, esp)]).
Qed.

Lemma esp_iso : sub 47104 (zlen esp) iso = esp.
Proof.
  assert (E : sub 47104 (zlen esp) iso = apply_writes [(0, esp)] (make (zlen esp))).
  { read_block
      (descriptor_writes total ++ shift 38912 (entry_writes (zlen esp) validation_sum)
       ++ shift 40960 (root_writes (zlen esp)) ++ shift 43008 [(0, path_table true)]
       ++ shift 45056 [(0, path_table false)]) (@nil write). }
  rewrite E. cbn. unfold splice. cbn [Z.to_nat take app].
  rewrite drop_ge, app_nil_r; [done|].
  unfold make. rewrite length_replicate. lia.
Qed.

Lemma catalog_check x y :
  let cat := apply_writes (validation_writes ++
    [(28, le16 (u16 (- validation_sum))); (32, [z2b 136]); (38, [x; y]); (40, le32 23)])
    (make 2048) in
  (valid_catalog cat, dword_at cat 40, sub 38 2 cat) = (true, 23, [x; y]).
Proof. vm_compute. reflexivity. Qed.

(** Firmware boots the partition: the boot record leads to the catalog, the
    catalog is valid and points at the whole partition. *)
Lemma eltorito_iso :
  zlen esp mod 512 = 0 -> zlen esp / 512 < 2 ^ 16 -> eltorito_image iso = Some esp.
Proof.
  intros Hm Hb. unfold eltorito_image.
  change (17 * 2048) with 34816. rewrite br_iso.
  change (valid_boot_record (apply_writes br_writes (make 2048))) with true.
  change (dword_at (apply_writes br_writes (make 2048)) 71 * 2048) with 38912.
  cbn match. rewrite cat_iso. unfold catalog_writes, entry_writes, word_at.
  pose proof (catalog_check (z2b (u16 (zlen esp / 512)))
    (z2b (Z.shiftr (u16 (zlen esp / 512)) 8))) as E. cbn zeta in E.
  fold (le16 (u16 (zlen esp / 512))) in E.
  apply pair_eq in E as [[E1 E2]%pair_eq E3]. rewrite E1, E2, E3. cbn match.
  rewrite le_dec_le16. unfold u16. rewrite Z.mod_mod, Z.mod_small by (zify_div; lia).
  f_equal. rewrite <- esp_iso at 2. f_equal. zify_div; lia.
Qed.

Lemma root_check x0 x1 x2 x3 y0 y1 y2 y3 :
  let rec := (z2b <$> [42; 0; 23; 0; 0; 0; 0; 0; 0; 23])
     ++ [x0; x1; x2; x3] ++ [y0; y1; y2; y3]
     ++ (z2b <$> [100; 1; 1; 0; 0; 0; 0; 0; 0; 0; 1; 0; 0; 1; 9]) ++ espBootPath in
  find_record 64 (apply_writes [(0, root_rec 0); (34, root_rec 1); (68, rec)] (make 2048))
    espBootPath = Some rec.
Proof. vm_compute. reflexivity. Qed.

Lemma pvd_check x0 x1 x2 x3 y0 y1 y2 y3 :
  let pvd := apply_writes
    (take 7 (pvd_writes 0) ++ (80, [x0; x1; x2; x3]) :: (84, [y0; y1; y2; y3])
     :: drop 9 (pvd_writes 0)) (make 2048) in
  ((byte_at pvd 0 =? 1) && bool_decide (sub 1 5 pvd = "CD001"%string),
   dword_at pvd 158, dword_at pvd 166, sub 80 4 pvd, sub 84 4 pvd)
  = (true, 20, 2048, [x0; x1; x2; x3], [y0; y1; y2; y3]).
Proof. vm_compute. reflexivity. Qed.

(** The volume descriptor: identification, root directory, and the volume
    size in both byte orders. *)
Lemma pvd_fields :
  let pvd := sub 32768 2048 iso in
  ((byte_at pvd 0 =? 1) && bool_decide (sub 1 5 pvd = "CD001"%string),
   dword_at pvd 158, dword_at pvd 166, sub 80 4 pvd, sub 84 4 pvd)
  = (true, 20, 2048, le32 (u32 total), be32 (u32 total)).
Proof. cbn zeta. rewrite pvd_iso. apply pvd_check. Qed.

(** The partition is also the file ESP.IMG of the volume. *)
Lemma file_iso : zlen esp < 2 ^ 32 -> iso_file iso espBootPath = Some esp.
Proof.
  intros Hl. unfold iso_file. change (16 * 2048) with 32768.
  pose proof pvd_fields as E. cbn zeta in E.
  apply pair_eq in E as [[[[E1 E2]%pair_eq E3]%pair_eq _]%pair_eq _].
  rewrite E1, E2, E3. cbn match. change (20 * 2048) with 40960. rewrite root_iso.
  unfold root_writes, esp_rec, le32, be32. rewrite root_check.
  change (Some (sub 47104 (le_dec (le32 (u32 (zlen esp)))) iso) = Some esp).
  rewrite le_dec_le32. unfold u32. rewrite Z.mod_mod, Z.mod_small by lia.
  by rewrite esp_iso.
Qed.
End volume.

(** ** The composer *)

Lemma Ret_inj {E A} (a b : A) : Ret (E := E) a = Ret b -> a = b.
Proof. by injection 1. Qed.

(** The partition as an image of whole 512-byte sectors, within FAT12 limits. *)
Lemma esp_size efi script esp :
  buildESPImage efi script = Ret esp -> script <> [] ->
  clusters (esp_layout (zlen efi) (zlen script)) <= fatMaxClusters ->
  exists k, zlen esp = k * 512 /\ 0 < k < 2 ^ 16.
Proof.
  intros E Hs Hc. destruct (buildESPImage_ok efi script Hs Hc) as (img & E' & Hl & _).
  rewrite E in E'. injection E' as <-.
  eexists. split; [exact Hl|]. apply totalSectors_bound, esp_layout_ok; [lia..|done].
Qed.

Lemma buildBootISO_eq efi script :
  efi <> [] -> script <> [] ->
  clusters (esp_layout (zlen efi) (zlen script)) <= fatMaxClusters ->
  exists esp, buildESPImage efi script = Ret esp /\
    let total := lbaESP + espSectors (zlen esp) in
    47104 + zlen esp <= total * 2048 /\
    buildBootISO efi script
    = Ret (apply_writes (descriptor_writes total ++ rest_writes esp validation_sum)
             (make (total * 2048))).
Proof.
  intros He Hs Hc. destruct (buildESPImage_ok efi script Hs Hc) as (esp & E & _).
  exists esp. split; [done|]. cbn zeta.
  assert (Hb : 47104 + zlen esp <= (lbaESP + espSectors (zlen esp)) * 2048)
    by (unfold lbaESP, espSectors, isoSectorSize; zify_div; lia).
  split; [done|]. unfold buildBootISO.
  replace (zlen efi =? 0) with false
    by (symmetry; apply Z.eqb_neq; destruct efi; [done|cbn; lia]).
  rewrite E. cbn [mbind outcome_bind]. unfold run_make, isoSectorSize.
  by rewrite write_iso_run.
Qed.

(** ** Properties of the boot ISO *)

(** Reading back what was composed. *)
Lemma buildBootISO_boots (efi script : bytes) :
  efi <> [] -> script <> [] ->
  clusters (esp_layout (zlen efi) (zlen script)) <= fatMaxClusters ->
  exists iso esp, buildBootISO efi script = Ret iso /\
    eltorito_image iso = Some esp /\
    read_file esp efiPath = Some efi /\ read_file esp scriptPath = Some script.
Proof.
  intros He Hs Hc.
  destruct (buildBootISO_eq efi script He Hs Hc) as (esp & E & HN & Eiso).
  destruct (buildESPImage_ok efi script Hs Hc) as (esp' & E' & _ & H1 & H2).
  rewrite E in E'. injection E' as <-.
  destruct (esp_size efi script esp E Hs Hc) as (k & Hk & Hk').
  eexists _, esp. split; [exact Eiso|]. split; [|done].
  apply eltorito_iso; [done|..]; rewrite Hk; zify_div; lia.
Qed.

(** C3: A composed ISO boots the node's script: from the El Torito boot
    record through the checksummed catalog, firmware reaches a FAT12
    partition whose [/EFI/BOOT/BOOTX64.EFI] is the iPXE binary and whose
    [/autoexec.ipxe] is the script. *)
Theorem boot_iso_boots (efi script : bytes) :
  efi <> [] -> script <> [] ->
  clusters (esp_layout (zlen efi) (zlen script)) <= fatMaxClusters ->
  exists iso esp, buildBootISO efi script = Ret iso /\
    eltorito_image iso = Some esp /\
    read_file esp efiPath = Some efi /\ read_file esp scriptPath = Some script.
Proof. apply buildBootISO_boots. Qed.

Lemma boot_iso_boots_witness :
  exists iso esp, buildBootISO "MZ"%string "#!ipxe"%string = Ret iso /\
    eltorito_image iso = Some esp /\
    read_file esp efiPath = Some (list_ascii_of_string "MZ") /\
    read_file esp scriptPath = Some (list_ascii_of_string "#!ipxe").
Proof.
  apply boot_iso_boots; [discriminate | discriminate | vm_compute; discriminate].
Defined.

(** C26: The same ISO is a consistent ISO 9660 volume: the file [ESP.IMG;1] of
    its root directory is byte for byte the partition, and the volume size
    in the primary descriptor, in both byte orders, is the size of the
    image in sectors. *)
Theorem boot_iso_volume (efi script : bytes) :
  efi <> [] -> script <> [] ->
  clusters (esp_layout (zlen efi) (zlen script)) <= fatMaxClusters ->
  exists iso esp, buildBootISO efi script = Ret iso /\ buildESPImage efi script = Ret esp /\
    iso_file iso espBootPath = Some esp /\
    dword_at iso (16 * 2048 + 80) * 2048 = zlen iso /\
    be_dec (sub (16 * 2048 + 84) 4 iso) * 2048 = zlen iso.
Proof.
  intros He Hs Hc.
  destruct (buildBootISO_eq efi script He Hs Hc) as (esp & E & HN & Eiso).
  destruct (esp_size efi script esp E Hs Hc) as (k & Hk & Hk').
  set (total := lbaESP + espSectors (zlen esp)) in *. cbn zeta in HN, Eiso.
  eexists _, esp. split; [exact Eiso|]. split; [done|].
  split; [apply file_iso; [done|lia]|].
  pose proof (pvd_fields (total * 2048) total esp HN) as F. cbn zeta in F.
  apply pair_eq in F as [[_ F4]%pair_eq F5].
  rewrite sub_sub in F4, F5 by lia.
  assert (Ht : u32 (u32 total) = total).
  { unfold u32. rewrite Z.mod_mod by lia. apply Z.mod_small.
    subst total. unfold lbaESP, espSectors, isoSectorSize. rewrite Hk. zify_div; lia. }
  rewrite zlen_iso by done. unfold dword_at.
  change (16 * 2048 + 80) with (32768 + 80). change (16 * 2048 + 84) with (32768 + 84).
  by rewrite F4, F5, le_dec_le32, be_dec_be32, Ht.
Qed.

Lemma boot_iso_volume_witness :
  exists iso esp, buildBootISO "MZ"%string "#!ipxe"%string = Ret iso /\
    buildESPImage "MZ"%string "#!ipxe"%string = Ret esp /\
    iso_file iso espBootPath = Some esp /\
    dword_at iso (16 * 2048 + 80) * 2048 = zlen iso /\
    be_dec (sub (16 * 2048 + 84) 4 iso) * 2048 = zlen iso.
Proof.
  apply boot_iso_volume; [discriminate | discriminate | vm_compute; discriminate].
Defined.

(** Every case of the composer. *)
Lemma buildBootISO_cases (efi script : bytes) :
  let cl := clusters (esp_layout (zlen efi) (zlen script)) in
  match buildBootISO efi script with
  | Err EmptyEFI => efi = []
  | Err EmptyScript => efi <> [] /\ script = []
  | Err (TooManyClusters c) => efi <> [] /\ script <> [] /\ c = cl /\ fatMaxClusters < cl
  | Ret iso => efi <> [] /\ script <> [] /\ cl <= fatMaxClusters /\ zlen iso mod 2048 = 0
  | Panic => False
  end.
Proof.
  intros cl. destruct (decide (efi = [])) as [->|He]; [done|].
  assert (Hz : (zlen efi =? 0) = false)
    by (apply Z.eqb_neq; destruct efi; [done|cbn; lia]).
  destruct (decide (script = [])) as [->|Hs].
  { unfold buildBootISO. by rewrite Hz. }
  destruct (Z.ltb_spec fatMaxClusters cl) as [Hc|Hc].
  - unfold buildBootISO. rewrite Hz. unfold buildESPImage.
    replace (zlen script =? 0) with false
      by (symmetry; apply Z.eqb_neq; destruct script; [done|cbn; lia]).
    fold cl. by rewrite (proj2 (Z.ltb_lt _ _) Hc).
  - destruct (buildBootISO_eq efi script He Hs Hc) as (esp & _ & HN & ->).
    cbn zeta in HN. rewrite zlen_iso by done. repeat split; try done.
    by rewrite Z.mod_mul.
Qed.

(** Whatever the composer returns can be booted. *)
Lemma buildBootISO_Ret efi script iso :
  buildBootISO efi script = Ret iso ->
  exists esp, eltorito_image iso = Some esp /\
    read_file esp efiPath = Some efi /\ read_file esp scriptPath = Some script.
Proof.
  intros E. pose proof (buildBootISO_cases efi script) as Hc. cbv zeta in Hc. rewrite E in Hc.
  destruct Hc as (He & Hs & Hcl & _).
  destruct (buildBootISO_boots efi script He Hs Hcl) as (iso' & esp & E' & Hb).
  rewrite E in E'. injection E' as <-. by exists esp.
Qed.

(** C27: [buildBootISO] never panics, and each of its outcomes happens exactly
    when it should: the errors for an empty binary, an empty script and
    content beyond the FAT12 limit, and otherwise an image of whole ISO
    sectors. *)
Theorem buildBootISO_outcome (efi script : bytes) :
  let cl := clusters (esp_layout (zlen efi) (zlen script)) in
  match buildBootISO efi script with
  | Err EmptyEFI => efi = []
  | Err EmptyScript => efi <> [] /\ script = []
  | Err (TooManyClusters c) => efi <> [] /\ script <> [] /\ c = cl /\ fatMaxClusters < cl
  | Ret iso => efi <> [] /\ script <> [] /\ cl <= fatMaxClusters /\ zlen iso mod 2048 = 0
  | Panic => False
  end.
Proof. apply buildBootISO_cases. Qed.

(** C16: No conversion to a narrower integer in the two composers loses
    anything. Whenever [buildBootISO] returns an image, the 16-bit sector
    counts, cluster numbers and load size and the 32-bit file sizes, extent
    sizes and volume size are the true values; every cluster the tables
    name is below the bad-cluster mark 0xFF7, so no link of a chain can be
    taken for a mark; the table has room for all its entries; and the image
    has exactly the computed size, at most 8441856 bytes. *)
Theorem boot_iso_bounds (efi script iso : bytes) :
  buildBootISO efi script = Ret iso ->
  let L := esp_layout (zlen efi) (zlen script) in
  let espLen := totalSectors L * fatSectorSize in
  let total := lbaESP + espSectors espLen in
  (u16 (totalSectors L) = totalSectors L /\ u16 (fatSectors L) = fatSectors L /\
   u16 (scriptFirst L) = scriptFirst L /\ u16 (espLen / 512) = totalSectors L) /\
  (u32 (zlen efi) = zlen efi /\ u32 (zlen script) = zlen script /\
   u32 espLen = espLen /\ u32 total = total) /\
  (forall c, efiFirst <= c < scriptFirst L + scriptCl L -> u16 c = c /\ c < 4087) /\
  (3 * (clusters L + 2) + 1) / 2 <= fatSectors L * fatSectorSize /\
  zlen iso = total * isoSectorSize /\ zlen iso <= 8441856.
Proof.
  intros E. pose proof (buildBootISO_cases efi script) as Hc. cbv zeta in Hc. rewrite E in Hc.
  destruct Hc as (He & Hs & Hcl & _). intros L espLen total.
  destruct (buildBootISO_eq efi script He Hs Hcl) as (esp & Eesp & HN & Eiso).
  destruct (buildESPImage_ok efi script Hs Hcl) as (esp' & Eesp' & Hlen & _).
  rewrite Eesp in Eesp'. injection Eesp' as <-. cbn zeta in HN, Eiso.
  rewrite E in Eiso. apply Ret_inj in Eiso. rewrite Eiso, zlen_iso, Hlen by done. clear Eiso HN E Eesp.
  fold L espLen total.
  destruct (clusters_small (zlen efi) (zlen script)) as [Hsm1 Hsm2]; [lia|lia|done|].
  assert (HL : layout_ok L) by (apply esp_layout_ok; [lia..|done]).
  pose proof (totalSectors_bound L HL). destruct HL as [? ? ? ? ? ? ? ? ? ?].
  assert (0 <= fatSectors L <= 12) by (unfold_fat; zify_div; lia).
  assert (totalSectors L <= 16393) by (unfold_fat; lia).
  assert (23 <= total <= 4122)
    by (subst total espLen; unfold lbaESP, espSectors, isoSectorSize; unfold_fat; zify_div; lia).
  unfold u16, u32. unfold_fat.
  repeat split; try intros; rewrite ?Z.mod_small by (subst espLen; lia); subst espLen;
    rewrite ?Z.div_mul by lia; unfold isoSectorSize; try lia; zify_div; lia.
Qed.

Lemma boot_iso_bounds_witness :
  exists iso, buildBootISO "MZ"%string "#!ipxe"%string = Ret iso /\
    zlen iso = 73728 /\ zlen iso <= 8441856.
Proof.
  destruct (buildBootISO_boots "MZ"%string "#!ipxe"%string) as (iso & esp & E & _);
    [discriminate | discriminate | vm_compute; discriminate |].
  destruct (boot_iso_bounds "MZ"%string "#!ipxe"%string iso E) as (_ & _ & _ & _ & Hl & Hb).
  exists iso. split; [done|]. split; [|exact Hb]. rewrite Hl. vm_compute. reflexivity.
Defined.
