(* ===== verification/Overlay.v ===== *)
(** * The initramfs overlay ([overlay.go])

    [Newc] translates the cpio writer and the walk over the embedded files;
    [NewcReader] is the reader the kernel applies to an initramfs. *)

From S2P Require Import Prelude GoStrings.

(** ** The compressor

    [compress/gzip] at best compression, as an interface: what is compressed
    can be decompressed. *)
Class Gzip := {
  gzip : bytes -> bytes;
  gunzip : bytes -> option bytes;
}.

Class GzipLaws (Z : Gzip) : Prop := {
  gunzip_gzip b : gunzip (gzip b) = Some b;
}.

(** ** The embedded file system

    A tree as [fs.FS] presents it: directories list their entries in lexical
    order; [None] is a node that cannot be read.  The file system itself is
    what [fs.Stat] finds under a name, [None] for a name that is not valid or
    not there. *)
#[warnings="-register-all"]
Inductive fsnode :=
| File (data : option bytes)
| Dir (entries : option (list (bytes * fsnode))).

Definition FS : Type := bytes -> option fsnode.

Inductive overlayError :=
| StatError (path : bytes)
| ReadFileError (path : bytes)
| ReadDirError (path : bytes).

Module Newc.

Definition overlayRoot : bytes := "initramfs-bond-overlay".

(** [overlayExecutable]: the one file that is marked executable. *)
Definition overlayExecutable (name : bytes) : bool :=
  bool_decide (name = "scripts/init-premount/bond"%string).

(** [for w.Len()%4 != 0 { w.WriteByte(0) }] *)
Fixpoint pad_loop (fuel : nat) (w : bytes) : bytes :=
  match fuel with
  | O => w
  | S f => if zlen w mod 4 =? 0 then w else pad_loop f (w ++ [z2b 0])
  end.

Definition padTo4 (w : bytes) : bytes := pad_loop 4 w.

(** The thirteen header fields of an entry. *)
Definition newc_fields (ino mode nlink : Z) (name data : bytes) : list Z :=
  let namesize := u32 (zlen name + 1) in
  [ino; mode; 0; 0; nlink; 0; zlen data; 0; 0; 0; 0; namesize; 0].

Definition newc_header (fields : list Z) : bytes :=
  "070701"%string ++ concat (fmt_X 8 <$> fields).

Definition writeNewc (w : bytes) (ino mode nlink : Z) (name data : bytes) : bytes :=
  let w := w ++ newc_header (newc_fields ino mode nlink name data) in
  let w := w ++ name in
  let w := w ++ [z2b 0] in
  let w := padTo4 w in
  let w := w ++ data in
  padTo4 w.

(** The callback of [fs.WalkDir] on a path, with the buffer and the inode
    counter as its state; the slice [p[len(root)+1:]] panics when the path is
    too short for it. *)
Definition visit (root p : bytes) (d : fsnode) (st : bytes * Z)
    : outcome overlayError (bytes * Z) :=
  let '(raw, ino) := st in
  if bool_decide (p = root) then Ret st
  else if zlen p <? zlen root + 1 then Panic
  else
    let name := drop (length root + 1) p in
    let ino := u32 (ino + 1) in
    match d with
    | Dir _ => Ret (writeNewc raw ino 16877 2 name [], ino)
    | File None => Err (ReadFileError p)
    | File (Some data) =>
        let mode := if overlayExecutable name then 33261 else 33188 in
        Ret (writeNewc raw ino mode 1 name data, ino)
    end.

(** [fs.WalkDir] below a node: the node itself, then the entries of a
    directory in order, under the path [path.Join(name, entry)]; the callback
    returns the error of a directory that cannot be read. *)
Fixpoint walkDir (root p : bytes) (d : fsnode) (st : bytes * Z)
    : outcome overlayError (bytes * Z) :=
  match visit root p d st with
  | Ret st =>
      match d with
      | File _ => Ret st
      | Dir None => Err (ReadDirError p)
      | Dir (Some es) =>
          (fix entries (es : list (bytes * fsnode)) (st : bytes * Z) :=
             match es with
             | [] => Ret st
             | (n, d') :: es' =>
                 match walkDir root (Path.Join2 p n) d' st with
                 | Ret st => entries es' st
                 | Err e => Err e
                 | Panic => Panic
                 end
             end) es st
      end
  | Err e => Err e
  | Panic => Panic
  end.

(** [fs.WalkDir]: the callback also returns the error of a root that cannot
    be found. *)
Definition WalkDir (fsys : FS) (root : bytes) : outcome overlayError (bytes * Z) :=
  match fsys root with
  | None => Err (StatError root)
  | Some d => walkDir root root d ([], 0)
  end.

(** The archive before compression. *)
Definition overlay_raw (fsys : FS) (root : bytes) : outcome overlayError bytes :=
  match WalkDir fsys root with
  | Ret (raw, _) => Ret (writeNewc raw 0 0 1 "TRAILER!!!"%string [])
  | Err e => Err e
  | Panic => Panic
  end.

Definition BuildOverlayCPIO `{Gzip} (fsys : FS) (root : bytes)
    : outcome overlayError bytes :=
  raw ← overlay_raw fsys root; mret (gzip raw).

Definition mustBuildOverlay `{Gzip} (fsys : FS) : outcome overlayError bytes :=
  match BuildOverlayCPIO fsys overlayRoot with
  | Ret b => Ret b
  | Err _ | Panic => Panic
  end.

End Newc.

(** ** The reader *)

Record entry := Entry { e_name : bytes; e_mode : Z; e_nlink : Z; e_data : bytes }.

Module NewcReader.

Definition align4 (n : Z) : Z := (n + 3) / 4 * 4.

Definition field (raw : bytes) (i : Z) : option Z := parse_hex 0 (sub (6 + 8 * i) 8 raw).

(** Entries up to the trailer; [None] for anything that is not an archive. *)
Fixpoint parse_newc (fuel : nat) (raw : bytes) : option (list entry) :=
  match fuel with
  | O => None
  | S f =>
      if bool_decide (sub 0 6 raw = "070701"%string) then
        match field raw 1, field raw 4, field raw 6, field raw 11 with
        | Some mode, Some nlink, Some size, Some namesize =>
            let name := sub 110 (namesize - 1) raw in
            let dataStart := align4 (110 + namesize) in
            if bool_decide (name = "TRAILER!!!"%string) then Some []
            else
              let data := sub dataStart size raw in
              match parse_newc f (drop (Z.to_nat (align4 (dataStart + size))) raw) with
              | Some es => Some (Entry name mode nlink data :: es)
              | None => None
              end
        | _, _, _, _ => None
        end
      else None
  end.

(** Every entry takes more than one byte, so this fuel always suffices. *)
Definition parse_archive (raw : bytes) : option (list entry) := parse_newc (length raw) raw.

End NewcReader.

(** ** What the writer appends *)

Module NewcFacts.
Import Newc NewcReader.

Definition pad (n : Z) : bytes := make ((- n) mod 4).

Lemma zlen_pad n : zlen (pad n) = (- n) mod 4.
Proof. unfold pad. rewrite zlen_make; zify_div; lia. Qed.

Lemma pad_loop_spec f w :
  (- zlen w) mod 4 < Z.of_nat f \/ zlen w mod 4 = 0 -> pad_loop f w = w ++ pad (zlen w).
Proof.
  revert w. induction f as [|f IH]; intros w Hw.
  { cbn. unfold pad. replace ((- zlen w) mod 4) with 0 by (zify_div; lia).
    by rewrite app_nil_r. }
  cbn [pad_loop]. destruct (Z.eqb_spec (zlen w mod 4) 0) as [E|E].
  { unfold pad. replace ((- zlen w) mod 4) with 0 by (zify_div; lia). by rewrite app_nil_r. }
  rewrite IH.
  - rewrite <- app_assoc, length_app. f_equal. unfold pad. cbn [length].
    replace ((- zlen w) mod 4) with (1 + (- (zlen w + 1)) mod 4) by (zify_div; lia).
    unfold make. rewrite Z2Nat.inj_add by (zify_div; lia).
    rewrite Nat2Z.inj_add. reflexivity.
  - rewrite length_app. cbn [length]. zify_div; lia.
Qed.

Lemma padTo4_eq w : padTo4 w = w ++ pad (zlen w).
Proof. apply pad_loop_spec. zify_div; lia. Qed.

(** One entry, as bytes. *)
Definition entry_head (ino mode nlink : Z) (name data : bytes) : bytes :=
  newc_header (newc_fields ino mode nlink name data) ++ name ++ [z2b 0].

Definition entry_bytes (ino mode nlink : Z) (name data : bytes) : bytes :=
  let h := entry_head ino mode nlink name data in
  h ++ pad (zlen h) ++ data ++ pad (zlen data).

Lemma pad_add a b : a mod 4 = 0 -> pad (a + b) = pad b.
Proof. intros H. unfold pad. f_equal. zify_div; lia. Qed.

Lemma writeNewc_eq w ino mode nlink name data :
  zlen w mod 4 = 0 ->
  writeNewc w ino mode nlink name data = w ++ entry_bytes ino mode nlink name data.
Proof.
  intros Hw. unfold writeNewc, entry_bytes, entry_head. rewrite !padTo4_eq.
  set (h := newc_header _). rewrite <- !app_assoc.
  do 4 f_equal. rewrite !length_app, !Nat2Z.inj_add.
  rewrite (pad_add (zlen w)) by done. f_equal. f_equal.
  rewrite !Z.add_assoc.
  set (k := zlen w + zlen h + zlen name + zlen [z2b 0]).
  assert (E : zlen (pad (zlen h + (zlen name + zlen [z2b 0]))) = (- k) mod 4).
  { rewrite zlen_pad. unfold k. zify_div; lia. }
  rewrite !Z.add_assoc in E. rewrite E. apply pad_add. unfold k. zify_div; lia.
Qed.

Lemma zlen_entry_mod ino mode nlink name data :
  zlen (entry_bytes ino mode nlink name data) mod 4 = 0.
Proof.
  unfold entry_bytes. set (h := entry_head _ _ _ _ _).
  rewrite !length_app, !Nat2Z.inj_add, !zlen_pad. zify_div; lia.
Qed.

(** ** Reading one entry *)

Definition fields_ok (fs : list Z) : Prop := Forall (fun n => 0 <= n < 2 ^ 32) fs.

Lemma header_chunks fs :
  fields_ok fs -> Forall (fun x : bytes => zlen x = 8) (fmt_X 8 <$> fs).
Proof.
  intros H. rewrite Forall_fmap. eapply Forall_impl; [exact H|].
  intros n Hn. apply (parse_fmt_X n Hn).
Qed.

Lemma zlen_header fs : fields_ok fs -> zlen (newc_header fs) = 6 + 8 * zlen fs.
Proof.
  intros H. unfold newc_header. rewrite length_app, Nat2Z.inj_add.
  rewrite (zlen_concat 8) by by apply header_chunks. rewrite length_fmap. cbn. lia.
Qed.

Lemma field_header fs (i : nat) n rest :
  fields_ok fs -> fs !! i = Some n ->
  field (newc_header fs ++ rest) (Z.of_nat i) = Some n.
Proof.
  intros Hfs Hi. unfold field.
  assert (Hlt : (i < length fs)%nat) by (apply lookup_lt_Some in Hi; done).
  rewrite sub_app_l by (rewrite ?zlen_header; lia || done).
  unfold newc_header. rewrite sub_app_r by (cbn; lia).
  replace (6 + 8 * Z.of_nat i - zlen "070701"%string) with (8 * Z.of_nat i) by (cbn; lia).
  rewrite (sub_concat 8 _ i (fmt_X 8 n)); [|lia|by apply header_chunks|].
  - apply parse_fmt_X. by apply (Forall_lookup_1 _ _ _ _ Hfs Hi).
  - by rewrite list_lookup_fmap, Hi.
Qed.

Lemma magic_header fs rest : sub 0 6 (newc_header fs ++ rest) = "070701"%string.
Proof. reflexivity. Qed.

Definition entry_wf (ino : Z) (e : entry) : Prop :=
  0 <= ino < 2 ^ 32 /\ 0 <= e_mode e < 2 ^ 32 /\ 0 <= e_nlink e < 2 ^ 32 /\
  zlen (e_name e) + 1 < 2 ^ 32 /\ zlen (e_data e) < 2 ^ 32.

Lemma fields_wf ino e :
  entry_wf ino e -> fields_ok (newc_fields ino (e_mode e) (e_nlink e) (e_name e) (e_data e)).
Proof.
  intros (H1 & H2 & H3 & H4 & H5). unfold newc_fields, u32.
  rewrite Z.mod_small by lia. repeat (apply Forall_cons_2; [lia|]). apply Forall_nil_2.
Qed.

Definition bytes_of (ino : Z) (e : entry) : bytes :=
  entry_bytes ino (e_mode e) (e_nlink e) (e_name e) (e_data e).

(** The reader takes an entry apart and stands at the next one. *)
Lemma parse_entry f ino e rest :
  entry_wf ino e ->
  parse_newc (S f) (bytes_of ino e ++ rest) =
  if bool_decide (e_name e = "TRAILER!!!"%string) then Some []
  else match parse_newc f rest with Some es => Some (e :: es) | None => None end.
Proof.
  intros Hwf. pose proof (fields_wf ino e Hwf) as Hf.
  destruct Hwf as (H1 & H2 & H3 & H4 & H5). destruct e as [name mode nlink data].
  cbn [e_mode e_nlink e_name e_data] in *.
  unfold bytes_of, entry_bytes. cbn [e_mode e_nlink e_name e_data]. cbv zeta.
  set (h := entry_head ino mode nlink name data).
  set (fs := newc_fields ino mode nlink name data) in *.
  assert (Ehh : h = newc_header fs ++ name ++ [z2b 0]) by reflexivity.
  clearbody h.
  assert (Hh : zlen (newc_header fs) = 110) by by rewrite zlen_header.
  assert (Hhl : zlen h = 110 + (zlen name + 1))
    by (rewrite Ehh, !length_app; cbn [length]; lia).
  assert (Hpl : zlen (pad (zlen h)) = (- zlen h) mod 4) by apply zlen_pad.
  assert (Hpd : zlen (pad (zlen data)) = (- zlen data) mod 4) by apply zlen_pad.
  assert (Hns : u32 (zlen name + 1) = zlen name + 1) by (apply Z.mod_small; lia).
  assert (Er : (h ++ pad (zlen h) ++ data ++ pad (zlen data)) ++ rest =
    newc_header fs ++ name ++ [z2b 0] ++ pad (zlen h) ++ data ++ pad (zlen data) ++ rest)
    by (rewrite Ehh at 1; by rewrite <- !app_assoc).
  rewrite Er. cbn [parse_newc].
  rewrite magic_header, bool_decide_true by done.
  rewrite (field_header fs 1 mode), (field_header fs 4 nlink), (field_header fs 6 (zlen data)),
    (field_header fs 11 (zlen name + 1)) by (done || (subst fs; cbn; by rewrite Hns)).
  assert (En : sub 110 (zlen name + 1 - 1)
    (newc_header fs ++ name ++ [z2b 0] ++ pad (zlen h) ++ data ++ pad (zlen data) ++ rest) = name).
  { rewrite sub_app_r, sub_app_l by lia. apply sub_all_at; lia. }
  rewrite En. destruct (bool_decide _); [done|].
  assert (Ea : align4 (110 + (zlen name + 1)) = zlen h + zlen (pad (zlen h)))
    by (rewrite Hpl, Hhl; unfold align4; zify_div; lia).
  rewrite Ea.
  replace (newc_header fs ++ name ++ [z2b 0] ++ pad (zlen h) ++ data ++ pad (zlen data) ++ rest)
    with ((h ++ pad (zlen h)) ++ data ++ pad (zlen data) ++ rest)
    by (rewrite Ehh at 1; by rewrite <- !app_assoc).
  assert (Hlen : zlen (h ++ pad (zlen h)) = zlen h + zlen (pad (zlen h)))
    by (rewrite length_app; lia).
  rewrite sub_app_r, Hlen, Z.sub_diag, sub_app_l, sub_all by lia.
  rewrite (drop_app_ge (h ++ _)) by (unfold align4; zify_div; lia).
  rewrite app_assoc, drop_app_length'; [done|].
  assert (zlen (data ++ pad (zlen data)) = zlen data + zlen (pad (zlen data)))
    by (rewrite length_app; lia).
  clear Er En Ehh Hh. unfold align4 in *. clear Ea. rewrite Hpl, Hpd, Hhl in *. zify_div; lia.
Qed.

(** A run of entries, numbered from [ino + 1]. *)
Fixpoint serialize (ino : Z) (es : list entry) : bytes :=
  match es with
  | [] => []
  | e :: es' => bytes_of (u32 (ino + 1)) e ++ serialize (u32 (ino + 1)) es'
  end.

Fixpoint last_ino (ino : Z) (es : list entry) : Z :=
  match es with [] => ino | _ :: es' => last_ino (u32 (ino + 1)) es' end.

Lemma serialize_app ino es1 es2 :
  serialize ino (es1 ++ es2) = serialize ino es1 ++ serialize (last_ino ino es1) es2.
Proof.
  revert ino. induction es1 as [|e es1 IH]; intros ino; [done|].
  cbn [serialize last_ino app]. by rewrite IH, app_assoc.
Qed.

Lemma last_ino_app ino es1 es2 : last_ino ino (es1 ++ es2) = last_ino (last_ino ino es1) es2.
Proof. revert ino. induction es1; intros ino; [done|]. cbn. auto. Qed.

Lemma zlen_serialize_mod ino es : zlen (serialize ino es) mod 4 = 0.
Proof.
  revert ino. induction es as [|e es IH]; intros ino; [done|].
  cbn [serialize]. rewrite length_app. specialize (IH (u32 (ino + 1))).
  pose proof (zlen_entry_mod (u32 (ino + 1)) (e_mode e) (e_nlink e) (e_name e) (e_data e)) as He.
  unfold bytes_of. zify_div; lia.
Qed.

(** What an entry must satisfy to fit its header. *)
Definition entry_fits (e : entry) : Prop :=
  0 <= e_mode e < 2 ^ 32 /\ 0 <= e_nlink e < 2 ^ 32 /\
  zlen (e_name e) + 1 < 2 ^ 32 /\ zlen (e_data e) < 2 ^ 32 /\
  e_name e <> list_ascii_of_string "TRAILER!!!".

Lemma entry_fits_wf ino e : entry_fits e -> entry_wf (u32 (ino + 1)) e.
Proof.
  intros (H1 & H2 & H3 & H4 & _). unfold entry_wf, u32.
  pose proof (Z.mod_pos_bound (ino + 1) (2 ^ 32)). split_and!; lia.
Qed.

Definition trailer : entry := Entry "TRAILER!!!"%string 0 1 [].

Lemma parse_serialize f ino es :
  Forall entry_fits es -> (length es < f)%nat ->
  parse_newc f (serialize ino es ++ bytes_of 0 trailer) = Some es.
Proof.
  revert f ino. induction es as [|e es IH]; intros f ino Hes Hf;
    (destruct f as [|f]; [cbn in Hf; lia|]).
  - cbn [serialize app]. rewrite <- (app_nil_r (bytes_of 0 trailer)).
    rewrite parse_entry; [done|]. unfold entry_wf. cbn. lia.
  - apply Forall_cons in Hes as [He Hes]. cbn [serialize]. rewrite <- app_assoc.
    rewrite parse_entry by by apply entry_fits_wf.
    rewrite bool_decide_false by apply He. cbn in Hf. rewrite IH by (done || lia). done.
Qed.

Lemma bytes_of_long ino e : (1 <= length (bytes_of ino e))%nat.
Proof. unfold bytes_of, entry_bytes, entry_head, newc_header. rewrite !length_app. cbn. lia. Qed.

Lemma length_serialize ino es : (length es <= length (serialize ino es))%nat.
Proof.
  revert ino. induction es as [|e es IH]; intros ino; cbn [serialize length]; [lia|].
  rewrite length_app. pose proof (bytes_of_long (u32 (ino + 1)) e).
  specialize (IH (u32 (ino + 1))). lia.
Qed.

Lemma parse_archive_serialize ino es :
  Forall entry_fits es ->
  parse_archive (serialize ino es ++ bytes_of 0 trailer) = Some es.
Proof.
  intros H. apply parse_serialize; [done|]. rewrite length_app.
  pose proof (length_serialize ino es). pose proof (bytes_of_long 0 trailer). lia.
Qed.

End NewcFacts.

(** ** What the overlay holds

    The entries a tree stands for, independently of the walk: every directory
    before its contents, every name relative to the root; [None] when a node
    cannot be read. *)
Module Listing.
Import Newc NewcReader NewcFacts Path PathFacts.

Definition child (parent : option bytes) (n : bytes) : bytes :=
  match parent with None => n | Some p => p ++ "/"%string ++ n end.

Fixpoint listing (name : option bytes) (d : fsnode) : option (list entry) :=
  match d with
  | File data =>
      match name with
      | None => Some []
      | Some n =>
          b ← data;
          Some [Entry n (if overlayExecutable n then 33261 else 33188) 1 b]
      end
  | Dir es =>
      es ← es;
      below ← (fix all (es : list (bytes * fsnode)) :=
        match es with
        | [] => Some []
        | (n, d') :: es' =>
            l ← listing (Some (child name n)) d'; l' ← all es'; Some (l ++ l')
        end) es;
      Some (match name with None => below | Some n => Entry n 16877 2 [] :: below end)
  end.

Definition path_of (root : bytes) (name : option bytes) : bytes :=
  match name with None => root | Some n => root ++ "/"%string ++ n end.

(** Every name in the tree is a proper path element. *)
Fixpoint names_ok (d : fsnode) : bool :=
  match d with
  | File _ | Dir None => true
  | Dir (Some es) =>
      (fix all (es : list (bytes * fsnode)) :=
        match es with
        | [] => true
        | (n, d') :: es' => proper n && names_ok d' && all es'
        end) es
  end.

Lemma names_ok_entries es :
  names_ok (Dir (Some es)) = true ->
  Forall (fun e => proper e.1 = true /\ names_ok e.2 = true) es.
Proof.
  cbn. induction es as [|[n d] es IH]; intros H; [apply Forall_nil_2|].
  apply andb_prop in H as [[H1 H2]%andb_prop H3].
  apply Forall_cons_2; [done|]. by apply IH.
Qed.

Lemma path_of_child root name n :
  clean_path (path_of root name) -> proper n = true ->
  Join2 (path_of root name) n = path_of root (Some (child name n)) /\
  clean_path (path_of root (Some (child name n))).
Proof.
  intros Hp Hn. destruct (Join2_clean _ n Hp Hn) as [-> Hc].
  destruct name as [p|]; cbn in *; [|done]. by rewrite <- !app_assoc in *.
Qed.

(** Induction over a tree and the entries below it. *)
Fixpoint fsnode_tree_ind (P : fsnode -> Prop)
    (Hf : forall b, P (File b)) (Hn : P (Dir None))
    (Hd : forall es, Forall (fun e => P e.2) es -> P (Dir (Some es))) (d : fsnode) : P d :=
  match d with
  | File b => Hf b
  | Dir None => Hn
  | Dir (Some es) =>
      Hd es ((fix all es : Forall (fun e => P e.2) es :=
        match es with
        | [] => Forall_nil_2 _
        | e :: es' => Forall_cons_2 _ e es' (fsnode_tree_ind P Hf Hn Hd e.2) (all es')
        end) es)
  end.

Lemma visit_path root name d raw ino :
  zlen raw mod 4 = 0 ->
  visit root (path_of root name) d (raw, ino) =
  match name with
  | None => Ret (raw, ino)
  | Some n =>
      match d with
      | Dir _ => let es := [Entry n 16877 2 []] in Ret (raw ++ serialize ino es, last_ino ino es)
      | File None => Err (ReadFileError (path_of root name))
      | File (Some b) =>
          let es := [Entry n (if overlayExecutable n then 33261 else 33188) 1 b] in
          Ret (raw ++ serialize ino es, last_ino ino es)
      end
  end.
Proof.
  intros Hraw. unfold visit. destruct name as [n|]; cbn [path_of].
  2: { by rewrite bool_decide_true. }
  rewrite bool_decide_false.
  2: { intros E. apply (f_equal length) in E. rewrite length_app in E. cbn in E. lia. }
  destruct (Z.ltb_spec (zlen (root ++ "/"%string ++ n)) (zlen root + 1)) as [Hl|_].
  { rewrite !length_app in Hl. cbn in Hl. lia. }
  replace (drop (length root + 1) (root ++ "/"%string ++ n)) with n.
  2: { rewrite app_assoc, drop_app_length'; [done|]. rewrite length_app. done. }
  cbn [serialize last_ino]. unfold bytes_of. cbn [e_mode e_nlink e_name e_data].
  destruct d as [[b|]|es]; cbv zeta; rewrite ?app_nil_r; [|done|]; by rewrite writeNewc_eq.
Qed.

(** The walk appends exactly the listing, or stops with an error. *)
Definition walk_spec (root : bytes) (d : fsnode) : Prop := forall name raw ino,
  clean_path (path_of root name) -> names_ok d = true -> zlen raw mod 4 = 0 ->
  match listing name d with
  | Some es =>
      walkDir root (path_of root name) d (raw, ino) =
      Ret (raw ++ serialize ino es, last_ino ino es)
  | None => exists e, walkDir root (path_of root name) d (raw, ino) = Err e
  end.

Lemma aligned_serialize raw ino es :
  zlen raw mod 4 = 0 -> zlen (raw ++ serialize ino es) mod 4 = 0.
Proof.
  intros H. pose proof (zlen_serialize_mod ino es). rewrite length_app. zify_div; lia.
Qed.

Lemma walkDir_listing root d : walk_spec root d.
Proof.
  induction d as [b| |es IH] using fsnode_tree_ind; intros name raw ino Hp Hn Hraw.
  - cbn [walkDir listing]. rewrite visit_path by done. destruct name as [n|].
    + destruct b as [b|]; cbn [mbind option_bind]; [done|]. by eexists.
    + cbn. by rewrite app_nil_r.
  - cbn [walkDir listing mbind option_bind]. rewrite visit_path by done.
    destruct name; by eexists.
  - cbn [walkDir listing mbind option_bind]. rewrite visit_path by done.
    set (walk_all := fix entries es st := match es with [] => Ret st | _ => _ end).
    set (list_all := fix all es := match es with [] => Some [] | _ => _ end).
    apply names_ok_entries in Hn.
    assert (Hall : forall raw ino, zlen raw mod 4 = 0 ->
      match list_all es with
      | Some l => walk_all es (raw, ino) = Ret (raw ++ serialize ino l, last_ino ino l)
      | None => exists e, walk_all es (raw, ino) = Err e
      end).
    { clear raw ino Hraw. induction IH as [|[n d] es Hd _ IHes]; intros raw ino Hraw.
      - cbn. by rewrite app_nil_r.
      - apply Forall_cons in Hn as [[Hn1 Hn2] Hn]. specialize (IHes Hn).
        destruct (path_of_child root name n Hp Hn1) as [Ej Hc].
        cbn [walk_all list_all]. rewrite Ej.
        specialize (Hd (Some (child name n)) raw ino Hc Hn2 Hraw). cbn [snd] in Hd.
        destruct (listing (Some (child name n)) d) as [l|]; cbn [mbind option_bind].
        + rewrite Hd.
          specialize (IHes _ (last_ino ino l) (aligned_serialize raw ino l Hraw)).
          destruct (list_all es) as [l'|]; cbn [mbind option_bind]; [|done].
          rewrite IHes, serialize_app, last_ino_app. by rewrite <- app_assoc.
        + destruct Hd as [e ->]. by eexists. }
    destruct name as [n|].
    + cbv zeta.
      specialize (Hall _ (last_ino ino [Entry n 16877 2 []])
        (aligned_serialize raw ino [Entry n 16877 2 []] Hraw)).
      destruct (list_all es) as [l|]; cbn [mbind option_bind]; [|done].
      rewrite Hall. cbn [serialize last_ino]. by rewrite app_nil_r, <- app_assoc.
    + specialize (Hall raw ino Hraw).
      by destruct (list_all es) as [l|]; cbn [mbind option_bind].
Qed.

Lemma overlay_raw_listing (fsys : FS) root d :
  fsys root = Some d -> clean_path root -> names_ok d = true ->
  match listing None d with
  | Some es => overlay_raw fsys root = Ret (serialize 0 es ++ bytes_of 0 trailer)
  | None => exists e, overlay_raw fsys root = Err e
  end.
Proof.
  intros Hd Hroot Hn. unfold overlay_raw, WalkDir. rewrite Hd.
  pose proof (walkDir_listing root d None [] 0 Hroot Hn eq_refl) as H.
  change (path_of root None) with root in H. destruct (listing None d) as [es|].
  - rewrite H. cbn [app]. rewrite writeNewc_eq by apply zlen_serialize_mod. done.
  - destruct H as [e ->]. by eexists.
Qed.

End Listing.

Import Newc NewcReader NewcFacts Path PathFacts Listing.

(** C11: the overlay is a faithful initramfs.  Let the root be a clean
    relative path other than the dot at which the file system has a tree whose
    entries are named by proper path elements and can all be read, with no
    entry that is called TRAILER!!! at the top or outgrows a 32-bit size.  Then
    [BuildOverlayCPIO] succeeds, and a newc reader gets back from
    the decompressed bytes exactly the directories and files of the tree, each
    directory before its contents, with paths relative to the root, their
    contents, and mode 0100755 for [scripts/init-premount/bond] only; the
    archive ends on a 4-byte boundary. *)
Theorem overlay_roundtrip `{GzipLaws} (fsys : FS) (root : bytes) (d : fsnode) (es : list entry)
    (Hroot : clean_path root) (Hd : fsys root = Some d) (Hnames : names_ok d = true)
    (Hls : listing None d = Some es) (Hfit : Forall entry_fits es) :
  exists z raw,
    BuildOverlayCPIO fsys root = Ret z /\ gunzip z = Some raw /\
    parse_archive raw = Some es /\ zlen raw mod 4 = 0.
Proof.
  pose proof (overlay_raw_listing fsys root d Hd Hroot Hnames) as Hraw. rewrite Hls in Hraw.
  eexists _, _. unfold BuildOverlayCPIO. rewrite Hraw.
  split_and!; [reflexivity|apply gunzip_gzip|by apply parse_archive_serialize|].
  rewrite length_app. pose proof (zlen_serialize_mod 0 es).
  pose proof (zlen_entry_mod 0 0 1 "TRAILER!!!"%string []).
  unfold bytes_of, trailer; cbn [e_mode e_nlink e_name e_data]. zify_div; lia.
Qed.

(** A compressor for the witnesses: stored bytes behind a one-byte mark. *)
Definition stored_gzip : Gzip := {|
  gzip b := z2b 31 :: b;
  gunzip b := match b with m :: b' => if b2z m =? 31 then Some b' else None | [] => None end;
|}.

Lemma stored_gzip_laws : GzipLaws stored_gzip.
Proof. by constructor. Qed.

(** The tree that ships with the program, with its files cut short. *)
Definition sample_tree : fsnode :=
  Dir (Some [("scripts" : bytes,
    Dir (Some [("init-premount" : bytes,
      Dir (Some [("ORDER" : bytes, File (Some ("bond" : bytes)));
                 ("bond" : bytes, File (Some ("#!/bin/sh" : bytes)))]))]))])%string.

Definition sample_fs : FS := fun p =>
  if bool_decide (p = overlayRoot) then Some sample_tree else None.

Lemma overlayRoot_clean : clean_path overlayRoot.
Proof.
  exists [overlayRoot]. split_and!; [done| |done]. apply Forall_cons_2; [done|].
  apply Forall_nil_2.
Qed.

Lemma overlay_roundtrip_witness :
  exists z raw,
    @BuildOverlayCPIO stored_gzip sample_fs overlayRoot = Ret z /\
    @gunzip stored_gzip z = Some raw /\
    parse_archive raw = Some
      [Entry "scripts"%string 16877 2 [];
       Entry "scripts/init-premount"%string 16877 2 [];
       Entry "scripts/init-premount/ORDER"%string 33188 1 "bond"%string;
       Entry "scripts/init-premount/bond"%string 33261 1 "#!/bin/sh"%string] /\
    zlen raw mod 4 = 0.
Proof.
  apply (@overlay_roundtrip stored_gzip stored_gzip_laws sample_fs overlayRoot sample_tree).
  - apply overlayRoot_clean.
  - reflexivity.
  - vm_compute. reflexivity.
  - vm_compute. reflexivity.
  - repeat (apply Forall_cons_2; [split_and!; vm_compute; congruence|]). apply Forall_nil_2.
Defined.

(** [BuildOverlayCPIO] returns an error exactly when the root, or some directory
    or file below it, cannot be read; it never panics itself, and
    [mustBuildOverlay] panics in exactly those cases and otherwise returns the
    archive. *)
Theorem overlay_errors `{Gzip} (fsys : FS)
    (Hnames : forall d, fsys overlayRoot = Some d -> names_ok d = true) :
  let readable := exists d, fsys overlayRoot = Some d /\ listing None d <> None in
  (~ readable <-> exists e, BuildOverlayCPIO fsys overlayRoot = Err e) /\
  BuildOverlayCPIO fsys overlayRoot <> Panic /\
  (mustBuildOverlay fsys = Panic <-> ~ readable).
Proof.
  unfold mustBuildOverlay, BuildOverlayCPIO.
  destruct (fsys overlayRoot) as [d|] eqn:Hd.
  - pose proof (overlay_raw_listing fsys overlayRoot d Hd overlayRoot_clean
      (Hnames d eq_refl)) as Hraw.
    destruct (listing None d) as [es|] eqn:Hls.
    + assert (Hr : exists d', Some d = Some d' /\ listing None d' <> None)
        by (exists d; by rewrite Hls).
      rewrite Hraw. cbn. split_and!; [|done|]; split; try done. by intros [e ?].
    + destruct Hraw as [e ->]. cbn. split_and!; [|done|]; split; intros _; try (by eauto);
        intros (d' & [= <-] & ?); done.
  - unfold overlay_raw, WalkDir. rewrite Hd. cbn.
    split_and!; [|done|]; split; intros _; try (by eauto); intros (d' & ? & _); done.
Qed.

(** At the root [.] the slice would cut into the names, or be out of range:
    [path.Join] drops the dot that the slice counts. *)
Lemma overlay_dot_root :
  overlay_raw (fun _ => Some (Dir (Some [("x" : bytes, File (Some []))])))%string
    "."%string = Panic.
Proof. vm_compute. reflexivity. Qed.
