(* ===== verification/MacAddr.v ===== *)
(** * Hardware addresses and node keys ([nodes_store.go])

    [net.ParseMAC] and [net.HardwareAddr.String] as the standard library
    documents them, and the two functions that canonicalize the keys under
    which nodes are stored and looked up. *)

From S2P Require Import Prelude GoStrings.

Module Mac.

(** [xtoi2]: the next two digits; a third byte, if there is one, must be [e]. *)
Definition xtoi2 (s : bytes) (e : ascii) : option Z :=
  match s with
  | a :: b :: r =>
      if match r with [] => true | c :: _ => ascii_eqb c e end then
        x ← hex_val a; y ← hex_val b; Some (16 * x + y)
      else None
  | _ => None
  end.

(** The loop of the [01:23:...] and [01-23-...] forms. *)
Fixpoint octets (n : nat) (s : bytes) (e : ascii) : option (list Z) :=
  match n with
  | O => Some []
  | S n' => x ← xtoi2 s e; l ← octets n' (drop 3 s) e; Some (x :: l)
  end.

(** The loop of the [0123.4567...] form. *)
Fixpoint octet_pairs (n : nat) (s : bytes) (e : ascii) : option (list Z) :=
  match n with
  | O => Some []
  | S n' =>
      x ← xtoi2 (take 2 s) (z2b 0); y ← xtoi2 (drop 2 s) e;
      l ← octet_pairs n' (drop 5 s) e; Some (x :: y :: l)
  end.

Definition mac_size (n : Z) : bool := (n =? 6) || (n =? 8) || (n =? 20).

Definition is_sep (c : ascii) : bool := ascii_eqb c ":" || ascii_eqb c "-".

Definition ParseMAC (s : bytes) : option (list Z) :=
  if zlen s <? 14 then None
  else match s !! 2%nat, s !! 4%nat with
  | Some c2, Some c4 =>
      if is_sep c2 then
        if negb ((zlen s + 1) mod 3 =? 0) then None
        else
          let n := (zlen s + 1) / 3 in
          if mac_size n then octets (Z.to_nat n) s c2 else None
      else if ascii_eqb c4 "." then
        if negb ((zlen s + 1) mod 5 =? 0) then None
        else
          let n := 2 * (zlen s + 1) / 5 in
          if mac_size n then octet_pairs (Z.to_nat (n / 2)) s c4 else None
      else None
  | _, _ => None
  end.

Definition hex2 (b : Z) : bytes := [hex_digit false (b / 16); hex_digit false (b mod 16)].

(** [hw.String()] *)
Definition HardwareAddr_String (hw : list Z) : bytes := Join (hex2 <$> hw) ":"%string.

Section keys.
Context `{Unicode}.

Definition normalizeMAC (s : bytes) : bytes :=
  match ParseMAC (TrimSpace s) with
  | Some hw => if zlen hw =? 6 then ToLower (HardwareAddr_String hw) else []
  | None => []
  end.

Definition normalizeKey (s : bytes) : bytes :=
  let n := normalizeMAC s in
  if bool_decide (n = []) then ToLower (TrimSpace s) else n.
End keys.

Definition isPCIAddr (s : bytes) : bool :=
  (2 <=? CountByte s ":") || (Contains s ":"%string && Contains s "."%string).

End Mac.
Import Mac.

(** ** Trimming *)

Module SpaceFacts.

Definition spaces (s : bytes) : Prop := Forall (fun c => is_ascii c = true /\ is_space c = true) s.

(** A byte trimming stops at. *)
Definition solid (c : ascii) : Prop := is_ascii c = true /\ is_space c = false.

Lemma trim_stop_spaces `{Unicode} pre r : spaces pre -> trim_stop (pre ++ r) = trim_stop r.
Proof.
  induction 1 as [|c pre [Ha Hs] _ IH]; [done|]. cbn [app trim_stop]. by rewrite Ha, Hs.
Qed.

Lemma trim_stop_solid `{Unicode} c r : solid c -> trim_stop (c :: r) = reverse (c :: r).
Proof. intros [Ha Hs]. cbn [trim_stop]. by rewrite Ha, Hs. Qed.

(** White space around a string that begins and ends with other bytes goes. *)
Lemma TrimSpace_solid `{Unicode} pre post a m z :
  spaces pre -> spaces post -> solid a -> solid z ->
  (m = [] /\ a = z \/ exists m', m = m' ++ [z]) ->
  TrimSpace (pre ++ (a :: m) ++ post) = a :: m.
Proof.
  intros Hpre Hpost [Ha Hs] Hz Hend.
  induction Hpre as [|c pre [Hca Hcs] _ IH]; cbn [app TrimSpace].
  - rewrite Ha, Hs. cbn [negb].
    change (a :: m ++ post) with ((a :: m) ++ post). rewrite reverse_app, trim_stop_spaces.
    2: { by apply Forall_reverse. }
    destruct Hend as [[-> ->]|[m' ->]].
    + rewrite reverse_singleton, trim_stop_solid by done. done.
    + change (a :: m' ++ [z]) with ((a :: m') ++ [z]). rewrite reverse_snoc.
      rewrite trim_stop_solid by done. by rewrite reverse_cons, reverse_involutive.
  - rewrite Hca, Hcs. exact IH.
Qed.

Lemma trim_stop_fix `{Unicode, !UnicodeLaws _} c s :
  solid c -> TrimSpace (trim_stop (reverse (c :: s))) = trim_stop (reverse (c :: s)).
Proof.
  intros Hc. rewrite reverse_cons. generalize (reverse s). intros r.
  induction r as [|x r IH].
  - cbn [app]. rewrite trim_stop_solid by done. rewrite reverse_singleton.
    pose proof (TrimSpace_solid [] [] c [] c) as E. rewrite app_nil_r in E.
    apply E; try apply Forall_nil_2; try done. by left.
  - cbn [app trim_stop]. destruct (is_ascii x) eqn:Ex; cbn [negb].
    + destruct (is_space x) eqn:Sx; [exact IH|].
      change (x :: r ++ [c]) with ((x :: r) ++ [c]). rewrite reverse_snoc, reverse_cons.
      pose proof (TrimSpace_solid [] [] c (reverse r ++ [x]) x) as E.
      rewrite app_nil_r in E. apply E; try apply Forall_nil_2; try done.
      right. by eexists.
    + change (x :: r ++ [c]) with ((x :: r) ++ [c]). rewrite reverse_snoc, reverse_cons.
      destruct Hc. by apply uni_trim_right_fix.
Qed.

(** Trimming twice is trimming once. *)
Lemma TrimSpace_idem `{Unicode, !UnicodeLaws _} s : TrimSpace (TrimSpace s) = TrimSpace s.
Proof.
  induction s as [|c s IH]; [done|]. cbn [TrimSpace].
  destruct (is_ascii c) eqn:Ec; cbn [negb]; [|apply uni_trim_fix].
  destruct (is_space c) eqn:Sc; [exact IH|]. apply trim_stop_fix. by split.
Qed.

Lemma byte_ind (P : ascii -> Prop) : (forall z, 0 <= z < 256 -> P (z2b z)) -> forall c, P c.
Proof. intros HP c. rewrite <- (z2b_b2z c). apply HP, b2z_range. Qed.

Lemma lower_char_ascii c : is_ascii (lower_char c) = is_ascii c.
Proof. by destruct c as [[] [] [] [] [] [] [] []]. Qed.

Lemma lower_char_space c : is_space (lower_char c) = is_space c.
Proof. by destruct c as [[] [] [] [] [] [] [] []]. Qed.

Lemma lower_char_idem c : lower_char (lower_char c) = lower_char c.
Proof. by destruct c as [[] [] [] [] [] [] [] []]. Qed.

Lemma hex_val_lower c : hex_val (lower_char c) = hex_val c.
Proof. by destruct c as [[] [] [] [] [] [] [] []]. Qed.

Lemma all_ascii_lower s : all_ascii (lower_char <$> s) = all_ascii s.
Proof. unfold all_ascii. induction s as [|c s IH]; cbn; [done|]. by rewrite lower_char_ascii, IH. Qed.

Lemma ToLower_idem `{Unicode, !UnicodeLaws _} s : ToLower (ToLower s) = ToLower s.
Proof.
  unfold ToLower at 2 3. destruct (all_ascii s) eqn:E; [|by apply uni_lower_fix].
  unfold ToLower. rewrite all_ascii_lower, E, <- list_fmap_compose.
  apply list_fmap_ext. intros _ c _. apply lower_char_idem.
Qed.

End SpaceFacts.

(** ** Parsing and printing addresses *)

Module MacFacts.
Import SpaceFacts.

(** The bytes that separate groups of digits, and the one no group ends with. *)
Definition mark (e : ascii) : Prop := e = ":"%char \/ e = "-"%char \/ e = "."%char \/ e = z2b 0.

Lemma lower_char_mark e c : mark e -> ascii_eqb (lower_char c) e = ascii_eqb c e.
Proof. intros [->|[->|[->| ->]]]; by destruct c as [[] [] [] [] [] [] [] []]. Qed.

Lemma xtoi2_lower s e : mark e -> xtoi2 (lower_char <$> s) e = xtoi2 s e.
Proof.
  intros He. destruct s as [|a [|b [|c r]]]; cbn; rewrite ?hex_val_lower; [done..|].
  by rewrite lower_char_mark.
Qed.

Lemma octets_lower n s e : mark e -> octets n (lower_char <$> s) e = octets n s e.
Proof.
  intros He. revert s. induction n as [|n IH]; intros s; [done|].
  cbn [octets]. rewrite <- fmap_drop, IH, xtoi2_lower by done. done.
Qed.

Lemma octet_pairs_lower n s e :
  mark e -> octet_pairs n (lower_char <$> s) e = octet_pairs n s e.
Proof.
  intros He. revert s. induction n as [|n IH]; intros s; [done|].
  cbn [octet_pairs]. rewrite <- !fmap_drop, <- fmap_take, IH, !xtoi2_lower by (unfold mark in *; auto).
  done.
Qed.

Lemma is_sep_mark c : is_sep c = true -> mark c /\ lower_char c = c.
Proof.
  unfold is_sep, ascii_eqb, mark. intros [E|E]%orb_true_iff;
    apply bool_decide_eq_true in E as ->; auto.
Qed.

Lemma is_sep_lower c : is_sep (lower_char c) = is_sep c.
Proof. unfold is_sep. rewrite !lower_char_mark; unfold mark; auto. Qed.

(** The case of the digits does not matter. *)
Lemma ParseMAC_lower s : ParseMAC (lower_char <$> s) = ParseMAC s.
Proof.
  unfold ParseMAC. rewrite length_fmap, !list_lookup_fmap.
  destruct (s !! 2%nat) as [c2|], (s !! 4%nat) as [c4|]; cbn [fmap option_fmap option_map];
    try done.
  rewrite is_sep_lower, lower_char_mark by (unfold mark; auto).
  destruct (zlen s <? 14); [done|]. destruct (is_sep c2) eqn:E2.
  - apply is_sep_mark in E2 as [Hm ->]. rewrite octets_lower by done. done.
  - destruct (ascii_eqb c4 ".") eqn:E4; [|done].
    apply bool_decide_eq_true in E4 as ->.
    rewrite octet_pairs_lower by (unfold mark; auto). done.
Qed.

Definition octet (x : Z) : Prop := 0 <= x < 256.

Lemma hex_val_range c d : hex_val c = Some d -> 0 <= d < 16.
Proof.
  destruct c as [[] [] [] [] [] [] [] []]; intros H; vm_compute in H;
    try discriminate; injection H as <-; lia.
Qed.

Lemma xtoi2_octet s e x : xtoi2 s e = Some x -> octet x.
Proof.
  destruct s as [|a [|b r]]; [done..|]. unfold xtoi2. destruct (match r with [] => _ | _ => _ end); [|done].
  intros (x1 & H1 & (x2 & H2 & [= <-])%bind_Some)%bind_Some.
  apply hex_val_range in H1, H2. unfold octet. lia.
Qed.

Lemma octets_ok n s e l : octets n s e = Some l -> length l = n /\ Forall octet l.
Proof.
  revert s l. induction n as [|n IH]; intros s l; cbn [octets].
  { by intros [= <-]. }
  intros (x & Hx & (l' & Hl & [= <-])%bind_Some)%bind_Some.
  apply IH in Hl as [<- Hl]. apply xtoi2_octet in Hx. by split; [|constructor].
Qed.

Lemma octet_pairs_ok n s e l :
  octet_pairs n s e = Some l -> length l = (2 * n)%nat /\ Forall octet l.
Proof.
  revert s l. induction n as [|n IH]; intros s l; cbn [octet_pairs].
  { by intros [= <-]. }
  intros (x & Hx & (y & Hy & (l' & Hl & [= <-])%bind_Some)%bind_Some)%bind_Some.
  apply IH in Hl as [Hn Hl]. apply xtoi2_octet in Hx, Hy.
  split; [cbn; lia|]. by repeat constructor; try apply Hx; try apply Hy.
Qed.

Lemma ParseMAC_octets s hw : ParseMAC s = Some hw -> Forall octet hw.
Proof.
  unfold ParseMAC. destruct (_ <? _); [done|].
  destruct (s !! 2%nat) as [c2|]; [|done]. destruct (s !! 4%nat) as [c4|]; [|done].
  destruct (is_sep c2); [|destruct (ascii_eqb c4 "."); [|done]].
  - repeat (case_match; try done). by intros [_ ?]%octets_ok.
  - repeat (case_match; try done). by intros [_ ?]%octet_pairs_ok.
Qed.

(** The three notations of a six-byte address, in lower case. *)
Definition colon_form (hw : list Z) : bytes := Join (hex2 <$> hw) ":"%string.
Definition dash_form (hw : list Z) : bytes := Join (hex2 <$> hw) "-"%string.
Fixpoint pairs (l : list Z) : list bytes :=
  match l with x :: y :: l' => (hex2 x ++ hex2 y) :: pairs l' | _ => [] end.
Definition dot_form (hw : list Z) : bytes := Join (pairs hw) "."%string.

Lemma hex_val_hex2 x : octet x ->
  hex_val (hex_digit false (x / 16)) = Some (x / 16) /\
  hex_val (hex_digit false (x mod 16)) = Some (x mod 16) /\ 16 * (x / 16) + x mod 16 = x.
Proof.
  unfold octet. intros Hx. rewrite !hex_val_digit by (zify_div; lia).
  split_and!; [done..|]. zify_div; lia.
Qed.

Lemma xtoi2_hex2 x e r :
  octet x -> r = [] \/ (exists r', r = e :: r') -> xtoi2 (hex2 x ++ r) e = Some x.
Proof.
  intros Hx Hr. destruct (hex_val_hex2 x Hx) as (E1 & E2 & E3).
  unfold hex2. cbn [app xtoi2]. rewrite E1, E2. cbn [mbind option_bind]. rewrite E3.
  destruct Hr as [->|[r' ->]]; [done|]. unfold ascii_eqb. by rewrite bool_decide_true.
Qed.

(** A six-byte address, taken apart. *)
Ltac six hw :=
  destruct hw as [|?x0 [|?x1 [|?x2 [|?x3 [|?x4 [|?x5 [|? ?]]]]]]];
  [done..| |done].

Ltac octets_inv H := rewrite !Forall_cons in H; destruct H as (? & ? & ? & ? & ? & ? & _).

Lemma octets_step n x c r :
  octet x -> octets (S n) (hex2 x ++ [c] ++ r) c = l ← octets n r c; Some (x :: l).
Proof. intros Hx. cbn [octets]. rewrite xtoi2_hex2; [done|done|]. right. by eexists. Qed.

Lemma octets_last x c : octet x -> octets 1 (hex2 x) c = Some [x].
Proof.
  intros Hx. cbn [octets]. rewrite <- (app_nil_r (hex2 x)), xtoi2_hex2; [done|done|by left].
Qed.

Lemma octets_form hw c :
  length hw = 6%nat -> Forall octet hw -> octets 6 (Join (hex2 <$> hw) [c]) c = Some hw.
Proof.
  intros Hl Ho. six hw. octets_inv Ho. cbn [fmap list_fmap Join].
  rewrite !octets_step, octets_last by done. done.
Qed.

Lemma octet_pairs_step n x y c r :
  octet x -> octet y -> r = [] \/ (exists r', r = c :: r') ->
  octet_pairs (S n) ((hex2 x ++ hex2 y) ++ r) c =
  l ← octet_pairs n (drop 1 r) c; Some (x :: y :: l).
Proof.
  intros Hx Hy Hr. cbn [octet_pairs].
  change (take 2 ((hex2 x ++ hex2 y) ++ r)) with (hex2 x ++ []).
  change (drop 2 ((hex2 x ++ hex2 y) ++ r)) with (hex2 y ++ r).
  change (drop 5 ((hex2 x ++ hex2 y) ++ r)) with (drop 1 r).
  rewrite !xtoi2_hex2; auto.
Qed.

Lemma octet_pairs_form hw :
  length hw = 6%nat -> Forall octet hw -> octet_pairs 3 (dot_form hw) "." = Some hw.
Proof.
  intros Hl Ho. six hw. octets_inv Ho. unfold dot_form. cbn [pairs Join].
  rewrite octet_pairs_step by (eauto || (right; by eexists)).
  change (drop 1 ("."%string ++ ?r)) with r.
  rewrite octet_pairs_step by (eauto || (right; by eexists)).
  change (drop 1 ("."%string ++ ?r)) with r.
  rewrite <- (app_nil_r (hex2 _ ++ hex2 _)), octet_pairs_step by auto. done.
Qed.

Lemma hex_not_sep d c : hex_val c = Some d -> is_sep c = false.
Proof.
  destruct c as [[] [] [] [] [] [] [] []]; intros H; vm_compute in H;
    try discriminate; done.
Qed.

Lemma ParseMAC_forms hw :
  length hw = 6%nat -> Forall octet hw ->
  ParseMAC (colon_form hw) = Some hw /\ ParseMAC (dash_form hw) = Some hw /\
  ParseMAC (dot_form hw) = Some hw.
Proof.
  intros Hl Ho.
  pose proof (octets_form hw ":" Hl Ho) as E1. pose proof (octets_form hw "-" Hl Ho) as E2.
  pose proof (octet_pairs_form hw Hl Ho) as E3.
  six hw. unfold colon_form, dash_form, dot_form, ParseMAC. split_and!; [exact E1|exact E2|].
  octets_inv Ho.
  assert (Hs : is_sep (hex_digit false (x1 `div` 16)) = false)
    by (apply (hex_not_sep (x1 / 16)), hex_val_hex2; done).
  cbn [pairs Join hex2 app]. cbn [lookup list_lookup]. rewrite Hs. exact E3.
Qed.

(** The canonical text survives lower-casing and trimming. *)
Lemma hex_char_solid c d : hex_val c = Some d -> solid c.
Proof.
  unfold solid. destruct c as [[] [] [] [] [] [] [] []]; intros H; vm_compute in H;
    try discriminate; done.
Qed.

Lemma hex_digit_lower d : 0 <= d < 16 -> lower_char (hex_digit false d) = hex_digit false d.
Proof.
  intros Hd. assert (E : exists n : nat, (n < 16)%nat /\ d = Z.of_nat n)
    by (exists (Z.to_nat d); lia).
  destruct E as (n & Hn & ->). do 16 (destruct n as [|n]; [done|]). lia.
Qed.

(** The bytes the notations are made of. *)
Definition mac_char (c : ascii) : Prop := (exists d, hex_val c = Some d) \/ mark c.

Lemma xtoi2_chars s e x :
  mark e -> xtoi2 s e = Some x ->
  exists a b r, s = a :: b :: r /\ mac_char a /\ mac_char b /\
    (r = [] \/ exists r', r = e :: r').
Proof.
  intros He. destruct s as [|a [|b r]]; [done..|]. unfold xtoi2, mac_char.
  destruct r as [|c r].
  - intros (x1 & H1 & (x2 & H2 & _)%bind_Some)%bind_Some.
    exists a, b, []. split_and!; eauto.
  - destruct (ascii_eqb c e) eqn:E; [|done]. apply bool_decide_eq_true in E as ->.
    intros (x1 & H1 & (x2 & H2 & _)%bind_Some)%bind_Some.
    exists a, b, (e :: r). split_and!; eauto.
Qed.

Lemma octets_chars n s e l :
  mark e -> zlen s = 3 * Z.of_nat n - 1 -> octets n s e = Some l -> Forall mac_char s.
Proof.
  intros He. revert s l. induction n as [|n IH]; intros s l Hs; [lia|]. cbn [octets].
  intros (x & Hx & (l' & Hl & _)%bind_Some)%bind_Some.
  apply xtoi2_chars in Hx as (a & b & r & -> & Ha & Hb & Hr); [|done].
  destruct Hr as [->|[r' ->]]; repeat (apply Forall_cons_2; [done || by right|]);
    [apply Forall_nil_2|]. apply (IH _ l'); [|done]. cbn [length] in Hs. lia.
Qed.

Lemma octet_pairs_chars n s e l :
  mark e -> zlen s = 5 * Z.of_nat n - 1 -> octet_pairs n s e = Some l -> Forall mac_char s.
Proof.
  intros He. revert s l. induction n as [|n IH]; intros s l Hs; [lia|]. cbn [octet_pairs].
  intros (x & Hx & (y & Hy & (l' & Hl & _)%bind_Some)%bind_Some)%bind_Some.
  apply xtoi2_chars in Hx as (a & b & r & E & Ha & Hb & _); [|unfold mark; auto].
  destruct s as [|a' [|b' s]]; [done..|]. injection E as -> -> _. clear r.
  change (drop 2 (a :: b :: s)) with s in Hy. change (drop 5 (a :: b :: s)) with (drop 3 s) in Hl.
  apply xtoi2_chars in Hy as (c & d & r & -> & Hc & Hd & Hr); [|done].
  destruct Hr as [->|[r' ->]]; repeat (apply Forall_cons_2; [done || by right|]);
    [apply Forall_nil_2|]. apply (IH _ l'); [|done]. cbn [length] in Hs. lia.
Qed.

(** An address is made of digits and separators only. *)
Lemma ParseMAC_chars s hw : ParseMAC s = Some hw -> Forall mac_char s.
Proof.
  unfold ParseMAC. destruct (Z.ltb_spec (zlen s) 14) as [|Hlen]; [done|].
  destruct (s !! 2%nat) as [c2|]; [|done]. destruct (s !! 4%nat) as [c4|]; [|done].
  destruct (is_sep c2) eqn:E2; [|destruct (ascii_eqb c4 ".") eqn:E4; [|done]].
  - destruct (Z.eqb_spec ((zlen s + 1) mod 3) 0); [|done]. cbn [negb].
    destruct (mac_size _); [|done]. apply octets_chars; [by apply is_sep_mark|zify_div; lia].
  - destruct (Z.eqb_spec ((zlen s + 1) mod 5) 0); [|done]. cbn [negb].
    destruct (mac_size _); [|done]. apply bool_decide_eq_true in E4 as ->.
    apply octet_pairs_chars; [unfold mark; auto|zify_div; lia].
Qed.

Lemma mac_char_plain c :
  mac_char c -> is_ascii c = true /\ c <> "i"%char /\ c <> "k"%char.
Proof.
  intros [[d H]|H].
  - split; [by apply (hex_char_solid c d)|]. split; intros ->; by vm_compute in H.
  - unfold mark in H. destruct_or! H; subst c; done.
Qed.

Lemma ParseMAC_foreign `{UnicodeLaws} s : all_ascii s = false -> ParseMAC (uni_lower s) = None.
Proof.
  intros Hs. destruct (ParseMAC (uni_lower s)) as [hw|] eqn:E; [|done].
  apply ParseMAC_chars in E. apply uni_lower_mark in Hs. apply Exists_exists in Hs as (c & Hc & Hx).
  rewrite Forall_forall in E. apply E, mac_char_plain in Hc as (H1 & H2 & H3).
  rewrite H1 in Hx. by destruct_or! Hx.
Qed.

(** ** Trimming and lower-casing commute *)

Lemma trim_stop_lower `{Unicode} r :
  all_ascii r = true -> trim_stop (lower_char <$> r) = lower_char <$> trim_stop r.
Proof.
  induction r as [|c r IH]; [done|]. unfold all_ascii. cbn [forallb].
  intros [Hc Hr]%andb_prop. rewrite fmap_cons. cbn [trim_stop].
  rewrite lower_char_ascii, lower_char_space, Hc. cbn [negb].
  destruct (is_space c); [by apply IH|]. by rewrite <- fmap_cons, fmap_reverse.
Qed.

Lemma all_ascii_reverse s : all_ascii (reverse s) = all_ascii s.
Proof.
  unfold all_ascii. induction s as [|c s IH]; [done|].
  rewrite reverse_cons, forallb_app, IH. cbn. by rewrite andb_true_r, andb_comm.
Qed.

Lemma TrimSpace_lower `{Unicode} s :
  all_ascii s = true -> TrimSpace (lower_char <$> s) = lower_char <$> TrimSpace s.
Proof.
  intros Hs. assert (Hr := all_ascii_reverse s). revert Hs Hr.
  induction s as [|c s IH]; [done|]. intros Hs Hr. rewrite fmap_cons. cbn [TrimSpace].
  rewrite lower_char_ascii, lower_char_space, <- fmap_cons, <- fmap_reverse.
  rewrite trim_stop_lower by congruence.
  unfold all_ascii in Hs. cbn [forallb] in Hs. apply andb_prop in Hs as [-> Hs]. cbn [negb].
  destruct (is_space c); [|done]. apply IH; [done|]. apply all_ascii_reverse.
Qed.

Lemma TrimSpace_ToLower `{UnicodeLaws} s : TrimSpace s = s -> TrimSpace (ToLower s) = ToLower s.
Proof.
  intros Hs. unfold ToLower. destruct (all_ascii s) eqn:E.
  - by rewrite TrimSpace_lower, Hs.
  - by apply uni_lower_trim.
Qed.

Lemma ParseMAC_ToLower `{UnicodeLaws} s : ParseMAC s = None -> ParseMAC (ToLower s) = None.
Proof.
  intros Hs. unfold ToLower. destruct (all_ascii s) eqn:E.
  - by rewrite ParseMAC_lower.
  - by apply ParseMAC_foreign.
Qed.

(** ** The canonical form *)

Definition mac_addr (hw : list Z) : Prop := length hw = 6%nat /\ Forall octet hw.

Lemma lower_hex2 x : octet x -> lower_char <$> hex2 x = hex2 x.
Proof.
  unfold octet. intros Hx. unfold hex2. cbn [fmap list_fmap].
  by rewrite !hex_digit_lower by (zify_div; lia).
Qed.

Lemma lower_colon_form hw : mac_addr hw -> lower_char <$> colon_form hw = colon_form hw.
Proof.
  intros [Hl Ho]. six hw. octets_inv Ho. unfold colon_form. cbn [fmap list_fmap Join].
  rewrite !fmap_app, !lower_hex2 by done. done.
Qed.

Lemma ascii_chars s : Forall mac_char s -> all_ascii s = true.
Proof.
  induction 1 as [|c s Hc _ IH]; [done|]. unfold all_ascii. cbn [forallb].
  apply mac_char_plain in Hc as [-> _]. exact IH.
Qed.

Lemma ToLower_colon_form `{Unicode} hw : mac_addr hw -> ToLower (colon_form hw) = colon_form hw.
Proof.
  intros Hhw. unfold ToLower. rewrite ascii_chars, lower_colon_form; [done|done|].
  destruct Hhw as [Hl Ho]. by apply (ParseMAC_chars _ hw), ParseMAC_forms.
Qed.

Lemma mac_char_solid c : mac_char c -> solid c.
Proof.
  intros [[d H]|H]; [by apply (hex_char_solid c d)|].
  unfold mark in H. destruct_or! H; subst c; done.
Qed.

Lemma TrimSpace_solids `{Unicode} pre s post :
  spaces pre -> spaces post -> Forall solid s -> s <> [] -> TrimSpace (pre ++ s ++ post) = s.
Proof.
  intros Hpre Hpost Hs Hne. destruct s as [|a m]; [done|]. apply Forall_cons in Hs as [Ha Hm].
  destruct m as [|z m _] using rev_ind.
  - apply (TrimSpace_solid pre post a [] a); auto.
  - apply Forall_app in Hm as [_ [Hz _]%Forall_cons].
    apply (TrimSpace_solid pre post a (m ++ [z]) z); eauto.
Qed.

Lemma TrimSpace_id_solids `{Unicode} s : Forall solid s -> TrimSpace s = s.
Proof.
  intros Hs. destruct s as [|c s]; [done|]. rewrite <- (app_nil_r (c :: s)) at 1.
  apply (TrimSpace_solids [] (c :: s) []); done || apply Forall_nil_2.
Qed.

Lemma solid_lower s : Forall solid (lower_char <$> s) -> Forall solid s.
Proof.
  rewrite Forall_fmap. intros Hs. eapply Forall_impl; [exact Hs|].
  intros c. unfold solid. cbn. by rewrite lower_char_ascii, lower_char_space.
Qed.

(** A spelling of an address: any notation, any case. *)
Definition spells (s : bytes) (hw : list Z) : Prop :=
  lower_char <$> s = colon_form hw \/ lower_char <$> s = dash_form hw \/
  lower_char <$> s = dot_form hw.

Lemma spells_parse s hw :
  mac_addr hw -> spells s hw -> ParseMAC s = Some hw /\ Forall solid s /\ s <> [].
Proof.
  intros [Hl Ho] Hs. destruct (ParseMAC_forms hw Hl Ho) as (E1 & E2 & E3).
  assert (E : ParseMAC s = Some hw)
    by (rewrite <- ParseMAC_lower; destruct Hs as [->|[->| ->]]; done).
  split_and!; [done| |by intros ->].
  apply ParseMAC_chars in E. by eapply Forall_impl; [|apply mac_char_solid].
Qed.

Lemma HardwareAddr_String_nonempty hw : mac_addr hw -> HardwareAddr_String hw <> [].
Proof. intros [Hl _]. six hw. done. Qed.

Lemma normalizeMAC_parsed `{Unicode} s hw :
  ParseMAC (TrimSpace s) = Some hw -> length hw = 6%nat ->
  normalizeMAC s = HardwareAddr_String hw /\ mac_addr hw.
Proof.
  intros Hp Hl. assert (Hhw : mac_addr hw) by (split; [done|by eapply ParseMAC_octets]).
  unfold normalizeMAC. rewrite Hp, Hl. cbn [Z.of_nat Z.eqb]. split; [|done].
  by apply ToLower_colon_form.
Qed.

(** The canonical form, or nothing. *)
Lemma normalizeMAC_cases `{Unicode} s :
  normalizeMAC s = [] /\ (forall hw, ParseMAC (TrimSpace s) = Some hw -> length hw <> 6%nat) \/
  exists hw, ParseMAC (TrimSpace s) = Some hw /\ mac_addr hw /\
    normalizeMAC s = HardwareAddr_String hw.
Proof.
  destruct (ParseMAC (TrimSpace s)) as [hw|] eqn:E.
  - destruct (decide (length hw = 6%nat)) as [Hl|Hl].
    + right. exists hw. destruct (normalizeMAC_parsed s hw E Hl). done.
    + left. split; [|by intros ? [= <-]]. unfold normalizeMAC. rewrite E.
      rewrite (proj2 (Z.eqb_neq _ _)); [done|]. lia.
  - left. unfold normalizeMAC. by rewrite E.
Qed.

Lemma spells_colon hw : mac_addr hw -> spells (HardwareAddr_String hw) hw.
Proof. intros H. left. by apply lower_colon_form. Qed.

Lemma normalizeMAC_String `{Unicode} hw :
  mac_addr hw -> normalizeMAC (HardwareAddr_String hw) = HardwareAddr_String hw.
Proof.
  intros Hhw. destruct (spells_parse _ hw Hhw (spells_colon hw Hhw)) as (E & Hs & _).
  apply normalizeMAC_parsed; [|apply Hhw]. by rewrite TrimSpace_id_solids.
Qed.

Lemma HardwareAddr_String_inj hw hw' :
  mac_addr hw -> mac_addr hw' -> HardwareAddr_String hw = HardwareAddr_String hw' -> hw = hw'.
Proof.
  intros H H' E. destruct (spells_parse _ hw H (spells_colon hw H)) as (E1 & _).
  destruct (spells_parse _ hw' H' (spells_colon hw' H')) as (E2 & _). congruence.
Qed.

Lemma normalizeMAC_lowered `{UnicodeLaws} s :
  normalizeMAC s = [] -> normalizeMAC (ToLower (TrimSpace s)) = [].
Proof.
  intros Hn. unfold normalizeMAC. rewrite TrimSpace_ToLower by apply TrimSpace_idem.
  assert (E : ParseMAC (ToLower (TrimSpace s)) = ParseMAC (TrimSpace s) \/
              ParseMAC (ToLower (TrimSpace s)) = None).
  { unfold ToLower. destruct (all_ascii (TrimSpace s)) eqn:Ea.
    - left. apply ParseMAC_lower.
    - right. by apply ParseMAC_foreign. }
  destruct E as [->| ->]; [exact Hn|done].
Qed.

(** Canonicalizing twice is canonicalizing once. *)
Lemma normalizeKey_twice `{UnicodeLaws} s : normalizeKey (normalizeKey s) = normalizeKey s.
Proof.
  unfold normalizeKey at 2 3. destruct (normalizeMAC_cases s) as [[Hn _]|(hw & _ & Hhw & Hn)].
  - rewrite Hn, bool_decide_true by done. unfold normalizeKey.
    rewrite normalizeMAC_lowered, bool_decide_true by done.
    rewrite TrimSpace_ToLower by apply TrimSpace_idem. apply ToLower_idem.
  - pose proof (HardwareAddr_String_nonempty hw Hhw). rewrite Hn, bool_decide_false by done.
    unfold normalizeKey. by rewrite normalizeMAC_String, bool_decide_false.
Qed.

End MacFacts.
Import SpaceFacts MacFacts.

(** C19: every spelling of an address selects the same node: colon, dash or dot
    notation, upper, lower or mixed case, with white space around it, all have
    the canonical colon form as their key. *)
Theorem normalizeKey_notations `{Unicode} (hw : list Z) (pre s post : bytes)
    (Hhw : mac_addr hw) (Hs : spells s hw) (Hpre : spaces pre) (Hpost : spaces post) :
  normalizeKey (pre ++ s ++ post) = HardwareAddr_String hw.
Proof.
  destruct (spells_parse s hw Hhw Hs) as (E & Hsolid & Hne). unfold normalizeKey.
  destruct (normalizeMAC_parsed (pre ++ s ++ post) hw) as [-> _].
  - by rewrite TrimSpace_solids.
  - apply Hhw.
  - by rewrite bool_decide_false by by apply HardwareAddr_String_nonempty.
Qed.

(** Canonicalizing a key a second time changes nothing, whatever bytes it
    holds: the lookup path canonicalizes up to three times (in the handler, in
    [resolveNode] and in [NodeStore.Get]) and still finds what was stored. *)
Theorem normalizeKey_idem `{UnicodeLaws} (s : bytes) :
  normalizeKey (normalizeKey s) = normalizeKey s.
Proof. apply normalizeKey_twice. Qed.

(** C37: [normalizeMAC] returns the empty string unless the trimmed input is a
    six-byte address, and two inputs that are addresses get the same key
    exactly when they are the same address. *)
Theorem normalizeMAC_identifies `{Unicode} (s t : bytes) :
  (normalizeMAC s <> [] <->
     exists hw, ParseMAC (TrimSpace s) = Some hw /\ length hw = 6%nat) /\
  (normalizeMAC s <> [] -> normalizeMAC t <> [] ->
     (normalizeMAC s = normalizeMAC t <-> ParseMAC (TrimSpace s) = ParseMAC (TrimSpace t))).
Proof.
  destruct (normalizeMAC_cases s) as [[Hs Ns]|(hw & Ps & As & Hs)].
  { rewrite Hs. split; [|done]. split; [done|]. intros (hw & E & Hl). by destruct (Ns hw E). }
  split.
  { rewrite Hs. split; [|by intros; apply HardwareAddr_String_nonempty].
    intros _. exists hw. split; [done|]. apply As. }
  intros _ Ht. destruct (normalizeMAC_cases t) as [[Ht' _]|(hw' & Pt & At & Ht')]; [done|].
  rewrite Hs, Ht', Ps, Pt. split; [|by intros [= ->]].
  intros E. f_equal. by apply HardwareAddr_String_inj.
Qed.

(** A Unicode table for the witnesses: the code points above ASCII have no
    case and are not white space. *)
Definition plain_unicode : Unicode := {|
  uni_lower s := lower_char <$> s;
  uni_trim s := drop_while_end is_space (drop_while is_space s);
  uni_trim_right := drop_while_end is_space;
  uni_letter _ := false;
|}.

Module PlainFacts.
#[local] Existing Instance plain_unicode.

Abbreviation dw := (drop_while is_space).
Abbreviation dwe := (drop_while_end is_space).

Lemma drop_while_idem p s : drop_while p (drop_while p s) = drop_while p s.
Proof.
  induction s as [|c s IH]; [done|]. cbn. destruct (p c) eqn:E; [done|]. cbn. by rewrite E.
Qed.

Lemma drop_while_end_idem p s : drop_while_end p (drop_while_end p s) = drop_while_end p s.
Proof. unfold drop_while_end. by rewrite reverse_involutive, drop_while_idem. Qed.

Lemma drop_while_suffix p s : exists t, s = t ++ drop_while p s.
Proof.
  induction s as [|c s [t IH]]; [by exists []|]. cbn. destruct (p c).
  - exists (c :: t). by rewrite IH at 1.
  - by exists [].
Qed.

Lemma drop_while_prefix p s t : drop_while p (s ++ t) = s ++ t -> drop_while p s = s.
Proof.
  destruct s as [|c s]; [done|]. cbn. destruct (p c); [|done].
  intros E. destruct (drop_while_suffix p (s ++ t)) as [u Hu]. rewrite E in Hu.
  apply (f_equal length) in Hu. rewrite (length_app u) in Hu. cbn in Hu. lia.
Qed.

Lemma dw_dwe s : dw s = s -> dw (dwe s) = dwe s.
Proof.
  intros Hs. destruct (drop_while_suffix is_space (reverse s)) as [t Ht].
  apply (drop_while_prefix _ _ (reverse t)). unfold drop_while_end.
  rewrite <- reverse_app, <- Ht, reverse_involutive. exact Hs.
Qed.

Lemma plain_trim_stop r : trim_stop r = reverse (dw r).
Proof.
  induction r as [|c r IH]; [done|]. cbn [trim_stop].
  destruct (is_ascii c) eqn:Ea; cbn [negb].
  - cbn [drop_while]. by destruct (is_space c).
  - cbn [uni_trim_right plain_unicode]. unfold drop_while_end. by rewrite reverse_involutive.
Qed.

Lemma plain_TrimSpace s : TrimSpace s = dwe (dw s).
Proof.
  induction s as [|c s IH]; [done|]. cbn [TrimSpace].
  destruct (is_ascii c) eqn:Ea; cbn [negb]; [|done].
  rewrite plain_trim_stop. cbn [drop_while]. by destruct (is_space c).
Qed.

Lemma dw_lower s : dw (lower_char <$> s) = lower_char <$> dw s.
Proof.
  induction s as [|c s IH]; [done|]. cbn. rewrite lower_char_space. by destruct (is_space c).
Qed.

Lemma dwe_lower s : dwe (lower_char <$> s) = lower_char <$> dwe s.
Proof. unfold drop_while_end. by rewrite <- fmap_reverse, dw_lower, fmap_reverse. Qed.

Lemma plain_unicode_laws : UnicodeLaws plain_unicode.
Proof.
  constructor.
  - intros s Hs. cbn. unfold ToLower. rewrite all_ascii_lower, Hs. cbn.
    rewrite <- list_fmap_compose. apply list_fmap_ext. intros _ c _. apply lower_char_idem.
  - intros s. rewrite plain_TrimSpace. cbn.
    rewrite dw_dwe by apply drop_while_idem. apply drop_while_end_idem.
  - intros c s Ha Hs. rewrite plain_TrimSpace. cbn [uni_trim_right plain_unicode].
    rewrite dw_dwe; [apply drop_while_end_idem|]. cbn. by rewrite Hs.
  - intros s _ Hs. rewrite plain_TrimSpace in *. cbn [uni_lower plain_unicode].
    rewrite dw_lower, dwe_lower. by f_equal.
  - intros s Hs. cbn. apply Exists_fmap. unfold all_ascii in Hs.
    induction s as [|c s IH]; [done|]. cbn in Hs. destruct (is_ascii c) eqn:E.
    + apply Exists_cons_tl. by apply IH.
    + apply Exists_cons_hd. left. cbn. by rewrite lower_char_ascii.
Qed.
End PlainFacts.

(** One of the addresses of the test suite, in its three spellings. *)
Definition sample_hw : list Z := [170; 187; 204; 0; 17; 34].

Lemma sample_hw_addr : mac_addr sample_hw.
Proof. split; [done|]. unfold octet. repeat (apply Forall_cons_2; [lia|]). apply Forall_nil_2. Qed.

Lemma normalizeKey_notations_witness :
  @normalizeKey plain_unicode " AABB.CC00.1122 "%string = "aa:bb:cc:00:11:22"%string.
Proof.
  apply (@normalizeKey_notations plain_unicode sample_hw " "%string "AABB.CC00.1122"%string " "%string).
  - exact sample_hw_addr.
  - right. right. vm_compute. reflexivity.
  - repeat constructor.
  - repeat constructor.
Defined.

Lemma normalizeKey_idem_witness :
  @normalizeKey plain_unicode (@normalizeKey plain_unicode " Rack-7 "%string) = "rack-7"%string.
Proof.
  rewrite (@normalizeKey_idem plain_unicode PlainFacts.plain_unicode_laws).
  vm_compute. reflexivity.
Defined.
