(* ===== verification/Types.v ===== *)
(** * The proxy's data types ([types.go]) and the library functions that
    read and hash them

    JSON decoding, JSON encoding and SHA-256 are interfaces: nothing that is
    proved depends on how they work, only on the results they give. *)

From S2P Require Import Prelude GoStrings.

(** The network and identity configuration of a machine. *)
Record Node := {
  IP : bytes;
  Netmask : bytes;
  GW : bytes;
  VLAN : bytes;
  Dev : bytes;
  Hostname : bytes;
  DNS : bytes;
  DNS2 : bytes;
  BondMembers : list bytes;
  BondName : bytes;
  BondMode : bytes;
  LACPRate : bytes;
  HashPolicy : bytes;
  KernelNet : bytes;
}.

#[export] Instance Node_eq_dec : EqDecision Node.
Proof. solve_decision. Defined.

(** [Node{}] *)
Definition Node_zero : Node := {|
  IP := []; Netmask := []; GW := []; VLAN := []; Dev := []; Hostname := []; DNS := [];
  DNS2 := []; BondMembers := []; BondName := []; BondMode := []; LACPRate := [];
  HashPolicy := []; KernelNet := [];
|}.

Definition bonded (n : Node) : bool := 0 <? zlen (BondMembers n).

(** A static replacement rule. *)
Record Rewrite := { From : bytes; To : bytes }.

(** The proxy configuration. *)
Record Config := {
  RackUpstream : bytes;
  ProxyBase : bytes;
  OverlayURL : bytes;
  Rewrites : list Rewrite;
  Nodes : gmap bytes Node;
}.

(** [Config{}] *)
Definition Config_zero : Config := {|
  RackUpstream := []; ProxyBase := []; OverlayURL := []; Rewrites := []; Nodes := ∅;
|}.

(** The document in the nodes file. *)
Record NodesFile := { Version : Z; FileNodes : gmap bytes Node }.

(** ** Library functions *)

(** [encoding/json] on the three types the proxy uses it for; an error is its
    message. *)
Class Json := {
  unmarshal_NodesFile : bytes -> bytes + NodesFile;
  unmarshal_Config : bytes -> bytes + Config;
  marshal_Node : Node -> bytes;
}.

(** [crypto/sha256] *)
Class Sha256 := { sha256 : bytes -> bytes }.

(** ** Files

    What [os.ReadFile] returns: the content, [fs.ErrNotExist], or another
    error with its message. *)
Inductive readResult :=
| ReadOk (b : bytes)
| ReadNotExist
| ReadErr (msg : bytes).

(** ** Iteration over a map

    Go visits the entries of a map in an order of its own choice; an [order]
    is such a choice. *)
Definition order := list (bytes * Node) -> list (bytes * Node).
Definition valid_order (o : order) : Prop := forall l, o l ≡ₚ l.

Lemma order_elem (o : order) (m : gmap bytes Node) k v :
  valid_order o -> (k, v) ∈ o (map_to_list m) <-> m !! k = Some v.
Proof. intros Ho. by rewrite (Ho _), elem_of_map_to_list. Qed.
