(* ===== verification/NodeStore.v ===== *)
(** * The node store ([nodes_store.go])

    [Store] translates the store and its operations; [Interleave] splits
    [Reload] at its critical sections and lets any number of goroutines run
    it against a file that changes under them. *)

From S2P Require Import Prelude GoStrings MacAddr Types.
Import Mac SpaceFacts MacFacts.

#[local] Set Warnings "-clear-no-such-hyp".

Module Store.

Definition NodesFileVersion : Z := 1.

Record NodeStore := {
  path : bytes;
  nodes : gmap bytes Node;
  hash : bytes;
  loaded : bool;
  lastErr : bytes;
}.

Definition NewNodeStore (path : bytes) : NodeStore := {|
  path := path; nodes := ∅; hash := make 32; loaded := false; lastErr := [];
|}.

Definition Len (s : NodeStore) : Z := Z.of_nat (size (nodes s)).

(** [out[normalizeKey(k)] = v] for every entry, in the order the map is
    visited in. *)
Definition rekey_step `{Unicode} (out : gmap bytes Node) (kv : bytes * Node) : gmap bytes Node :=
  <[normalizeKey kv.1 := kv.2]> out.

Definition rekey `{Unicode} (o : order) (m : gmap bytes Node) : gmap bytes Node :=
  foldl rekey_step ∅ (o (map_to_list m)).

Section ops.
Context `{Unicode, Json, Sha256}.

Definition Get (s : NodeStore) (mac : bytes) : option Node := nodes s !! normalizeKey mac.

Definition Put (s : NodeStore) (mac : bytes) (n : Node) : NodeStore := {|
  path := path s; nodes := <[normalizeKey mac := n]> (nodes s);
  hash := hash s; loaded := loaded s; lastErr := lastErr s;
|}.

(** The store, and the line that is logged unless it repeats the last one. *)
Definition noteError (s : NodeStore) (msg : bytes) : NodeStore * list bytes :=
  let s' := {| path := path s; nodes := nodes s; hash := hash s; loaded := loaded s;
               lastErr := msg |} in
  (s', if bool_decide (lastErr s = msg) then [] else [msg]).

Definition parseNodes (o : order) (b : bytes) : bytes + gmap bytes Node :=
  match unmarshal_NodesFile b with
  | inl e => inl e
  | inr f =>
      if NodesFileVersion <? Version f then
        inl ("unsupported nodes file version "%string ++ fmt_d (Version f) ++
             " (max "%string ++ fmt_d NodesFileVersion ++ ")"%string)
      else inr (rekey o (FileNodes f))
  end.

Definition nodeEqual (a b : Node) : bool := bool_decide (marshal_Node a = marshal_Node b).

(** [added], [removed] and [changed]. *)
Definition diffNodes (old cur : gmap bytes Node) : Z * Z * Z :=
  let '(added, changed) :=
    foldl (fun '(a, c) kv =>
      match old !! kv.1 with
      | None => (a + 1, c)
      | Some o => if nodeEqual o kv.2 then (a, c) else (a, c + 1)
      end) (0, 0) (map_to_list cur) in
  let removed :=
    foldl (fun r kv => if decide (cur !! kv.1 = None) then r + 1 else r) 0 (map_to_list old) in
  (added, removed, changed).

(** [s.loaded && sum == s.hash] *)
Definition same_content (s : NodeStore) (sum : bytes) : bool :=
  loaded s && bool_decide (sum = hash s).

(** The critical section that swaps in a parsed file. *)
Definition commit (s : NodeStore) (sum : bytes) (ns : gmap bytes Node) : NodeStore := {|
  path := path s; nodes := ns; hash := sum; loaded := true; lastErr := [];
|}.

Definition msg_missing (s : NodeStore) : bytes :=
  "nodes file "%string ++ path s ++ " not found; keeping "%string ++ fmt_d (Len s) ++
  " known node(s)"%string.

Definition msg_read (s : NodeStore) (e : bytes) : bytes :=
  "reading nodes file "%string ++ path s ++ ": "%string ++ e.

Definition msg_invalid (s : NodeStore) (e : bytes) : bytes :=
  "ignoring invalid nodes file "%string ++ path s ++
  " (keeping previous data): "%string ++ e.

Definition msg_reloaded (s : NodeStore) (old ns : gmap bytes Node) : bytes :=
  let '(added, removed, changed) := diffNodes old ns in
  "nodes file "%string ++ path s ++ " reloaded: "%string ++ fmt_d (Z.of_nat (size ns)) ++
  " node(s) (+"%string ++ fmt_d added ++ " -"%string ++ fmt_d removed ++ " ~"%string ++
  fmt_d changed ++ ")"%string.

(** What a call of [Reload] leaves: the store, the lines logged, and the
    results [changed] and [err]. *)
Record reloaded := { rl_store : NodeStore; rl_log : list bytes; rl_changed : bool;
                     rl_err : option bytes }.

Definition failed (s : NodeStore) (msg : bytes) (err : option bytes) : reloaded :=
  let '(s', l) := noteError s msg in
  {| rl_store := s'; rl_log := l; rl_changed := false; rl_err := err |}.

Definition Reload (o : order) (s : NodeStore) (file : readResult) : reloaded :=
  if bool_decide (path s = []) then
    {| rl_store := s; rl_log := []; rl_changed := false; rl_err := None |}
  else match file with
  | ReadNotExist => failed s (msg_missing s) None
  | ReadErr e => failed s (msg_read s e) (Some e)
  | ReadOk b =>
      let sum := sha256 b in
      if same_content s sum then
        {| rl_store := s; rl_log := []; rl_changed := false; rl_err := None |}
      else match parseNodes o b with
      | inl e => failed s (msg_invalid s e) (Some e)
      | inr ns =>
          {| rl_store := commit s sum ns; rl_log := [msg_reloaded s (nodes s) ns];
             rl_changed := true; rl_err := None |}
      end
  end.
End ops.

End Store.
Import Store.

(** ** Rekeying *)

Module RekeyFacts.
Section rekey.
Context `{Unicode}.

(** The last entry that is visited under a key is the one that stays. *)
Lemma foldl_rekey_lookup (l : list (bytes * Node)) (m : gmap bytes Node) k :
  (forall v, foldl rekey_step m l !! k = Some v ->
     m !! k = Some v \/ exists k0, (k0, v) ∈ l /\ normalizeKey k0 = k) /\
  ((m !! k <> None \/ exists kv, kv ∈ l /\ normalizeKey kv.1 = k) ->
     foldl rekey_step m l !! k <> None).
Proof.
  revert m. induction l as [|[k1 v1] l IH]; intros m; cbn [foldl].
  - split; [by left|]. intros [?|(kv & Hkv & _)]; [done|]. by apply not_elem_of_nil in Hkv.
  - destruct (IH (<[normalizeKey k1 := v1]> m)) as [IH1 IH2]. split.
    + intros v [Hm|(k0 & Hk0 & E)]%IH1.
      * apply lookup_insert_Some in Hm as [[<- <-]|[_ Hm]]; [|by left].
        right. exists k1. split; [left|done].
      * right. exists k0. split; [by right|done].
    + intros Hor. apply IH2. cbn. destruct Hor as [Hm|(kv & Hkv & E)].
      * left. destruct (decide (normalizeKey k1 = k)) as [<-|Hne];
          [by rewrite lookup_insert_eq|by rewrite lookup_insert_ne].
      * apply elem_of_cons in Hkv as [->|Hkv].
        -- left. cbn in E. rewrite E. by rewrite lookup_insert_eq.
        -- right. by exists kv.
Qed.

(** Every value of the result is the value of an entry whose key
    canonicalizes to the one it is under. *)
Lemma rekey_lookup_inv o m k v :
  valid_order o -> rekey o m !! k = Some v ->
  exists k0, m !! k0 = Some v /\ normalizeKey k0 = k.
Proof.
  intros Ho Hk. apply (foldl_rekey_lookup _ ∅ k) in Hk as [Hk|(k0 & Hin & E)].
  - by rewrite lookup_empty in Hk.
  - exists k0. split; [|done]. by apply (order_elem o).
Qed.

Lemma rekey_lookup_present o m k v :
  valid_order o -> m !! k = Some v -> exists v', rekey o m !! normalizeKey k = Some v'.
Proof.
  intros Ho Hk. destruct (rekey o m !! normalizeKey k) as [v'|] eqn:E; [by exists v'|].
  exfalso. revert E. apply foldl_rekey_lookup. right. exists (k, v). split; [|done].
  by apply order_elem.
Qed.

(** No two keys of the map name the same machine. *)
Definition no_clash (m : gmap bytes Node) : Prop := forall k1 k2 v1 v2,
  m !! k1 = Some v1 -> m !! k2 = Some v2 -> normalizeKey k1 = normalizeKey k2 -> v1 = v2.

Lemma rekey_no_clash o m k v :
  valid_order o -> no_clash m -> m !! k = Some v -> rekey o m !! normalizeKey k = Some v.
Proof.
  intros Ho Hnc Hk. destruct (rekey_lookup_present o m k v Ho Hk) as [v' Hv'].
  rewrite Hv'. f_equal. destruct (rekey_lookup_inv o m _ _ Ho Hv') as (k0 & Hk0 & E).
  symmetry. by apply (Hnc k k0).
Qed.

Lemma rekey_order o1 o2 m :
  valid_order o1 -> valid_order o2 -> no_clash m -> rekey o1 m = rekey o2 m.
Proof.
  intros H1 H2 Hnc. apply map_eq. intros k.
  assert (Hinc : forall o o' v, valid_order o -> valid_order o' ->
    rekey o m !! k = Some v -> rekey o' m !! k = Some v).
  { intros o o' v Ho Ho' (k0 & Hk0 & <-)%rekey_lookup_inv; [|done].
    by apply rekey_no_clash. }
  apply option_eq. intros v. split; by apply Hinc.
Qed.
End rekey.

(** The keys of a store are canonical. *)
Definition canonical `{Unicode} (m : gmap bytes Node) : Prop :=
  forall k v, m !! k = Some v -> normalizeKey k = k.

Lemma rekey_canonical `{UnicodeLaws} o m : valid_order o -> canonical (rekey o m).
Proof.
  intros Ho k v (k0 & _ & <-)%rekey_lookup_inv; [|done]. apply normalizeKey_twice.
Qed.
End RekeyFacts.
Import RekeyFacts.

(** ** The outcome of one [Reload] *)

Section reload.
Context `{Unicode, Json, Sha256}.

(** Nothing but the record of the last error changes. *)
Definition keeps_data (s s' : NodeStore) : Prop :=
  path s' = path s /\ nodes s' = nodes s /\ hash s' = hash s /\ loaded s' = loaded s.

(** A failing call leaves a store on which the same failure logs nothing. *)
Lemma failed_again s msg err :
  let r := failed s msg err in let r' := failed (rl_store r) msg err in
  rl_store r' = rl_store r /\ rl_log r' = [] /\ rl_changed r' = false /\ rl_err r' = err.
Proof. cbn. by rewrite bool_decide_true. Qed.
End reload.

(** ** Counting changes *)

Module DiffFacts.

Lemma size_filter_absent (m m' : gmap bytes Node) :
  size (filter (fun kv => m' !! kv.1 = None) m) = size (dom m ∖ dom m' : gset bytes).
Proof.
  rewrite <- (size_dom (D := gset bytes)). f_equal. apply set_eq. intros k.
  rewrite elem_of_difference, not_elem_of_dom, !elem_of_dom. unfold is_Some.
  setoid_rewrite map_lookup_filter_Some. cbn.
  split; [intros (v & ? & ?)|intros [[v ?] ?]]; eauto.
Qed.

Section diff.
Context `{Json}.

(** A key whose record differs in the two maps. *)
Definition differs (old : gmap bytes Node) (kv : bytes * Node) : Prop :=
  match old !! kv.1 with Some o => nodeEqual o kv.2 = false | None => False end.

#[global] Instance differs_dec old kv : Decision (differs old kv).
Proof. unfold differs. destruct (old !! kv.1); apply _. Defined.

Lemma diff_loop old l a c :
  foldl (fun '(a, c) kv =>
    match old !! kv.1 with
    | None => (a + 1, c)
    | Some o => if nodeEqual o kv.2 then (a, c) else (a, c + 1)
    end) (a, c) l =
  (a + zlen (filter (fun kv : bytes * Node => (old : gmap bytes Node) !! kv.1 = None) l),
   c + zlen (filter (differs old) l)).
Proof.
  revert a c. induction l as [|[k v] l IH]; intros a c; cbn [foldl].
  { cbn. f_equal; lia. }
  rewrite !filter_cons.
  destruct (decide (old !! (k, v).1 = None)) as [En|En],
    (decide (differs old (k, v))) as [Ed|Ed]; unfold differs in Ed; cbn [fst snd] in *;
    destruct (old !! k) as [o|] eqn:Ek; try done; cbn [length].
  - rewrite IH. f_equal; lia.
  - rewrite Ed, IH. f_equal; lia.
  - destruct (nodeEqual o v); [|done]. apply IH.
Qed.

Lemma removed_loop (cur : gmap bytes Node) l r :
  foldl (fun r kv => if decide (cur !! kv.1 = None) then r + 1 else r) r l =
  r + zlen (filter (fun kv : bytes * Node => cur !! kv.1 = None) l).
Proof.
  revert r. induction l as [|kv l IH]; intros r; cbn [foldl]; [cbn; lia|].
  rewrite filter_cons, IH. destruct (decide _); cbn [length]; lia.
Qed.

Lemma diffNodes_eq old cur :
  diffNodes old cur =
  (Z.of_nat (size (dom cur ∖ dom old : gset bytes)),
   Z.of_nat (size (dom old ∖ dom cur : gset bytes)),
   Z.of_nat (size (filter (differs old) cur))).
Proof.
  unfold diffNodes. rewrite diff_loop, removed_loop, !count_filter, !size_filter_absent.
  done.
Qed.
End diff.
End DiffFacts.
Import DiffFacts.

(** ** Concurrent reloads

    The watcher and every request that misses call [Reload]; the store's lock
    is released between reading the file, comparing its digest and swapping
    the new map in.  A goroutine is a program counter; the file may be replaced
    at any time, and [hist] remembers what it ever held. *)
Module Interleave.
Section system.
Context `{Unicode, Json, Sha256}.

Inductive pc :=
| Idle                   (* not in [Reload] *)
| Noting (msg : bytes)   (* about to call [noteError] *)
| Read (b : bytes)       (* has read the file *)
| Checked (b : bytes).   (* has found a new digest *)

Record system := {
  store : NodeStore;
  file : readResult;
  pcs : list pc;
  hist : list bytes;
}.

Definition record_content (r : readResult) (h : list bytes) : list bytes :=
  match r with ReadOk b => b :: h | _ => h end.

Definition initial (p : bytes) (r : readResult) (n : nat) : system := {|
  store := NewNodeStore p; file := r; pcs := replicate n Idle; hist := record_content r [];
|}.

Definition with_pc (y : system) (i : nat) (s : NodeStore) (c : pc) : system := {|
  store := s; file := file y; pcs := <[i := c]> (pcs y); hist := hist y;
|}.

Definition after_read (s : NodeStore) (r : readResult) : pc :=
  match r with
  | ReadOk b => Read b
  | ReadNotExist => Noting (msg_missing s)
  | ReadErr e => Noting (msg_read s e)
  end.

Inductive step : system -> system -> Prop :=
| step_write y r :
    step y {| store := store y; file := r; pcs := pcs y; hist := record_content r (hist y) |}
| step_read y i :
    pcs y !! i = Some Idle -> path (store y) <> [] ->
    step y (with_pc y i (store y) (after_read (store y) (file y)))
| step_note y i msg :
    pcs y !! i = Some (Noting msg) ->
    step y (with_pc y i (noteError (store y) msg).1 Idle)
| step_same y i b :
    pcs y !! i = Some (Read b) -> same_content (store y) (sha256 b) = true ->
    step y (with_pc y i (store y) Idle)
| step_differs y i b :
    pcs y !! i = Some (Read b) -> same_content (store y) (sha256 b) = false ->
    step y (with_pc y i (store y) (Checked b))
| step_invalid y i b o e :
    pcs y !! i = Some (Checked b) -> parseNodes o b = inl e ->
    step y (with_pc y i (store y) (Noting (msg_invalid (store y) e)))
| step_commit y i b o ns :
    pcs y !! i = Some (Checked b) -> valid_order o -> parseNodes o b = inr ns ->
    step y (with_pc y i (commit (store y) (sha256 b) ns) Idle).

Definition reachable (p : bytes) (r : readResult) (n : nat) (y : system) : Prop :=
  rtc step (initial p r n) y.

(** The data is that of one file the disk really held. *)
Definition from_history (s : NodeStore) (h : list bytes) : Prop :=
  (loaded s = false /\ nodes s = ∅) \/
  (loaded s = true /\ exists b o, b ∈ h /\ valid_order o /\
     parseNodes o b = inr (nodes s) /\ hash s = sha256 b).

Definition pc_ok (h : list bytes) (c : pc) : Prop :=
  match c with Read b | Checked b => b ∈ h | _ => True end.

Definition inv (y : system) : Prop :=
  from_history (store y) (hist y) /\ Forall (pc_ok (hist y)) (pcs y) /\
  (forall b, file y = ReadOk b -> b ∈ hist y).

Lemma elem_record_content r h b : b ∈ h -> b ∈ record_content r h.
Proof. destruct r; cbn; [by right|done..]. Qed.

Lemma from_history_mono s h r : from_history s h -> from_history s (record_content r h).
Proof.
  intros [?|(Hl & b & o & Hb & Hr)]; [by left|]. right. split; [done|].
  exists b, o. split; [by apply elem_record_content|done].
Qed.

Lemma inv_initial p r n : inv (initial p r n).
Proof.
  split_and!; cbn; [by left| |].
  - by apply Forall_replicate.
  - intros b ->. left.
Qed.

Lemma inv_with_pc y i s c :
  inv y -> from_history s (hist y) -> pc_ok (hist y) c -> inv (with_pc y i s c).
Proof. intros (_ & Hp & Hf) Hs Hc. split_and!; cbn; [done|by apply Forall_insert|done]. Qed.

Lemma inv_step y y' : inv y -> step y y' -> inv y'.
Proof.
  intros Hinv Hstep. pose proof Hinv as (Hs & Hp & Hf).
  assert (Hpc : forall i c, pcs y !! i = Some c -> pc_ok (hist y) c)
    by (intros; by eapply Forall_lookup_1).
  destruct Hstep; try (apply inv_with_pc; [done|done|done]).
  - split_and!; cbn; [by apply from_history_mono| |].
    + eapply Forall_impl; [exact Hp|]. intros [| | |]; cbn; try done; apply elem_record_content.
    + intros b ->. left.
  - apply inv_with_pc; [done|done|]. destruct (file y) eqn:E; cbn; [by apply Hf|done..].
  - apply inv_with_pc; [done|done|]. by apply (Hpc i (Read b)).
  - apply inv_with_pc; [done| |done]. right. split; [done|]. exists b, o.
    split_and!; [by apply (Hpc i (Checked b))|done..].
Qed.

Lemma inv_reachable p r n y : reachable p r n y -> inv y.
Proof.
  intros Hr. unfold reachable in Hr. revert Hr.
  generalize (inv_initial p r n). generalize (initial p r n).
  intros y0 Hy0 Hr. induction Hr as [|y0 y1 y2 Hstep _ IH]; [done|].
  apply IH. by apply (inv_step y0).
Qed.

Lemma with_pc_twice y i s c s' c' :
  with_pc (with_pc y i s c) i s' c' = with_pc y i s' c'.
Proof. unfold with_pc. cbn. by rewrite list_insert_insert_eq. Qed.

Lemma step_via y i s c s' c' :
  step (with_pc y i s c) (with_pc (with_pc y i s c) i s' c') ->
  step (with_pc y i s c) (with_pc y i s' c').
Proof. by rewrite with_pc_twice. Qed.

Lemma lookup_with_pc y i s c c' :
  pcs y !! i = Some c' -> pcs (with_pc y i s c) !! i = Some c.
Proof. intros E. cbn. apply list_lookup_insert_eq. by eapply lookup_lt_Some. Qed.

(** A goroutine that runs alone executes [Reload]. *)
Lemma Reload_steps y i o :
  valid_order o -> pcs y !! i = Some Idle ->
  rtc step y (with_pc y i (rl_store (Reload o (store y) (file y))) Idle).
Proof.
  intros Ho Hi. unfold Reload. destruct (bool_decide_reflect (path (store y) = [])) as [E|E].
  { cbn. replace (with_pc y i (store y) Idle) with y; [done|].
    unfold with_pc. destruct y; cbn in *. by rewrite list_insert_id. }
  eapply rtc_l; [by apply (step_read y i)|].
  assert (Hnote : forall msg, rtc step (with_pc y i (store y) (Noting msg))
    (with_pc y i (noteError (store y) msg).1 Idle)).
  { intros msg. apply rtc_once, step_via.
    apply (step_note (with_pc y i (store y) (Noting msg)) i msg). by eapply lookup_with_pc. }
  destruct (file y) as [b| |e] eqn:Ef; cbn [after_read].
  - destruct (same_content (store y) (sha256 b)) eqn:Es.
    + apply rtc_once, step_via.
      apply (step_same (with_pc y i (store y) (Read b)) i b); [by eapply lookup_with_pc|done].
    + eapply rtc_l.
      { apply step_via, (step_differs (with_pc y i (store y) (Read b)) i b); [|done].
        by eapply lookup_with_pc. }
      cbn [store with_pc]. destruct (parseNodes o b) as [e|ns] eqn:Ep.
      * eapply rtc_l; [|apply Hnote].
        apply step_via, (step_invalid (with_pc y i (store y) (Checked b)) i b o); [|done].
        by eapply lookup_with_pc.
      * apply rtc_once, step_via.
        apply (step_commit (with_pc y i (store y) (Checked b)) i b o); [|done..].
        by eapply lookup_with_pc.
  - apply Hnote.
  - apply Hnote.
Qed.
End system.
End Interleave.
Import Interleave.

(** ** Properties *)

Section sequential.
Context `{Unicode, Json, Sha256}.

Lemma parseNodes_error o o' b e : parseNodes o b = inl e -> parseNodes o' b = inl e.
Proof.
  unfold parseNodes. destruct (unmarshal_NodesFile b) as [|f]; [done|]. by destruct (_ <? _).
Qed.

Lemma parseNodes_inv o b ns :
  parseNodes o b = inr ns ->
  exists f, unmarshal_NodesFile b = inr f /\ Version f <= NodesFileVersion /\
    ns = rekey o (FileNodes f).
Proof.
  unfold parseNodes. destruct (unmarshal_NodesFile b) as [|f]; [done|].
  destruct (Z.ltb_spec NodesFileVersion (Version f)); [done|]. intros [= <-]. by exists f.
Qed.

Lemma same_content_commit s sum ns : same_content (commit s sum ns) sum = true.
Proof. unfold same_content. cbn. by rewrite bool_decide_true. Qed.

Ltac reload_branch :=
  change (rl_changed (failed _ _ _)) with false in *;
  repeat match goal with
  | |- context [rl_err (failed ?s ?m ?e)] => change (rl_err (failed s m e)) with e
  end;
  split_and!; try done; intros; split; intros;
  repeat (destruct_and? || destruct_or? ||
          match goal with Hx : exists _, _ |- _ => destruct Hx end);
  simplify_eq; try congruence;
  try (split; [done|]; first [by repeat eexists|by left|by right; repeat eexists]).

(** The line is remembered as the last one, and logged unless it was that
    already. *)
Definition noted (s : NodeStore) (r : reloaded) (line : bytes) : Prop :=
  lastErr (rl_store r) = line /\ (lastErr s = line -> rl_log r = []) /\
  (lastErr s <> line -> rl_log r = [line]).

Lemma failed_noted s msg err : noted s (failed s msg err) msg.
Proof.
  unfold noted, failed. cbn. split_and!; [done|..]; intros ?;
    [by rewrite bool_decide_true|by rewrite bool_decide_false].
Qed.

(** What one call of [Reload] logs, by the cases of the documentation: the
    summary of a change counts the addresses that are new, that are gone and
    whose record differs. *)
Definition logged (o : order) (s : NodeStore) (file : readResult) (r : reloaded) : Prop :=
  (path s = [] -> rl_store r = s /\ rl_log r = []) /\
  (path s <> [] ->
   (file = ReadNotExist -> noted s r
      ("nodes file "%string ++ path s ++ " not found; keeping "%string ++
       fmt_d (Z.of_nat (size (nodes s))) ++ " known node(s)"%string)) /\
   (forall e, file = ReadErr e -> noted s r
      ("reading nodes file "%string ++ path s ++ ": "%string ++ e)) /\
   (forall b, file = ReadOk b ->
     (same_content s (sha256 b) = true -> rl_store r = s /\ rl_log r = []) /\
     (same_content s (sha256 b) = false ->
      (forall e, parseNodes o b = inl e -> noted s r
        ("ignoring invalid nodes file "%string ++ path s ++
         " (keeping previous data): "%string ++ e)) /\
      (forall ns, parseNodes o b = inr ns -> lastErr (rl_store r) = [] /\ rl_log r =
        ["nodes file "%string ++ path s ++ " reloaded: "%string ++
         fmt_d (Z.of_nat (size ns)) ++
         " node(s) (+"%string ++ fmt_d (Z.of_nat (size (dom ns ∖ dom (nodes s) : gset bytes))) ++
         " -"%string ++ fmt_d (Z.of_nat (size (dom (nodes s) ∖ dom ns : gset bytes))) ++
         " ~"%string ++ fmt_d (Z.of_nat (size (filter (differs (nodes s)) ns))) ++
         ")"%string])))).

Lemma Reload_logged o s file : logged o s file (Reload o s file).
Proof.
  unfold logged, Reload. destruct (bool_decide_reflect (path s = [])) as [E|E]; [done|].
  split; [done|]. intros _.
  split_and!; [intros ->; apply failed_noted|intros e ->; apply failed_noted|].
  intros b ->. split; [by intros ->|]. intros ->.
  split; [intros e ->; apply failed_noted|]. intros ns ->. cbn. split; [done|].
  unfold msg_reloaded. by rewrite diffNodes_eq.
Qed.

(** C29: [Reload] on every branch.  It reports a change exactly when the file
    could be read, is new and parses, and then swaps in the parsed nodes with
    their digest; in every other case, errors included, the nodes, the digest
    and the path are untouched; the error it returns is that of the read or
    of the parse, and a missing file is none.  A change is logged as one line
    with the number of nodes added, removed and changed; a missing, unreadable
    or invalid file as one line with the reason, unless that is the line noted
    last; an unchanged file is not logged.  Calling it again on the same
    file changes nothing and logs nothing. *)
Theorem reload_outcome (o o' : order) (s : NodeStore) (file : readResult) :
  let r := Reload o s file in
  (rl_changed r = false -> keeps_data s (rl_store r)) /\
  (rl_changed r = true <-> path s <> [] /\ exists b ns, file = ReadOk b /\
     same_content s (sha256 b) = false /\ parseNodes o b = inr ns /\
     rl_store r = commit s (sha256 b) ns /\ rl_err r = None) /\
  (forall e, rl_err r = Some e <-> path s <> [] /\ (file = ReadErr e \/
     exists b, file = ReadOk b /\ same_content s (sha256 b) = false /\
       parseNodes o b = inl e)) /\
  logged o s file r /\
  (let r' := Reload o' (rl_store r) file in
   rl_store r' = rl_store r /\ rl_log r' = [] /\ rl_changed r' = false /\
   rl_err r' = rl_err r).
Proof.
  intros r. unfold r. pose proof (Reload_logged o s file) as Hlog. revert Hlog.
  generalize (logged o s file (Reload o s file)). intros L Hlog.
  unfold Reload. destruct (bool_decide_reflect (path s = [])) as [E|E].
  { cbn. rewrite bool_decide_true by done. reload_branch. }
  destruct file as [b| |e].
  - destruct (same_content s (sha256 b)) eqn:Es.
    { cbn. rewrite bool_decide_false, Es by done. reload_branch. }
    destruct (parseNodes o b) as [e|ns] eqn:Ep.
    + rewrite (bool_decide_false (path _ = [])) by done.
      change (same_content (rl_store _) (sha256 b)) with (same_content s (sha256 b)).
      rewrite Es, (parseNodes_error o o' b e Ep).
      destruct (failed_again s (msg_invalid s e) (Some e)) as (F1 & F2 & F3 & F4).
      change (msg_invalid (rl_store _) e) with (msg_invalid s e). reload_branch.
    + cbn [rl_store rl_changed rl_log rl_err].
      rewrite bool_decide_false, same_content_commit by done.
      cbn [rl_store rl_changed rl_log rl_err]. reload_branch.
  - rewrite (bool_decide_false (path _ = [])) by done.
    change (msg_missing (rl_store _)) with (msg_missing s).
    destruct (failed_again s (msg_missing s) None) as (F1 & F2 & F3 & F4). reload_branch.
  - rewrite (bool_decide_false (path _ = [])) by done.
    change (msg_read (rl_store _) e) with (msg_read s e).
    destruct (failed_again s (msg_read s e) (Some e)) as (F1 & F2 & F3 & F4). reload_branch.
Qed.

(** What [Get] finds after a document has been loaded. *)
Lemma Reload_Get (o : order) (s : NodeStore) (b : bytes) (f : NodesFile) :
  path s <> [] -> same_content s (sha256 b) = false -> unmarshal_NodesFile b = inr f ->
  Version f <= NodesFileVersion -> valid_order o -> no_clash (FileNodes f) ->
  rl_changed (Reload o s (ReadOk b)) = true /\
  forall mac n, Get (rl_store (Reload o s (ReadOk b))) mac = Some n <->
    exists k, FileNodes f !! k = Some n /\ normalizeKey k = normalizeKey mac.
Proof.
  intros Hpath Hnew Hdoc Hver Ho Hclash.
  unfold Reload. rewrite bool_decide_false, Hnew by done. unfold parseNodes. rewrite Hdoc.
  destruct (Z.ltb_spec NodesFileVersion (Version f)); [lia|]. cbn. split; [done|].
  intros mac n. unfold Get. cbn. split.
  - by apply rekey_lookup_inv.
  - intros (k & Hk & <-). by apply rekey_no_clash.
Qed.

(** C30: after a file has been loaded, [Get] finds exactly the nodes of the
    document, under any spelling of their address; the order in which the
    decoded map is visited makes no difference as long as the document does
    not give two records for one address. *)
Theorem reload_lookup (o : order) (s : NodeStore) (b : bytes) (f : NodesFile)
    (Hpath : path s <> []) (Hnew : same_content s (sha256 b) = false)
    (Hdoc : unmarshal_NodesFile b = inr f) (Hver : Version f <= NodesFileVersion)
    (Ho : valid_order o) (Hclash : no_clash (FileNodes f)) :
  rl_changed (Reload o s (ReadOk b)) = true /\
  forall mac n, Get (rl_store (Reload o s (ReadOk b))) mac = Some n <->
    exists k, FileNodes f !! k = Some n /\ normalizeKey k = normalizeKey mac.
Proof. by apply Reload_Get. Qed.

(** The three numbers of the reload message are the numbers of nodes
    that are new, that are gone, and that are in both files with different
    records, and they account for the change in the number of nodes. *)
Theorem diffNodes_counts (old cur : gmap bytes Node) (added removed changed : Z)
    (Hd : diffNodes old cur = (added, removed, changed)) :
  added = Z.of_nat (size (dom cur ∖ dom old : gset bytes)) /\
  removed = Z.of_nat (size (dom old ∖ dom cur : gset bytes)) /\
  changed = Z.of_nat (size (filter (differs old) cur)) /\
  Z.of_nat (size cur) = Z.of_nat (size old) + added - removed.
Proof.
  rewrite diffNodes_eq in Hd. injection Hd as <- <- <-. split_and!; try done.
  assert (E : (dom old ∩ dom cur : gset bytes) = dom cur ∩ dom old) by set_solver.
  rewrite (size_difference_alt (dom cur)), (size_difference_alt (dom old)), E, !size_dom.
  pose proof (subseteq_size (dom cur ∩ dom old : gset bytes) (dom cur) ltac:(set_solver)) as H2.
  pose proof (subseteq_size (dom cur ∩ dom old : gset bytes) (dom old) ltac:(set_solver)) as H3.
  rewrite size_dom in H2, H3. lia.
Qed.
End sequential.

(** C6: whatever goroutines reload the store concurrently and however the
    file changes under them, the store never holds data of a bad or mixed
    file: it is empty until the first load, and from then on its nodes are
    those of one document the file really held, next to the digest of that
    document, under canonical keys. *)
Theorem store_last_good `{UnicodeLaws, Json, Sha256} (p : bytes) (r : readResult) (n : nat)
    (y : system) (Hr : reachable p r n y) :
  from_history (store y) (hist y) /\ canonical (nodes (store y)).
Proof.
  destruct (inv_reachable p r n y Hr) as (Hs & _). split; [done|].
  destruct Hs as [[_ ->]|(_ & b & o & _ & Ho & (f & _ & _ & ->)%parseNodes_inv & _)].
  - intros k v. by rewrite lookup_empty.
  - by apply rekey_canonical.
Qed.

(** ** A whole call of [Reload] among the others *)

Section calls.
Context `{UnicodeLaws, Json, Sha256}.

(** Steps of anybody while goroutine [i] is inside its call. *)
Definition inside (i : nat) (y y' : system) : Prop :=
  step y y' /\ pcs y' !! i <> Some Idle.

(** Goroutine [i] calls [Reload] in [y], where the file holds [b]; it returns
    with the step from [y1] to [y2]; whatever the others do in between. *)
Definition reload_call (i : nat) (b : bytes) (y y1 y2 : system) : Prop :=
  pcs y !! i = Some Idle /\ path (store y) <> [] /\ file y = ReadOk b /\
  rtc (inside i) (with_pc y i (store y) (Read b)) y1 /\
  step y1 y2 /\ pcs y2 !! i = Some Idle.

(** Where a goroutine that has read [b] may be. *)
Definition works_on (b : bytes) (c : pc) : Prop :=
  match c with
  | Read b' | Checked b' => b' = b
  | Noting _ => exists e, forall o, parseNodes o b = inl e
  | Idle => False
  end.

Lemma pcs_with_pc y i s c j :
  pcs (with_pc y i s c) !! j = pcs y !! j \/ (i = j /\ pcs (with_pc y i s c) !! j = Some c).
Proof.
  cbn. destruct (decide (i = j)) as [->|Hne]; [|left; by rewrite list_lookup_insert_ne].
  destruct (pcs y !! j) as [c0|] eqn:E; [right; split; [done|]|left].
  - apply list_lookup_insert_eq. by eapply lookup_lt_Some.
  - rewrite list_insert_ge; [done|]. by apply lookup_ge_None.
Qed.

Lemma inside_works b i y y' c :
  pcs y !! i = Some c -> works_on b c -> inside i y y' ->
  exists c', pcs y' !! i = Some c' /\ works_on b c'.
Proof.
  intros Hc Hw [Hstep Hin]. destruct Hstep; [by exists c|..];
    match goal with |- context [with_pc ?y0 ?j ?s0 ?c0] =>
      destruct (pcs_with_pc y0 j s0 c0 i) as [E|[-> E]] end;
    rewrite E in Hin |- *; try (by exists c); try done;
    match goal with Hp : pcs _ !! _ = Some _ |- _ => rewrite Hp in Hc end;
    injection Hc as <-; cbn in Hw; [done|..]; subst; eexists; (split; [reflexivity|]);
    cbn; [done|].
  exists e. intros o'. by apply (parseNodes_error o).
Qed.

Lemma rtc_inside_works b i y y' c :
  rtc (inside i) y y' -> pcs y !! i = Some c -> works_on b c ->
  exists c', pcs y' !! i = Some c' /\ works_on b c'.
Proof.
  intros Hr. revert c. induction Hr as [y|y z y' Hs _ IH]; intros c Hc Hw; [by exists c|].
  destruct (inside_works b i y z c Hc Hw Hs) as (c' & Hc' & Hw'). by apply (IH c').
Qed.

Lemma inside_steps i y y' : rtc (inside i) y y' -> rtc step y y'.
Proof. apply rtc_subrel. by intros ? ? [? _]. Qed.

(** The step with which goroutine [i] returns is its own. *)
Lemma returning_step b i y y' c :
  pcs y !! i = Some c -> works_on b c -> step y y' -> pcs y' !! i = Some Idle ->
  (c = Read b /\ same_content (store y) (sha256 b) = true /\ store y' = store y) \/
  (exists msg, c = Noting msg /\ store y' = (noteError (store y) msg).1) \/
  (c = Checked b /\ exists o ns, valid_order o /\ parseNodes o b = inr ns /\
     store y' = commit (store y) (sha256 b) ns).
Proof.
  intros Hc Hw Hstep Hi. destruct Hstep;
    [cbn in Hi; rewrite Hc in Hi; injection Hi as ->; done|..];
    match goal with _ : context [with_pc ?y0 ?j ?s0 ?c0] |- _ =>
      destruct (pcs_with_pc y0 j s0 c0 i) as [E|[-> E]] end;
    rewrite E in Hi; try (rewrite Hc in Hi; injection Hi as ->; done);
    match goal with Hp : pcs _ !! _ = Some _ |- _ => rewrite Hp in Hc end;
    injection Hc as <-; cbn in Hw; subst; try done.
  - right. left. by exists msg.
  - by left.
  - right. right. split; [done|]. by exists o, ns.
Qed.
End calls.


(** ** Witnesses *)

Module StoreSamples.

Definition node_named (h : bytes) : Node := {|
  IP := "192.0.2.10"%string; Netmask := "255.255.255.0"%string; GW := "192.0.2.1"%string;
  VLAN := []; Dev := "eth0"%string; Hostname := h; DNS := []; DNS2 := [];
  BondMembers := []; BondName := []; BondMode := []; LACPRate := []; HashPolicy := [];
  KernelNet := [];
|}.

Definition key_upper : bytes := "AA:BB:CC:00:11:22"%string.
Definition key_dash : bytes := "aa-bb-cc-00-11-22"%string.

(** Two documents: one record, and one machine under two spellings. *)
Definition doc_one : NodesFile := {|
  Version := 1; FileNodes := {[ key_upper := node_named "node-1"%string ]};
|}.
Definition doc_two : NodesFile := {|
  Version := 1;
  FileNodes := <[key_upper := node_named "node-1"%string]>
    {[ key_dash := node_named "node-2"%string ]};
|}.

(** A decoder that knows the two documents by name, and a digest without
    collisions. *)
Definition sample_json : Json := {|
  unmarshal_NodesFile b :=
    if bool_decide (b = "one"%string) then inr doc_one
    else if bool_decide (b = "two"%string) then inr doc_two
    else inl ("unexpected end of JSON input"%string : bytes);
  unmarshal_Config b := inr Config_zero;
  marshal_Node n := Hostname n;
|}.

Definition sample_sha256 : Sha256 := {| sha256 b := b |}.

Definition sample_path : bytes := "/etc/nodes.json"%string.

Lemma valid_id : valid_order (fun l => l).
Proof. by intros l. Qed.

Lemma valid_reverse : valid_order reverse.
Proof. intros l. apply reverse_Permutation. Qed.

#[export] Existing Instances plain_unicode PlainFacts.plain_unicode_laws sample_json sample_sha256.
End StoreSamples.
Import StoreSamples.

Lemma no_clash_one : no_clash (FileNodes doc_one).
Proof.
  intros k1 k2 v1 v2 H1 H2 _. cbn in H1, H2.
  apply lookup_singleton_Some in H1 as [_ <-]. by apply lookup_singleton_Some in H2 as [_ <-].
Qed.

Lemma reload_lookup_witness :
  Get (rl_store (Reload (fun l => l) (NewNodeStore sample_path) (ReadOk "one"%string)))
    "aabb.cc00.1122"%string = Some (node_named "node-1"%string).
Proof.
  apply (reload_lookup (fun l => l) (NewNodeStore sample_path) "one"%string doc_one
    ltac:(done) eq_refl eq_refl ltac:(done) valid_id no_clash_one).
  exists key_upper. split; [apply lookup_singleton_eq|]. vm_compute. reflexivity.
Defined.

Lemma diffNodes_counts_witness :
  Z.of_nat (size (FileNodes doc_two)) = Z.of_nat (size (FileNodes doc_one)) + 1 - 0.
Proof.
  apply (diffNodes_counts (FileNodes doc_one) (FileNodes doc_two) 1 0 0). vm_compute. reflexivity.
Defined.

(** One goroutine is about to load a good file when it is replaced by a broken
    one, which another goroutine reads. *)
Definition busy : system := {|
  store := commit (NewNodeStore sample_path) "one"%string
    (rekey (fun l => l) (FileNodes doc_one));
  file := ReadOk "o"%string;
  pcs := [Idle; Checked "o"%string];
  hist := [("o" : bytes)%string; ("one" : bytes)%string];
|}.

Lemma busy_reachable : reachable sample_path (ReadOk "one"%string) 2 busy.
Proof.
  unfold reachable.
  eapply rtc_l; [apply (step_read _ 0); [reflexivity|done]|].
  eapply rtc_l; [eapply (step_differs _ 0); [reflexivity|reflexivity]|].
  eapply rtc_l; [apply (step_write _ (ReadOk "o"%string))|].
  eapply rtc_l; [apply (step_read _ 1); [reflexivity|done]|].
  eapply rtc_l; [eapply (step_differs _ 1); [reflexivity|reflexivity]|].
  eapply rtc_l; [eapply (step_commit _ 0); [reflexivity|apply valid_id|reflexivity]|].
  apply rtc_refl.
Qed.

Lemma store_last_good_witness :
  from_history (store busy) (hist busy) /\ canonical (nodes (store busy)).
Proof. exact (store_last_good sample_path (ReadOk "one"%string) 2 busy busy_reachable). Defined.

(** A goroutine reads a good file, the file is replaced and another goroutine
    loads the replacement, and only then the first one swaps its nodes in. *)
Definition slow_start : system := initial sample_path (ReadOk "one"%string) 2.
Definition slow_before : system := {|
  store := commit (NewNodeStore sample_path) "two"%string
    (rekey (fun l => l) (FileNodes doc_two));
  file := ReadOk "two"%string; pcs := [Checked "one"%string; Idle];
  hist := [("two" : bytes)%string; ("one" : bytes)%string];
|}.
Definition slow_after : system :=
  with_pc slow_before 0 (commit (store slow_before) (sha256 "one"%string)
    (rekey (fun l => l) (FileNodes doc_one))) Idle.

Lemma slow_call : reload_call 0 "one"%string slow_start slow_before slow_after.
Proof.
  split_and!; [reflexivity|done|reflexivity| |apply (step_commit _ 0 _ (fun l => l));
    [reflexivity|apply valid_id|reflexivity]|reflexivity].
  eapply rtc_l; [split; [eapply (step_differs _ 0); [reflexivity|reflexivity]|done]|].
  eapply rtc_l; [split; [apply (step_write _ (ReadOk "two"%string))|done]|].
  eapply rtc_l; [split; [apply (step_read _ 1); [reflexivity|done]|done]|].
  eapply rtc_l; [split; [eapply (step_differs _ 1); [reflexivity|reflexivity]|done]|].
  eapply rtc_l; [split; [eapply (step_commit _ 1 _ (fun l => l));
    [reflexivity|apply valid_id|reflexivity]|done]|].
  apply rtc_refl.
Qed.


(** C39: a document that names one machine twice, in two spellings, is
    accepted, and which of the two records the store then serves depends on
    the order in which the decoded map happens to be visited. *)
Theorem clash_depends_on_order :
  exists (b mac : bytes) (o1 o2 : order), valid_order o1 /\ valid_order o2 /\
    let load o := rl_store (Reload o (NewNodeStore sample_path) (ReadOk b)) in
    exists n1 n2, Get (load o1) mac = Some n1 /\ Get (load o2) mac = Some n2 /\ n1 <> n2.
Proof.
  exists "two"%string, key_dash, (fun l => l), reverse.
  split; [apply valid_id|]. split; [apply valid_reverse|]. cbv zeta.
  destruct (Get (rl_store (Reload (fun l => l) (NewNodeStore sample_path) (ReadOk "two"%string)))
    key_dash) as [n1|] eqn:E1; [|by vm_compute in E1].
  destruct (Get (rl_store (Reload reverse (NewNodeStore sample_path) (ReadOk "two"%string)))
    key_dash) as [n2|] eqn:E2; [|by vm_compute in E2].
  exists n1, n2. split_and!; [done..|]. vm_compute in E1, E2. congruence.
Qed.

(** C40: reloads can overtake each other.  A goroutine that has read the file
    and found it new may be slower than the file: another goroutine loads the
    next version in the meantime, and the slow one then puts the old version
    back.  All reloads are over, the file has not changed since, and the store
    that already held its content holds an older one (until the next reload,
    which finds a different digest). *)
Theorem reload_overtaken :
  exists (y1 y2 : system) (older newer : bytes),
    reachable sample_path (ReadOk older) 2 y1 /\ rtc step y1 y2 /\ newer <> older /\
    file y1 = ReadOk newer /\ hash (store y1) = sha256 newer /\
    file y2 = ReadOk newer /\ hash (store y2) = sha256 older /\
    Get (store y2) key_upper <> Get (store y1) key_upper /\ Forall (fun c => c = Idle) (pcs y2).
Proof.
  eexists _, _, "one"%string, "two"%string. split.
  { unfold reachable.
    eapply rtc_l; [apply (step_read _ 0); [reflexivity|done]|].
    eapply rtc_l; [eapply (step_differs _ 0); [reflexivity|reflexivity]|].
    eapply rtc_l; [apply (step_write _ (ReadOk "two"%string))|].
    eapply rtc_l; [apply (step_read _ 1); [reflexivity|done]|].
    eapply rtc_l; [eapply (step_differs _ 1); [reflexivity|reflexivity]|].
    eapply rtc_l; [eapply (step_commit _ 1 _ (fun l => l)); [reflexivity|apply valid_id|reflexivity]|].
    apply rtc_refl. }
  split.
  { eapply rtc_l; [eapply (step_commit _ 0 _ (fun l => l)); [reflexivity|apply valid_id|reflexivity]|].
    apply rtc_refl. }
  split_and!; [done|reflexivity|reflexivity|reflexivity|reflexivity| |].
  - vm_compute. intros E. injection E. discriminate.
  - repeat (apply Forall_cons_2; [reflexivity|]). apply Forall_nil_2.
Qed.
