(* ===== verification/IsoCache.v ===== *)
(** * The cache of composed images ([iso_cache.go])

    The cache maps keys to pointers, and a handler goes on reading an image
    through its pointer after the lock is released; so the entries live in a
    heap, and a pointer is an index into it.  Times are readings of the clock
    in nanoseconds. *)

From S2P Require Import Prelude GoStrings Types.

(** [time.Time.Sub]: the difference as a [time.Duration], which saturates. *)
Definition Sub (t u : Z) : Z := Z.max (- 2 ^ 63) (Z.min (2 ^ 63 - 1) (t - u)).

Definition Minute : Z := 60 * 10 ^ 9.

Record CachedISO := {
  Data : bytes;
  ConfigHash : bytes;
  ModTime : Z;
  LastAccess : Z;
}.

Module Cache.

Abbreviation loc := nat.

Record ISOCache := {
  isos : gmap bytes loc;
  heap : list CachedISO;
  ttl : Z;
  stopped : bool;   (* [stopCh] is closed *)
  reaping : bool;   (* the reaper goroutine runs *)
}.

Definition NewISOCache (t reaperInterval : Z) : ISOCache := {|
  isos := ∅; heap := [];
  ttl := if t <=? 0 then 30 * Minute else t;
  stopped := false; reaping := 0 <? reaperInterval;
|}.

Definition with_isos (c : ISOCache) (m : gmap bytes loc) : ISOCache := {|
  isos := m; heap := heap c; ttl := ttl c; stopped := stopped c; reaping := reaping c;
|}.

Definition with_heap (c : ISOCache) (h : list CachedISO) : ISOCache := {|
  isos := isos c; heap := h; ttl := ttl c; stopped := stopped c; reaping := reaping c;
|}.

Definition touch (e : CachedISO) (now : Z) : CachedISO := {|
  Data := Data e; ConfigHash := ConfigHash e; ModTime := ModTime e; LastAccess := now;
|}.

(** [now.Sub(entry.LastAccess) > c.ttl]; a pointer of the map is never nil. *)
Definition expired (c : ISOCache) (now : Z) (l : loc) : bool :=
  match heap c !! l with
  | Some e => ttl c <? Sub now (LastAccess e)
  | None => false
  end.

Section ops.
Context `{Unicode}.

Definition cache_key (mac : bytes) : bytes := ToLower (TrimSpace mac).

(** The clock is read twice: for [time.Since] and for the new access time. *)
Definition Get (c : ISOCache) (mac : bytes) (t1 t2 : Z) : ISOCache * option loc :=
  let key := cache_key mac in
  match isos c !! key with
  | None => (c, None)
  | Some l =>
      if expired c t1 l then (with_isos c (delete key (isos c)), None)
      else (with_heap c (alter (fun e => touch e t2) l (heap c)), Some l)
  end.

Definition Set_ (c : ISOCache) (mac configHash data : bytes) (now : Z) : ISOCache * loc :=
  let key := cache_key mac in
  let entry := {| Data := data; ConfigHash := configHash; ModTime := now;
                  LastAccess := now |} in
  let l := length (heap c) in
  (with_isos (with_heap c (heap c ++ [entry])) (<[key := l]> (isos c)), l).
End ops.

Definition Len (c : ISOCache) : Z := Z.of_nat (size (isos c)).

(** The body of the sweep on one entry. *)
Definition reap_one (c : ISOCache) (now : Z) (st : gmap bytes loc * Z) (kl : bytes * loc)
    : gmap bytes loc * Z :=
  if expired c now kl.2 then (delete kl.1 st.1, st.2 + 1) else st.

(** [o] is the order in which the map is visited. *)
Definition Reap (o : list (bytes * loc) -> list (bytes * loc)) (c : ISOCache) (now : Z)
    : ISOCache * Z :=
  let '(m, evicted) := foldl (reap_one c now) (isos c, 0) (o (map_to_list (isos c))) in
  (with_isos c m, evicted).

(** [Close]: closes the channel unless it is closed already. *)
Definition Close (c : ISOCache) : ISOCache :=
  if stopped c then c
  else {| isos := isos c; heap := heap c; ttl := ttl c; stopped := true; reaping := reaping c |}.

(** One round of the reaper's [select]: a tick sweeps, the closed channel ends
    the goroutine. *)
Inductive reaper_event := Tick (now : Z) | Stop.

Definition startReaper_round (o : list (bytes * loc) -> list (bytes * loc)) (c : ISOCache)
    (e : reaper_event) : ISOCache :=
  if reaping c then
    match e with
    | Tick now => (Reap o c now).1
    | Stop =>
        if stopped c then
          {| isos := isos c; heap := heap c; ttl := ttl c; stopped := true; reaping := false |}
        else c
    end
  else c.

End Cache.
Import Cache.

(** ** Facts *)

Module CacheFacts.

(** What a holder of a pointer reads. *)
Definition content (e : CachedISO) : bytes * bytes * Z := (Data e, ConfigHash e, ModTime e).

Definition wf (c : ISOCache) : Prop :=
  0 < ttl c /\
  map_Forall (fun _ l => (l < length (heap c))%nat) (isos c) /\
  (forall k1 k2 l, isos c !! k1 = Some l -> isos c !! k2 = Some l -> k1 = k2).

Lemma Sub_mono t1 t2 u : t1 <= t2 -> Sub t1 u <= Sub t2 u.
Proof. unfold Sub. lia. Qed.

Lemma expired_mono c t1 t2 l : t1 <= t2 -> expired c t1 l = true -> expired c t2 l = true.
Proof.
  unfold expired. destruct (heap c !! l) as [e|]; [|done]. rewrite !Z.ltb_lt.
  intros Ht. pose proof (Sub_mono t1 t2 (LastAccess e) Ht). lia.
Qed.

Definition unexpired (c : ISOCache) (now : Z) : gmap bytes loc :=
  filter (fun kl => expired c now kl.2 = false) (isos c).

(** The loop over distinct keys is a filter and a count. *)
Lemma reap_loop c now l m n :
  NoDup l.*1 -> (forall k v, (k, v) ∈ l -> m !! k = Some v) ->
  foldl (reap_one c now) (m, n) l =
  (filter (fun kl => expired c now kl.2 = false \/ kl ∉ l) m,
   n + zlen (filter (fun kl => expired c now kl.2 = true) l)).
Proof.
  revert m n. induction l as [|[k v] l IH]; intros m n Hnd Hin; cbn [foldl].
  { f_equal; [|cbn; lia]. symmetry. apply map_filter_id.
    intros k v _. right. apply not_elem_of_nil. }
  cbn in Hnd. apply NoDup_cons in Hnd as [Hk Hnd].
  rewrite filter_cons. unfold reap_one at 2. cbn [fst snd].
  destruct (expired c now v) eqn:E.
  - rewrite decide_True by done. rewrite IH; [|done|].
    + f_equal; [|cbn [length]; lia]. apply map_eq. intros k'. apply option_eq. intros v'.
      rewrite !map_lookup_filter_Some, lookup_delete_Some, elem_of_cons. cbn.
      split.
      * intros [[Hne Hm] Hor]. split; [done|]. destruct Hor as [|Hn]; [by left|].
        right. intros [[= -> ->]|?]; done.
      * intros [Hm Hor].
        assert (k <> k').
        { intros <-. assert (v' = v) as ->.
          { specialize (Hin k v ltac:(left)). congruence. }
          destruct Hor as [Hor|Hor]; [congruence|]. apply Hor. by left. }
        split; [done|]. destruct Hor as [|Hn]; [by left|]. right. intros ?. apply Hn. by right.
    + intros k' v' Hin'. rewrite lookup_delete_ne; [by apply Hin; right|].
      intros <-. apply Hk. apply (list_elem_of_fmap_2 fst _ _ Hin').
  - rewrite decide_False by congruence. rewrite IH; [|done|by intros; apply Hin; right].
    f_equal. apply map_filter_ext. intros k' v' Hm. cbn. rewrite elem_of_cons.
    split; (intros [|Hn]; [by left|]).
    + destruct (decide ((k', v') = (k, v))) as [[= -> ->]|]; [by left|]. right.
      intros [|]; done.
    + right. intros ?. apply Hn. by right.
Qed.

Definition visits (o : list (bytes * loc) -> list (bytes * loc)) : Prop := forall l, o l ≡ₚ l.

Lemma Reap_eq o c now :
  visits o ->
  Reap o c now = (with_isos c (unexpired c now),
                  Z.of_nat (size (isos c)) - Z.of_nat (size (unexpired c now))).
Proof.
  intros Ho. unfold Reap. rewrite reap_loop.
  - f_equal.
    + f_equal. apply map_filter_ext. intros k l Hkl. cbn. split; [|by left].
      intros [|Hn]; [done|]. destruct Hn. by rewrite (Ho _), elem_of_map_to_list.
    + rewrite (Ho (map_to_list (isos c))). unfold unexpired. rewrite <- count_filter.
      rewrite <- (length_map_to_list (isos c)).
      rewrite <- (length_filter_split (fun kl => expired c now kl.2 = true)
        (fun kl => expired c now kl.2 = false) (map_to_list (isos c))); [lia|].
      intros kl _. destruct (expired c now kl.2); split; congruence.
  - rewrite (Ho _). apply NoDup_fst_map_to_list.
  - intros k v. by rewrite (Ho _), elem_of_map_to_list.
Qed.

(** One operation of some goroutine. *)
Inductive cache_step `{Unicode} : ISOCache -> ISOCache -> Prop :=
| cs_get c mac t1 t2 : cache_step c (Get c mac t1 t2).1
| cs_set c mac h d t : cache_step c (Set_ c mac h d t).1
| cs_reap c o t : visits o -> cache_step c (Reap o c t).1
| cs_close c : cache_step c (Close c)
| cs_round c o e : visits o -> cache_step c (startReaper_round o c e).

Lemma wf_new t r : wf (NewISOCache t r).
Proof.
  split_and!; cbn.
  - unfold Minute. destruct (Z.leb_spec t 0); lia.
  - apply map_Forall_empty.
  - intros k1 k2 l. by rewrite lookup_empty.
Qed.

Lemma wf_shrink c m : m ⊆ isos c -> wf c -> wf (with_isos c m).
Proof.
  intros Hm (H1 & H2 & H3). split_and!; cbn; [done| |].
  - intros k l Hk. apply (H2 k). by eapply lookup_weaken.
  - intros k1 k2 l E1 E2. apply (H3 k1 k2 l); by eapply lookup_weaken.
Qed.

Lemma wf_Reap o c t : visits o -> wf c -> wf (Reap o c t).1.
Proof. intros Ho. rewrite Reap_eq by done. apply wf_shrink, map_filter_subseteq. Qed.

Lemma wf_step `{Unicode} c c' : cache_step c c' -> wf c -> wf c'.
Proof.
  intros Hs Hwf. pose proof Hwf as (H1 & H2 & H3).
  destruct Hs as [c mac t1 t2|c mac h d t|c o t Ho|c|c o e Ho].
  - unfold Get. destruct (isos c !! cache_key mac) as [l|]; [|done].
    destruct (expired c t1 l); [apply wf_shrink; [apply delete_subseteq|done]|].
    split_and!; cbn; [done| |done]. by rewrite length_alter.
  - split_and!; cbn; [done| |].
    + rewrite length_app. cbn. apply map_Forall_insert_2; [lia|].
      eapply map_Forall_impl; [exact H2|]. cbn. lia.
    + intros k1 k2 l E1 E2. apply lookup_insert_Some in E1, E2.
      destruct E1 as [[<- <-]|[_ E1]], E2 as [[<- E]|[_ E2]]; try done; subst;
        [apply H2 in E2; lia|apply H2 in E1; lia|by apply (H3 k1 k2 l)].
  - by apply wf_Reap.
  - unfold Close. by destruct (stopped c).
  - unfold startReaper_round. destruct (reaping c); [|done]. destruct e as [now|].
    + by apply wf_Reap.
    + by destruct (stopped c).
Qed.

(** The heap only grows, and an entry keeps its content. *)
Definition heap_le (h h' : list CachedISO) : Prop :=
  forall l e, h !! l = Some e -> exists e', h' !! l = Some e' /\ content e' = content e.

#[global] Instance heap_le_preorder : PreOrder heap_le.
Proof.
  split.
  - intros h l e He. by exists e.
  - intros h1 h2 h3 H12 H23 l e He. destruct (H12 l e He) as (e2 & He2 & <-).
    by apply H23.
Qed.

Lemma heap_le_step `{Unicode} c c' : cache_step c c' -> heap_le (heap c) (heap c').
Proof.
  destruct 1 as [c mac t1 t2|c mac h d t|c o t Ho|c|c o e Ho].
  - unfold Get. destruct (isos c !! cache_key mac) as [l0|]; [|done].
    destruct (expired c t1 l0); [done|]. intros l e He. cbn.
    destruct (decide (l = l0)) as [->|Hne].
    + exists (touch e t2). by rewrite list_lookup_alter_eq, He.
    + exists e. by rewrite list_lookup_alter_ne.
  - intros l e He. exists e. cbn. by rewrite lookup_app_l_Some with (x := e).
  - by rewrite Reap_eq.
  - unfold Close. by destruct (stopped c).
  - unfold startReaper_round. destruct (reaping c); [|done]. destruct e as [now|].
    + by rewrite Reap_eq.
    + by destruct (stopped c).
Qed.

Lemma heap_le_steps `{Unicode} c c' : rtc cache_step c c' -> heap_le (heap c) (heap c').
Proof.
  induction 1 as [|c1 c2 c3 H12 _ IH]; [done|]. etrans; [by apply heap_le_step|exact IH].
Qed.

Lemma wf_steps `{Unicode} c c' : rtc cache_step c c' -> wf c -> wf c'.
Proof. induction 1 as [|c1 c2 c3 H12 _ IH]; [done|]. intros ?. by apply IH, (wf_step c1). Qed.

End CacheFacts.
Import CacheFacts.

(** ** Properties *)

(** C8: a handler may use the image it was given for as long as it likes:
    whatever the other goroutines do to the cache (hits that move access times,
    replacements, evictions, sweeps), the bytes, the configuration hash and the
    modification time behind a pointer never change; and the cache keeps its
    shape, every key pointing to an entry of its own. *)
Theorem cache_pointer_stable `{Unicode} (t r : Z) (c c' : ISOCache) (l : loc) (e : CachedISO)
    (Hr : rtc cache_step (NewISOCache t r) c) (Hs : rtc cache_step c c')
    (Hl : heap c !! l = Some e) :
  wf c' /\ exists e', heap c' !! l = Some e' /\
    Data e' = Data e /\ ConfigHash e' = ConfigHash e /\ ModTime e' = ModTime e.
Proof.
  split; [by apply (wf_steps c), (wf_steps _ _ Hr), wf_new|].
  destruct (heap_le_steps c c' Hs l e Hl) as (e' & He' & [= ? ? ?]). eauto.
Qed.

(** C31: [Get] returns an entry exactly when there is one under the key that
    was used no longer ago than the time to live; it then moves its access time
    and nothing else, and otherwise drops the entry if there is one. *)
Theorem cache_get `{Unicode} (c : ISOCache) (mac : bytes) (t1 t2 : Z) (Hwf : wf c) :
  let key := cache_key mac in let '(c', res) := Get c mac t1 t2 in
  (forall l, res = Some l <->
     isos c !! key = Some l /\
     exists e, heap c !! l = Some e /\ Sub t1 (LastAccess e) <= ttl c) /\
  (forall l e, res = Some l -> heap c !! l = Some e ->
     isos c' = isos c /\ heap c' = <[l := touch e t2]> (heap c)) /\
  (res = None -> isos c' = delete key (isos c) /\ heap c' = heap c).
Proof.
  destruct Hwf as (_ & Hin & _). cbv zeta. unfold Get.
  destruct (isos c !! cache_key mac) as [l|] eqn:El.
  2: { split_and!; [|done|]; [by intros; split; [|intros [? _]]|]. intros _. by rewrite delete_id. }
  assert (exists e, heap c !! l = Some e) as [e He]
    by (apply lookup_lt_is_Some_2; by apply (Hin (cache_key mac))).
  destruct (expired c t1 l) eqn:Ee; unfold expired in Ee; rewrite He in Ee.
  - apply Z.ltb_lt in Ee. split_and!; [|done|done]. intros l'. split; [done|].
    intros ([= <-] & e' & He' & Hle). rewrite He in He'. injection He' as <-. lia.
  - apply Z.ltb_ge in Ee. split_and!; [| |done].
    + intros l'. split; [intros [= <-]; eauto|]. by intros [[= <-] _].
    + intros l' e' [= <-] He'. split; [done|]. cbn. apply list_eq. intros i.
      destruct (decide (i = l)) as [->|Hne].
      * rewrite list_lookup_alter_eq. rewrite He'. cbn.
        by rewrite list_lookup_insert_eq by by eapply lookup_lt_Some.
      * by rewrite list_lookup_alter_ne, list_lookup_insert_ne.
Qed.

(** What [Set] stores is what [Get] returns, under any spelling with the
    same key, until the time to live has passed; the entries under other keys
    are found as before. *)
Theorem cache_set_get `{Unicode} (c : ISOCache) (mac mac' h d : bytes) (now t1 t2 : Z)
    (Hwf : wf c) :
  let '(c1, l) := Set_ c mac h d now in
  heap c1 !! l = Some {| Data := d; ConfigHash := h; ModTime := now; LastAccess := now |} /\
  (cache_key mac' = cache_key mac -> Sub t1 now <= ttl c -> (Get c1 mac' t1 t2).2 = Some l) /\
  (cache_key mac' <> cache_key mac -> (Get c1 mac' t1 t2).2 = (Get c mac' t1 t2).2).
Proof.
  destruct Hwf as (_ & Hin & _). cbv zeta. unfold Set_, Get. cbn.
  assert (Hl : (heap c ++ [{| Data := d; ConfigHash := h; ModTime := now; LastAccess := now |}])
    !! length (heap c) = Some {| Data := d; ConfigHash := h; ModTime := now; LastAccess := now |})
    by apply list_lookup_middle, eq_refl.
  split_and!; [exact Hl| |].
  - intros -> Hle. rewrite lookup_insert_eq. unfold expired. cbn. rewrite Hl. cbn.
    by rewrite (proj2 (Z.ltb_ge _ _) Hle).
  - intros Hne. rewrite lookup_insert_ne by done.
    destruct (isos c !! cache_key mac') as [l'|] eqn:El; [|done].
    unfold expired. cbn. rewrite lookup_app_l by by apply (Hin (cache_key mac')).
    by destruct (heap c !! l') as [e|]; [destruct (_ <? _)|].
Qed.

(** C32: a sweep removes exactly the expired entries and reports how many, and
    it is invisible: no later [Get] answers differently because of it. *)
Theorem reap_transparent `{Unicode} o (c : ISOCache) (now : Z) (Ho : visits o) :
  let '(c', evicted) := Reap o c now in
  (forall k l, isos c' !! k = Some l <-> isos c !! k = Some l /\ expired c now l = false) /\
  evicted = Len c - Len c' /\
  (forall mac t1 t2, now <= t1 -> (Get c' mac t1 t2).2 = (Get c mac t1 t2).2).
Proof.
  rewrite Reap_eq by done. split_and!; [|done|].
  - intros k l. cbn. unfold unexpired. by rewrite map_lookup_filter_Some.
  - intros mac t1 t2 Ht. unfold Get. cbn.
    destruct (unexpired c now !! cache_key mac) as [l|] eqn:El; unfold unexpired in El.
    + apply map_lookup_filter_Some in El as [-> _].
      change (expired (with_isos c (unexpired c now)) t1 l) with (expired c t1 l).
      by destruct (expired c t1 l).
    + destruct (isos c !! cache_key mac) as [l|] eqn:E; [|done].
      destruct (expired c now l) eqn:Ee.
      * by rewrite (expired_mono c now t1 l Ht Ee).
      * exfalso. apply map_lookup_filter_None in El as [El|El]; [congruence|].
        by apply (El l E).
Qed.

(** ** Witnesses *)

#[local] Instance ascii_only : Unicode := {|
  uni_lower s := s; uni_trim s := s; uni_trim_right s := s; uni_letter _ := false;
|}.

Lemma visits_id : visits (fun l => l).
Proof. intros l. done. Qed.

Definition sample_cache : ISOCache :=
  (Set_ (NewISOCache (30 * Minute) 0) "AA:BB"%string "h1"%string "iso"%string 1000).1.

Lemma sample_cache_wf : wf sample_cache.
Proof. apply (wf_step (NewISOCache (30 * Minute) 0)); [apply cs_set|apply wf_new]. Qed.

Lemma cache_pointer_stable_witness :
  let c' := (Set_ (Reap (fun l => l) sample_cache (40 * Minute)).1
    "aa:bb"%string "h2"%string "new"%string 2000).1 in
  wf c' /\ exists e', heap c' !! 0%nat = Some e' /\
    Data e' = "iso"%string /\ ConfigHash e' = "h1"%string /\ ModTime e' = 1000.
Proof.
  apply (cache_pointer_stable (30 * Minute) 0 sample_cache _ 0%nat
    {| Data := "iso"%string; ConfigHash := "h1"%string; ModTime := 1000; LastAccess := 1000 |}).
  - apply rtc_once, cs_set.
  - eapply rtc_l; [apply cs_reap, visits_id|]. apply rtc_once, cs_set.
  - vm_compute. reflexivity.
Defined.

Lemma cache_get_witness :
  let '(c', res) := Get sample_cache " aa:bb "%string 2000 2001 in
  res = Some 0%nat <->
     isos sample_cache !! cache_key " aa:bb "%string = Some 0%nat /\
     exists e, heap sample_cache !! 0%nat = Some e /\ Sub 2000 (LastAccess e) <= ttl sample_cache.
Proof. apply (cache_get sample_cache " aa:bb "%string 2000 2001 sample_cache_wf). Defined.

Lemma cache_set_get_witness :
  (Get (Set_ sample_cache "CC:DD"%string "h3"%string "iso3"%string 5000).1
    "cc:dd "%string 6000 6001).2 = Some 1%nat.
Proof.
  apply (cache_set_get sample_cache "CC:DD"%string "cc:dd "%string "h3"%string "iso3"%string
    5000 6000 6001 sample_cache_wf); vm_compute; congruence.
Defined.

Lemma reap_transparent_witness :
  let '(c', evicted) := Reap (fun l => l) sample_cache (40 * Minute) in
  evicted = Len sample_cache - Len c' /\
  (Get c' "aa:bb"%string (41 * Minute) (41 * Minute)).2 =
  (Get sample_cache "aa:bb"%string (41 * Minute) (41 * Minute)).2.
Proof.
  pose proof (reap_transparent (fun l => l) sample_cache (40 * Minute) visits_id) as Hr.
  destruct (Reap _ _ _) as [c' evicted]. destruct Hr as (_ & Hn & Hg).
  split; [exact Hn|]. apply Hg. unfold Minute. lia.
Defined.
