(* ===== verification/KernelNet.v ===== *)
(** * Kernel arguments and the extra initrd ([main.go])

    [Net] translates [buildKernelNet] and [injectOverlayInitrd].  Their output
    is read by others: the kernel takes the [ip=] argument apart, and the hook
    script of the initramfs overlay collects the [gen_] arguments; [Cmdline]
    is that reader. *)

From S2P Require Import Prelude GoStrings Types.

Module Net.

Definition def (v d : bytes) : bytes := if bool_decide (v = []) then d else v.

Definition dns_suffix (n : Node) : bytes :=
  if negb (bool_decide (DNS n = [])) && negb (bool_decide (DNS2 n = [])) then
    ":"%string ++ DNS n ++ ":"%string ++ DNS2 n
  else if negb (bool_decide (DNS n = [])) then ":"%string ++ DNS n
  else [].

(** [fmt.Sprintf("ip=%s::%s:%s:%s:%s:none%s", ...)] *)
Definition ip_arg (n : Node) (vdev : bytes) : bytes :=
  "ip="%string ++ IP n ++ "::"%string ++ GW n ++ ":"%string ++ Netmask n ++ ":"%string ++
  Hostname n ++ ":"%string ++ vdev ++ ":none"%string ++ dns_suffix n.

Definition buildKernelNet (n : Node) : bytes :=
  if negb (bool_decide (KernelNet n = [])) then KernelNet n
  else if bonded n then
    let bond := if bool_decide (BondName n = []) then "bond0"%string : bytes else BondName n in
    let vdev := if negb (bool_decide (VLAN n = [])) then bond ++ "."%string ++ VLAN n else bond in
    let mode := def (BondMode n) "802.3ad"%string in
    let rate := def (LACPRate n) "fast"%string in
    let hash := def (HashPolicy n) "layer3+4"%string in
    let s := ip_arg n vdev in
    let s := s ++ " gen_bond="%string ++ bond in
    let s := s ++ " gen_members="%string ++ Join (BondMembers n) ","%string in
    let s := s ++ " gen_mode="%string ++ mode in
    let s := s ++ " gen_rate="%string ++ rate in
    let s := s ++ " gen_hash="%string ++ hash in
    let s := if negb (bool_decide (VLAN n = [])) then s ++ " gen_vlan="%string ++ VLAN n else s in
    s ++ " network-config=disabled"%string
  else
    let dev := Dev n in
    let vdev := if negb (bool_decide (VLAN n = [])) then dev ++ "."%string ++ VLAN n else dev in
    let s := ip_arg n vdev in
    let s := if negb (bool_decide (VLAN n = [])) then
        s ++ " vlan="%string ++ vdev ++ ":"%string ++ dev else s in
    s ++ " network-config=disabled"%string.

Definition injectOverlayInitrd (body url : bytes) : bytes :=
  if bool_decide (url = []) then body
  else
    let line := "initrd "%string ++ url ++ [nl] in
    let i := LastIndex body (nl :: "boot"%string) in
    if 0 <=? i then take (Z.to_nat (i + 1)) body ++ line ++ drop (Z.to_nat (i + 1)) body
    else body ++ line.

End Net.
Import Net.

(** ** The readers of the command line *)

Module Cmdline.

(** The field separators of the shell. *)
Definition is_ifs (c : ascii) : bool := (b2z c =? 32) || (b2z c =? 9) || (b2z c =? 10).

Definition flush (w : bytes) : list bytes := match w with [] => [] | _ => [w] end.

Fixpoint words_from (w s : bytes) : list bytes :=
  match s with
  | [] => flush w
  | c :: s' => if is_ifs c then flush w ++ words_from [] s' else words_from (w ++ [c]) s'
  end.

(** [$(cat /proc/cmdline)], split into words. *)
Definition words (s : bytes) : list bytes := words_from [] s.

(** The fields of [ip=], as the kernel takes them apart. *)
Definition fields (sep : ascii) (s : bytes) : list bytes := split_byte sep [] s.

(** The fields the shell makes of an unquoted value under [IFS=,]: an empty
    field at the end is none. *)
Definition ifs_fields (sep : ascii) (s : bytes) : list bytes :=
  let l := fields sep s in
  if bool_decide (last l = Some []) then removelast l else l.

(** The variables of the hook. *)
Record hook := { BOND : bytes; MEMBERS : bytes; MODE : bytes; RATE : bytes; HASH : bytes;
                 VID : bytes }.

Definition hook_empty : hook :=
  {| BOND := []; MEMBERS := []; MODE := []; RATE := []; HASH := []; VID := [] |}.

(** [${x#p}] when [x] begins with [p]. *)
Definition strip (p x : bytes) : option bytes :=
  if HasPrefix x p then Some (drop (length p) x) else None.

(** The [case] of the hook on one word; the first pattern that fits counts. *)
Definition hook_word (h : hook) (x : bytes) : hook :=
  match strip "gen_bond="%string x with
  | Some v => {| BOND := v; MEMBERS := MEMBERS h; MODE := MODE h; RATE := RATE h;
                 HASH := HASH h; VID := VID h |}
  | None =>
  match strip "gen_members="%string x with
  | Some v => {| BOND := BOND h; MEMBERS := v; MODE := MODE h; RATE := RATE h;
                 HASH := HASH h; VID := VID h |}
  | None =>
  match strip "gen_mode="%string x with
  | Some v => {| BOND := BOND h; MEMBERS := MEMBERS h; MODE := v; RATE := RATE h;
                 HASH := HASH h; VID := VID h |}
  | None =>
  match strip "gen_rate="%string x with
  | Some v => {| BOND := BOND h; MEMBERS := MEMBERS h; MODE := MODE h; RATE := v;
                 HASH := HASH h; VID := VID h |}
  | None =>
  match strip "gen_hash="%string x with
  | Some v => {| BOND := BOND h; MEMBERS := MEMBERS h; MODE := MODE h; RATE := RATE h;
                 HASH := v; VID := VID h |}
  | None =>
  match strip "gen_vlan="%string x with
  | Some v => {| BOND := BOND h; MEMBERS := MEMBERS h; MODE := MODE h; RATE := RATE h;
                 HASH := HASH h; VID := v |}
  | None => h
  end end end end end end.

Definition run_hook (cmdline : bytes) : hook := foldl hook_word hook_empty (words cmdline).

(** The kernel's [ip=] argument: the fields of the last word that is one. *)
Definition ip_fields (cmdline : bytes) : option (list bytes) :=
  foldl (fun r x => match strip "ip="%string x with Some v => Some (fields ":" v) | None => r end)
    None (words cmdline).

End Cmdline.
Import Cmdline.

(** ** Words and fields *)

Module CmdlineFacts.

Definition word (w : bytes) : Prop := Forall (fun c => is_ifs c = false) w.
Definition without (sep : ascii) (w : bytes) : Prop := Forall (fun c => c <> sep) w.

Lemma words_from_app w a b :
  words_from w (a ++ " "%string ++ b) = words_from w a ++ words b.
Proof.
  revert w. induction a as [|c a IH]; intros w; [done|]. cbn [app words_from].
  destruct (is_ifs c); [|apply IH]. rewrite IH, app_assoc. done.
Qed.

Lemma words_from_word w v : word v -> words_from w v = flush (w ++ v).
Proof.
  intros Hv. revert w. induction Hv as [|c v Hc _ IH]; intros w; [by rewrite app_nil_r|].
  cbn [words_from]. rewrite Hc, IH, <- app_assoc. done.
Qed.

(** Words separated by single blanks. *)
Lemma words_snoc a v : word v -> v <> [] -> words (a ++ " "%string ++ v) = words a ++ [v].
Proof.
  intros Hv Hne. unfold words. rewrite words_from_app. f_equal. unfold words.
  rewrite words_from_word by done. by destruct v.
Qed.

Lemma words_one v : word v -> v <> [] -> words v = [v].
Proof. intros Hv Hne. unfold words. rewrite words_from_word by done. by destruct v. Qed.

Lemma fields_Join sep l : Forall (without sep) l -> l <> [] -> fields sep (Join l [sep]) = l.
Proof.
  intros Hl Hne. apply split_byte_Join; [done|]. eapply Forall_impl; [exact Hl|].
  intros x Hx Hin. by apply (proj1 (Forall_forall _ _) Hx sep Hin).
Qed.

(** The shell gets back what was joined, if no element is empty. *)
Lemma ifs_fields_Join sep l :
  Forall (without sep) l -> Forall (fun x => x <> []) l -> l <> [] ->
  ifs_fields sep (Join l [sep]) = l.
Proof.
  intros Hl Hx Hne. unfold ifs_fields. rewrite fields_Join by done.
  rewrite bool_decide_false; [done|]. intros E. apply last_Some in E as [l' ->].
  by apply Forall_app in Hx as [_ [Hx _]%Forall_cons].
Qed.

Lemma word_app a b : word a -> word b -> word (a ++ b).
Proof. intros. by apply Forall_app. Qed.

Lemma word_Join sep l : word sep -> Forall word l -> word (Join l sep).
Proof.
  intros Hs Hl. induction Hl as [|x l Hx Hl IH]; [apply Forall_nil_2|].
  destruct l; [done|]. cbn [Join]. by repeat apply word_app.
Qed.

Lemma HasPrefix_app p x : HasPrefix (p ++ x) p = true.
Proof.
  induction p as [|c p IH]; [by destruct x|]. cbn. unfold ascii_eqb.
  by rewrite bool_decide_true.
Qed.

Lemma HasPrefix_weaken x p q : HasPrefix x (p ++ q) = true -> HasPrefix x p = true.
Proof.
  revert x. induction p as [|c p IH]; intros x; [by destruct x|].
  destruct x as [|d x]; [done|]. cbn. destruct (ascii_eqb c d); [|done]. apply IH.
Qed.

Lemma strip_app p x : strip p (p ++ x) = Some x.
Proof. unfold strip. by rewrite HasPrefix_app, drop_app_length. Qed.

Lemma hook_ignores h x : HasPrefix x "gen_"%string = false -> hook_word h x = h.
Proof.
  intros Hx.
  assert (Hs : forall p, strip ("gen_"%string ++ p) x = None).
  { intros p. unfold strip. case_match eqn:E; [|reflexivity].
    pose proof (HasPrefix_weaken x "gen_"%string p E). congruence. }
  unfold hook_word.
  rewrite (Hs "bond="%string : strip "gen_bond="%string x = None).
  rewrite (Hs "members="%string : strip "gen_members="%string x = None).
  rewrite (Hs "mode="%string : strip "gen_mode="%string x = None).
  rewrite (Hs "rate="%string : strip "gen_rate="%string x = None).
  rewrite (Hs "hash="%string : strip "gen_hash="%string x = None).
  by rewrite (Hs "vlan="%string : strip "gen_vlan="%string x = None).
Qed.

Lemma run_ignores h l :
  Forall (fun x => HasPrefix x "gen_"%string = false) l -> foldl hook_word h l = h.
Proof. intros Hl. induction Hl as [|x l Hx _ IH]; [done|]. cbn. by rewrite hook_ignores. Qed.

End CmdlineFacts.
Import CmdlineFacts.

(** ** What the arguments say *)

Module NetFacts.

Lemma words_arg a (p v : bytes) :
  word p -> p <> [] -> word v -> words (a ++ (" "%string ++ p) ++ v) = words a ++ [p ++ v].
Proof.
  intros Hp Hne Hv. rewrite <- (app_assoc " "%string). apply words_snoc.
  - by apply word_app.
  - by destruct p.
Qed.

(** Literals without blanks. *)
Definition is_word (s : bytes) : bool := forallb (fun c => negb (is_ifs c)) s.

Lemma is_word_word s : is_word s = true -> word s.
Proof.
  induction s as [|c s IH]; [intros _; apply Forall_nil_2|]. cbn.
  intros [Hc Hs]%andb_prop. apply Forall_cons_2; [by destruct (is_ifs c)|by apply IH].
Qed.

(** A node whose values can be written on the command line: no blanks, no
    colons in the fields of [ip=] (which excludes IPv6 addresses), no commas in
    the names of the members, and no member without a name. *)
Record plain (n : Node) : Prop := {
  plain_word : Forall word [IP n; GW n; Netmask n; Hostname n; VLAN n; Dev n; DNS n; DNS2 n;
    BondName n; BondMode n; LACPRate n; HashPolicy n];
  plain_members : Forall word (BondMembers n);
  plain_colon : Forall (without ":") [IP n; GW n; Netmask n; Hostname n; VLAN n; Dev n; DNS n;
    DNS2 n; BondName n];
  plain_comma : Forall (without ",") (BondMembers n);
  plain_named : Forall (fun m => m <> []) (BondMembers n);
}.

Definition bond_of (n : Node) : bytes := def (BondName n) "bond0"%string.

(** The interface the address goes on. *)
Definition with_vlan (dev vlan : bytes) : bytes :=
  if bool_decide (vlan = []) then dev else dev ++ "."%string ++ vlan.

Definition vdev_of (n : Node) : bytes :=
  with_vlan (if bonded n then bond_of n else Dev n) (VLAN n).

Definition dns_of (n : Node) : list bytes :=
  if bool_decide (DNS n = []) then []
  else if bool_decide (DNS2 n = []) then [DNS n] else [DNS n; DNS2 n].

Definition ip_values (n : Node) : list bytes :=
  [IP n; []; GW n; Netmask n; Hostname n; vdev_of n; "none"%string : bytes] ++ dns_of n.

Lemma dns_suffix_Join n :
  "none"%string ++ dns_suffix n = Join (("none"%string : bytes) :: dns_of n) ":"%string.
Proof.
  unfold dns_suffix, dns_of.
  destruct (bool_decide (DNS n = [])), (bool_decide (DNS2 n = [])); cbn [negb andb Join];
    by rewrite ?app_nil_r.
Qed.

Lemma ip_arg_Join n : ip_arg n (vdev_of n) = "ip="%string ++ Join (ip_values n) ":"%string.
Proof.
  unfold ip_arg, ip_values. cbn [app]. rewrite !Join_cons, <- dns_suffix_Join. done.
Qed.

Lemma buildKernelNet_bonded n :
  KernelNet n = [] -> bonded n = true ->
  buildKernelNet n =
    ((((((ip_arg n (vdev_of n) ++ (" "%string ++ "gen_bond="%string) ++ bond_of n)
       ++ (" "%string ++ "gen_members="%string) ++ Join (BondMembers n) ","%string)
       ++ (" "%string ++ "gen_mode="%string) ++ def (BondMode n) "802.3ad"%string)
       ++ (" "%string ++ "gen_rate="%string) ++ def (LACPRate n) "fast"%string)
       ++ (" "%string ++ "gen_hash="%string) ++ def (HashPolicy n) "layer3+4"%string)
       ++ (if bool_decide (VLAN n = []) then []
           else (" "%string ++ "gen_vlan="%string) ++ VLAN n))
       ++ " "%string ++ "network-config=disabled"%string.
Proof.
  intros Hk Hb. unfold buildKernelNet, vdev_of, with_vlan. rewrite Hk, Hb.
  rewrite bool_decide_true by done. cbn [negb]. cbv zeta.
  change (if bool_decide (BondName n = []) then "bond0"%string : bytes else BondName n)
    with (bond_of n).
  destruct (bool_decide (VLAN n = [])); cbn [negb]; [|done]. by rewrite app_nil_r.
Qed.

Lemma word_def v d : word v -> word d -> word (def v d).
Proof. intros. unfold def. by destruct (bool_decide _). Qed.

Lemma without_vdev n : plain n -> without ":" (vdev_of n) /\ word (vdev_of n).
Proof.
  intros [Hw _ Hc _]. rewrite !Forall_cons in Hw, Hc. destruct_and!.
  assert (without ":" (bond_of n) /\ word (bond_of n)) as [? ?].
  { unfold bond_of, def. destruct (bool_decide _); [|done].
    split; [|by apply is_word_word]. repeat (apply Forall_cons_2; [done|]). apply Forall_nil_2. }
  assert (Hd : forall d, without ":" d -> word d ->
    without ":" (with_vlan d (VLAN n)) /\ word (with_vlan d (VLAN n))).
  { intros d Hd1 Hd2. unfold with_vlan. destruct (bool_decide _); [done|].
    split; (apply Forall_app; split; [done|]); (apply Forall_cons_2; [done|]); done. }
  unfold vdev_of. by destruct (bonded n); apply Hd.
Qed.

Lemma ip_values_plain n :
  plain n -> Forall (without ":") (ip_values n) /\ Forall word (ip_values n).
Proof.
  intros Hp. pose proof (without_vdev n Hp) as [? ?]. destruct Hp as [Hw _ Hc _].
  rewrite !Forall_cons in Hw, Hc. destruct_and!.
  assert (without ":" "none"%string) by (repeat (apply Forall_cons_2; [done|]); apply Forall_nil_2).
  assert (word "none"%string) by by apply is_word_word.
  unfold ip_values, dns_of.
  split; (apply Forall_app; split;
    [repeat (apply Forall_cons_2; [done || apply Forall_nil_2|]); apply Forall_nil_2|]);
    destruct (bool_decide (DNS n = [])), (bool_decide (DNS2 n = []));
    repeat (apply Forall_cons_2; [done|]); apply Forall_nil_2.
Qed.

Definition vlan_words (n : Node) : list bytes :=
  if bool_decide (VLAN n = []) then [] else ["gen_vlan="%string ++ VLAN n].

Lemma word_ip_arg n : plain n -> word (ip_arg n (vdev_of n)).
Proof.
  intros Hp. rewrite ip_arg_Join. apply word_app; [by apply is_word_word|].
  apply word_Join; [by apply is_word_word|]. by apply ip_values_plain.
Qed.

(** The command line of a bonded node, word by word. *)
Lemma words_bonded n :
  plain n -> KernelNet n = [] -> bonded n = true ->
  words (buildKernelNet n) =
    ([ip_arg n (vdev_of n); "gen_bond="%string ++ bond_of n;
     "gen_members="%string ++ Join (BondMembers n) ","%string;
     "gen_mode="%string ++ def (BondMode n) "802.3ad"%string;
     "gen_rate="%string ++ def (LACPRate n) "fast"%string;
     "gen_hash="%string ++ def (HashPolicy n) "layer3+4"%string]
    ++ vlan_words n) ++ ["network-config=disabled"%string : bytes].
Proof.
  intros Hp Hk Hb. pose proof (word_ip_arg n Hp) as Hip. pose proof Hp as [Hw Hm _ _].
  rewrite !Forall_cons in Hw. destruct_and!. rewrite buildKernelNet_bonded by done.
  rewrite words_snoc by (done || by apply is_word_word).
  f_equal. unfold vlan_words.
  assert (Hd : forall v d, word v -> is_word d = true -> word (def v d))
    by (intros; apply word_def, is_word_word; done).
  assert (Hj : word (Join (BondMembers n) ","%string))
    by (apply word_Join; [by apply is_word_word|done]).
  destruct (bool_decide (VLAN n = [])); rewrite ?app_nil_r;
    rewrite !words_arg, words_one by (done || (by apply is_word_word) || (by apply Hd));
    done.
Qed.

Lemma words_context pre net post :
  words (pre ++ " "%string ++ net ++ " "%string ++ post) = words pre ++ words net ++ words post.
Proof. unfold words. rewrite words_from_app. unfold words. by rewrite words_from_app. Qed.

(** The hook on each of its arguments. *)
Create Rewrite HintDb hook.

Lemma hook_bond h v : hook_word h ("gen_bond="%string ++ v) =
  {| BOND := v; MEMBERS := MEMBERS h; MODE := MODE h;
     RATE := RATE h; HASH := HASH h; VID := VID h |}.
Proof. unfold hook_word. by rewrite strip_app. Qed.
#[export] Hint Rewrite hook_bond : hook.

Lemma hook_members h v : hook_word h ("gen_members="%string ++ v) =
  {| BOND := BOND h; MEMBERS := v; MODE := MODE h;
     RATE := RATE h; HASH := HASH h; VID := VID h |}.
Proof. unfold hook_word. by rewrite strip_app. Qed.
#[export] Hint Rewrite hook_members : hook.

Lemma hook_mode h v : hook_word h ("gen_mode="%string ++ v) =
  {| BOND := BOND h; MEMBERS := MEMBERS h; MODE := v;
     RATE := RATE h; HASH := HASH h; VID := VID h |}.
Proof. unfold hook_word. by rewrite strip_app. Qed.
#[export] Hint Rewrite hook_mode : hook.

Lemma hook_rate h v : hook_word h ("gen_rate="%string ++ v) =
  {| BOND := BOND h; MEMBERS := MEMBERS h; MODE := MODE h;
     RATE := v; HASH := HASH h; VID := VID h |}.
Proof. unfold hook_word. by rewrite strip_app. Qed.
#[export] Hint Rewrite hook_rate : hook.

Lemma hook_hash h v : hook_word h ("gen_hash="%string ++ v) =
  {| BOND := BOND h; MEMBERS := MEMBERS h; MODE := MODE h;
     RATE := RATE h; HASH := v; VID := VID h |}.
Proof. unfold hook_word. by rewrite strip_app. Qed.
#[export] Hint Rewrite hook_hash : hook.

Lemma hook_vlan h v : hook_word h ("gen_vlan="%string ++ v) =
  {| BOND := BOND h; MEMBERS := MEMBERS h; MODE := MODE h;
     RATE := RATE h; HASH := HASH h; VID := v |}.
Proof. unfold hook_word. by rewrite strip_app. Qed.
#[export] Hint Rewrite hook_vlan : hook.

Definition no_gen (s : bytes) : Prop :=
  Forall (fun x => HasPrefix x "gen_"%string = false) (words s).

Definition no_ip (s : bytes) : Prop :=
  Forall (fun x => HasPrefix x "ip="%string = false) (words s).

Lemma run_hook_bonded n pre post :
  plain n -> KernelNet n = [] -> bonded n = true -> no_gen pre -> no_gen post ->
  run_hook (pre ++ " "%string ++ buildKernelNet n ++ " "%string ++ post) =
    {| BOND := bond_of n; MEMBERS := Join (BondMembers n) ","%string;
       MODE := def (BondMode n) "802.3ad"%string; RATE := def (LACPRate n) "fast"%string;
       HASH := def (HashPolicy n) "layer3+4"%string; VID := VLAN n |}.
Proof.
  intros Hp Hk Hb Hpre Hpost. unfold run_hook.
  rewrite words_context, words_bonded by done. rewrite !foldl_app, (run_ignores _ (words pre)), (run_ignores _ (words post)) by done.
  cbn [foldl]. rewrite (hook_ignores _ (ip_arg n _)) by done.
  autorewrite with hook.
  cbn [BOND MEMBERS MODE RATE HASH VID hook_empty].
  unfold vlan_words. destruct (bool_decide_reflect (VLAN n = [])) as [->|Hv]; [done|].
  cbn [foldl]. autorewrite with hook. done.
Qed.

Lemma ip_ignores r l :
  Forall (fun x => HasPrefix x "ip="%string = false) l ->
  foldl (fun r x => match strip "ip="%string x with
                    | Some v => Some (fields ":" v) | None => r end) r l = r.
Proof.
  intros Hl. induction Hl as [|x l Hx _ IH]; [done|]. cbn [foldl]. unfold strip at 2. by rewrite Hx.
Qed.

(** Whatever follows the address among the words of a node, it is found. *)
Lemma ip_fields_words n pre net post rest :
  plain n -> words net = ip_arg n (vdev_of n) :: rest ->
  Forall (fun x => HasPrefix x "ip="%string = false) rest -> no_ip post ->
  ip_fields (pre ++ " "%string ++ net ++ " "%string ++ post) = Some (ip_values n).
Proof.
  intros Hp Hw Hrest Hpost. unfold ip_fields. rewrite words_context, Hw, !foldl_app.
  cbn [foldl]. rewrite ip_arg_Join, strip_app, fields_Join.
  - by rewrite !ip_ignores.
  - by apply ip_values_plain.
  - done.
Qed.

(** The arguments of a node without a bond. *)
Lemma words_single n :
  plain n -> KernelNet n = [] -> bonded n = false ->
  words (buildKernelNet n) =
    ip_arg n (vdev_of n) ::
    (if bool_decide (VLAN n = []) then []
     else ["vlan="%string ++ vdev_of n ++ ":"%string ++ Dev n]) ++
    ["network-config=disabled"%string : bytes].
Proof.
  intros Hp Hk Hb. pose proof (word_ip_arg n Hp) as Hip.
  pose proof (without_vdev n Hp) as [_ Hv]. destruct Hp as [Hw _ _ _].
  rewrite !Forall_cons in Hw. destruct_and!. revert Hip Hv.
  unfold buildKernelNet, vdev_of, with_vlan. rewrite Hk, Hb.
  rewrite (bool_decide_true ([] = [])) by done. cbn [negb]. cbv zeta.
  destruct (bool_decide (VLAN n = [])); cbn [negb]; intros Hip Hv.
  - transitivity (words (ip_arg n (Dev n) ++ " "%string ++ "network-config=disabled"%string));
      [done|]. by rewrite words_snoc, words_one by (done || by apply is_word_word).
  - set (v := Dev n ++ "."%string ++ VLAN n) in *.
    transitivity (words ((ip_arg n v ++ (" "%string ++ "vlan="%string) ++ v ++ ":"%string ++ Dev n)
      ++ " "%string ++ "network-config=disabled"%string)); [done|].
    rewrite words_snoc by (done || by apply is_word_word).
    rewrite words_arg, words_one; try done; [by apply is_word_word|].
    apply word_app; [done|]. apply word_app; [by apply is_word_word|done].
Qed.

End NetFacts.
Import NetFacts.

(** C7: for a bonded node that has no [kernel_net] of its own and whose
    values are plain (no blanks, no colons in the address fields and so no IPv6,
    no commas in the member names), the bond hook of the overlay reads back from
    the kernel command line exactly the node's bond: its name (or [bond0]), the
    list of its members, mode, rate and hash policy (or their defaults) and its
    VLAN; and the kernel reads the node's address, gateway, netmask, host name,
    tagged interface and name servers from the [ip=] argument.  The rest of the
    command line may be anything that does not use the same arguments. *)
Theorem bonded_cmdline (n : Node) (pre post : bytes)
    (Hplain : plain n) (Hnet : KernelNet n = []) (Hbond : bonded n = true)
    (Hpre : no_gen pre) (Hpost : no_gen post) (Hip : no_ip post) :
  let cmdline := pre ++ " "%string ++ buildKernelNet n ++ " "%string ++ post in
  run_hook cmdline =
    {| BOND := bond_of n; MEMBERS := Join (BondMembers n) ","%string;
       MODE := def (BondMode n) "802.3ad"%string; RATE := def (LACPRate n) "fast"%string;
       HASH := def (HashPolicy n) "layer3+4"%string; VID := VLAN n |} /\
  ifs_fields "," (MEMBERS (run_hook cmdline)) = BondMembers n /\
  ip_fields cmdline = Some (ip_values n).
Proof.
  cbv zeta. rewrite run_hook_bonded by done. split; [done|]. split.
  - cbn. apply ifs_fields_Join; [apply Hplain..|]. intros E. unfold bonded in Hbond. by rewrite E in Hbond.
  - eapply ip_fields_words; [done|by apply words_bonded| |done].
    unfold vlan_words. destruct (bool_decide _); cbn [app];
      repeat (apply Forall_cons_2; [reflexivity|]); apply Forall_nil_2.
Qed.

(** C35: for a node without a bond that has no [kernel_net] of its own and
    whose values are plain (no blanks, no colons in the address fields and so
    no IPv6), the kernel reads the same address fields on the node's own
    interface (with the VLAN as suffix when there is one), the command line then
    holds a [vlan=] word that names the tagged and the plain interface, and the
    bond hook does nothing. *)
Theorem single_cmdline (n : Node) (pre post : bytes)
    (Hplain : plain n) (Hnet : KernelNet n = []) (Hbond : bonded n = false)
    (Hpre : no_gen pre) (Hpost : no_gen post) (Hip : no_ip post) :
  let cmdline := pre ++ " "%string ++ buildKernelNet n ++ " "%string ++ post in
  ip_fields cmdline = Some (ip_values n) /\
  run_hook cmdline = hook_empty /\
  (VLAN n <> [] -> "vlan="%string ++ Dev n ++ "."%string ++ VLAN n ++ ":"%string ++ Dev n
     ∈ words cmdline).
Proof.
  cbv zeta. pose proof (words_single n Hplain Hnet Hbond) as Hw. split_and!.
  - eapply ip_fields_words; [done|exact Hw| |done].
    destruct (bool_decide _); cbn [app];
      repeat (apply Forall_cons_2; [reflexivity|]); apply Forall_nil_2.
  - unfold run_hook. rewrite words_context. apply run_ignores. rewrite Hw.
    apply Forall_app. split; [done|]. apply Forall_app. split; [|done].
    destruct (bool_decide _); cbn [app];
      repeat (apply Forall_cons_2; [reflexivity|]); apply Forall_nil_2.
  - intros Hv. rewrite words_context, Hw. rewrite !elem_of_app, elem_of_cons.
    right. left. right. apply elem_of_app. left.
    rewrite bool_decide_false by done. apply list_elem_of_singleton.
    unfold vdev_of, with_vlan. rewrite Hbond, bool_decide_false by done.
    by rewrite <- !app_assoc.
Qed.

(** C36: the overlay line goes where iPXE needs it: directly before the last
    line that begins with [boot], everything else unchanged; a script without
    such a line gets it at its end. *)
Theorem inject_before_boot (body url : bytes) (Hurl : url <> []) :
  (exists a b, body = a ++ [nl] ++ "boot"%string ++ b /\
     injectOverlayInitrd body url =
       a ++ [nl] ++ "initrd "%string ++ url ++ [nl] ++ "boot"%string ++ b /\
     forall a' b', body = a' ++ [nl] ++ "boot"%string ++ b' -> (length a' <= length a)%nat) \/
  ((forall a b, body <> a ++ [nl] ++ "boot"%string ++ b) /\
     injectOverlayInitrd body url = body ++ "initrd "%string ++ url ++ [nl]).
Proof.
  unfold injectOverlayInitrd. rewrite bool_decide_false by done.
  destruct (LastIndex_spec body (nl :: "boot"%string)) as [[E Hno]|(a & b & Hb & E & Hmax)]; [done| |].
  - right. rewrite E. split; [exact Hno|done].
  - left. exists a, b. split; [exact Hb|]. split; [|exact Hmax]. rewrite E.
    destruct (Z.leb_spec 0 (zlen a)); [|lia].
    assert (Hd : body = (a ++ [nl]) ++ "boot"%string ++ b) by (rewrite Hb; by rewrite <- app_assoc).
    assert (Hl : Z.to_nat (zlen a + 1) = length (a ++ [nl])) by (rewrite length_app; cbn; lia).
    rewrite Hl, Hd, take_app_length, drop_app_length. by rewrite <- !app_assoc.
Qed.

(** A script that has no [boot] line of its own and does not end in a
    newline gets the overlay appended to its last line, which changes that
    line instead of adding one. *)
Theorem inject_without_newline :
  exists body url, ~ (exists a, body = a ++ [nl]) /\
    injectOverlayInitrd body url = body ++ "initrd "%string ++ url ++ [nl].
Proof.
  exists ("#!ipxe"%string ++ [nl] ++ "kernel vmlinuz"%string), "http://p/o.gz"%string. split.
  - intros [a Ha]. apply (f_equal (fun l => last l)) in Ha. rewrite last_snoc in Ha. done.
  - vm_compute. reflexivity.
Qed.

(** ** Witnesses *)

(** The bonded node of the test suite. *)
Definition sample_bonded : Node := {|
  IP := "198.51.100.87"%string; Netmask := "255.255.255.192"%string;
  GW := "198.51.100.121"%string; VLAN := "120"%string; Dev := []; Hostname := "node-1"%string;
  DNS := "203.0.113.5"%string; DNS2 := []; BondMembers :=
    [("0000:3b:00.0" : bytes)%string; ("0000:af:00.1" : bytes)%string];
  BondName := []; BondMode := []; LACPRate := []; HashPolicy := []; KernelNet := [];
|}.

Definition sample_single : Node := {|
  IP := "198.51.100.88"%string; Netmask := "255.255.255.192"%string;
  GW := "198.51.100.121"%string; VLAN := "120"%string; Dev := "ens2f1"%string;
  Hostname := "node-2"%string; DNS := []; DNS2 := []; BondMembers := []; BondName := [];
  BondMode := []; LACPRate := []; HashPolicy := []; KernelNet := [];
|}.

Ltac closed_forall := repeat first [apply Forall_nil_2 | apply Forall_cons_2]; done.

Lemma sample_bonded_plain : plain sample_bonded.
Proof. split; closed_forall. Qed.

Lemma sample_single_plain : plain sample_single.
Proof. split; closed_forall. Qed.

Lemma bonded_cmdline_witness :
  ifs_fields "," (MEMBERS (run_hook ("nomodeset"%string ++ " "%string ++
    buildKernelNet sample_bonded ++ " "%string ++ "quiet"%string))) =
  [("0000:3b:00.0" : bytes)%string; ("0000:af:00.1" : bytes)%string].
Proof.
  apply (bonded_cmdline sample_bonded "nomodeset"%string "quiet"%string sample_bonded_plain);
    done || closed_forall.
Defined.

Lemma single_cmdline_witness :
  ip_fields ("nomodeset"%string ++ " "%string ++
    buildKernelNet sample_single ++ " "%string ++ "quiet"%string) =
  Some (ip_values sample_single).
Proof.
  apply (single_cmdline sample_single "nomodeset"%string "quiet"%string sample_single_plain);
    done || closed_forall.
Defined.

Lemma inject_before_boot_witness :
  let body := "#!ipxe"%string ++ [nl] ++ "boot"%string ++ [nl] in let url := "u"%string : bytes in
  (exists a b, body = a ++ [nl] ++ "boot"%string ++ b /\
     injectOverlayInitrd body url =
       a ++ [nl] ++ "initrd "%string ++ url ++ [nl] ++ "boot"%string ++ b /\
     forall a' b', body = a' ++ [nl] ++ "boot"%string ++ b' -> (length a' <= length a)%nat) \/
  ((forall a b, body <> a ++ [nl] ++ "boot"%string ++ b) /\
     injectOverlayInitrd body url = body ++ "initrd "%string ++ url ++ [nl]).
Proof. cbv zeta. apply inject_before_boot. done. Defined.
