(* ===== verification/IpxeScript.v ===== *)
(** * The scripts on the boot images ([iso_builder.go])

    [Script] translates the two script generators, the configuration hashes
    and the image builders.  The generators write line by line; here a script
    is first the list of its lines. *)

From S2P Require Import Prelude GoStrings MacAddr Types FatImage IsoImage KernelNet.
Import Mac Cmdline.

(** ** [fmt.Sscanf] with [%x] verbs *)

Module Scan.

(** The white space of [fmt]'s scanner (a newline is handled apart). *)
Definition scan_space (r : Z) : bool :=
  (r =? 9) || ((11 <=? r) && (r <=? 13)) || (r =? 32) || (r =? 133) || (r =? 160) ||
  (r =? 5760) || ((8192 <=? r) && (r <=? 8202)) || (r =? 8232) || (r =? 8233) ||
  (r =? 8239) || (r =? 8287) || (r =? 12288).

(** [SkipSpace]: a newline is an error; every round consumes a byte. *)
Fixpoint SkipSpace (fuel : nat) (s : bytes) : option bytes :=
  match fuel, s with
  | O, _ | _, [] => Some s
  | S f, _ =>
      let '(r, w) := decode_rune s in
      if r =? 10 then None
      else if scan_space r then SkipSpace f (drop w s) else Some s
  end.

Definition is_hex (c : ascii) : bool := match hex_val c with Some _ => true | None => false end.

(** [%x] into a [uint32]: at least one digit, and no overflow. *)
Definition scan_x (s : bytes) : option (Z * bytes) :=
  s ← SkipSpace (length s) s;
  let tok := take_while is_hex s in
  if bool_decide (tok = []) then None
  else
    v ← parse_hex 0 tok;
    if v <? 2 ^ 32 then Some (v, drop (length tok) s) else None.

(** A literal byte of the format. *)
Definition scan_lit (c : ascii) (s : bytes) : option bytes :=
  match s with
  | x :: s' => if ascii_eqb x c then Some s' else None
  | [] => None
  end.

(** ["%x:%x:%x.%x"] with all four operands stored. *)
Definition Sscanf4 (s : bytes) : option (Z * Z * Z * Z) :=
  '(a, s) ← scan_x s; s ← scan_lit ":" s;
  '(b, s) ← scan_x s; s ← scan_lit ":" s;
  '(c, s) ← scan_x s; s ← scan_lit "." s;
  '(d, s) ← scan_x s; Some (a, b, c, d).

(** ["%x:%x.%x"] with all three operands stored. *)
Definition Sscanf3 (s : bytes) : option (Z * Z * Z) :=
  '(b, s) ← scan_x s; s ← scan_lit ":" s;
  '(c, s) ← scan_x s; s ← scan_lit "." s;
  '(d, s) ← scan_x s; Some (b, c, d).

End Scan.
Import Scan.

Module Script.

(** [fmt.Sprintf("%04x:%02x:%02x.%x", ...)] *)
Definition fmt_pci (seg bus dev fn : Z) : bytes :=
  fmt_x 4 seg ++ ":"%string ++ fmt_x 2 bus ++ ":"%string ++ fmt_x 2 dev ++ "."%string ++
  fmt_x 0 fn.

(** A script from its lines. *)
Definition unlines (l : list bytes) : bytes := concat ((fun x => x ++ [nl]) <$> l).

Definition eff_iface (n : Node) : bytes :=
  if bool_decide (VLAN n = []) then "net${nic}"%string else "net${nic}-${vlan}"%string.

(** The indexed members that are PCI addresses. *)
Definition pci_members (n : Node) : list (nat * bytes) :=
  filter (fun im => isPCIAddr im.2 = true) (imap (fun i m => (i, m)) (BondMembers n)).

Definition hasPCIs (n : Node) : bool := negb (bool_decide (pci_members n = [])).

Definition when (b : bool) (l : list bytes) : list bytes := if b then l else [].

Definition nonempty (s : bytes) : bool := negb (bool_decide (s = [])).

Section render.
Context `{Unicode, Sha256}.

Definition formatIPXEPCI (pci : bytes) : bytes :=
  let pci := TrimSpace pci in
  if CountByte pci ":" =? 2 then
    match Sscanf4 pci with
    | Some (seg, bus, dev, fn) => fmt_pci seg bus dev fn
    | None => ToLower pci
    end
  else if (CountByte pci ":" =? 1) && Contains pci "."%string then
    match Sscanf3 pci with
    | Some (bus, dev, fn) => fmt_pci 0 bus dev fn
    | None => ToLower pci
    end
  else ToLower pci.

(** The text that is hashed. *)
Definition hash_input (n : Node) (mac proxyBase : bytes) : bytes :=
  unlines
    ["mac="%string ++ mac;
     "ip="%string ++ IP n;
     "netmask="%string ++ Netmask n;
     "gw="%string ++ GW n;
     "vlan="%string ++ VLAN n;
     "dev="%string ++ Dev n;
     "hostname="%string ++ Hostname n;
     "dns="%string ++ DNS n;
     "dns2="%string ++ DNS2 n;
     "bond_members="%string ++ Join (BondMembers n) ","%string;
     "bond_name="%string ++ BondName n;
     "bond_mode="%string ++ BondMode n;
     "lacp_rate="%string ++ LACPRate n;
     "hash_policy="%string ++ HashPolicy n;
     "kernel_net="%string ++ KernelNet n;
     "proxy_base="%string ++ TrimRight proxyBase "/"%string].

(** [hex.EncodeToString(...)[:16]] *)
Definition short_hash (sum : bytes) : bytes :=
  take 16 (concat ((fun c => hex2 (b2z c)) <$> sum)).

Definition ComputeNodeConfigHash (n : Node) (mac proxyBase : bytes) : bytes :=
  short_hash (sha256 (hash_input n mac proxyBase)).

Definition GenericConfigHash (proxyBase : bytes) : bytes :=
  short_hash (sha256 ("generic"%string ++ [nl] ++ "proxy_base="%string ++
                      TrimRight proxyBase "/"%string)).

(** The lines before the loop. *)
Definition script_head (n : Node) (mac : bytes) : list bytes :=
  ["#!ipxe"%string : bytes;
   "# Dynamic boot script for "%string ++ Hostname n ++ " ("%string ++ mac ++ ")"%string] ++
  when (nonempty (VLAN n)) ["set vlan "%string ++ VLAN n] ++
  ((fun im => "set pci"%string ++ fmt_d (Z.of_nat im.1) ++ " "%string ++ formatIPXEPCI im.2)
     <$> pci_members n) ++
  when (negb (hasPCIs n) && nonempty mac) ["set target_mac "%string ++ ToLower mac].

(** The loop over the interfaces, up to the one that is tried. *)
Definition script_match (n : Node) (mac : bytes) : list bytes :=
  [":top"%string : bytes; "set nic:int32 0"%string : bytes; ":loop"%string : bytes;
   "isset ${net${nic}/mac} || goto endpass"%string : bytes;
   "echo Checking net${nic} (${net${nic}/mac} ${net${nic}/busloc:busdevfn})..."%string : bytes] ++
  (if hasPCIs n then
     ((fun im => "iseq ${net${nic}/busloc:busdevfn} ${pci"%string ++ fmt_d (Z.of_nat im.1) ++
                 "} && goto hit ||"%string) <$> pci_members n) ++
     ["goto next"%string : bytes; ":hit"%string : bytes]
   else if nonempty mac then
     ["iseq ${net${nic}/mac} ${target_mac} && goto hit ||"%string : bytes;
      "goto next"%string : bytes; ":hit"%string : bytes]
   else []).

(** Configuring it and handing over to the proxy. *)
Definition script_boot (n : Node) (base : bytes) : list bytes :=
  ["echo Configuring net${nic} (${net${nic}/mac})..."%string : bytes;
   "ifclose net${nic} ||"%string : bytes;
   "ifopen net${nic} ||"%string : bytes] ++
  when (nonempty (VLAN n)) ["vcreate --tag ${vlan} net${nic} ||"%string : bytes] ++
  when (nonempty (IP n)) ["set "%string ++ eff_iface n ++ "/ip "%string ++ IP n] ++
  when (nonempty (Netmask n)) ["set "%string ++ eff_iface n ++ "/netmask "%string ++ Netmask n] ++
  when (nonempty (GW n)) ["set "%string ++ eff_iface n ++ "/gateway "%string ++ GW n] ++
  when (nonempty (DNS n)) ["set "%string ++ eff_iface n ++ "/dns "%string ++ DNS n] ++
  ["ifopen "%string ++ eff_iface n ++ " ||"%string;
   "chain --autofree "%string ++ base ++ "/ipxe.cfg-${net${nic}/mac}"%string ++
     " && goto os_done ||"%string] ++
  when (nonempty (VLAN n))
    ["ifclose "%string ++ eff_iface n ++ " ||"%string;
     "vdestroy "%string ++ eff_iface n ++ " ||"%string] ++
  ["ifclose net${nic} ||"%string : bytes].

(** The next interface, and the end of a pass. *)
Definition script_tail (n : Node) (mac : bytes) : list bytes :=
  when (hasPCIs n || nonempty mac) [":next"%string : bytes] ++
  ["inc nic && goto loop"%string : bytes; ":endpass"%string : bytes;
   "echo no matching uplink reached proxy; retry in 3s"%string : bytes;
   "sleep 3"%string : bytes; "goto top"%string : bytes; ":os_done"%string : bytes;
   "exit 0"%string : bytes].

Definition node_lines (n : Node) (mac proxyBase : bytes) : list bytes :=
  let base := TrimRight proxyBase "/"%string in
  script_head n mac ++ script_match n mac ++ script_boot n base ++ script_tail n mac.

Definition RenderNodeIPXEScript (n : Node) (mac proxyBase : bytes) : bytes :=
  unlines (node_lines n mac proxyBase).

Definition generic_lines (proxyBase : bytes) : list bytes :=
  let base := TrimRight proxyBase "/"%string in
  ["#!ipxe"%string : bytes; "# Generic discovery & boot script"%string : bytes;
   ":top"%string : bytes; "set nic:int32 0"%string : bytes; ":loop"%string : bytes;
   "isset ${net${nic}/mac} || goto endpass"%string : bytes;
   "ifclose net${nic} ||"%string : bytes; "ifopen net${nic} ||"%string : bytes;
   "dhcp net${nic} || goto next"%string : bytes;
   "chain --autofree "%string ++ base ++ "/ipxe.cfg-${net${nic}/mac} && exit 0 ||"%string;
   ":next"%string : bytes; "ifclose net${nic} ||"%string : bytes;
   "inc nic && goto loop"%string : bytes; ":endpass"%string : bytes;
   "echo no uplink reached proxy; retrying in 3s"%string : bytes;
   "sleep 3"%string : bytes; "goto top"%string : bytes].

Definition RenderGenericIPXEScript (proxyBase : bytes) : bytes :=
  unlines (generic_lines proxyBase).

Definition BuildNodeISO (ipxeEFI : bytes) (n : Node) (mac proxyBase : bytes) :=
  Iso.buildBootISO ipxeEFI (RenderNodeIPXEScript n mac proxyBase).

Definition BuildGenericISO (ipxeEFI proxyBase : bytes) :=
  Iso.buildBootISO ipxeEFI (RenderGenericIPXEScript proxyBase).
End render.

End Script.
Import Script.

(** ** Scanning addresses *)

Module ScanFacts.
Import SpaceFacts MacFacts.

(** A hexadecimal number that fits in 32 bits. *)
Definition hexnum (s : bytes) (v : Z) : Prop :=
  s <> [] /\ Forall (fun c => is_hex c = true) s /\ parse_hex 0 s = Some v /\ v < 2 ^ 32.

(** What follows a number. *)
Definition stops (r : bytes) : Prop := match r with [] => True | c :: _ => is_hex c = false end.

Lemma take_while_hex s r :
  Forall (fun c => is_hex c = true) s -> stops r -> take_while is_hex (s ++ r) = s.
Proof.
  intros Hs Hr. induction Hs as [|c s Hc _ IH]; cbn [app take_while].
  - destruct r as [|c r]; [done|]. cbn in Hr |- *. by rewrite Hr.
  - by rewrite Hc, IH.
Qed.

Lemma is_hex_char c : is_hex c = true -> mac_char c.
Proof. unfold is_hex. destruct (hex_val c) as [d|] eqn:E; [|done]. intros _. left. by exists d. Qed.

Lemma SkipSpace_hex f c s : is_hex c = true -> SkipSpace f (c :: s) = Some (c :: s).
Proof.
  intros Hc. destruct f as [|f]; [done|].
  assert (E : decode_rune (c :: s) = (b2z c, 1%nat) /\ (b2z c =? 10) = false /\
              scan_space (b2z c) = false).
  { destruct c as [[] [] [] [] [] [] [] []]; vm_compute in Hc; try discriminate; by split_and!. }
  destruct E as (E1 & E2 & E3). cbn [SkipSpace]. by rewrite E1, E2, E3.
Qed.

Lemma scan_x_hexnum s v r : hexnum s v -> stops r -> scan_x (s ++ r) = Some (v, r).
Proof.
  intros (Hne & Hs & Hp & Hv) Hr. unfold scan_x.
  destruct s as [|c s]; [done|]. pose proof (Forall_inv Hs) as Hc. cbn in Hc.
  rewrite <- app_comm_cons, SkipSpace_hex by done. cbn [mbind option_bind].
  rewrite app_comm_cons, take_while_hex by done. rewrite bool_decide_false by done.
  rewrite Hp. cbn [mbind option_bind]. rewrite (proj2 (Z.ltb_lt _ _) Hv).
  by rewrite drop_app_length.
Qed.

Lemma scan_x_end s v : hexnum s v -> scan_x s = Some (v, []).
Proof. intros H. rewrite <- (app_nil_r s). by apply scan_x_hexnum. Qed.

Lemma scan_lit_cons c r : scan_lit c (c :: r) = Some r.
Proof. cbn. unfold ascii_eqb. by rewrite bool_decide_true. Qed.

(** The number of separators in an address. *)
Lemma CountByte_app a b c : CountByte (a ++ b) c = CountByte a c + CountByte b c.
Proof. unfold CountByte. rewrite filter_app, length_app. lia. Qed.

Lemma CountByte_hex s c :
  Forall (fun x => is_hex x = true) s -> is_hex c = false -> CountByte s c = 0.
Proof.
  intros Hs Hc. unfold CountByte. induction Hs as [|x s Hx _ IH]; [done|].
  rewrite filter_cons, decide_False; [done|]. intros ->. congruence.
Qed.

Lemma Index_app a p b : 0 <= Index (a ++ p ++ b) p.
Proof.
  induction a as [|c a IH]; cbn [app].
  - assert (HasPrefix (p ++ b) p = true) as E by (apply HasPrefix_spec; by eexists).
    destruct p as [|x p]; [by destruct b|]. cbn [app Index] in *. by rewrite E.
  - cbn [Index]. destruct (HasPrefix _ p); [lia|].
    destruct (Z.ltb_spec (Index (a ++ p ++ b) p) 0); lia.
Qed.

Lemma Contains_app a p b : Contains (a ++ p ++ b) p = true.
Proof. unfold Contains. apply Z.leb_le, Index_app. Qed.

Lemma hexnum_solid s v : hexnum s v -> Forall solid s.
Proof.
  intros (_ & Hs & _). eapply Forall_impl; [exact Hs|]. intros c Hc.
  by apply mac_char_solid, is_hex_char.
Qed.

Lemma parse_hex_is_hex a s v : parse_hex a s = Some v -> Forall (fun c => is_hex c = true) s.
Proof.
  revert a. induction s as [|c s IH]; intros a; [intros; apply Forall_nil_2|]. cbn [parse_hex].
  destruct (hex_val c) as [d|] eqn:E; [|done]. intros H. apply Forall_cons_2; [|by eapply IH].
  unfold is_hex. by rewrite E.
Qed.

(** The formatted numbers are numbers. *)
Lemma hexnum_fmt_x w n : 0 <= n < 2 ^ 32 -> hexnum (fmt_x w n) n.
Proof.
  intros Hn. change (2 ^ 32) with (16 ^ Z.of_nat 8) in Hn. unfold fmt_x, pad_left.
  rewrite (digits_fuel 8 64) by lia.
  destruct (parse_hex_digits false 8 n 0 Hn ltac:(lia)) as (k & Hk & Hk1 & Hp).
  set (d := digits 8 16 false n) in *.
  assert (Hpar : parse_hex 0 (replicate (Z.to_nat (w - zlen d)) (z2b 48) ++ d) = Some n)
    by (rewrite parse_hex_zeros, Hp; f_equal; lia).
  split_and!; [|by eapply parse_hex_is_hex|done|cbn in Hn |- *; lia].
  intros E. apply app_eq_nil in E as [_ E]. rewrite E in Hk. cbn in Hk. lia.
Qed.

End ScanFacts.
Import ScanFacts.

Module PciFacts.
Import SpaceFacts MacFacts.

Definition pci_text (a b c d : bytes) : bytes :=
  a ++ ":"%string ++ b ++ ":"%string ++ c ++ "."%string ++ d.

Definition pci_short (b c d : bytes) : bytes := b ++ ":"%string ++ c ++ "."%string ++ d.

Lemma solid_lit : Forall solid ":"%string /\ Forall solid "."%string.
Proof. split; (apply Forall_cons_2; [done|apply Forall_nil_2]). Qed.

Lemma Sscanf3_short b c d xb xc xd :
  hexnum b xb -> hexnum c xc -> hexnum d xd -> Sscanf3 (pci_short b c d) = Some (xb, xc, xd).
Proof.
  intros Hb Hc Hd. unfold Sscanf3, pci_short.
  rewrite (scan_x_hexnum b xb) by done. cbn [mbind option_bind].
  change (":"%string ++ ?r) with (":"%char :: r). rewrite scan_lit_cons. cbn [mbind option_bind].
  rewrite (scan_x_hexnum c xc) by done. cbn [mbind option_bind].
  change ("."%string ++ ?r) with ("."%char :: r). rewrite scan_lit_cons. cbn [mbind option_bind].
  by rewrite (scan_x_end d xd).
Qed.

Lemma Sscanf4_text a b c d xa xb xc xd :
  hexnum a xa -> hexnum b xb -> hexnum c xc -> hexnum d xd ->
  Sscanf4 (pci_text a b c d) = Some (xa, xb, xc, xd).
Proof.
  intros Ha Hb Hc Hd. unfold Sscanf4, pci_text.
  rewrite (scan_x_hexnum a xa) by done. cbn [mbind option_bind].
  change (":"%string ++ ?r) with (":"%char :: r). rewrite scan_lit_cons. cbn [mbind option_bind].
  rewrite (scan_x_hexnum b xb) by done. cbn [mbind option_bind].
  change (":"%string ++ ?r) with (":"%char :: r). rewrite scan_lit_cons. cbn [mbind option_bind].
  rewrite (scan_x_hexnum c xc) by done. cbn [mbind option_bind].
  change ("."%string ++ ?r) with ("."%char :: r). rewrite scan_lit_cons. cbn [mbind option_bind].
  by rewrite (scan_x_end d xd).
Qed.

Lemma format_text `{Unicode} a b c d xa xb xc xd :
  hexnum a xa -> hexnum b xb -> hexnum c xc -> hexnum d xd ->
  formatIPXEPCI (pci_text a b c d) = fmt_pci xa xb xc xd.
Proof.
  intros Ha Hb Hc Hd. unfold formatIPXEPCI. destruct solid_lit as [S1 S2].
  rewrite TrimSpace_id_solids.
  2: { unfold pci_text. repeat (apply Forall_app; split; [done || by eapply hexnum_solid|]).
       by eapply hexnum_solid. }
  assert (E : CountByte (pci_text a b c d) ":" = 2).
  { unfold pci_text. rewrite !CountByte_app.
    rewrite (CountByte_hex a), (CountByte_hex b), (CountByte_hex c), (CountByte_hex d)
      by (done || apply Ha || apply Hb || apply Hc || apply Hd). done. }
  rewrite E. cbn [Z.eqb Pos.eqb]. by rewrite (Sscanf4_text a b c d xa xb xc xd).
Qed.

Lemma format_short `{Unicode} b c d xb xc xd :
  hexnum b xb -> hexnum c xc -> hexnum d xd ->
  formatIPXEPCI (pci_short b c d) = fmt_pci 0 xb xc xd.
Proof.
  intros Hb Hc Hd. unfold formatIPXEPCI. destruct solid_lit as [S1 S2].
  rewrite TrimSpace_id_solids.
  2: { unfold pci_short. repeat (apply Forall_app; split; [done || by eapply hexnum_solid|]).
       by eapply hexnum_solid. }
  assert (E : CountByte (pci_short b c d) ":" = 1).
  { unfold pci_short. rewrite !CountByte_app.
    rewrite (CountByte_hex b), (CountByte_hex c), (CountByte_hex d)
      by (done || apply Hb || apply Hc || apply Hd). done. }
  rewrite E. cbn [Z.eqb Pos.eqb andb].
  assert (Contains (pci_short b c d) "."%string = true) as ->.
  { unfold pci_short.
    replace (b ++ ":"%string ++ c ++ "."%string ++ d)
      with ((b ++ ":"%string ++ c) ++ "."%string ++ d) by by rewrite <- !app_assoc.
    apply Contains_app. }
  by rewrite (Sscanf3_short b c d xb xc xd).
Qed.

End PciFacts.
Import PciFacts.

(** C34: a PCI address in any spelling (long with its domain or short, digits
    in either case, with or without leading zeros) is written in the one form
    that iPXE's [busloc:busdevfn] uses, and writing it again leaves it alone. *)
Theorem formatIPXEPCI_canonical `{Unicode} (a b c d : bytes) (xa xb xc xd : Z)
    (Ha : hexnum a xa) (Hb : hexnum b xb) (Hc : hexnum c xc) (Hd : hexnum d xd)
    (H0 : 0 <= xa /\ 0 <= xb /\ 0 <= xc /\ 0 <= xd) :
  formatIPXEPCI (pci_text a b c d) = fmt_pci xa xb xc xd /\
  formatIPXEPCI (pci_short b c d) = fmt_pci 0 xb xc xd /\
  formatIPXEPCI (fmt_pci xa xb xc xd) = fmt_pci xa xb xc xd.
Proof.
  split_and!; [by apply format_text|by apply format_short|].
  apply (format_text (fmt_x 4 xa) (fmt_x 2 xb) (fmt_x 2 xc) (fmt_x 0 xd)); apply hexnum_fmt_x;
    destruct Ha as (_ & _ & _ & ?), Hb as (_ & _ & _ & ?), Hc as (_ & _ & _ & ?),
      Hd as (_ & _ & _ & ?); lia.
Qed.

(** ** What the configuration hash covers *)

Module HashFacts.
Import CmdlineFacts.

Definition one_line (s : bytes) : Prop := without nl s.

Lemma one_line_inj (a b r r' : bytes) :
  one_line a -> one_line b -> a ++ [nl] ++ r = b ++ [nl] ++ r' -> a = b /\ r = r'.
Proof.
  intros Ha. revert b. induction Ha as [|c a Hc _ IH]; intros b Hb E.
  - destruct Hb as [|d b Hd _]; cbn in E; [by injection E|]. by injection E as ? _.
  - destruct Hb as [|d b Hd Hb]; cbn in E; [by injection E as ? _|].
    injection E as -> E. by destruct (IH b Hb E) as [-> ->].
Qed.

(** A text determines its lines. *)
Lemma unlines_inj l1 l2 :
  Forall one_line l1 -> Forall one_line l2 -> length l1 = length l2 ->
  unlines l1 = unlines l2 -> l1 = l2.
Proof.
  intros H1. revert l2. induction H1 as [|a l1 Ha _ IH]; intros l2 H2 Hlen E.
  - by destruct l2.
  - destruct H2 as [|b l2 Hb H2]; [done|]. unfold unlines in E. cbn in E.
    rewrite <- !app_assoc in E. apply one_line_inj in E as [-> E]; [|done..].
    f_equal. apply IH; [done|by injection Hlen|done].
Qed.

(** Values that fit on their line, and members that a list of names separates. *)
Record hashable (n : Node) (mac base : bytes) : Prop := {
  hash_lines : Forall one_line [mac; IP n; Netmask n; GW n; VLAN n; Dev n; Hostname n; DNS n;
    DNS2 n; BondName n; BondMode n; LACPRate n; HashPolicy n; KernelNet n; base];
  hash_members : Forall (fun m => one_line m /\ without "," m /\ m <> []) (BondMembers n);
}.

Lemma one_line_app a b : one_line a -> one_line b -> one_line (a ++ b).
Proof. intros. by apply Forall_app. Qed.

Definition is_line (s : bytes) : bool := forallb (fun c => negb (ascii_eqb c nl)) s.

Lemma is_line_one_line s : is_line s = true -> one_line s.
Proof.
  induction s as [|c s IH]; [intros _; apply Forall_nil_2|]. cbn.
  intros [Hc Hs]%andb_prop. apply Forall_cons_2; [|by apply IH].
  intros ->. unfold ascii_eqb in Hc. by rewrite bool_decide_true in Hc.
Qed.

Lemma one_line_Join l sep : one_line sep -> Forall one_line l -> one_line (Join l sep).
Proof.
  intros Hs Hl. induction Hl as [|x l Hx Hl IH]; [apply Forall_nil_2|].
  destruct l; [done|]. cbn [Join]. by repeat apply one_line_app.
Qed.

Lemma one_line_TrimRight s cut : one_line s -> one_line (TrimRight s cut).
Proof.
  intros Hs. unfold TrimRight, drop_while_end. apply Forall_reverse.
  assert (Hr : one_line (reverse s)) by by apply Forall_reverse.
  induction Hr as [|c r Hc Hr IH]; [apply Forall_nil_2|]. cbn [drop_while].
  destruct (bool_decide _); [done|]. by apply Forall_cons_2.
Qed.

(** The names in a list without empty names are separated by commas. *)
Lemma Join_inj l1 l2 :
  Forall (fun m => without "," m /\ m <> []) l1 -> Forall (fun m => without "," m /\ m <> []) l2 ->
  Join l1 ","%string = Join l2 ","%string -> l1 = l2.
Proof.
  intros H1 H2 E.
  assert (Hw : forall l, Forall (fun m => without "," m /\ m <> []) l -> Forall (without ",") l)
    by (intros l Hl; eapply Forall_impl; [exact Hl|]; by intros m [? _]).
  assert (Hnil : forall l, Forall (fun m => without "," m /\ m <> []) l ->
    l <> [] -> Join l ","%string <> []).
  { intros [|m l] Hl Hne; [done|]. apply Forall_cons in Hl as [[_ Hm] _].
    destruct l; cbn [Join]; [done|]. by destruct m. }
  destruct (decide (l1 = [])) as [->|N1], (decide (l2 = [])) as [->|N2]; [done| | |].
  - symmetry in E. by apply Hnil in E.
  - by apply Hnil in E.
  - rewrite <- (fields_Join "," l1), <- (fields_Join "," l2) by (done || by apply Hw).
    by f_equal.
Qed.

Lemma hash_input_inj n1 n2 mac1 mac2 base1 base2 :
  hashable n1 mac1 base1 -> hashable n2 mac2 base2 ->
  hash_input n1 mac1 base1 = hash_input n2 mac2 base2 ->
  n1 = n2 /\ mac1 = mac2 /\ TrimRight base1 "/"%string = TrimRight base2 "/"%string.
Proof.
  assert (Hl : forall n mac base, hashable n mac base ->
    one_line (Join (BondMembers n) ","%string) /\ one_line (TrimRight base "/"%string)).
  { intros n mac base [H1 H2]. rewrite !Forall_cons in H1. destruct_and!. split.
    - apply one_line_Join; [by apply is_line_one_line|].
      eapply Forall_impl; [exact H2|]. by intros m [? _].
    - by apply one_line_TrimRight. }
  intros H1 H2 E. destruct (Hl n1 mac1 base1 H1) as [J1 B1]. destruct (Hl n2 mac2 base2 H2) as [J2 B2].
  destruct H1 as [F1 M1], H2 as [F2 M2]. rewrite !Forall_cons in F1, F2. destruct_and!.
  apply unlines_inj in E; [|
    repeat (apply Forall_cons_2; [apply one_line_app; [by apply is_line_one_line|done]|]);
    apply Forall_nil_2..|done].
  injection E as ?????????E??????.
  destruct n1, n2; cbn in *; subst. split; [|done]. f_equal.
  apply Join_inj; [..|done]; (eapply Forall_impl; [eassumption|]); by intros m (_ & ? & ?).
Qed.

End HashFacts.
Import HashFacts.

(** C13: the configuration hash covers everything an image is made from: two
    requests with the same hash (and no collision of the digest on their two
    inputs) are for the same node, address and base URL, so they get the same
    script and the same image, and a cached image is never stale. *)
Theorem config_hash_covers `{Unicode, Sha256} (n1 n2 : Node) (mac1 mac2 base1 base2 ipxe : bytes)
    (H1 : hashable n1 mac1 base1) (H2 : hashable n2 mac2 base2)
    (Hsep : short_hash (sha256 (hash_input n1 mac1 base1)) =
            short_hash (sha256 (hash_input n2 mac2 base2)) ->
            hash_input n1 mac1 base1 = hash_input n2 mac2 base2)
    (Heq : ComputeNodeConfigHash n1 mac1 base1 = ComputeNodeConfigHash n2 mac2 base2) :
  n1 = n2 /\ mac1 = mac2 /\
  RenderNodeIPXEScript n1 mac1 base1 = RenderNodeIPXEScript n2 mac2 base2 /\
  BuildNodeISO ipxe n1 mac1 base1 = BuildNodeISO ipxe n2 mac2 base2.
Proof.
  destruct (hash_input_inj n1 n2 mac1 mac2 base1 base2 H1 H2 (Hsep Heq)) as (-> & -> & E).
  assert (Es : RenderNodeIPXEScript n2 mac2 base1 = RenderNodeIPXEScript n2 mac2 base2)
    by (unfold RenderNodeIPXEScript, node_lines; by rewrite E).
  unfold BuildNodeISO. rewrite Es. done.
Qed.

(** A node with the given bond members and nothing else. *)
Definition members_only (l : list bytes) : Node := {|
  IP := []; Netmask := []; GW := []; VLAN := []; Dev := []; Hostname := []; DNS := []; DNS2 := [];
  BondMembers := l; BondName := []; BondMode := []; LACPRate := []; HashPolicy := [];
  KernelNet := [];
|}.

(** Without that separation the hash does not cover the list of bond
    members: two members written into one string by mistake have the same hash
    as the two members they should be, though their scripts differ; after the
    correction the image made from the mistake is served while it is cached. *)
Theorem config_hash_ambiguous `{Unicode, Sha256} (mac base : bytes) :
  exists n1 n2, ComputeNodeConfigHash n1 mac base = ComputeNodeConfigHash n2 mac base /\
    pci_members n1 <> pci_members n2 /\ script_head n1 mac <> script_head n2 mac.
Proof.
  exists (members_only [("0000:3b:00.0,0000:af:00.1" : bytes)%string]),
    (members_only [("0000:3b:00.0" : bytes)%string; ("0000:af:00.1" : bytes)%string]).
  split; [reflexivity|]. split; [vm_compute; congruence|].
  unfold script_head. intros E. apply app_inv_head in E. apply app_inv_head in E.
  apply (f_equal length) in E. rewrite !length_app, !length_fmap in E. vm_compute in E. lia.
Qed.

(** ** Control flow of the scripts

    An iPXE line is a label, a comment, or commands joined by [&&] and [||];
    [goto] continues at the label it names. *)
Module Flow.

Definition is_op (w : bytes) : bool :=
  bool_decide (w = "&&"%string) || bool_decide (w = "||"%string).

(** The targets of the [goto] commands in a line of words; [start] says that
    the next word is the name of a command. *)
Fixpoint gotos (start : bool) (ws : list bytes) : list bytes :=
  match ws with
  | [] => []
  | w :: ws' =>
      if is_op w then gotos true ws'
      else if start && bool_decide (w = "goto"%string) then take 1 ws' ++ gotos false ws'
      else gotos false ws'
  end.

Definition silent (w : bytes) : bool := HasPrefix w "#"%string || HasPrefix w ":"%string.

Definition line_gotos (line : bytes) : list bytes :=
  match words line with
  | w :: ws => if silent w then [] else gotos true (w :: ws)
  | [] => []
  end.

Definition line_label (line : bytes) : list bytes :=
  match words line with
  | w :: _ => if HasPrefix w ":"%string then [drop 1 w] else []
  | [] => []
  end.

(** The lines of a text that ends in a newline. *)
Definition lines (s : bytes) : list bytes := split_byte nl [] s.

(** Every jump has a target, and no label is ambiguous. *)
Definition closed (script : bytes) : Prop :=
  (forall t, t ∈ concat (line_gotos <$> lines script) -> t ∈ concat (line_label <$> lines script)) /\
  NoDup (concat (line_label <$> lines script)).

End Flow.
Import Flow.

Module FlowFacts.
Import CmdlineFacts NetFacts HashFacts.

Lemma split_unlines l : Forall one_line l -> lines (unlines l) = l ++ [[]].
Proof.
  intros Hl. induction Hl as [|a l Ha _ IH]; [done|]. unfold lines, unlines in *.
  cbn [fmap list_fmap concat]. rewrite <- app_assoc, split_byte_app.
  - cbn [app split_byte]. by rewrite ascii_eqb_refl, IH.
  - intros Hin. by apply (proj1 (Forall_forall _ _) Ha nl Hin).
Qed.

Lemma word_one_line s : word s -> one_line s.
Proof. intros Hs. eapply Forall_impl; [exact Hs|]. intros c Hc ->. done. Qed.

(** A value that is one word on its line and not an operator. *)
Definition value (v : bytes) : Prop := word v /\ is_op v = false.

Lemma words_value v : value v -> words v = flush v.
Proof. intros [Hv _]. unfold words. by rewrite words_from_word. Qed.

Lemma gotos_no_op ws : Forall (fun w => is_op w = false) ws -> gotos false ws = [].
Proof. intros H. induction H as [|w ws Hw _ IH]; [done|]. cbn. by rewrite Hw. Qed.

Lemma words_app a b : words (a ++ " "%string ++ b) = words a ++ words b.
Proof. unfold words. by rewrite words_from_app. Qed.

(** A command with a value for its last word jumps nowhere. *)
Lemma command_value (lit : bytes) w ws v :
  words lit = w :: ws -> is_op w = false -> w <> list_ascii_of_string "goto" -> silent w = false ->
  HasPrefix w ":"%string = false -> Forall (fun w => is_op w = false) ws -> value v ->
  line_gotos (lit ++ " "%string ++ v) = [] /\ line_label (lit ++ " "%string ++ v) = [].
Proof.
  intros Hlit Hop Hgoto Hsil Hlab Hws Hv. unfold line_gotos, line_label.
  rewrite words_app, Hlit, words_value by done. cbn [app]. rewrite Hsil, Hlab. split; [|done].
  cbn [gotos]. rewrite Hop, bool_decide_false by done. cbn [andb]. apply gotos_no_op.
  apply Forall_app. split; [done|]. destruct v as [|c v]; [apply Forall_nil_2|].
  apply Forall_cons_2; [by destruct Hv|apply Forall_nil_2].
Qed.

Lemma word_digits f n : 0 <= n -> word (digits f 10 false n).
Proof.
  revert n. induction f as [|f IH]; intros n Hn; [apply Forall_nil_2|].
  assert (Hd : forall d, 0 <= d < 10 -> is_ifs (hex_digit false d) = false).
  { intros d Hd. assert (E : exists k : nat, (k < 10)%nat /\ d = Z.of_nat k)
      by (exists (Z.to_nat d); lia).
    destruct E as (k & Hk & ->). do 10 (destruct k as [|k]; [done|]). lia. }
  cbn [digits]. destruct (Z.ltb_spec n 10).
  - apply Forall_cons_2; [by apply Hd|apply Forall_nil_2].
  - apply Forall_app. split; [apply IH; zify_div; lia|].
    apply Forall_cons_2; [apply Hd; zify_div; lia|apply Forall_nil_2].
Qed.

Lemma word_fmt_d i : word (fmt_d (Z.of_nat i)).
Proof. apply word_digits. lia. Qed.

(** What the lines of a part of a script contribute. *)
Record part (l : list bytes) (jumps labels : list bytes) : Prop := {
  part_lines : Forall one_line l;
  part_gotos : forall t, t ∈ concat (line_gotos <$> l) -> t ∈ jumps;
  part_labels : concat (line_label <$> l) = labels;
}.

Lemma part_app l1 l2 j1 j2 b1 b2 :
  part l1 j1 b1 -> part l2 j2 b2 -> part (l1 ++ l2) (j1 ++ j2) (b1 ++ b2).
Proof.
  intros [A1 A2 A3] [B1 B2 B3]. split.
  - by apply Forall_app.
  - intros t. rewrite fmap_app, concat_app, !elem_of_app. intros [?|?]; auto.
  - rewrite fmap_app, concat_app. congruence.
Qed.

(** A part that is written out. *)
Definition part_check (l jumps labels : list bytes) : bool :=
  forallb is_line l &&
  forallb (fun t => bool_decide (t ∈ jumps)) (concat (line_gotos <$> l)) &&
  bool_decide (concat (line_label <$> l) = labels).

Lemma part_literal l j b : part_check l j b = true -> part l j b.
Proof.
  unfold part_check. intros [[H1 H2]%andb_prop H3]%andb_prop. split.
  - clear H2 H3. induction l as [|x l IH]; [apply Forall_nil_2|]. cbn in H1.
    apply andb_prop in H1 as [Hx Hl]. apply Forall_cons_2; [by apply is_line_one_line|by apply IH].
  - intros t Ht. rewrite forallb_forall in H2. apply list_elem_of_In in Ht.
    apply H2 in Ht. by apply bool_decide_eq_true in Ht.
  - by apply bool_decide_eq_true in H3.
Qed.

Lemma part_nil : part [] [] [].
Proof. by apply part_literal. Qed.

Lemma part_one x j b :
  one_line x -> (forall t, t ∈ line_gotos x -> t ∈ j) -> line_label x = b -> part [x] j b.
Proof.
  intros Hx Hj Hb. split.
  - apply Forall_cons_2; [done|apply Forall_nil_2].
  - cbn. by rewrite app_nil_r.
  - cbn. by rewrite app_nil_r.
Qed.

Lemma part_when b l : part l [] [] -> part (when b l) [] [].
Proof. intros H. destruct b; [done|apply part_nil]. Qed.

Lemma part_fmap {A} (f : A -> bytes) (l : list A) j :
  Forall (fun a => part [f a] j []) l -> part (f <$> l) j [].
Proof.
  intros H. induction H as [|a l [A1 A2 A3] _ [B1 B2 B3]]; [split; [apply Forall_nil_2|..]; cbn; auto|].
  { intros t Ht. by apply not_elem_of_nil in Ht. }
  rewrite fmap_cons. cbn in A2, A3. rewrite app_nil_r in A2, A3. split.
  - apply Forall_cons in A1 as [? _]. by apply Forall_cons_2.
  - intros t. cbn. rewrite elem_of_app. intros [?|?]; auto.
  - cbn. by rewrite A3, B3.
Qed.

Lemma part_command (lit : bytes) w ws v :
  words lit = w :: ws ->
  negb (is_op w) && negb (bool_decide (w = "goto"%string)) && negb (silent w) &&
    negb (HasPrefix w ":"%string) && forallb (fun w => negb (is_op w)) ws && is_line lit = true ->
  value v -> part [lit ++ " "%string ++ v] [] [].
Proof.
  intros Hlit Hc Hv. rewrite !andb_true_iff, !negb_true_iff in Hc.
  destruct Hc as [[[[[H1 H2] H3] H4] H5] H6].
  assert (Hws : Forall (fun w => is_op w = false) ws).
  { clear Hlit. induction ws as [|x ws IH]; [apply Forall_nil_2|]. cbn in H5.
    apply andb_prop in H5 as [Hx Hws]. apply Forall_cons_2; [by apply negb_true_iff|by apply IH]. }
  destruct (command_value lit w ws v) as [E1 E2]; try done; [by apply bool_decide_eq_false in H2|].
  apply part_one; [|by rewrite E1|done].
  apply one_line_app; [by apply is_line_one_line|]. apply one_line_app; [by apply is_line_one_line|].
  apply word_one_line, Hv.
Qed.

(** Literal commands with one value. *)
Ltac command lit v :=
  let l := constr:(list_ascii_of_string lit) in
  change (part [l ++ " "%string ++ v] [] []);
  eapply part_command; [vm_compute; reflexivity|reflexivity|done].

(** The line that hands over to the proxy. *)
Lemma part_chain (base after : bytes) j :
  word base -> is_line after = true ->
  forallb (fun t => bool_decide (t ∈ j)) (gotos false (words after)) = true ->
  part ["chain --autofree "%string ++ base ++ "/ipxe.cfg-${net${nic}/mac}"%string ++
        " "%string ++ after] j [].
Proof.
  intros Hb Ha Hj. set (u := base ++ "/ipxe.cfg-${net${nic}/mac}"%string).
  assert (Hw : word u) by (apply word_app; [done|by apply is_word_word]).
  assert (Hop : is_op u = false).
  { unfold is_op. rewrite !bool_decide_false; [done|..]; intros E;
      apply (f_equal length) in E; unfold u in E; rewrite length_app in E; cbn in E; lia. }
  assert (Hu : u <> []) by (unfold u; by destruct base).
  assert (Hlit : words ("chain --autofree "%string ++ base ++ "/ipxe.cfg-${net${nic}/mac}"%string ++
      " "%string ++ after) = ("chain"%string : bytes) :: ("--autofree"%string : bytes) :: u :: words after).
  { transitivity (words ("chain --autofree"%string ++ " "%string ++ u ++ " "%string ++ after)).
    { apply (f_equal words). unfold u. rewrite <- !app_assoc. reflexivity. }
    rewrite !words_app. rewrite (words_one u) by done. reflexivity. }
  apply part_one.
  - apply one_line_app; [by apply is_line_one_line|]. apply one_line_app; [by apply word_one_line|].
    apply one_line_app; [by apply is_line_one_line|]. apply one_line_app; by apply is_line_one_line.
  - unfold line_gotos. rewrite Hlit. cbn [gotos]. rewrite Hop. intros t Ht.
    rewrite forallb_forall in Hj. apply list_elem_of_In, Hj, bool_decide_eq_true in Ht. exact Ht.
  - unfold line_label. rewrite Hlit. done.
Qed.

(** A script that is put together from parts. *)
Lemma part_script j b l :
  part l j b -> forallb (fun t => bool_decide (t ∈ b)) j && bool_decide (NoDup b) = true ->
  closed (unlines l).
Proof.
  intros [H1 H2 H3] [Hj Hb]%andb_prop. unfold closed. rewrite split_unlines by done.
  rewrite !fmap_app, !concat_app. cbn. rewrite !app_nil_r, H3.
  split; [|by apply bool_decide_eq_true in Hb]. intros t Ht%H2.
  rewrite forallb_forall in Hj. apply list_elem_of_In, Hj, bool_decide_eq_true in Ht. exact Ht.
Qed.

(** The values of a node that can be written into a script. *)
Record scriptable `{Unicode} (n : Node) (mac base : bytes) : Prop := {
  script_values : Forall value [VLAN n; IP n; Netmask n; GW n; DNS n; ToLower mac];
  script_pcis : Forall (fun m => value (formatIPXEPCI m)) (BondMembers n);
  script_text : Forall one_line [Hostname n; mac];
  script_base : word base;
}.

Section parts.
Context `{Unicode} (n : Node) (mac base : bytes).
Hypothesis Hok : scriptable n mac base.

Lemma pci_members_values : Forall (fun im => value (formatIPXEPCI im.2)) (pci_members n).
Proof.
  unfold pci_members. apply Forall_forall. intros [i m] [_ Hin]%list_elem_of_filter.
  apply list_elem_of_lookup in Hin as [j Hj]. rewrite list_lookup_imap in Hj.
  destruct (BondMembers n !! j) as [m'|] eqn:E; [|done]. injection Hj as <- <-.
  apply (Forall_lookup_1 _ _ _ _ (script_pcis n mac base Hok) E).
Qed.

Lemma part_head : part (script_head n mac) [] [].
Proof.
  destruct Hok as [Hv _ Ht _]. rewrite !Forall_cons in Hv. rewrite !Forall_cons in Ht. destruct_and!.
  unfold script_head.
  apply (part_app _ _ [] [] [] []); [|apply (part_app _ _ [] [] [] []);
    [|apply (part_app _ _ [] [] [] [])]].
  - apply (part_app [_] [_] [] [] [] []); [by apply part_literal|]. apply part_one.
    + apply one_line_app; [by apply is_line_one_line|]. apply one_line_app; [done|].
      apply one_line_app; [by apply is_line_one_line|]. apply one_line_app; [done|].
      by apply is_line_one_line.
    + unfold line_gotos.
      change ("# Dynamic boot script for "%string ++ ?r)
        with ("#"%string ++ " "%string ++ "Dynamic boot script for "%string ++ r).
      rewrite words_app. intros t Ht. by apply not_elem_of_nil in Ht.
    + unfold line_label.
      change ("# Dynamic boot script for "%string ++ ?r)
        with ("#"%string ++ " "%string ++ "Dynamic boot script for "%string ++ r).
      by rewrite words_app.
  - apply part_when. command "set vlan"%string (VLAN n).
  - apply part_fmap. eapply Forall_impl; [apply pci_members_values|]. intros [i m] Hm. cbn [fst snd] in *.
    pose proof (word_fmt_d i) as Hd. set (d := fmt_d (Z.of_nat i)) in *.
    replace ("set pci"%string ++ d ++ " "%string ++ formatIPXEPCI m)
      with (("set"%string ++ " "%string ++ "pci"%string ++ d) ++ " "%string ++ formatIPXEPCI m)
      by by rewrite <- !app_assoc.
    assert (Hw : word ("pci"%string ++ d)) by (apply word_app; [by apply is_word_word|done]).
    assert (Hlit : words ("set"%string ++ " "%string ++ "pci"%string ++ d) =
      [("set"%string : bytes); "pci"%string ++ d]).
    { rewrite words_app. unfold words at 2. rewrite words_from_word by done. done. }
    destruct (command_value _ _ _ (formatIPXEPCI m) Hlit) as [E1 E2]; try done.
    { apply Forall_cons_2; [done|apply Forall_nil_2]. }
    apply part_one; [|by rewrite E1|done].
    apply one_line_app; [|apply one_line_app; [by apply is_line_one_line|apply word_one_line, Hm]].
    apply one_line_app; [by apply is_line_one_line|].
    apply one_line_app; [by apply is_line_one_line|by apply word_one_line].
  - apply part_when. command "set target_mac"%string (ToLower mac).
Qed.

Definition matching : bool := hasPCIs n || nonempty mac.

Definition if_matching (l : list bytes) : list bytes := if matching then l else [].

Lemma part_iseq i :
  part ["iseq ${net${nic}/busloc:busdevfn} ${pci"%string ++ fmt_d (Z.of_nat i) ++
        "} && goto hit ||"%string] ["hit"%string : bytes] [].
Proof.
  pose proof (word_fmt_d i) as Hd. set (d := fmt_d (Z.of_nat i)) in *.
  assert (Hw : word ("${pci"%string ++ d ++ "}"%string)).
  { apply word_app; [by apply is_word_word|]. apply word_app; [done|by apply is_word_word]. }
  assert (Hlit : words ("iseq ${net${nic}/busloc:busdevfn} ${pci"%string ++ d ++
      "} && goto hit ||"%string) =
    [("iseq"%string : bytes); ("${net${nic}/busloc:busdevfn}"%string : bytes);
     "${pci"%string ++ d ++ "}"%string; ("&&"%string : bytes); ("goto"%string : bytes);
     ("hit"%string : bytes); ("||"%string : bytes)]).
  { transitivity (words ("iseq ${net${nic}/busloc:busdevfn}"%string ++ " "%string ++
      ("${pci"%string ++ d ++ "}"%string) ++ " "%string ++ "&& goto hit ||"%string)).
    { apply (f_equal words). rewrite <- !app_assoc. reflexivity. }
    rewrite !words_app. unfold words at 2. rewrite words_from_word by done. reflexivity. }
  apply part_one.
  - apply one_line_app; [by apply is_line_one_line|].
    apply one_line_app; [by apply word_one_line|by apply is_line_one_line].
  - unfold line_gotos. rewrite Hlit. intros t Ht. exact Ht.
  - unfold line_label. rewrite Hlit. done.
Qed.

Lemma part_match :
  part (script_match n mac) (["endpass"%string : bytes] ++
      if_matching [("hit"%string : bytes); ("next"%string : bytes)])
    ([("top"%string : bytes); ("loop"%string : bytes)] ++ if_matching ["hit"%string : bytes]).
Proof.
  unfold script_match. apply part_app; [by apply part_literal|].
  unfold if_matching, matching. destruct (hasPCIs n); cbn [orb].
  - apply (part_app _ _ ["hit"%string : bytes] ["next"%string : bytes] []);
      [|by apply part_literal].
    apply part_fmap, Forall_true. intros [i m]. apply part_iseq.
  - destruct (nonempty mac); by apply part_literal.
Qed.

Lemma part_boot : part (script_boot n base) ["os_done"%string : bytes] [].
Proof.
  pose proof Hok as [Hv _ _ Hb]. rewrite !Forall_cons in Hv. destruct_and!.
  unfold script_boot.
  assert (Hcons : forall l l', part l [] [] -> part l' ["os_done"%string : bytes] [] ->
    part (l ++ l') ["os_done"%string : bytes] []) by (intros l l'; apply part_app).
  apply Hcons; [by apply part_literal|].
  apply Hcons; [apply part_when; by apply part_literal|].
  apply Hcons.
  { apply part_when. unfold eff_iface. destruct (bool_decide (VLAN n = [])).
    - command "set net${nic}/ip"%string (IP n).
    - command "set net${nic}-${vlan}/ip"%string (IP n). }
  apply Hcons.
  { apply part_when. unfold eff_iface. destruct (bool_decide (VLAN n = [])).
    - command "set net${nic}/netmask"%string (Netmask n).
    - command "set net${nic}-${vlan}/netmask"%string (Netmask n). }
  apply Hcons.
  { apply part_when. unfold eff_iface. destruct (bool_decide (VLAN n = [])).
    - command "set net${nic}/gateway"%string (GW n).
    - command "set net${nic}-${vlan}/gateway"%string (GW n). }
  apply Hcons.
  { apply part_when. unfold eff_iface. destruct (bool_decide (VLAN n = [])).
    - command "set net${nic}/dns"%string (DNS n).
    - command "set net${nic}-${vlan}/dns"%string (DNS n). }
  apply (part_app _ _ ["os_done"%string : bytes] [] [] []).
  - apply (part_app [_] [_] [] ["os_done"%string : bytes] [] []); [|by apply (part_chain base "&& goto os_done ||"%string)].
      unfold eff_iface. destruct (bool_decide (VLAN n = [])); by apply part_literal.
  - apply (part_app _ _ [] [] [] []); [apply part_when|by apply part_literal].
      unfold eff_iface. destruct (bool_decide (VLAN n = [])); by apply part_literal.
Qed.

Lemma part_tail :
  part (script_tail n mac) [("loop"%string : bytes); ("top"%string : bytes)]
    (if_matching ["next"%string : bytes] ++
     [("endpass"%string : bytes); ("os_done"%string : bytes)]).
Proof.
  unfold script_tail, if_matching, matching.
  destruct (hasPCIs n || nonempty mac); by apply part_literal.
Qed.

End parts.

End FlowFacts.
Import CmdlineFacts HashFacts FlowFacts.

(** C22: a node's script never jumps into the void: for every node whose
    values are single words, each [goto] of the script names a label of the
    script, and no label occurs twice; which labels there are depends on
    whether the node is matched by PCI address, by MAC or not at all. *)
Theorem node_script_closed `{Unicode} (n : Node) (mac proxyBase : bytes)
    (Hok : scriptable n mac (TrimRight proxyBase "/"%string)) :
  closed (RenderNodeIPXEScript n mac proxyBase).
Proof.
  unfold RenderNodeIPXEScript, node_lines. cbv zeta.
  eapply part_script.
  - eapply part_app; [by eapply part_head|]. eapply part_app; [apply part_match|].
    eapply part_app; [by eapply part_boot|apply part_tail].
  - unfold if_matching. by destruct (matching n mac).
Qed.

(** The discovery script never jumps into the void either. *)
Theorem generic_script_closed (proxyBase : bytes)
    (Hb : word (TrimRight proxyBase "/"%string)) :
  closed (RenderGenericIPXEScript proxyBase).
Proof.
  unfold RenderGenericIPXEScript, generic_lines. cbv zeta.
  apply (part_script
    ([("endpass"%string : bytes); ("next"%string : bytes)] ++ [] ++
     [("loop"%string : bytes); ("top"%string : bytes)])
    ([("top"%string : bytes); ("loop"%string : bytes)] ++ [] ++
     [("next"%string : bytes); ("endpass"%string : bytes)])); [|done].
  apply (part_app [_; _; _; _; _; _; _; _; _]); [by apply part_literal|].
  apply (part_app [_]); [by apply (part_chain _ "&& exit 0 ||"%string [])|by apply part_literal].
Qed.

(** ** Witnesses *)

#[local] Existing Instance plain_unicode.
#[local] Instance id_sha256 : Sha256 := {| sha256 b := b |}.

Definition sample_base : bytes := "http://maas.example.com/boot/"%string.
Definition sample_mac : bytes := "02:5e:1c:9a:47:d3"%string.

Lemma formatIPXEPCI_canonical_witness :
  formatIPXEPCI "3B:0.1"%string = "0000:3b:00.1"%string.
Proof.
  apply (formatIPXEPCI_canonical "0"%string "3B"%string "0"%string "1"%string 0 59 0 1);
    try (split_and!; [done|closed_forall|reflexivity|reflexivity]). lia.
Defined.

Definition sample_base_bare : bytes := "http://maas.example.com/boot"%string.

Lemma sample_hashable base : one_line base -> hashable sample_bonded sample_mac base.
Proof.
  intros Hb. split.
  - repeat (apply Forall_cons_2; [exact Hb || closed_forall|]). apply Forall_nil_2.
  - repeat (apply Forall_cons_2; [split_and!; [closed_forall|closed_forall|done]|]).
    apply Forall_nil_2.
Qed.

Lemma config_hash_covers_witness :
  BuildNodeISO "efi"%string sample_bonded sample_mac sample_base =
  BuildNodeISO "efi"%string sample_bonded sample_mac sample_base_bare.
Proof.
  apply (config_hash_covers sample_bonded sample_bonded sample_mac sample_mac
    sample_base sample_base_bare "efi"%string);
    [apply sample_hashable; closed_forall|apply sample_hashable; closed_forall|reflexivity..].
Defined.

Lemma node_script_closed_witness :
  closed (RenderNodeIPXEScript sample_bonded sample_mac sample_base).
Proof.
  apply node_script_closed. split; [..|closed_forall]; try closed_forall;
    repeat (apply Forall_cons_2; [split; [closed_forall|reflexivity]|]); apply Forall_nil_2.
Defined.

Lemma generic_script_closed_witness : closed (RenderGenericIPXEScript sample_base).
Proof. apply generic_script_closed. closed_forall. Defined.
