(* ===== verification/Regex.v ===== *)
(** * The regular expressions of the proxy ([regexp])

    The source uses a small part of Go's [regexp]: literals, byte classes with
    greedy and lazy repetition, an optional tail, one capture group, and the
    anchors of single-line and multi-line mode.  The matcher tries the
    alternatives in the order that Go's leftmost-first semantics prefers.  The
    classes are sets of bytes: a class of the source either is ASCII or is the
    complement of an ASCII set, next to an ASCII literal, and then a match of
    runes is a match of bytes. *)

From S2P Require Import Prelude GoStrings.

Module Re.

Inductive re :=
| RLit (s : bytes)
| RSet (p : ascii -> bool)                   (* one byte of a class *)
| RStar (greedy : bool) (p : ascii -> bool)  (* [p*] and [p*?] *)
| RTimes (p : ascii -> bool) (n : nat)       (* [p{n}] *)
| ROpt (r : re)                              (* [r?] *)
| RCat (r1 r2 : re)
| RCap (r : re)                              (* the capture group *)
| RBot                                       (* [^] *)
| REot                                       (* [$] *)
| RBol                                       (* [^] in multi-line mode *)
| REol.                                      (* [$] in multi-line mode *)

(** A position: the byte before it, the text after it, and what the group has
    captured. *)
Record pos := Pos { prev : option ascii; rest : bytes; cap : option bytes }.

Definition start (s : bytes) : pos := Pos None s None.

Definition step_pos (st : pos) (c : ascii) (s : bytes) : pos := Pos (Some c) s (cap st).

Definition set_cap (from to : pos) : pos :=
  Pos (prev to) (rest to) (Some (take (length (rest from) - length (rest to)) (rest from))).

Definition at_bol (st : pos) : bool :=
  match prev st with None => true | Some c => ascii_eqb c nl end.

Definition at_eol (st : pos) : bool :=
  match rest st with [] => true | c :: _ => ascii_eqb c nl end.

Fixpoint lit (s : bytes) (st : pos) : option pos :=
  match s with
  | [] => Some st
  | x :: s' =>
      match rest st with
      | c :: t => if ascii_eqb c x then lit s' (step_pos st c t) else None
      | [] => None
      end
  end.

Fixpoint star (greedy : bool) (p : ascii -> bool) (prv : option ascii) (s : bytes)
    (cp : option bytes) (k : pos -> option pos) : option pos :=
  let stop := k (Pos prv s cp) in
  match s with
  | c :: t =>
      if p c then
        let more := star greedy p (Some c) t cp k in
        if greedy then match more with Some r => Some r | None => stop end
        else match stop with Some r => Some r | None => more end
      else stop
  | [] => stop
  end.

Fixpoint times (p : ascii -> bool) (n : nat) (st : pos) : option pos :=
  match n with
  | O => Some st
  | S n' =>
      match rest st with
      | c :: t => if p c then times p n' (step_pos st c t) else None
      | [] => None
      end
  end.

(** The matcher, with what follows the expression as its continuation. *)
Fixpoint mt (r : re) (st : pos) (k : pos -> option pos) : option pos :=
  match r with
  | RLit s => st ← lit s st; k st
  | RSet p => st ← times p 1 st; k st
  | RStar g p => star g p (prev st) (rest st) (cap st) k
  | RTimes p n => st ← times p n st; k st
  | ROpt r => match mt r st k with Some x => Some x | None => k st end
  | RCat r1 r2 => mt r1 st (fun st' => mt r2 st' k)
  | RCap r => mt r st (fun st' => k (set_cap st st'))
  | RBot => match prev st with Some _ => None | None => k st end
  | REot => if decide (rest st = []) then k st else None
  | RBol => if at_bol st then k st else None
  | REol => if at_eol st then k st else None
  end.

Definition match_at (r : re) (st : pos) : option pos := mt r st Some.

(** The leftmost match: the text before it, and where it ends. *)
Fixpoint find (r : re) (prv : option ascii) (s : bytes) : option (bytes * bytes * pos) :=
  match match_at r (Pos prv s None) with
  | Some e => Some ([], take (length s - length (rest e)) s, e)
  | None =>
      match s with
      | [] => None
      | c :: t =>
          match find r (Some c) t with
          | Some (before, m, e) => Some (c :: before, m, e)
          | None => None
          end
      end
  end.

Definition Match (r : re) (s : bytes) : bool :=
  match find r None s with Some _ => true | None => false end.

(** [FindIndex]: the text before and after the leftmost match. *)
Definition FindIndex (r : re) (s : bytes) : option (bytes * bytes) :=
  match find r None s with Some (before, _, e) => Some (before, rest e) | None => None end.

(** [FindStringSubmatch(s)[1]] *)
Definition Submatch (r : re) (s : bytes) : option bytes :=
  match find r None s with Some (_, _, e) => cap e | None => None end.

(** The matches one after another, each replaced by [f] of it; for
    expressions that match no empty text. *)
Fixpoint replace_loop (fuel : nat) (r : re) (f : bytes -> bytes) (prv : option ascii) (s : bytes)
    : bytes :=
  match fuel with
  | O => s
  | S fuel =>
      match find r prv s with
      | None => s
      | Some (before, m, e) => before ++ f m ++ replace_loop fuel r f (prev e) (rest e)
      end
  end.

(** ** Replacement templates *)

Definition word_char (c : ascii) : bool :=
  let z := b2z c in
  ((48 <=? z) && (z <=? 57)) || ((65 <=? z) && (z <=? 90)) || ((97 <=? z) && (z <=? 122)) ||
  (z =? 95).

Section expand.
Context `{Unicode}.

(** The length of the name a template begins with. *)
Fixpoint name_len (fuel : nat) (t : bytes) : nat :=
  match fuel, t with
  | O, _ | _, [] => 0
  | S f, c :: _ =>
      let '(r, w) := decode_rune t in
      if (if r <? 128 then word_char c else uni_letter r) then w + name_len f (drop w t) else 0
  end.

(** [extract]: a name, bare or in braces, and the text after it. *)
Definition extract (t : bytes) : option (bytes * bytes) :=
  match t with
  | [] => None
  | c :: t' =>
      let brace := ascii_eqb c "{" in
      let str := if brace then t' else t in
      let i := name_len (length str) str in
      if bool_decide (i = 0%nat) then None
      else
        let name := take i str in let after := drop i str in
        if brace then
          match after with
          | d :: after' => if ascii_eqb d "}" then Some (name, after') else None
          | [] => None
          end
        else Some (name, after)
  end.

(** What a name stands for in an expression without groups: [0] is the
    match, and no other name is defined. *)
Definition name_value (m name : bytes) : bytes :=
  if bool_decide (name = "0"%string) then m else [].

(** [expand]; every round consumes a byte of the template. *)
Fixpoint expand_loop (fuel : nat) (m t : bytes) : bytes :=
  match fuel, t with
  | O, _ | _, [] => []
  | S f, c :: t' =>
      if ascii_eqb c "$" then
        match t' with
        | d :: t'' =>
            if ascii_eqb d "$" then "$"%char :: expand_loop f m t''
            else match extract t' with
            | None => "$"%char :: expand_loop f m t'
            | Some (name, after) => name_value m name ++ expand_loop f m after
            end
        | [] => ["$"%char]
        end
      else c :: expand_loop f m t'
  end.

Definition expand (t m : bytes) : bytes := expand_loop (length t) m t.

(** [ReplaceAll]: the replacement is a template. *)
Definition ReplaceAll (r : re) (s repl : bytes) : bytes :=
  replace_loop (length s) r (expand repl) None s.
End expand.

End Re.
Import Re.

(** ** What the matcher finds

    [matches r st e]: some way of matching [r] leads from [st] to [e]. *)
Module ReFacts.

Inductive run (p : ascii -> bool) : pos -> pos -> Prop :=
| run_refl st : run p st st
| run_step st c t e :
    rest st = c :: t -> p c = true -> run p (step_pos st c t) e -> run p st e.

Inductive matches : re -> pos -> pos -> Prop :=
| m_lit s st e : lit s st = Some e -> matches (RLit s) st e
| m_set p st e : times p 1 st = Some e -> matches (RSet p) st e
| m_star g p st e : run p st e -> matches (RStar g p) st e
| m_times p n st e : times p n st = Some e -> matches (RTimes p n) st e
| m_opt_some r st e : matches r st e -> matches (ROpt r) st e
| m_opt_none r st : matches (ROpt r) st st
| m_cat r1 r2 st st' e : matches r1 st st' -> matches r2 st' e -> matches (RCat r1 r2) st e
| m_cap r st e : matches r st e -> matches (RCap r) st (set_cap st e)
| m_bot st : prev st = None -> matches RBot st st
| m_eot st : rest st = [] -> matches REot st st
| m_bol st : at_bol st = true -> matches RBol st st
| m_eol st : at_eol st = true -> matches REol st st.

Lemma star_sound g p prv s cp k e :
  star g p prv s cp k = Some e -> exists st', run p (Pos prv s cp) st' /\ k st' = Some e.
Proof.
  revert prv. induction s as [|c t IH]; intros prv; cbn [star].
  { intros E. eexists. split; [apply run_refl|done]. }
  destruct (p c) eqn:Ep.
  - assert (Hmore : star g p (Some c) t cp k = Some e ->
      exists st', run p (Pos prv (c :: t) cp) st' /\ k st' = Some e).
    { intros (st' & Hr & Hk)%IH. exists st'. split; [|done].
      by eapply (run_step p (Pos prv (c :: t) cp) c t). }
    assert (Hstop : k (Pos prv (c :: t) cp) = Some e ->
      exists st', run p (Pos prv (c :: t) cp) st' /\ k st' = Some e)
      by (intros; eexists; split; [apply run_refl|done]).
    destruct g; [destruct (star true p (Some c) t cp k)|destruct (k (Pos prv (c :: t) cp))];
      auto.
  - intros E. eexists. split; [apply run_refl|done].
Qed.

Lemma star_complete g p prv s cp k :
  star g p prv s cp k = None -> forall st', run p (Pos prv s cp) st' -> k st' = None.
Proof.
  revert prv. induction s as [|c t IH]; intros prv Hn st' Hr; cbn [star] in Hn.
  { inversion Hr; subst; done. }
  destruct (p c) eqn:Ep.
  - assert (star g p (Some c) t cp k = None /\ k (Pos prv (c :: t) cp) = None) as [H1 H2].
    { destruct g; [destruct (star true p (Some c) t cp k)|destruct (k (Pos prv (c :: t) cp))];
        done. }
    inversion Hr as [|st c0 t0 e E Hp Hrun]; subst; [done|]. cbn in E. injection E as <- <-.
    by apply (IH (Some c)).
  - inversion Hr as [|st c0 t0 e E Hp Hrun]; subst; [done|]. cbn in E. injection E as <- <-.
    congruence.
Qed.

(** Everything the matcher finds is a match. *)
Lemma mt_sound r st k e : mt r st k = Some e -> exists st', matches r st st' /\ k st' = Some e.
Proof.
  revert st k e. induction r; intros st k e; cbn [mt].
  - intros (st' & ? & ?)%bind_Some. exists st'. by split; [constructor|].
  - intros (st' & ? & ?)%bind_Some. exists st'. by split; [constructor|].
  - intros (st' & Hr & Hk)%star_sound. exists st'. split; [|done]. constructor. by destruct st.
  - intros (st' & ? & ?)%bind_Some. exists st'. by split; [constructor|].
  - destruct (mt r st k) as [x|] eqn:E.
    + intros [= <-]. apply IHr in E as (st' & ? & ?). exists st'. by split; [constructor|].
    + intros. exists st. split; [apply m_opt_none|done].
  - intros (st1 & H1 & (st2 & H2 & Hk)%IHr2)%IHr1. exists st2. by split; [econstructor|].
  - intros (st' & ? & ?)%IHr. eexists. by split; [constructor|].
  - destruct (prev st) eqn:E; [done|]. intros. exists st. by split; [constructor|].
  - destruct (decide (rest st = [])); [|done]. intros. exists st. by split; [constructor|].
  - destruct (at_bol st) eqn:E; [|done]. intros. exists st. by split; [constructor|].
  - destruct (at_eol st) eqn:E; [|done]. intros. exists st. by split; [constructor|].
Qed.

(** And it misses none. *)
Lemma mt_complete r st k : mt r st k = None -> forall st', matches r st st' -> k st' = None.
Proof.
  revert st k. induction r; intros st k Hn st' Hm; cbn [mt] in Hn; inversion Hm; subst.
  - destruct (lit s st) eqn:E; [|done]. by simplify_eq.
  - destruct (times p 1 st) eqn:E; [|done]. by simplify_eq.
  - eapply star_complete; [exact Hn|]. by destruct st.
  - destruct (times p n st) eqn:E; [|done]. by simplify_eq.
  - destruct (mt r st k) eqn:E; [done|]. by apply (IHr st).
  - by destruct (mt r st' k).
  - by eapply IHr2; [eapply (IHr1 st _ Hn)|].
  - by eapply (IHr st _ Hn).
  - by rewrite H in Hn.
  - by rewrite decide_True in Hn.
  - by rewrite H in Hn.
  - by rewrite H in Hn.
Qed.

(** Matching goes forward. *)
Lemma lit_spec s st e :
  lit s st = Some e <-> rest st = s ++ rest e /\ cap e = cap st /\
    prev e = match last s with Some c => Some c | None => prev st end.
Proof.
  revert st. induction s as [|x s IH]; intros st; cbn [lit].
  - split; [by intros [= <-]|]. intros (E1 & E2 & E3). cbn in *. destruct st, e; cbn in *. congruence.
  - destruct (rest st) as [|c t] eqn:E.
    { split; [done|]. by intros [? _]. }
    unfold ascii_eqb. destruct (bool_decide_reflect (c = x)) as [->|Hne].
    + rewrite IH. cbn. rewrite last_cons. destruct (last s); cbn;
        split; intros (E1 & E2 & E3); split_and!; congruence.
    + split; [done|]. intros (E1 & _). cbn in E1. congruence.
Qed.

Lemma run_spec p st e : run p st e -> exists w, rest st = w ++ rest e /\ Forall (fun c => p c = true) w.
Proof.
  induction 1 as [st|st c t e Hr Hp _ (w & Hw & Hf)].
  - exists []. split; [done|apply Forall_nil_2].
  - exists (c :: w). rewrite Hr. cbn in Hw. rewrite Hw. split; [done|by apply Forall_cons_2].
Qed.

Lemma run_intro p w st s : rest st = w ++ s -> Forall (fun c => p c = true) w ->
  exists e, run p st e /\ rest e = s /\ cap e = cap st.
Proof.
  intros Hr Hw. revert st Hr. induction Hw as [|c w Hc _ IH]; intros st Hr.
  - exists st. split_and!; [apply run_refl|done..].
  - destruct (IH (step_pos st c (w ++ s)) eq_refl) as (e & He & Hs & Hcap).
    exists e. split_and!; [|done..]. by eapply run_step.
Qed.

Lemma times_spec p n st e :
  times p n st = Some e -> exists w, rest st = w ++ rest e /\ length w = n /\
    Forall (fun c => p c = true) w.
Proof.
  revert st. induction n as [|n IH]; intros st; cbn [times].
  - intros [= <-]. exists []. split_and!; [done..|apply Forall_nil_2].
  - destruct (rest st) as [|c t]; [done|]. destruct (p c) eqn:Ep; [|done].
    intros (w & Hw & Hn & Hf)%IH. exists (c :: w). cbn in Hw. rewrite Hw.
    split_and!; [done|cbn; lia|by apply Forall_cons_2].
Qed.

Lemma times_intro p w st s : rest st = w ++ s -> Forall (fun c => p c = true) w ->
  exists e, times p (length w) st = Some e /\ rest e = s /\ cap e = cap st.
Proof.
  intros Hr Hw. revert st Hr. induction Hw as [|c w Hc _ IH]; intros st Hr.
  - exists st. by split_and!.
  - cbn [length times]. rewrite Hr. cbn [app]. rewrite Hc.
    destruct (IH (step_pos st c (w ++ s)) eq_refl) as (e & He & Hs & Hcap). eauto.
Qed.

Lemma matches_forward r st e : matches r st e -> exists w, rest st = w ++ rest e.
Proof.
  induction 1 as [s st e H|p st e H|g p st e H|p n st e H|r st e _ IH|r st|r1 r2 st st' e _ [w1 H1] _ [w2 H2]|r st e _ IH|st H|st H|st H|st H].
  - apply lit_spec in H as [H _]. by exists s.
  - apply times_spec in H as (w & Hw & _). by exists w.
  - apply run_spec in H as (w & Hw & _). by exists w.
  - apply times_spec in H as (w & Hw & _). by exists w.
  - done.
  - by exists [].
  - exists (w1 ++ w2). by rewrite H1, H2, app_assoc.
  - done.
  - by exists [].
  - by exists [].
  - by exists [].
  - by exists [].
Qed.

(** The position reached after reading a text. *)
Definition after (prv : option ascii) (a : bytes) : option ascii :=
  match last a with Some c => Some c | None => prv end.

Lemma after_cons prv c a : after prv (c :: a) = after (Some c) a.
Proof. unfold after. rewrite last_cons. by destruct (last a). Qed.

(** [find] returns the leftmost position where the expression matches. *)
Lemma find_some r prv s before m e :
  find r prv s = Some (before, m, e) ->
  s = before ++ m ++ rest e /\
  match_at r (Pos (after prv before) (m ++ rest e) None) = Some e /\
  (forall a b, s = a ++ b -> (length a < length before)%nat ->
     match_at r (Pos (after prv a) b None) = None).
Proof.
  revert prv before. induction s as [|c s IH]; intros prv before; cbn [find].
  - destruct (match_at r (Pos prv [] None)) as [e'|] eqn:E; [|done].
    intros [= <- <- ->]. destruct (mt_sound _ _ _ _ E) as (st' & Hm & [= ->]).
    destruct (matches_forward _ _ _ Hm) as [w Hw]. cbn in Hw.
    destruct w; [|done]. cbn in Hw. cbn. rewrite <- Hw. split_and!; [done|exact E|]. cbn. lia.
  - destruct (match_at r (Pos prv (c :: s) None)) as [e'|] eqn:E.
    + intros [= <- Em ->]. destruct (mt_sound _ _ _ _ E) as (st' & Hm & [= ->]).
      destruct (matches_forward _ _ _ Hm) as [w Hw].
      change (rest (Pos prv (c :: s) None)) with (c :: s) in Hw.
      assert (m = w) as ->.
      { rewrite <- Em. transitivity (take (length (c :: s) - length (rest e)) (c :: s)); [done|].
        rewrite Hw, length_app.
        replace (length w + length (rest e) - length (rest e))%nat with (length w) by lia.
        apply take_app_length. }
      cbn [app]. rewrite <- Hw. split_and!; [done|exact E|]. cbn. lia.
    + destruct (find r (Some c) s) as [[[b' m'] e']|] eqn:Ef; [|done].
      intros [= <- <- <-]. destruct (IH _ _ Ef) as (-> & Hm & Hno).
      split_and!; [done|by rewrite after_cons|].
      intros [|d a] b Hs Hlt; [cbn in Hs; by subst|]. injection Hs as <- Hs.
      rewrite after_cons. apply Hno; [done|]. cbn in Hlt. lia.
Qed.

Lemma find_none r prv s :
  find r prv s = None -> forall a b, s = a ++ b -> match_at r (Pos (after prv a) b None) = None.
Proof.
  revert prv. induction s as [|c s IH]; intros prv; cbn [find].
  - destruct (match_at r (Pos prv [] None)) eqn:E; [done|]. by intros _ [|] [|].
  - destruct (match_at r (Pos prv (c :: s) None)) eqn:E; [done|].
    destruct (find r (Some c) s) as [[[? ?] ?]|] eqn:Ef; [done|]. intros _ [|d a] b Hs.
    + cbn in Hs. by subst.
    + injection Hs as <- Hs. rewrite after_cons. by apply IH.
Qed.

(** Reading a run of bytes. *)
Lemma run_word p prv w t cp :
  Forall (fun c => p c = true) w -> run p (Pos prv (w ++ t) cp) (Pos (after prv w) t cp).
Proof.
  intros Hw. revert prv. induction Hw as [|c w Hc _ IH]; intros prv; [apply run_refl|].
  rewrite after_cons. eapply (run_step p (Pos prv (c :: w ++ t) cp) c (w ++ t)); [done|done|apply IH].
Qed.

(** ** Templates *)

Definition no_dollar (t : bytes) : Prop := Forall (fun c => c <> "$"%char) t.

Lemma expand_plain `{Unicode} t m : no_dollar t -> expand t m = t.
Proof.
  unfold expand. intros Ht. induction Ht as [|c t Hc _ IH]; [done|]. cbn [length expand_loop].
  unfold ascii_eqb at 1. rewrite bool_decide_false by done. by rewrite IH.
Qed.

(** ** Replacing matches

    An expression that matches exactly the words of some language, none of them
    empty; [longest] says that it prefers the longest of those that begin at
    one place. *)
Section substitution.
Context (word : bytes -> Prop) (longest : bool).

(** No longer word begins where [u] begins, when [b] follows. *)
Definition preferred (u b : bytes) : Prop :=
  longest = true -> forall u' b', u ++ b = u' ++ b' -> word u' -> (length u' <= length u)%nat.

(** The words of a text, from the left, each replaced by [new]. *)
Inductive substituted (new : bytes) : bytes -> bytes -> Prop :=
| sub_none s : (forall a u b, s = a ++ u ++ b -> ~ word u) -> substituted new s s
| sub_word a u b out :
    word u -> preferred u b ->
    (forall a' u' b', a ++ u ++ b = a' ++ u' ++ b' -> word u' -> (length a <= length a')%nat) ->
    substituted new b out -> substituted new (a ++ u ++ b) (a ++ new ++ out).

Context (r : re).
Context (Hsound : forall st e, match_at r st = Some e ->
  exists u, rest st = u ++ rest e /\ word u /\ preferred u (rest e)).
Context (Hcomplete : forall prv u s, word u -> match_at r (Pos prv (u ++ s) None) <> None).
Context (Hnonempty : forall u, word u -> (1 <= length u)%nat).

Lemma replace_words f new m s prv :
  (forall u, m u = new) -> (length s <= f)%nat -> substituted new s (replace_loop f r m prv s).
Proof.
  intros Hm. revert s prv. induction f as [|f IH]; intros s prv Hf.
  { destruct s; [|cbn in Hf; lia]. apply sub_none. intros a u b E Hu.
    apply Hnonempty in Hu. apply (f_equal length) in E. rewrite !length_app in E. cbn in E. lia. }
  cbn [replace_loop]. destruct (find r prv s) as [[[before u] e]|] eqn:Ef.
  - destruct (find_some _ _ _ _ _ _ Ef) as (-> & Hat & Hno).
    destruct (Hsound _ _ Hat) as (u' & Eu & Hu & Hp). cbn in Eu.
    apply app_inv_tail in Eu as <-. rewrite Hm. apply sub_word; [done|done| |].
    + intros a' u' b' E Hu'. destruct (decide (length before <= length a')%nat) as [|Hlt]; [done|].
      exfalso. apply (Hcomplete (after prv a') u' b' Hu'). apply Hno; [done|lia].
    + apply IH. apply Hnonempty in Hu. rewrite !length_app in Hf. lia.
  - apply sub_none. intros a u b -> Hu. apply (Hcomplete (after prv a) u b Hu).
    by apply (find_none _ _ _ Ef).
Qed.
End substitution.

(** The byte before the end of a match is the last byte it read. *)
Lemma run_prev p st e w :
  run p st e -> rest st = w ++ rest e -> prev e = after (prev st) w.
Proof.
  intros Hr. revert w. induction Hr as [st|st c t e E Hp Hr IH]; intros w Hw.
  - destruct w as [|x w]; [done|]. apply (f_equal length) in Hw.
    rewrite length_app in Hw. cbn in Hw. lia.
  - destruct (run_spec _ _ _ Hr) as (w' & Hw' & _). cbn [rest step_pos] in Hw'.
    rewrite E, Hw' in Hw. change (c :: w' ++ rest e) with ((c :: w') ++ rest e) in Hw.
    apply app_inv_tail in Hw as <-. rewrite after_cons. by apply IH.
Qed.

Lemma times_prev p n st e w :
  times p n st = Some e -> rest st = w ++ rest e -> prev e = after (prev st) w.
Proof.
  revert st w. induction n as [|n IH]; intros st w; cbn [times].
  - intros [= <-] Hw. destruct w as [|x w]; [done|]. apply (f_equal length) in Hw.
    rewrite length_app in Hw. cbn in Hw. lia.
  - destruct (rest st) as [|c t] eqn:E; [done|]. destruct (p c); [|done]. intros Ht Hw.
    destruct (times_spec _ _ _ _ Ht) as (w' & Hw' & _). cbn [rest step_pos] in Hw'.
    rewrite Hw' in Hw. change (c :: w' ++ rest e) with ((c :: w') ++ rest e) in Hw.
    apply app_inv_tail in Hw as <-. rewrite after_cons. by apply (IH (step_pos st c t)).
Qed.

(** ** Replacing words at the beginning of a line

    An expression that matches, at the beginning of a line only, exactly the
    words of some language, no two of which begin the same text. *)
Section line_substitution.
Context (word : bytes -> Prop).

(** The place after [a] begins a line, when [prv] is the byte before [a]. *)
Definition line_start (prv : option ascii) (a : bytes) : Prop :=
  match last a with
  | Some c => c = nl
  | None => match prv with Some c => c = nl | None => True end
  end.

Lemma line_start_bol prv a s : at_bol (Pos (after prv a) s None) = true <-> line_start prv a.
Proof.
  unfold at_bol, after, line_start, ascii_eqb. cbn.
  destruct (last a); [by rewrite bool_decide_eq_true|].
  destruct prv; [by rewrite bool_decide_eq_true|done].
Qed.

(** The words that begin a line, from the left, each replaced by [new]. *)
Inductive line_substituted (new : bytes) : option ascii -> bytes -> bytes -> Prop :=
| lsub_none prv s :
    (forall a u b, s = a ++ u ++ b -> line_start prv a -> ~ word u) ->
    line_substituted new prv s s
| lsub_word prv a u b out :
    word u -> line_start prv a ->
    (forall a' u' b', a ++ u ++ b = a' ++ u' ++ b' -> line_start prv a' -> word u' ->
       (length a <= length a')%nat) ->
    line_substituted new (last u) b out -> line_substituted new prv (a ++ u ++ b) (a ++ new ++ out).

Context (r : re).
Context (Hsound : forall st e, match_at r st = Some e ->
  at_bol st = true /\ exists u, rest st = u ++ rest e /\ word u /\ prev e = last u).
Context (Hcomplete : forall prv u s, word u -> at_bol (Pos prv (u ++ s) None) = true ->
  match_at r (Pos prv (u ++ s) None) <> None).
Context (Hnonempty : forall u, word u -> (1 <= length u)%nat).

Lemma replace_lines f new m s prv :
  (forall u, m u = new) -> (length s <= f)%nat ->
  line_substituted new prv s (replace_loop f r m prv s).
Proof.
  intros Hm. revert s prv. induction f as [|f IH]; intros s prv Hf.
  { destruct s; [|cbn in Hf; lia]. apply lsub_none. intros a u b E _ Hu.
    apply Hnonempty in Hu. apply (f_equal length) in E. rewrite !length_app in E. cbn in E. lia. }
  cbn [replace_loop]. destruct (find r prv s) as [[[before u] e]|] eqn:Ef.
  - destruct (find_some _ _ _ _ _ _ Ef) as (-> & Hat & Hno).
    destruct (Hsound _ _ Hat) as (Hb & u' & Eu & Hu & Hp). cbn in Eu.
    apply app_inv_tail in Eu as <-. rewrite Hm, Hp.
    apply lsub_word; [done|by apply line_start_bol in Hb| |].
    + intros a' u' b' E Hs Hu'. destruct (decide (length before <= length a')%nat) as [|Hlt]; [done|].
      exfalso. apply (Hcomplete (after prv a') u' b' Hu'); [by apply line_start_bol|].
      apply Hno; [done|lia].
    + apply IH. apply Hnonempty in Hu. rewrite !length_app in Hf. lia.
  - apply lsub_none. intros a u b -> Hs Hu.
    apply (Hcomplete (after prv a) u b Hu); [by apply line_start_bol|].
    by apply (find_none _ _ _ Ef).
Qed.
End line_substitution.

(** A greedy star takes the longest run after which the rest matches. *)
Lemma star_greedy p prv s cp k e :
  star true p prv s cp k = Some e ->
  exists w t, s = w ++ t /\ Forall (fun c => p c = true) w /\ k (Pos (after prv w) t cp) = Some e /\
    forall w' t', s = w' ++ t' -> Forall (fun c => p c = true) w' -> (length w < length w')%nat ->
      k (Pos (after prv w') t' cp) = None.
Proof.
  revert prv. induction s as [|c s IH]; intros prv; cbn [star].
  - intros Hk. exists [], []. split_and!; [done|apply Forall_nil_2|done|].
    intros [|] t' E _ Hl; [cbn in Hl; lia|done].
  - destruct (p c) eqn:Ep.
    + destruct (star true p (Some c) s cp k) as [x|] eqn:Es.
      * intros [= ->]. destruct (IH _ Es) as (w & t & -> & Hw & Hk & Hmax).
        exists (c :: w), t. rewrite after_cons. split_and!; [done|by apply Forall_cons_2|done|].
        intros [|d w'] t' E Hw' Hl; [cbn in Hl; lia|]. injection E as <- E.
        apply Forall_cons in Hw' as [_ Hw']. rewrite after_cons.
        apply Hmax; [done|done|]. cbn in Hl. lia.
      * intros Hk. exists [], (c :: s). split_and!; [done|apply Forall_nil_2|done|].
        intros [|d w'] t' E Hw' Hl; [cbn in Hl; lia|]. injection E as <- E.
        apply Forall_cons in Hw' as [_ Hw']. rewrite after_cons.
        apply (star_complete _ _ _ _ _ _ Es). rewrite E.
        by apply run_word.
    + intros Hk. exists [], (c :: s). split_and!; [done|apply Forall_nil_2|done|].
      intros [|d w'] t' E Hw' Hl; [cbn in Hl; lia|]. injection E as <- E.
      apply Forall_cons in Hw' as [Hp _]. congruence.
Qed.

End ReFacts.
