(* ===== verification/Rewriter.v ===== *)
(** * The payload rewriter ([rewriter.go])

    [Base64] and [Wrap] are the encoder and the line wrapper behind it,
    [Rewriting] the substitutions and the self-extracting archives.  The
    archive formats are interfaces. *)

From S2P Require Import Prelude GoStrings MacAddr Types Regex.
Import Re.

(** ** [encoding/base64], standard alphabet with padding *)

Module Base64.

Definition b64_char (n : Z) : ascii :=
  if n <? 26 then z2b (65 + n)
  else if n <? 52 then z2b (97 + (n - 26))
  else if n <? 62 then z2b (48 + (n - 52))
  else if n =? 62 then "+" else "/".

Definition b64_val (c : ascii) : option Z :=
  let z := b2z c in
  if (65 <=? z) && (z <=? 90) then Some (z - 65)
  else if (97 <=? z) && (z <=? 122) then Some (z - 97 + 26)
  else if (48 <=? z) && (z <=? 57) then Some (z - 48 + 52)
  else if z =? 43 then Some 62
  else if z =? 47 then Some 63
  else None.

Fixpoint encode (s : bytes) : bytes :=
  match s with
  | a :: b :: c :: s' =>
      b64_char (b2z a / 4) :: b64_char (b2z a mod 4 * 16 + b2z b / 16) ::
      b64_char (b2z b mod 16 * 4 + b2z c / 64) :: b64_char (b2z c mod 64) :: encode s'
  | [a; b] =>
      [b64_char (b2z a / 4); b64_char (b2z a mod 4 * 16 + b2z b / 16);
       b64_char (b2z b mod 16 * 4); "="%char]
  | [a] => [b64_char (b2z a / 4); b64_char (b2z a mod 4 * 16); "="%char; "="%char]
  | [] => []
  end.

(** [DecodeString] on text without line breaks; padding ends the text, and the
    unused bits before it are not checked. *)
Fixpoint decode (s : bytes) : option bytes :=
  match s with
  | [] => Some []
  | a :: b :: c :: d :: s' =>
      x ← b64_val a; y ← b64_val b;
      if ascii_eqb c "=" then
        if ascii_eqb d "=" && bool_decide (s' = []) then Some [z2b (x * 4 + y / 16)] else None
      else
        z ← b64_val c;
        if ascii_eqb d "=" then
          if bool_decide (s' = []) then Some [z2b (x * 4 + y / 16); z2b (y * 16 + z / 4)] else None
        else
          w ← b64_val d; r ← decode s';
          Some (z2b (x * 4 + y / 16) :: z2b (y * 16 + z / 4) :: z2b (z * 64 + w) :: r)
  | _ => None
  end.

Lemma b64_cases (P : Z -> Prop) :
  Forall P (Z.of_nat <$> seq 0 64) -> forall n, 0 <= n < 64 -> P n.
Proof.
  intros HP n Hn. rewrite Forall_fmap, Forall_forall in HP.
  replace n with (Z.of_nat (Z.to_nat n)) by lia. apply HP. apply elem_of_seq. lia.
Qed.

Lemma b64_val_char n : 0 <= n < 64 -> b64_val (b64_char n) = Some n.
Proof. revert n. apply b64_cases. by repeat (apply Forall_cons_2; [reflexivity|]). Qed.

Lemma b64_char_pad n : 0 <= n < 64 -> ascii_eqb (b64_char n) "=" = false.
Proof. revert n. apply b64_cases. by repeat (apply Forall_cons_2; [reflexivity|]). Qed.

(** The bytes of a quantum come back. *)
Lemma quantum a x : z2b x = a <-> x mod 256 = b2z a.
Proof.
  split.
  - intros <-. by rewrite b2z_z2b.
  - intros E. rewrite <- (z2b_b2z a), <- E. unfold z2b. by rewrite Zmod_mod.
Qed.

Lemma decode_encode s : decode (encode s) = Some s.
Proof.
  induction s as [s IH] using (induction_ltof1 _ (@length ascii)). unfold ltof in IH.
  destruct s as [|a [|b [|c s]]]; [done| | |].
  - pose proof (b2z_range a). cbn [encode decode].
    rewrite !b64_val_char by (zify_div; lia). cbn [mbind option_bind].
    change (ascii_eqb "=" "=") with true. rewrite bool_decide_true by done. cbn [andb].
    do 2 f_equal. apply quantum. zify_div; lia.
  - pose proof (b2z_range a). pose proof (b2z_range b). cbn [encode decode].
    rewrite !b64_val_char, !b64_char_pad by (zify_div; lia). cbn [mbind option_bind].
    change (ascii_eqb "=" "=") with true. rewrite bool_decide_true by done.
    f_equal. f_equal; [|f_equal]; apply quantum; zify_div; lia.
  - pose proof (b2z_range a). pose proof (b2z_range b). pose proof (b2z_range c).
    cbn [encode decode].
    rewrite !b64_val_char, !b64_char_pad by (zify_div; lia). cbn [mbind option_bind].
    rewrite IH by (cbn; lia). cbn [mbind option_bind].
    f_equal. f_equal; [|f_equal; [|f_equal]]; apply quantum; zify_div; lia.
Qed.

End Base64.

(** ** The line wrapper *)

Module Wrap.

(** A writer whose [Write] may fail. *)
Class Writer (W : Type) := { write : W -> bytes -> option W }.

(** [bytes.Buffer] never does. *)
#[export] Instance buffer_writer : Writer bytes := {| write b p := Some (b ++ p) |}.

Record lineWrapWriter (W : Type) := LWW { lw_w : W; lineLen : Z; col : Z }.
#[global] Arguments LWW {W}.
#[global] Arguments lw_w {W}.
#[global] Arguments lineLen {W}.
#[global] Arguments col {W}.

Section write.
Context {W : Type} `{Writer W}.

(** The loop; every round that continues consumes a byte. *)
Fixpoint Write_loop (fuel : nat) (l : lineWrapWriter W) (p : bytes) : option (lineWrapWriter W) :=
  match fuel, p with
  | O, _ | _, [] => Some l
  | S f, _ =>
      let remain := lineLen l - col l in
      if zlen p <? remain then
        w ← write (lw_w l) p; Some (LWW w (lineLen l) (col l + zlen p))
      else
        w ← write (lw_w l) (take (Z.to_nat remain) p);
        w ← write w [nl];
        Write_loop f (LWW w (lineLen l) 0) (drop (Z.to_nat remain) p)
  end.

(** The writer after the call and the count it returns; [None] is the error
    of the writer behind it. *)
Definition Write (l : lineWrapWriter W) (p : bytes) : option (lineWrapWriter W * Z) :=
  l' ← Write_loop (length p) l p; Some (l', zlen p).
End write.

(** What wrapping means: a newline after every [n]th byte. *)
Fixpoint wrap (n c : Z) (p : bytes) : bytes :=
  match p with
  | [] => []
  | x :: p' => if c + 1 =? n then x :: nl :: wrap n 0 p' else x :: wrap n (c + 1) p'
  end.

Lemma wrap_app n c p q : 0 <= c < n -> wrap n c (p ++ q) = wrap n c p ++ wrap n ((c + zlen p) mod n) q.
Proof.
  revert c. induction p as [|x p IH]; intros c Hc.
  { cbn. by rewrite Z.add_0_r, Z.mod_small. }
  cbn [app wrap]. destruct (Z.eqb_spec (c + 1) n) as [E|E].
  - rewrite IH by lia. cbn [app]. do 4 f_equal. cbn [length].
    replace (c + Z.of_nat (S (length p))) with (0 + zlen p + 1 * n) by lia.
    by rewrite Z.mod_add by lia.
  - rewrite IH by lia. cbn [app length]. do 4 f_equal. lia.
Qed.

Lemma wrap_short n c p : c + zlen p < n -> wrap n c p = p.
Proof.
  revert c. induction p as [|x p IH]; intros c Hc; [done|]. cbn [wrap length] in *.
  destruct (Z.eqb_spec (c + 1) n); [lia|]. f_equal. apply IH. lia.
Qed.

Lemma wrap_line n c p q :
  0 <= c -> p <> [] -> c + zlen p = n -> wrap n c (p ++ q) = p ++ nl :: wrap n 0 q.
Proof.
  revert c. induction p as [|x p IH]; intros c H0 Hne Hc; [done|]. cbn [app wrap length] in *.
  destruct (Z.eqb_spec (c + 1) n) as [E|E].
  - destruct p; [done|]. cbn in Hc. lia.
  - f_equal. destruct p as [|y p]; [cbn in Hc; lia|]. apply IH; [lia|done|lia].
Qed.

Lemma Write_loop_spec f (l : lineWrapWriter bytes) p :
  0 <= col l < lineLen l -> (length p <= f)%nat ->
  exists l', Write_loop f l p = Some l' /\
    lw_w l' = lw_w l ++ wrap (lineLen l) (col l) p /\
    lineLen l' = lineLen l /\ col l' = (col l + zlen p) mod lineLen l.
Proof.
  revert l p. induction f as [|f IH]; intros l p Hc Hf.
  { destruct p; [|cbn in Hf; lia]. exists l. cbn. rewrite app_nil_r, Z.add_0_r, Z.mod_small by lia. done. }
  destruct p as [|x p].
  { exists l. cbn. rewrite app_nil_r, Z.add_0_r, Z.mod_small by lia. done. }
  cbn [Write_loop]. set (q := x :: p) in *. assert (Hq : 1 <= zlen q) by (unfold q; cbn; lia).
  clearbody q. destruct (Z.ltb_spec (zlen q) (lineLen l - col l)) as [Hlt|Hge].
  - cbn [write buffer_writer mbind option_bind]. eexists. split; [done|]. cbn.
    rewrite wrap_short, Z.mod_small by lia. done.
  - cbn [write buffer_writer mbind option_bind]. set (k := Z.to_nat (lineLen l - col l)).
    assert (Hk : Z.of_nat k = lineLen l - col l) by lia.
    assert (Hkq : (k <= length q)%nat) by lia.
    destruct (IH (LWW ((lw_w l ++ take k q) ++ [nl]) (lineLen l) 0) (drop k q)) as (l' & E & H1 & H2 & H3).
    { cbn. lia. }
    { rewrite length_drop. lia. }
    exists l'. split; [exact E|]. cbn in H1, H2, H3. split_and!; [|done|].
    + rewrite H1.
      assert (Ew : wrap (lineLen l) (col l) (take k q ++ drop k q) =
        take k q ++ nl :: wrap (lineLen l) 0 (drop k q)).
      2: { rewrite take_drop in Ew. by rewrite Ew, <- !app_assoc. }
      apply wrap_line; [lia| |].
      * intros E0. apply (f_equal length) in E0. rewrite length_take in E0. cbn in E0. lia.
      * rewrite length_take. lia.
    + rewrite H3, length_drop.
      replace (col l + zlen q) with (Z.of_nat (length q - k) + 1 * lineLen l) by lia.
      by rewrite Z.mod_add by lia.
Qed.

(** The wrapped text without its line breaks is the text. *)
Definition unwrap (s : bytes) : bytes := filter (fun c => c <> nl) s.

Lemma unwrap_wrap n c p : Forall (fun x => x <> nl) p -> unwrap (wrap n c p) = p.
Proof.
  intros Hp. revert c. unfold unwrap. induction Hp as [|x p Hx _ IH]; intros c; [done|].
  cbn [wrap]. destruct (c + 1 =? n); rewrite !filter_cons, decide_True by done;
    [rewrite decide_False by (intros []; done)|]; by rewrite IH.
Qed.

(** The length of the longest line, counting [c] bytes before the text. *)
Fixpoint longest (c : Z) (s : bytes) : Z :=
  match s with
  | [] => c
  | x :: s' => if ascii_eqb x nl then Z.max c (longest 0 s') else longest (c + 1) s'
  end.

Lemma longest_wrap n c p :
  0 <= c < n -> Forall (fun x => x <> nl) p -> longest c (wrap n c p) <= n.
Proof.
  intros Hc Hp. revert c Hc. induction Hp as [|x p Hx _ IH]; intros c Hc; [cbn; lia|].
  assert (E : ascii_eqb x nl = false) by (unfold ascii_eqb; by rewrite bool_decide_false).
  cbn [wrap]. destruct (Z.eqb_spec (c + 1) n); cbn [longest]; rewrite E.
  - cbn [longest]. change (ascii_eqb nl nl) with true. cbn [longest].
    specialize (IH 0 ltac:(lia)). lia.
  - apply IH. lia.
Qed.

End Wrap.
Import Wrap.

(** A sequence of calls: the writer after the last one and the counts they
    return, or the first error. *)
Fixpoint Writes {W} `{Writer W} (l : lineWrapWriter W) (chunks : list bytes)
    : option (lineWrapWriter W * list Z) :=
  match chunks with
  | [] => Some (l, [])
  | p :: chunks' =>
      '(l, n) ← Write l p; '(l, ns) ← Writes l chunks'; Some (l, n :: ns)
  end.

Lemma Writes_spec n c buf chunks :
  0 <= c < n ->
  Writes (LWW buf n c) chunks =
  Some (LWW (buf ++ wrap n c (concat chunks)) n ((c + zlen (concat chunks)) mod n),
        (fun p : bytes => zlen p) <$> chunks).
Proof.
  revert c buf. induction chunks as [|p chunks IH]; intros c buf Hc.
  { cbn. by rewrite app_nil_r, Z.add_0_r, Z.mod_small. }
  destruct (Write_loop_spec (length p) (LWW buf n c) p Hc ltac:(lia)) as (l1 & E1 & W1 & L1 & C1).
  destruct l1 as [b1 n1 c1]. cbn in W1, L1, C1. subst.
  cbn [Writes]. unfold Write. rewrite E1. cbn [mbind option_bind].
  rewrite IH by (apply Z.mod_pos_bound; lia). cbn [mbind option_bind concat fmap list_fmap].
  rewrite wrap_app, app_assoc by lia. rewrite Zplus_mod_idemp_l, length_app.
  do 3 f_equal. f_equal. lia.
Qed.

(** C28: the wrapper implements line wrapping for any sequence of writes.
    From any column on, the text that arrives behind it is the concatenation of
    the chunks with a newline after every [n]th byte, however the text was cut
    into chunks; it stands in the column where that text ends and keeps its line
    length, and every call reports that it took all its bytes.  For text that
    has no newlines of its own, removing the line breaks gives the text back,
    and no line is longer than the limit. *)
Theorem wrap_writes (n c : Z) (buf : bytes) (chunks : list bytes) (Hc : 0 <= c < n) :
  let text := concat chunks in
  Writes (LWW buf n c) chunks =
    Some (LWW (buf ++ wrap n c text) n ((c + zlen text) mod n),
          (fun p : bytes => zlen p) <$> chunks) /\
  (Forall (fun x => x <> nl) text ->
   unwrap (wrap n c text) = text /\ longest c (wrap n c text) <= n).
Proof.
  cbv zeta. split; [by apply Writes_spec|]. intros Hp.
  split; [by apply unwrap_wrap|by apply longest_wrap].
Qed.

Lemma wrap_writes_witness :
  Writes (LWW [] 4 1) ["YWJj"%string : bytes; "ZGU="%string : bytes; "eA=="%string : bytes] =
    Some (LWW ("YWJ"%string ++ [nl] ++ "jZGU"%string ++ [nl] ++ "=eA="%string ++ [nl] ++ "="%string)
      4 1, [4; 4; 4]).
Proof.
  apply (wrap_writes 4 1 [] ["YWJj"%string : bytes; "ZGU="%string : bytes; "eA=="%string : bytes]).
  lia.
Defined.

(** ** Archive formats

    [archive/tar] inside [compress/gzip], and [crypto/md5].  A header is its
    name, its type, its size, and what else is in it (link target, mode, owner,
    times).  [untar_gz] is the
    list of entries up to [io.EOF], or [None] when opening the stream or one
    of the reads fails; [tar_gz] is the finished stream, or [None] when a
    write or a close fails. *)
Record tarHeader := { Name : bytes; Typeflag : ascii; Size : Z; Other : bytes }.

Class Archive := {
  untar_gz : bytes -> option (list (tarHeader * bytes));
  tar_gz : list (tarHeader * bytes) -> option bytes;
  md5 : bytes -> bytes;
}.

(** Links, devices, directories and pipes: they read as empty whatever their
    header claims as size. *)
Definition header_only (h : tarHeader) : bool :=
  bool_decide (Typeflag h ∈ ["1"%char; "2"%char; "3"%char; "4"%char; "5"%char; "6"%char]).

(** An entry as the reader returns it: its content is empty for a type that
    has none and otherwise as long as the header says, and the type of a regular
    file is the modern one. *)
Definition entry_ok (e : tarHeader * bytes) : Prop :=
  (if header_only e.1 then e.2 = [] else Size e.1 = zlen e.2) /\ Typeflag e.1 <> z2b 0.

(** What the packages document: the reader returns such entries, and the
    entries that were written; a stream begins with the gzip magic number. *)
Class ArchiveLaws (A : Archive) : Prop := {
  untar_ok b es : untar_gz b = Some es -> Forall entry_ok es;
  untar_tar es z : Forall entry_ok es -> tar_gz es = Some z -> untar_gz z = Some es;
  tar_magic es z : tar_gz es = Some z -> exists z', z = z2b 31 :: z2b 139 :: z';
}.

Module Rewriting.
Import Base64.

(** The bytes of a host name: no slash, colon, white space or quote. *)
Definition host_char (c : ascii) : bool :=
  negb (is_space c || bool_decide (c = "/"%char) || bool_decide (c = ":"%char) ||
        bool_decide (c = "034"%char) || bool_decide (c = "'"%char) || bool_decide (c = "`"%char)).

Definition defaultRackURLRe : re :=
  RCat (RLit "http://"%string) (RCat (RSet host_char) (RCat (RStar true host_char)
    (RLit ":5248"%string))).

Definition quote_char (c : ascii) : bool :=
  bool_decide (c = "'"%char) || bool_decide (c = "034"%char).

Definition hex_char (c : ascii) : bool := match hex_val c with Some _ => true | None => false end.

Definition md5SumRe : re :=
  RCat RBol (RCat (RLit "MD5SUM="%string) (RCat (RSet quote_char) (RCat (RTimes hex_char 32)
    (RSet quote_char)))).

Definition payload_marker : bytes := "_____PAYLOAD_____"%string.

Definition payloadMarkerRe : re :=
  RCat RBol (RCat (RLit payload_marker) (RCat (ROpt (RLit [z2b 13])) REol)).

Section rewrite.
Context `{Unicode, Archive}.

(** [applySubs], with the base URL already trimmed. *)
Definition applySubs (baseURL : bytes) (rewrites : list Rewrite) (data : bytes) : bytes :=
  let data := if bool_decide (baseURL = []) then data
              else Re.ReplaceAll defaultRackURLRe data baseURL in
  foldl (fun data r => if bool_decide (From r = []) then data
                       else GoStrings.ReplaceAll data (From r) (To r)) data rewrites.

(** The white space that is stripped from the payload.  The source maps
    runes; a byte that is not ASCII is no base64 either way. *)
Definition b64_space (c : ascii) : bool :=
  bool_decide (c = " "%char) || bool_decide (c = z2b 9) || bool_decide (c = z2b 13) ||
  bool_decide (c = nl).

Definition b64Clean (s : bytes) : bytes := filter (fun c => b64_space c = false) s.

Definition gzip_magic (s : bytes) : bool :=
  match s with a :: b :: _ => (b2z a =? 31) && (b2z b =? 139) | _ => false end.

(** [hdr.Typeflag == tar.TypeReg || hdr.Typeflag == tar.TypeRegA] *)
Definition regular (h : tarHeader) : bool :=
  bool_decide (Typeflag h = "0"%char) || bool_decide (Typeflag h = z2b 0).

(** One entry of the loop. *)
Definition rewrite_entry (subs : bytes -> bytes) (e : tarHeader * bytes) : tarHeader * bytes :=
  let '(h, rawBytes) := e in
  if regular h then
    let newBytes := subs rawBytes in
    ({| Name := Name h; Typeflag := Typeflag h; Size := zlen newBytes; Other := Other h |}, newBytes)
  else (h, rawBytes).

(** The chunks in which the streaming encoder writes: up to 768 bytes at a
    time, then what is left over when it is closed. *)
Fixpoint encoder_chunks (fuel : nat) (p : bytes) : list bytes :=
  match fuel, p with
  | O, _ | _, [] => []
  | S f, _ =>
      if zlen p <? 3 then [encode p]
      else
        let nn := Z.to_nat (Z.min 768 (zlen p - zlen p mod 3)) in
        encode (take nn p) :: encoder_chunks f (drop nn p)
  end.

(** The chunks through the line wrapper into the buffer. *)
Definition wrap_chunks (l : lineWrapWriter bytes) (chunks : list bytes) : option (lineWrapWriter bytes) :=
  foldl (fun l c => l ← l; '(l, _) ← Write l c; Some l) (Some l) chunks.

Definition with_newline (s : bytes) : bytes :=
  if HasSuffix s [nl] then s else s ++ [nl].

(** The header with the new checksum. *)
Definition new_header (subs : bytes -> bytes) (header newGzBytes : bytes) : bytes :=
  let newMD5 := concat ((fun c => Mac.hex2 (b2z c)) <$> md5 newGzBytes) in
  Re.ReplaceAll md5SumRe (subs header) ("MD5SUM='"%string ++ newMD5 ++ "'"%string).

(** The archive put together again. *)
Definition assemble (header b64Buf : bytes) : bytes :=
  let result := with_newline header in
  let result := result ++ payload_marker in
  let result := result ++ [nl] in
  let result := result ++ b64Buf in
  with_newline result.

(** The error that is returned next to the bytes is nil on every path. *)
Definition rewriteData (input baseURL : bytes) (rewrites : list Rewrite) : bytes :=
  if bool_decide (input = []) then input
  else
    let subs := applySubs (TrimRight baseURL "/"%string) rewrites in
    match FindIndex payloadMarkerRe input with
    | None => subs input
    | Some (header, rawPayload) =>
        match decode (b64Clean rawPayload) with
        | Some decoded =>
            if gzip_magic decoded then
              match untar_gz decoded with
              | Some es =>
                  match tar_gz (rewrite_entry subs <$> es) with
                  | Some newGzBytes =>
                      match wrap_chunks (LWW [] 76 0)
                              (encoder_chunks (length newGzBytes) newGzBytes) with
                      | Some l => assemble (new_header subs header newGzBytes) (lw_w l)
                      | None => subs input
                      end
                  | None => subs input
                  end
              | None => subs input
              end
            else subs input
        | None => subs input
        end
    end.
End rewrite.

End Rewriting.
Import Rewriting.

(** ** The encoder *)

Module EncodeFacts.
Import Base64.

Lemma encode_app s t : zlen s mod 3 = 0 -> encode (s ++ t) = encode s ++ encode t.
Proof.
  induction s as [s IH] using (induction_ltof1 _ (@length ascii)). unfold ltof in IH. intros Hs.
  destruct s as [|a [|b [|c s]]]; [done|by cbn in Hs|by cbn in Hs|].
  cbn [app encode]. rewrite IH; [done|cbn; lia|]. cbn [length] in Hs. zify_div; lia.
Qed.

Lemma concat_chunks f p : (length p <= f)%nat -> concat (encoder_chunks f p) = encode p.
Proof.
  revert p. induction f as [|f IH]; intros p Hf.
  { destruct p; [done|cbn in Hf; lia]. }
  destruct p as [|x p]; [done|]. cbn [encoder_chunks]. set (q := x :: p) in *.
  assert (Hq : 1 <= zlen q) by (unfold q; cbn; lia). clearbody q.
  destruct (Z.ltb_spec (zlen q) 3) as [Hlt|Hge]; [cbn; by rewrite app_nil_r|].
  set (nn := Z.to_nat (Z.min 768 (zlen q - zlen q mod 3))).
  assert (Hn : Z.of_nat nn mod 3 = 0 /\ 1 <= Z.of_nat nn <= zlen q).
  { pose proof (Z.mod_pos_bound (zlen q) 3 ltac:(lia)) as Hm.
    assert (Hd : (zlen q - zlen q mod 3) mod 3 = 0) by (zify_div; lia).
    unfold nn. rewrite Z2Nat.id by lia.
    destruct (Z.min_spec 768 (zlen q - zlen q mod 3)) as [[? ->]|[? ->]]; [split; [done|lia]|].
    split; [done|lia]. }
  cbn [concat]. rewrite IH.
  - rewrite <- encode_app, take_drop; [done|]. rewrite length_take_le by lia. apply Hn.
  - rewrite length_drop. lia.
Qed.

Definition b64_clean_char (c : ascii) : Prop := b64_space c = false.

Lemma encode_clean s : Forall b64_clean_char (encode s).
Proof.
  assert (Hc : forall n, 0 <= n < 64 -> b64_clean_char (b64_char n)).
  { apply b64_cases. repeat (apply Forall_cons_2; [reflexivity|]). apply Forall_nil_2. }
  induction s as [s IH] using (induction_ltof1 _ (@length ascii)). unfold ltof in IH.
  assert (Hp : b64_clean_char "="%char) by done.
  destruct s as [|a [|b [|c s]]]; cbn [encode].
  - apply Forall_nil_2.
  - pose proof (b2z_range a).
    repeat (apply Forall_cons_2; [done || (apply Hc; zify_div; lia)|]). apply Forall_nil_2.
  - pose proof (b2z_range a). pose proof (b2z_range b).
    repeat (apply Forall_cons_2; [done || (apply Hc; zify_div; lia)|]). apply Forall_nil_2.
  - pose proof (b2z_range a). pose proof (b2z_range b). pose proof (b2z_range c).
    repeat (apply Forall_cons_2; [done || (apply Hc; zify_div; lia)|]). apply IH. cbn; lia.
Qed.

Lemma clean_wrap n c p : Forall b64_clean_char p -> b64Clean (wrap n c p) = p.
Proof.
  intros Hp. revert c. unfold b64Clean. induction Hp as [|x p Hx _ IH]; intros c; [done|].
  cbn [wrap]. destruct (c + 1 =? n); rewrite !filter_cons, decide_True by done;
    [rewrite decide_False by done|]; by rewrite IH.
Qed.

(** Chunk by chunk, the wrapper writes the wrapped text. *)
Lemma wrap_chunks_spec n c buf chunks :
  0 <= c < n ->
  exists l, wrap_chunks (LWW buf n c) chunks = Some l /\
    lw_w l = buf ++ wrap n c (concat chunks).
Proof.
  unfold wrap_chunks. revert c buf. induction chunks as [|p chunks IH]; intros c buf Hc.
  { eexists. split; [done|]. cbn. by rewrite app_nil_r. }
  destruct (Write_loop_spec (length p) (LWW buf n c) p Hc ltac:(lia)) as (l1 & E1 & W1 & L1 & C1).
  cbn in W1, L1, C1. cbn [foldl mbind option_bind]. unfold Write at 2. rewrite E1.
  cbn [mbind option_bind]. destruct l1 as [b1 n1 c1]. cbn in W1, L1, C1. subst.
  destruct (IH ((c + zlen p) mod n) (buf ++ wrap n c p)) as (l & E & W).
  { apply Z.mod_pos_bound. lia. }
  exists l. split; [exact E|]. rewrite W. cbn [concat]. by rewrite wrap_app, app_assoc by lia.
Qed.

End EncodeFacts.
Import EncodeFacts.

(** ** Finding the marker again *)

Module MarkerFacts.
Import ReFacts.

Definition cr : ascii := z2b 13.

Definition line_end (s : bytes) : bool :=
  match s with [] => true | c :: _ => ascii_eqb c nl end.

(** What a match of the marker is. *)
Lemma marker_match st :
  match_at payloadMarkerRe st <> None <->
  at_bol st = true /\ exists x, rest st = payload_marker ++ x /\
    (line_end x = true \/ exists y, x = cr :: y /\ line_end y = true).
Proof.
  unfold match_at, payloadMarkerRe. cbn [mt]. destruct (at_bol st); [|split; [done|by intros [? _]]].
  destruct (lit payload_marker st) as [e|] eqn:E; cbn [mbind option_bind].
  2: { split; [done|]. intros (_ & x & Hx & _). exfalso.
       assert (Hl : lit payload_marker st = Some (Pos (Some "_"%char) x (cap st)))
         by (by apply lit_spec). congruence. }
  apply lit_spec in E as (Hr & _ & _). cbn [lit].
  assert (Hx : forall x, rest st = payload_marker ++ x -> x = rest e)
    by (intros x Hx; rewrite Hr in Hx; by apply app_inv_head in Hx).
  unfold at_eol. destruct (rest e) as [|c t] eqn:Ee; cbn [mbind option_bind].
  - split; [|done]. intros _. split; [done|]. exists []. split; [done|by left].
  - destruct (ascii_eqb c (z2b 13)) eqn:E13; cbn [mbind option_bind rest step_pos].
    + apply bool_decide_eq_true in E13 as ->. change (ascii_eqb (z2b 13) nl) with false. destruct t as [|d t]; cbn [at_eol rest step_pos].
      * split; [|done]. intros _. split; [done|]. eexists. split; [done|]. right. by exists [].
      * destruct (ascii_eqb d nl) eqn:Ed.
        -- split; [|done]. intros _. split; [done|]. eexists. split; [done|]. right.
           by exists (d :: t).
        -- split; [done|]. intros (_ & x & ->%Hx & [?|(y & [= <-] & Hy)]); [done|].
           cbn in Hy. congruence.
    + destruct (ascii_eqb c nl) eqn:Ec.
      * split; [|done]. intros _. split; [done|]. eexists. split; [done|]. by left.
      * split; [done|]. apply bool_decide_eq_false in E13.
        intros (_ & x & ->%Hx & [Hl|(y & [= ? _] & _)]); [|done]. cbn in Hl. congruence.
Qed.

(** A text of complete lines. *)
Definition complete (s : bytes) : Prop := s = [] \/ exists s', s = s' ++ [nl].

Lemma after_complete s : complete s -> at_bol (Pos (after None s) [] None) = true.
Proof. intros [->|[s' ->]]; [done|]. unfold after, at_bol. by rewrite last_snoc. Qed.

Lemma marker_no_newline : Forall (fun c => c <> nl) payload_marker.
Proof. repeat (apply Forall_cons_2; [done|]). apply Forall_nil_2. Qed.

(** Two ways of cutting a text, of which the first comes earlier. *)
Lemma cut_earlier {A} (a b h t : list A) :
  a ++ b = h ++ t -> (length a <= length h)%nat -> exists b', h = a ++ b' /\ b = b' ++ t.
Proof.
  intros E Hlen. exists (drop (length a) h).
  assert (Ha : a = take (length a) h).
  { apply (f_equal (take (length a))) in E. rewrite take_app_length in E.
    by rewrite take_app_le in E. }
  split; [by rewrite Ha at 1; rewrite take_drop|].
  apply (f_equal (drop (length a))) in E. rewrite drop_app_length in E.
  by rewrite drop_app_le in E.
Qed.

(** Before complete lines without a marker line, a marker line is not found
    earlier. *)
Lemma marker_not_before (h t a b : bytes) :
  complete h -> Match payloadMarkerRe h = false -> h ++ t = a ++ b ->
  (length a < length h)%nat -> match_at payloadMarkerRe (Pos (after None a) b None) = None.
Proof.
  intros Hc Hm E Hlt. symmetry in E. destruct (cut_earlier a b h t E ltac:(lia)) as (b' & Eh & ->).
  assert (Hno : match_at payloadMarkerRe (Pos (after None a) b' None) = None).
  { unfold Match in Hm. destruct (find payloadMarkerRe None h) eqn:Ef; [done|].
    by apply (find_none _ _ _ Ef). }
  destruct (match_at payloadMarkerRe (Pos (after None a) (b' ++ t) None)) eqn:Em; [|done].
  exfalso. assert (Hsome : match_at payloadMarkerRe (Pos (after None a) (b' ++ t) None) <> None)
    by congruence.
  apply marker_match in Hsome as (Hbol & x & Hx & Hend). cbn in Hx.
  assert (Hb' : exists b0, b' = b0 ++ [nl]).
  { destruct b' as [|z b' _] using rev_ind; [rewrite Eh, app_nil_r in Hlt; lia|].
    destruct Hc as [->|[h' ->]]; [by destruct a, b'|].
    rewrite app_assoc in Eh. apply app_inj_2 in Eh as [_ [= <-]]; [|done]. by exists b'. }
  destruct Hb' as [b0 ->].
  (* the marker lies within the lines *)
  assert (Hlen : (length payload_marker <= length (b0 ++ [nl]))%nat).
  { destruct (decide (length payload_marker <= length (b0 ++ [nl]))%nat) as [|Hn]; [done|].
    destruct (cut_earlier (b0 ++ [nl]) t payload_marker x Hx ltac:(lia)) as (r & Er & _).
    pose proof marker_no_newline as Hf. rewrite Er, !Forall_app, Forall_cons in Hf.
    by destruct Hf as [[_ [? _]] _]. }
  symmetry in Hx. destruct (cut_earlier payload_marker x (b0 ++ [nl]) t Hx Hlen) as (y & Ey & ->).
  revert Hno. change (match_at payloadMarkerRe (Pos (after None a) (b0 ++ [nl]) None) <> None).
  apply marker_match. split; [done|]. exists y. split; [done|].
  assert (Hy : exists y0, y = y0 ++ [nl]).
  { destruct y as [|z y _] using rev_ind.
    - exfalso. rewrite app_nil_r in Ey. pose proof marker_no_newline as Hf. rewrite <- Ey in Hf.
      apply Forall_app in Hf as [_ [? _]%Forall_cons]. done.
    - rewrite app_assoc in Ey. apply app_inj_2 in Ey as [_ [= <-]]; [|done]. by exists y. }
  destruct Hy as [y0 ->]. destruct y0 as [|c y0]; [by left|]. cbn [app] in Hend |- *.
  destruct Hend as [Hl|(z & [= -> <-] & Hl)]; [by left|]. right. eexists. split; [done|].
  by destruct y0.
Qed.

(** The marker line after them is what is found. *)
Lemma find_marker (h t : bytes) :
  complete h -> Match payloadMarkerRe h = false ->
  FindIndex payloadMarkerRe (h ++ payload_marker ++ nl :: t) = Some (h, nl :: t).
Proof.
  intros Hc Hm. set (s := h ++ payload_marker ++ nl :: t).
  assert (Hat : match_at payloadMarkerRe (Pos (after None h) (payload_marker ++ nl :: t) None) =
    Some (Pos (Some "_"%char) (nl :: t) None)).
  { unfold match_at, payloadMarkerRe. cbn [mt]. pose proof (after_complete h Hc) as Hb.
    unfold at_bol in Hb |- *. cbn in Hb. cbn [prev]. rewrite Hb.
    assert (El : lit payload_marker (Pos (after None h) (payload_marker ++ nl :: t) None) =
      Some (Pos (Some "_"%char) (nl :: t) None)) by by apply lit_spec.
    rewrite El. reflexivity. }
  unfold FindIndex. destruct (find payloadMarkerRe None s) as [[[before m] e]|] eqn:Ef.
  - apply find_some in Ef as (Es & Hme & Hno). unfold s in Es.
    destruct (Nat.lt_trichotomy (length before) (length h)) as [Hlt|[Heq|Hgt]].
    + rewrite (marker_not_before h (payload_marker ++ nl :: t) before (m ++ rest e)) in Hme by done.
      done.
    + apply app_inj_1 in Es as [<- Es]; [|done]. rewrite <- Es, Hat in Hme. by injection Hme as <-.
    + rewrite (Hno h (payload_marker ++ nl :: t)) in Hat by done. done.
  - rewrite (find_none _ _ _ Ef h (payload_marker ++ nl :: t)) in Hat; done.
Qed.

Lemma with_newline_complete s : complete (with_newline s).
Proof.
  unfold with_newline. destruct (HasSuffix s [nl]) eqn:E; right; [|by exists s].
  unfold HasSuffix in E. apply HasPrefix_spec in E as [t Ht].
  exists (reverse t). apply (f_equal reverse) in Ht. rewrite reverse_involutive in Ht.
  rewrite Ht. cbn [reverse]. by rewrite reverse_app.
Qed.

End MarkerFacts.
Import MarkerFacts.

(** Rewriting keeps an entry in the form the reader returns. *)
Lemma rewrite_entry_ok `{Unicode, Archive} subs e : entry_ok e -> entry_ok (rewrite_entry subs e).
Proof.
  destruct e as [h d]. unfold entry_ok, rewrite_entry. cbn [fst snd].
  destruct (regular h) eqn:Er; [|done]. intros [_ H2]. cbn [fst snd Size Typeflag].
  assert (Eh : Typeflag h = "0"%char).
  { unfold regular in Er. apply orb_prop in Er as [E|E]; by apply bool_decide_eq_true in E. }
  split; [|done]. unfold header_only. cbn [Typeflag]. by rewrite Eh.
Qed.

(** ** The checksum line *)

Module SumFacts.
Import ReFacts.

(** The assignment of a checksum: 32 hexadecimal digits in quotes. *)
Definition sum_line (u : bytes) : Prop :=
  exists q1 h q2, u = "MD5SUM="%string ++ [q1] ++ h ++ [q2] /\ quote_char q1 = true /\
    length h = 32%nat /\ Forall (fun c => hex_char c = true) h /\ quote_char q2 = true.

(** A digest in lower-case hexadecimal. *)
Definition hex_text (sum : bytes) : bytes := concat ((fun c => Mac.hex2 (b2z c)) <$> sum).

Lemma sum_match_sound st e :
  match_at md5SumRe st = Some e ->
  at_bol st = true /\ exists u, rest st = u ++ rest e /\ sum_line u /\ prev e = last u.
Proof.
  intros (st' & Hm & [= ->])%mt_sound. unfold md5SumRe in Hm.
  inversion Hm as [| | | | | |r1 r2 s0 s1 s2 M1 M2| | | | |]; subst.
  inversion M1 as [| | | | | | | | | |? Hb|]; subst.
  inversion M2 as [| | | | | |r1 r2 s0 s2 s3 M3 M4| | | | |]; subst.
  inversion M4 as [| | | | | |r1 r2 s0 s3 s4 M5 M6| | | | |]; subst.
  inversion M6 as [| | | | | |r1 r2 s0 s4 s5 M7 M8| | | | |]; subst.
  inversion M3 as [? ? ? L1| | | | | | | | | | |]; subst.
  inversion M5 as [|? ? ? L2| | | | | | | | | |]; subst.
  inversion M7 as [| | |? ? ? ? L3| | | | | | | |]; subst.
  inversion M8 as [|? ? ? L4| | | | | | | | | |]; subst.
  split; [done|]. apply lit_spec in L1 as (E1 & _).
  apply times_spec in L2 as (w1 & E2 & N1 & F1). apply times_spec in L3 as (w2 & E3 & N2 & F2).
  pose proof L4 as L4'. apply times_spec in L4 as (w3 & E4 & N3 & F3).
  destruct w1 as [|q1 [|]]; [done| |done]. destruct w3 as [|q2 [|]]; [done| |done].
  apply Forall_cons in F1 as [F1 _]. apply Forall_cons in F3 as [F3 _].
  exists ("MD5SUM="%string ++ [q1] ++ w2 ++ [q2]). split_and!.
  - rewrite E1, E2, E3, E4. by rewrite <- !app_assoc.
  - by exists q1, w2, q2.
  - rewrite (times_prev _ _ _ _ [q2] L4' E4). rewrite !app_assoc, last_snoc. done.
Qed.

Lemma sum_match_complete prv u s :
  sum_line u -> at_bol (Pos prv (u ++ s) None) = true ->
  match_at md5SumRe (Pos prv (u ++ s) None) <> None.
Proof.
  intros (q1 & h & q2 & -> & Hq1 & Hh & Hf & Hq2) Hb Hn.
  set (st := Pos prv _ None) in *.
  set (s1 := Pos (Some "="%char) ([q1] ++ h ++ [q2] ++ s) None).
  assert (M1 : lit "MD5SUM="%string st = Some s1).
  { apply lit_spec. split_and!; [|done|done]. cbn [rest st s1]. by rewrite <- !app_assoc. }
  destruct (times_intro quote_char [q1] s1 (h ++ [q2] ++ s)) as (s2 & M2 & R2 & _);
    [done|by apply Forall_cons_2, Forall_nil_2|].
  destruct (times_intro hex_char h s2 ([q2] ++ s)) as (s3 & M3 & R3 & _); [done|done|].
  destruct (times_intro quote_char [q2] s3 s) as (s4 & M4 & _);
    [done|by apply Forall_cons_2, Forall_nil_2|].
  rewrite Hh in M3.
  assert (Hm : matches md5SumRe st s4).
  { eapply m_cat; [by apply m_bol|]. eapply m_cat; [by apply m_lit|].
    eapply m_cat; [by apply m_set|]. eapply m_cat; [by apply m_times|]. by apply m_set. }
  by apply (mt_complete _ _ _ Hn) in Hm.
Qed.

(** The checksums of a header, each replaced by the new one. *)
Definition resummed (sum : bytes) : bytes -> bytes -> Prop :=
  line_substituted sum_line ("MD5SUM='"%string ++ hex_text sum ++ "'"%string) None.

Lemma hex_text_plain sum : no_dollar (hex_text sum).
Proof.
  unfold hex_text. induction sum as [|c sum IH]; [apply Forall_nil_2|].
  assert (Hd : forall d, 0 <= d < 16 -> hex_digit false d <> "$"%char).
  { intros d Hd E. pose proof (hex_val_digit false d Hd) as Hv. by rewrite E in Hv. }
  pose proof (b2z_range c). cbn [fmap list_fmap concat].
  apply Forall_cons_2; [apply Hd; zify_div; lia|].
  apply Forall_cons_2; [apply Hd; zify_div; lia|]. exact IH.
Qed.

Lemma new_header_resummed `{Unicode, Archive} subs header z :
  resummed (md5 z) (subs header) (new_header subs header z).
Proof.
  unfold resummed, new_header, Re.ReplaceAll.
  apply replace_lines; [apply sum_match_sound|apply sum_match_complete| | |done].
  - intros u (q1 & h & q2 & -> & _). cbn. lia.
  - intros u. apply expand_plain. repeat (apply Forall_cons_2; [done|]).
    apply Forall_app. split; [apply hex_text_plain|]. by apply Forall_cons_2, Forall_nil_2.
Qed.
End SumFacts.
Import SumFacts.

(** C5: a self-extracting archive stays one.  When the payload is an archive
    that can be read and written, and the rewritten header has no marker line of
    its own, the rewritten text splits at its marker into a header and a payload.
    The header is the old one with the substitutions, in which every checksum
    assignment that begins a line is replaced by [MD5SUM='...'] with the digest
    of the new archive in hexadecimal; the payload decodes to the new archive,
    and this holds exactly the entries of the old one, in order, regular files
    with the substitutions applied and their sizes adjusted, everything else
    untouched. *)
Theorem archive_rewritten `{Unicode, ArchiveLaws} (input baseURL : bytes) (rewrites : list Rewrite)
    (header raw decoded z : bytes) (es : list (tarHeader * bytes))
    (Hfind : FindIndex payloadMarkerRe input = Some (header, raw))
    (Hdec : Base64.decode (b64Clean raw) = Some decoded) (Hmagic : gzip_magic decoded = true)
    (Hread : untar_gz decoded = Some es)
    (Hwrite : tar_gz (rewrite_entry (applySubs (TrimRight baseURL "/"%string) rewrites) <$> es) = Some z)
    (Hmark : Match payloadMarkerRe (with_newline
      (new_header (applySubs (TrimRight baseURL "/"%string) rewrites) header z)) = false) :
  let subs := applySubs (TrimRight baseURL "/"%string) rewrites in
  exists header' raw',
    resummed (md5 z) (subs header) header' /\
    FindIndex payloadMarkerRe (rewriteData input baseURL rewrites) =
      Some (with_newline header', raw') /\
    Base64.decode (b64Clean raw') = Some z /\ untar_gz z = Some (rewrite_entry subs <$> es).
Proof.
  cbv zeta. set (subs := applySubs (TrimRight baseURL "/"%string) rewrites) in *.
  destruct (wrap_chunks_spec 76 0 [] (encoder_chunks (length z) z)) as (l & El & Wl); [lia|].
  rewrite concat_chunks in Wl by lia. cbn [app] in Wl.
  assert (Hin : input <> []) by (intros ->; by vm_compute in Hfind).
  unfold rewriteData. rewrite bool_decide_false by done. fold subs.
  rewrite Hfind, Hdec, Hmagic, Hread, Hwrite, El. unfold assemble. rewrite Wl.
  set (h := with_newline (new_header subs header z)) in *.
  set (w := wrap 76 0 (Base64.encode z)).
  assert (Hc : b64Clean w = Base64.encode z) by apply clean_wrap, encode_clean.
  assert (Hres : exists tail, (tail = [] \/ tail = [nl]) /\
    with_newline (((h ++ payload_marker) ++ [nl]) ++ w) = h ++ payload_marker ++ nl :: (w ++ tail)).
  { unfold with_newline. destruct (HasSuffix _ [nl]).
    - exists []. rewrite app_nil_r, <- !app_assoc. by split; [left|].
    - exists [nl]. rewrite <- !app_assoc. by split; [right|]. }
  destruct Hres as (tail & Htail & ->). exists (new_header subs header z), (nl :: (w ++ tail)).
  split_and!.
  - apply new_header_resummed.
  - apply find_marker; [apply with_newline_complete|done].
  - assert (E : b64Clean (nl :: (w ++ tail)) = Base64.encode z).
    { unfold b64Clean in *. rewrite filter_cons, decide_False by done. rewrite filter_app, Hc.
      destruct Htail as [->| ->]; [by rewrite app_nil_r|]. by rewrite app_nil_r. }
    rewrite E. apply Base64.decode_encode.
  - apply untar_tar; [|done]. apply Forall_fmap. pose proof (untar_ok decoded es Hread) as Hok.
    eapply Forall_impl; [exact Hok|]. intros [hd d] Hd. by apply rewrite_entry_ok.
Qed.

(** ** Rack URLs *)

Module RackFacts.
Import ReFacts.

(** A URL of a rack controller: a host and the rack's port. *)
Definition rack_url (u : bytes) : Prop :=
  exists host, u = "http://"%string ++ host ++ ":5248"%string /\ host <> [] /\
    Forall (fun c => host_char c = true) host.

Lemma rack_match_sound st e :
  match_at defaultRackURLRe st = Some e -> exists u, rest st = u ++ rest e /\ rack_url u.
Proof.
  intros (st' & Hm & [= ->])%mt_sound. unfold defaultRackURLRe in Hm.
  inversion Hm as [| | | | | |r1 r2 s0 s1 s2 M1 M2| | | | |]; subst.
  inversion M2 as [| | | | | |r1 r2 s0 s2 s3 M3 M4| | | | |]; subst.
  inversion M4 as [| | | | | |r1 r2 s0 s3 s4 M5 M6| | | | |]; subst.
  inversion M1 as [? ? ? L1| | | | | | | | | | |]; subst.
  inversion M3 as [|? ? ? L2| | | | | | | | | |]; subst.
  inversion M5 as [| |? ? ? ? L3| | | | | | | | |]; subst.
  inversion M6 as [? ? ? L4| | | | | | | | | | |]; subst.
  apply lit_spec in L1 as (E1 & _). apply times_spec in L2 as (w1 & E2 & Hl & F1).
  apply run_spec in L3 as (w2 & E3 & F2). apply lit_spec in L4 as (E4 & _).
  exists ("http://"%string ++ (w1 ++ w2) ++ ":5248"%string). split.
  - rewrite E1, E2, E3, E4. by rewrite <- !app_assoc.
  - exists (w1 ++ w2). split_and!; [done| |by apply Forall_app]. by destruct w1.
Qed.

Lemma rack_match_complete prv u r :
  rack_url u -> match_at defaultRackURLRe (Pos prv (u ++ r) None) <> None.
Proof.
  intros (host & -> & Hne & Hf) Hn. destruct host as [|c host]; [done|].
  apply Forall_cons in Hf as [Hc Hf].
  set (st := Pos prv _ None) in *.
  set (s1 := Pos (Some "/"%char) (c :: host ++ ":5248"%string ++ r) None).
  assert (M1 : lit "http://"%string st = Some s1).
  { apply lit_spec. split_and!; [|done|done]. cbn [rest st s1]. by rewrite <- !app_assoc. }
  destruct (times_intro host_char [c] s1 (host ++ ":5248"%string ++ r)) as (s2 & M2 & R2 & _);
    [done|apply Forall_cons_2; [done|apply Forall_nil_2]|].
  destruct (run_intro host_char host s2 (":5248"%string ++ r)) as (s3 & M3 & R3 & C3); [done|done|].
  set (s4 := Pos (Some "8"%char) r (cap s3)).
  assert (M4 : lit ":5248"%string s3 = Some s4) by by apply lit_spec.
  assert (Hm : matches defaultRackURLRe st s4).
  { eapply m_cat; [by apply m_lit|]. eapply m_cat; [by apply m_set|].
    eapply m_cat; [by apply m_star|]. by apply m_lit. }
  by apply (mt_complete _ _ _ Hn) in Hm.
Qed.

(** The URLs of a text, from the left, each replaced by the base. *)
Definition rewritten (base : bytes) : bytes -> bytes -> Prop := substituted rack_url false base.

Lemma replace_rack f base m s prv :
  (forall u, m u = base) -> (length s <= f)%nat ->
  rewritten base s (replace_loop f defaultRackURLRe m prv s).
Proof.
  apply replace_words.
  - intros st e (u & E & Hu)%rack_match_sound. by exists u.
  - apply rack_match_complete.
  - intros u (host & -> & _). cbn. lia.
Qed.

End RackFacts.
Import ReFacts RackFacts.

(** A payload that cannot be rewritten as an archive. *)
Inductive broken `{Unicode, Archive} (subs : bytes -> bytes) (raw : bytes) : Prop :=
| not_base64 : Base64.decode (b64Clean raw) = None -> broken subs raw
| not_gzip d :
    Base64.decode (b64Clean raw) = Some d -> (forall t, d <> z2b 31 :: z2b 139 :: t) ->
    broken subs raw
| unreadable d :
    Base64.decode (b64Clean raw) = Some d -> untar_gz d = None -> broken subs raw
| unwritable d es :
    Base64.decode (b64Clean raw) = Some d -> untar_gz d = Some es ->
    tar_gz (rewrite_entry subs <$> es) = None -> broken subs raw.

Lemma gzip_magic_spec d : gzip_magic d = true <-> exists t, d = z2b 31 :: z2b 139 :: t.
Proof.
  split; [|by intros [t ->]]. destruct d as [|a [|b d]]; [done..|]. cbn.
  intros [Ha%Z.eqb_eq Hb%Z.eqb_eq]%andb_prop. exists d.
  by rewrite <- Ha, <- Hb, !z2b_b2z.
Qed.

(** The substitutions with a base URL that is no template. *)
Lemma applySubs_rewritten `{Unicode} base rewrites s :
  base <> [] -> no_dollar base ->
  exists mid, rewritten base s mid /\
    applySubs base rewrites s =
      foldl (fun data r => if bool_decide (From r = []) then data
                           else GoStrings.ReplaceAll data (From r) (To r)) mid rewrites.
Proof.
  intros Hb Hd. exists (Re.ReplaceAll defaultRackURLRe s base). split.
  - unfold Re.ReplaceAll. apply replace_rack; [|done]. intros u. by apply expand_plain.
  - unfold applySubs. by rewrite bool_decide_false.
Qed.

(** Either the payload is broken, or the archive is put together again. *)
Lemma rewriteData_cases `{Unicode, Archive} input baseURL rewrites header raw :
  let subs := applySubs (TrimRight baseURL "/"%string) rewrites in
  FindIndex payloadMarkerRe input = Some (header, raw) ->
  (broken subs raw /\ rewriteData input baseURL rewrites = subs input) \/
  exists decoded es z, Base64.decode (b64Clean raw) = Some decoded /\
    gzip_magic decoded = true /\ untar_gz decoded = Some es /\
    tar_gz (rewrite_entry subs <$> es) = Some z /\
    rewriteData input baseURL rewrites =
      assemble (new_header subs header z) (wrap 76 0 (Base64.encode z)).
Proof.
  intros subs Hfind.
  assert (Hin : input <> []) by (intros ->; by vm_compute in Hfind).
  unfold rewriteData. rewrite bool_decide_false by done. fold subs. rewrite Hfind.
  destruct (Base64.decode (b64Clean raw)) as [d|] eqn:E1; [|left; by split; [apply not_base64|]].
  destruct (gzip_magic d) eqn:E2.
  2: { left. split; [|done]. apply (not_gzip _ _ d); [done|]. intros t ->. done. }
  destruct (untar_gz d) as [es|] eqn:E3; [|left; by split; [apply (unreadable _ _ d)|]].
  destruct (tar_gz (rewrite_entry subs <$> es)) as [z|] eqn:E4;
    [|left; by split; [apply (unwritable _ _ d es)|]].
  destruct (wrap_chunks_spec 76 0 [] (encoder_chunks (length z) z)) as (l & El & Wl); [lia|].
  rewrite concat_chunks in Wl by lia. rewrite El, Wl. right. by exists d, es, z.
Qed.

(** C23: in a plain text, when the base URL of the proxy is not empty (its
    trailing slashes apart) and holds no dollar sign, every rack URL, from the
    left, becomes the base URL without trailing slashes, and nothing else
    changes; the static rules of the configuration are then applied to the
    result one after the other. *)
Theorem rack_urls_replaced `{Unicode, Archive} (input baseURL : bytes) (rewrites : list Rewrite)
    (Hin : input <> []) (Htext : FindIndex payloadMarkerRe input = None)
    (Hbase : TrimRight baseURL "/"%string <> []) (Hd : no_dollar (TrimRight baseURL "/"%string)) :
  exists mid, rewritten (TrimRight baseURL "/"%string) input mid /\
    rewriteData input baseURL rewrites =
      foldl (fun data r => if bool_decide (From r = []) then data
                           else GoStrings.ReplaceAll data (From r) (To r)) mid rewrites.
Proof.
  unfold rewriteData. rewrite bool_decide_false by done. rewrite Htext.
  by apply applySubs_rewritten.
Qed.

(** C33: what becomes of a text with a payload marker.  If the payload is
    broken (it is not base64, does not begin like a gzip stream, or the archive
    cannot be read or written again), the whole text, payload included, is
    rewritten like a plain one: every rack URL becomes the base URL and the
    static rules follow.  Otherwise the archive is never skipped: the result is
    the new header, the marker, and the new archive in lines of 76 characters.
    (The base URL must not be empty or contain a dollar sign.) *)
Theorem payload_cases `{Unicode, Archive} (input baseURL header raw : bytes)
    (rewrites : list Rewrite)
    (Hfind : FindIndex payloadMarkerRe input = Some (header, raw))
    (Hbase : TrimRight baseURL "/"%string <> []) (Hd : no_dollar (TrimRight baseURL "/"%string)) :
  let base := TrimRight baseURL "/"%string in
  let subs := applySubs base rewrites in
  (broken subs raw -> exists mid, rewritten base input mid /\
     rewriteData input baseURL rewrites =
       foldl (fun data r => if bool_decide (From r = []) then data
                            else GoStrings.ReplaceAll data (From r) (To r)) mid rewrites) /\
  (~ broken subs raw -> exists decoded es z header',
     Base64.decode (b64Clean raw) = Some decoded /\ untar_gz decoded = Some es /\
     tar_gz (rewrite_entry subs <$> es) = Some z /\
     resummed (md5 z) (subs header) header' /\
     rewriteData input baseURL rewrites = with_newline (with_newline header' ++
       payload_marker ++ [nl] ++ wrap 76 0 (Base64.encode z))).
Proof.
  cbv zeta. set (base := TrimRight baseURL "/"%string) in *.
  set (subs := applySubs base rewrites).
  assert (Hin : input <> []) by (intros ->; by vm_compute in Hfind).
  assert (Hplain : rewriteData input baseURL rewrites = subs input ->
    exists mid, rewritten base input mid /\ rewriteData input baseURL rewrites =
      foldl (fun data r => if bool_decide (From r = []) then data
                           else GoStrings.ReplaceAll data (From r) (To r)) mid rewrites).
  { intros ->. by apply applySubs_rewritten. }
  assert (Hcases : (broken subs raw /\ rewriteData input baseURL rewrites = subs input) \/
    exists decoded es z, Base64.decode (b64Clean raw) = Some decoded /\
      gzip_magic decoded = true /\ untar_gz decoded = Some es /\
      tar_gz (rewrite_entry subs <$> es) = Some z /\
      rewriteData input baseURL rewrites =
        assemble (new_header subs header z) (wrap 76 0 (Base64.encode z)))
    by by apply rewriteData_cases.
  destruct Hcases as [[Hb Hres]|(d & es & z & E1 & E2 & E3 & E4 & Hres)].
  - split; [intros _; by apply Hplain|done].
  - split; [|intros _; exists d, es, z, (new_header subs header z); split_and!; try done;
      [apply new_header_resummed|rewrite Hres; unfold assemble; by rewrite <- !app_assoc]].
    apply gzip_magic_spec in E2 as [t Ht]. intros [Hb|d' Hd' Hb|d' Hd' Hb|d' es' Hd' He' Hb];
      [congruence| | |]; replace d' with d in * by congruence; [by apply Hb in Ht|congruence|].
    congruence.
Qed.

(** ** Witnesses *)

Module RewriteSamples.
#[export] Existing Instance plain_unicode.

#[export] Instance tarHeader_eq_dec : EqDecision tarHeader.
Proof. solve_decision. Defined.

Definition file_header (size : Z) : tarHeader :=
  {| Name := "curtin/cfg"%string; Typeflag := "0"%char; Size := size; Other := [] |}.

Definition old_file : bytes := "url: http://192.0.2.57:5248/MAAS"%string.
Definition new_file : bytes := "url: http://maas.example.com/boot/MAAS"%string.
(** A directory whose header claims a size. *)
Definition dir_entry : tarHeader * bytes :=
  ({| Name := "curtin/"%string; Typeflag := "5"%char; Size := 4096; Other := [] |}, []).
Definition old_entry : tarHeader * bytes := (file_header (zlen old_file), old_file).
Definition new_entry : tarHeader * bytes := (file_header (zlen new_file), new_file).

(** A format that knows two archives, by number. *)
Definition numbered (n : Z) : bytes := [z2b 31; z2b 139; z2b n].

Definition is_new (es : list (tarHeader * bytes)) : bool :=
  match es with
  | [e; (h, d)] => bool_decide (e = dir_entry) && bool_decide (d = new_file) &&
      bool_decide (Typeflag h = "0"%char) &&
      bool_decide (Name h = Name (file_header 0)) && bool_decide (Other h = [])
  | _ => false
  end.

Definition sample_archive : Archive := {|
  untar_gz b :=
    if bool_decide (b = numbered 1) then Some [dir_entry; old_entry]
    else if bool_decide (b = numbered 2) then Some [dir_entry; new_entry] else None;
  tar_gz es := if is_new es then Some (numbered 2) else None;
  md5 b := replicate 16 (z2b (zlen b));
|}.
#[export] Existing Instance sample_archive.

Lemma sample_archive_laws : ArchiveLaws sample_archive.
Proof.
  split.
  - intros b es. cbn. destruct (bool_decide _); [|destruct (bool_decide _)]; intros [= <-];
      repeat (apply Forall_cons_2; [split; [reflexivity|vm_compute; congruence]|]);
      apply Forall_nil_2.
  - intros es z Hok. cbn [tar_gz sample_archive]. destruct (is_new es) eqn:E; [|done].
    intros [= <-]. unfold is_new in E. destruct es as [|e [|[h d] [|]]]; [done|done| |done].
    rewrite !andb_true_iff, !bool_decide_eq_true in E. destruct E as [[[[-> ->] E1] E2] E3].
    apply Forall_cons in Hok as [_ [[Hs _] _]%Forall_cons]. cbn [fst snd] in Hs.
    assert (Eh : header_only h = false) by (unfold header_only; by rewrite E1).
    rewrite Eh in Hs.
    destruct h as [nm tf sz ot]. cbn in E1, E2, E3. cbn [Size] in Hs. subst. reflexivity.
  - intros es z. cbn [tar_gz sample_archive]. destruct (is_new es); [|done].
    intros [= <-]. by exists [z2b 2].
Qed.

Definition sample_header : bytes :=
  "#!/bin/sh"%string ++ [nl] ++ "MD5SUM='"%string ++ replicate 32 "0"%char ++ "'"%string ++ [nl].

Definition sample_payload : bytes := [nl] ++ Base64.encode (numbered 1) ++ [nl].
Definition sample_input : bytes := sample_header ++ payload_marker ++ sample_payload.
Definition sample_proxy : bytes := "http://maas.example.com/boot/"%string.
End RewriteSamples.
Import RewriteSamples.

Lemma archive_rewritten_witness :
  exists header' raw',
    resummed (md5 (numbered 2)) (applySubs "http://maas.example.com/boot"%string [] sample_header)
      header' /\
    FindIndex payloadMarkerRe (rewriteData sample_input sample_proxy []) =
      Some (with_newline header', raw') /\
    Base64.decode (b64Clean raw') = Some (numbered 2) /\
    untar_gz (numbered 2) = Some [dir_entry; new_entry].
Proof.
  apply (@archive_rewritten plain_unicode sample_archive sample_archive_laws sample_input sample_proxy []
    sample_header sample_payload (numbered 1) (numbered 2) [dir_entry; old_entry]);
    vm_compute; reflexivity.
Defined.

(** The header of the sample with the new checksum. *)
Lemma sample_header_rewritten :
  new_header (fun s => s) sample_header (numbered 2) =
  "#!/bin/sh"%string ++ [nl] ++ "MD5SUM='"%string ++ concat (replicate 16 ("03"%string : bytes))
    ++ "'"%string ++ [nl].
Proof. vm_compute. reflexivity. Qed.

Definition sample_text : bytes := "imgs http://192.0.2.57:5248/images"%string.

Lemma rack_urls_replaced_witness :
  exists mid, rewritten "http://maas.example.com/boot"%string sample_text mid /\
    rewriteData sample_text sample_proxy [] = mid.
Proof.
  apply (rack_urls_replaced sample_text sample_proxy []).
  - done.
  - vm_compute. reflexivity.
  - vm_compute. congruence.
  - repeat (apply Forall_cons_2; [vm_compute; congruence|]). apply Forall_nil_2.
Defined.

(** An archive that was cut off, with a rack URL in its header. *)
Definition broken_input : bytes :=
  "# http://192.0.2.57:5248/x"%string ++ [nl] ++ payload_marker ++ [nl] ++ "H4s"%string ++ [nl].

Lemma payload_cases_witness :
  exists mid, rewritten "http://maas.example.com/boot"%string broken_input mid /\
    rewriteData broken_input sample_proxy [] = mid.
Proof.
  apply (payload_cases broken_input sample_proxy ("# http://192.0.2.57:5248/x"%string ++ [nl])
    ([nl] ++ "H4s"%string ++ [nl]) []).
  - vm_compute. reflexivity.
  - vm_compute. congruence.
  - repeat (apply Forall_cons_2; [vm_compute; congruence|]). apply Forall_nil_2.
  - apply not_base64. vm_compute. reflexivity.
Defined.
