(* ===== verification/Http.v ===== *)
(** * Requests, queries and header maps ([net/http], [net/url])

    The parts of the two packages that the request handler uses. *)

From stdpp Require Import sorting.
From S2P Require Import Prelude GoStrings.

(** ** Header maps *)

(** [http.Header] with canonical keys. *)
Abbreviation header := (gmap bytes (list bytes)).

Module Header.

Definition Add (h : header) (k v : bytes) : header :=
  <[k := default [] (h !! k) ++ [v]]> h.

Definition Set_ (h : header) (k v : bytes) : header := <[k := [v]]> h.

(** [h.Get(k)]: the first value, or the empty string. *)
Definition Get (h : header) (k : bytes) : bytes := default [] (h !! k ≫= head).

(** [for k, vs := range src { if skip(k) continue; for v in vs: dst.Add(k, v) }] *)
Definition copy (skip : bytes -> bool) (src dst : header) : header :=
  foldl (fun d kv => if skip kv.1 then d else foldl (fun d v => Add d kv.1 v) d kv.2)
    dst (map_to_list src).

End Header.

(** ** Query strings *)

Module Query.

(** [QueryUnescape]; [None] for a malformed escape. *)
Fixpoint QueryUnescape (s : bytes) : option bytes :=
  match s with
  | [] => Some []
  | c :: s' =>
      if ascii_eqb c "%" then
        match s' with
        | a :: b :: s'' =>
            x ← hex_val a; y ← hex_val b; r ← QueryUnescape s''; Some (z2b (16 * x + y) :: r)
        | _ => None
        end
      else
        r ← QueryUnescape s'; Some ((if ascii_eqb c "+" then " "%char else c) :: r)
  end.

(** The bytes that [QueryEscape] leaves alone. *)
Definition unreserved (c : ascii) : bool :=
  let z := b2z c in
  ((48 <=? z) && (z <=? 57)) || ((65 <=? z) && (z <=? 90)) || ((97 <=? z) && (z <=? 122)) ||
  (z =? 45) || (z =? 95) || (z =? 46) || (z =? 126).

Definition escape_char (c : ascii) : bytes :=
  if unreserved c then [c]
  else if ascii_eqb c " " then ["+"%char]
  else ["%"%char; hex_digit true (b2z c / 16); hex_digit true (b2z c mod 16)].

Definition QueryEscape (s : bytes) : bytes := concat (escape_char <$> s).

(** [strings.Cut(s, sep)] for a one-byte separator: before and after it. *)
Fixpoint Cut (s : bytes) (sep : ascii) : bytes * bytes :=
  match s with
  | [] => ([], [])
  | c :: s' => if ascii_eqb c sep then ([], s') else let '(a, b) := Cut s' sep in (c :: a, b)
  end.

(** A piece of a query; malformed pieces are skipped. *)
Definition parse_piece (p : bytes) : option (bytes * bytes) :=
  if Contains p ";"%string then None
  else if bool_decide (p = []) then None
  else
    let '(k, v) := Cut p "=" in
    k ← QueryUnescape k; v ← QueryUnescape v; Some (k, v).

(** [url.Values] *)
Definition ParseQuery (q : bytes) : header :=
  foldl (fun m p => match parse_piece p with Some (k, v) => Header.Add m k v | None => m end)
    ∅ (split_byte "&" [] q).

(** The order of [sort.Strings]. *)
Fixpoint bytes_le (a b : bytes) : bool :=
  match a, b with
  | [], _ => true
  | _ :: _, [] => false
  | x :: a', y :: b' => (b2z x <? b2z y) || ((b2z x =? b2z y) && bytes_le a' b')
  end.

Definition sorts_before (a b : bytes) : Prop := bytes_le a b = true.

#[export] Instance sorts_before_dec a b : Decision (sorts_before a b).
Proof. unfold sorts_before. apply _. Defined.

(** [Values.Encode]: sorted by key. *)
Definition Encode (m : header) : bytes :=
  let keys := merge_sort sorts_before (elements (dom m)) in
  Join (concat ((fun k => (fun v => QueryEscape k ++ "="%string ++ QueryEscape v)
                 <$> default [] (m !! k)) <$> keys)) "&"%string.

Definition Del (m : header) (k : bytes) : header := delete k m.

End Query.

(** ** Copying headers *)

Module HeaderFacts.
Import Header.

Lemma Adds_lookup d k vs k' :
  foldl (fun d v => Add d k v) d vs !! k' =
  if decide (k' = k /\ vs <> []) then Some (default [] (d !! k) ++ vs) else d !! k'.
Proof.
  revert d. induction vs as [|v vs IH]; intros d; cbn [foldl].
  { rewrite decide_False; [done|]. by intros [_ []]. }
  rewrite IH. unfold Add. rewrite lookup_insert_eq. cbn [default].
  destruct (decide (k' = k)) as [->|Hne].
  - rewrite (decide_True (P := k = k /\ v :: vs <> [])) by done. destruct vs as [|v' vs].
    + rewrite decide_False by (by intros [_ []]). by rewrite lookup_insert_eq.
    + rewrite decide_True by done. cbn. by rewrite <- app_assoc.
  - rewrite !decide_False by (by intros [? _]). by rewrite lookup_insert_ne.
Qed.

Lemma copy_lookup_list (skip : bytes -> bool) (l : list (bytes * list bytes)) (d : header) k :
  NoDup l.*1 ->
  foldl (fun (d : header) (kv : bytes * list bytes) => if skip kv.1 then d else foldl (fun d v => Add d kv.1 v) d kv.2) d l !! k =
  match list_find (fun kv : bytes * list bytes => kv.1 = k) l with
  | Some (_, kv) => if skip k || bool_decide (kv.2 = []) then d !! k
                    else Some (default [] (d !! k) ++ kv.2)
  | None => d !! k
  end.
Proof.
  revert d. induction l as [|[k1 vs] l IH]; intros d Hnd; [done|]. cbn in Hnd.
  apply NoDup_cons in Hnd as [Hk Hnd]. cbn [foldl list_find fst]. rewrite IH by done.
  destruct (decide (k1 = k)) as [->|Hne].
  - assert (Hf : list_find (fun kv : bytes * list bytes => kv.1 = k) l = None).
    { apply list_find_None. apply Forall_forall. intros kv Hkv <-. apply Hk.
      by apply list_elem_of_fmap_2. }
    rewrite Hf. cbn [fst snd]. destruct (skip k); [done|]. cbn [orb]. rewrite Adds_lookup.
    destruct (bool_decide_reflect (vs = [])) as [->|Hv].
    + rewrite decide_False by (by intros [_ []]). done.
    + by rewrite decide_True.
  - cbn [fst snd]. assert (E : (if skip k1 then d else foldl (fun d v => Add d k1 v) d vs) !! k = d !! k).
    { destruct (skip k1); [done|]. rewrite Adds_lookup, decide_False; [done|]. intros [-> _]. done. }
    rewrite E. by destruct (list_find (fun kv : bytes * list bytes => kv.1 = k) l) as [[i kv]|].
Qed.

(** A copy has the values of every key that is not skipped, and no others. *)
Lemma copy_lookup (skip : bytes -> bool) (src : header) k :
  copy skip src ∅ !! k =
  if skip k then None
  else match src !! k with Some (v :: vs) => Some (v :: vs) | _ => None end.
Proof.
  unfold copy. rewrite copy_lookup_list by apply NoDup_fst_map_to_list.
  destruct (list_find (fun kv : bytes * list bytes => kv.1 = k) (map_to_list src)) as [[i [k1 vs]]|] eqn:Ef.
  - apply list_find_Some in Ef as (Hi & E & _). cbn in E. subst k1.
    apply list_elem_of_lookup_2, elem_of_map_to_list in Hi. rewrite Hi, lookup_empty. cbn [snd].
    destruct (skip k); [done|]. by destruct vs.
  - rewrite lookup_empty. destruct (skip k); [done|].
    destruct (src !! k) as [vs|] eqn:Es; [|done]. exfalso. apply list_find_None in Ef.
    rewrite Forall_forall in Ef. apply (Ef (k, vs)); [by apply elem_of_map_to_list|done].
Qed.

End HeaderFacts.
