(* ===== verification/Server.v ===== *)
(** * The server ([main.go])

    The configuration and its reloading, the resolution of a node, the cached
    images and the request handler.  What the server reads from outside (files,
    the clock, the rack controller) is passed in as observations. *)

From S2P Require Import Prelude GoStrings MacAddr Types NodeStore IsoCache FatImage KernelNet IpxeScript Regex Rewriter Http.
Import Mac Net Script Re Rewriting.

Module Srv.
Import NodeStore.Store.

Definition overlayPath : bytes := "/genesis-overlay.cpio.gz"%string.
Definition bondOverlayPath : bytes := "/bond-overlay.cpio.gz"%string.
Definition genericISOPath : bytes := "/generic-boot.iso"%string.
Definition genericISOKey : bytes := "generic"%string.
Definition Millisecond : Z := 10 ^ 6.
Definition defaultReloadInterval : Z := 5 * 10 ^ 9.
Definition missPollInterval : Z := 500 * Millisecond.

(** [[0-9A-Fa-f:.-]] *)
Definition mac_class (c : ascii) : bool :=
  hex_char c || bool_decide (c = ":"%char) || bool_decide (c = "."%char) || bool_decide (c = "-"%char).

(** [\S] *)
Definition non_space (c : ascii) : bool :=
  negb (bool_decide (c = " "%char) || bool_decide (c = z2b 9) || bool_decide (c = nl) ||
        bool_decide (c = z2b 12) || bool_decide (c = z2b 13)).

Definition ipxeRe : re :=
  RCat (RLit "ipxe.cfg-"%string)
    (RCat (RCap (RCat (RSet mac_class) (RStar true mac_class))) REot).

Definition isoRe : re :=
  RCat RBot (RCat (RLit "/iso/"%string)
    (RCat (RCap (RCat (RSet mac_class) (RStar false mac_class)))
      (RCat (ROpt (RLit ".iso"%string)) REot))).

Definition ipCmdRe : re :=
  RCat (RLit "ip="%string) (RCat (RStar true non_space) (RLit "BOOTIF"%string)).

Record Server := {
  cfg : Config;
  cfgPath : bytes;
  cfgHash : bytes;
  cfgLoaded : bool;
  overrides : Config;
  nodes : NodeStore;
  missWait : Z;
  isoCache : Cache.ISOCache;
  ipxeEFI : bytes;
  bootTime : Z;
}.

(** [t.Truncate(time.Second)] on a time after the epoch. *)
Definition truncate_second (t : Z) : Z := t / 10 ^ 9 * 10 ^ 9.

Definition NewServer (c : Config) (cPath nodesPath : bytes) (ttl sweepInterval now : Z) : Server := {|
  cfg := c; cfgPath := cPath; cfgHash := make 32; cfgLoaded := false; overrides := Config_zero;
  nodes := NewNodeStore nodesPath; missWait := 0; isoCache := Cache.NewISOCache ttl sweepInterval;
  ipxeEFI := []; bootTime := truncate_second now;
|}.

Definition with_cfg (s : Server) (c : Config) (h : bytes) : Server := {|
  cfg := c; cfgPath := cfgPath s; cfgHash := h; cfgLoaded := true; overrides := overrides s;
  nodes := nodes s; missWait := missWait s; isoCache := isoCache s; ipxeEFI := ipxeEFI s;
  bootTime := bootTime s;
|}.

Definition with_nodes (s : Server) (ns : NodeStore) : Server := {|
  cfg := cfg s; cfgPath := cfgPath s; cfgHash := cfgHash s; cfgLoaded := cfgLoaded s;
  overrides := overrides s; nodes := ns; missWait := missWait s; isoCache := isoCache s;
  ipxeEFI := ipxeEFI s; bootTime := bootTime s;
|}.

Definition with_cache (s : Server) (c : Cache.ISOCache) : Server := {|
  cfg := cfg s; cfgPath := cfgPath s; cfgHash := cfgHash s; cfgLoaded := cfgLoaded s;
  overrides := overrides s; nodes := nodes s; missWait := missWait s; isoCache := c;
  ipxeEFI := ipxeEFI s; bootTime := bootTime s;
|}.

(** [env]: the value of a variable, or the default when it is unset or empty. *)
Definition env (getenv : bytes -> bytes) (k d : bytes) : bytes :=
  if bool_decide (getenv k = []) then d else getenv k.

Definition applyOverrides (c o : Config) : Config := {|
  RackUpstream := if bool_decide (RackUpstream o = []) then RackUpstream c else RackUpstream o;
  ProxyBase := if bool_decide (ProxyBase o = []) then ProxyBase c else ProxyBase o;
  OverlayURL := if bool_decide (OverlayURL o = []) then OverlayURL c else OverlayURL o;
  Rewrites := Rewrites c;
  Nodes := Nodes c;
|}.

Definition with_config_nodes (c : Config) (m : gmap bytes Node) : Config := {|
  RackUpstream := RackUpstream c; ProxyBase := ProxyBase c; OverlayURL := OverlayURL c;
  Rewrites := Rewrites c; Nodes := m;
|}.

(** What one reload observes: the two files, and the order in which the two
    decoded maps are visited. *)
Record observation := {
  ob_cfg : readResult;
  ob_nodes : readResult;
  ob_cfg_order : order;
  ob_nodes_order : order;
}.

Section server.
Context `{Unicode, Json, Sha256}.

Definition normalizeNodeKeys (o : order) (m : gmap bytes Node) : gmap bytes Node := rekey o m.

Definition loadConfigFile (o : order) (file : readResult) : option Config :=
  match file with
  | ReadOk b =>
      match unmarshal_Config b with
      | inr c => Some (with_config_nodes c (normalizeNodeKeys o (Nodes c)))
      | inl _ => None
      end
  | _ => None
  end.

Definition reloadConfig (o : order) (s : Server) (file : readResult) : Server :=
  if bool_decide (cfgPath s = []) then s
  else match file with
  | ReadOk b =>
      let sum := sha256 b in
      if cfgLoaded s && bool_decide (sum = cfgHash s) then s
      else match unmarshal_Config b with
      | inl _ => s
      | inr c =>
          let c := with_config_nodes c (normalizeNodeKeys o (Nodes c)) in
          with_cfg s (applyOverrides c (overrides s)) sum
      end
  | _ => s
  end.

(** [Reload] of the server. *)
Definition ReloadAll (s : Server) (ob : observation) : Server :=
  let s := reloadConfig (ob_cfg_order ob) s (ob_cfg ob) in
  with_nodes s (rl_store (Reload (ob_nodes_order ob) (nodes s) (ob_nodes ob))).

(** What [Watch] waits for: the next tick, at which it reloads what it then
    finds on disk, or the end of its context. *)
Inductive watch_event := WatchTick (ob : observation) | WatchDone.

Definition watch_interval (interval : Z) : Z :=
  if interval <=? 0 then defaultReloadInterval else interval.

(** [Watch] on the events it sees, in order. *)
Fixpoint Watch (s : Server) (events : list watch_event) : Server :=
  match events with
  | [] | WatchDone :: _ => s
  | WatchTick ob :: rest => Watch (ReloadAll s ob) rest
  end.

(** [norm] is a key that [Get] canonicalizes again. *)
Definition lookup (s : Server) (norm : bytes) : option Node :=
  match Get (nodes s) norm with
  | Some n => Some n
  | None => Nodes (cfg s) !! norm
  end.

(** One round of the retry loop: what the reload reads, the clock afterwards,
    and whether the request is cancelled while it waits. *)
Record round := { rd_ob : observation; rd_now : Z; rd_cancelled : bool }.

(** The loop; [None] when [fuel] rounds were not enough. *)
Fixpoint resolve_loop (fuel : nat) (rounds : nat -> round) (i : nat) (deadline : Z) (norm : bytes)
    (s : Server) : option (Server * option Node) :=
  match fuel with
  | O => None
  | S f =>
      match lookup s norm with
      | Some n => Some (s, Some n)
      | None =>
          let r := rounds i in
          let s := ReloadAll s (rd_ob r) in
          match lookup s norm with
          | Some n => Some (s, Some n)
          | None =>
              if negb (rd_now r <? deadline) then Some (s, None)
              else if rd_cancelled r then Some (s, None)
              else resolve_loop f rounds (S i) deadline norm s
          end
      end
  end.

(** [start] is the clock at the call. *)
Definition resolveNode (fuel : nat) (rounds : nat -> round) (start : Z) (mac : bytes) (s : Server)
    : option (Server * option Node) :=
  let norm := normalizeKey mac in
  if bool_decide (norm = []) then Some (s, None)
  else resolve_loop fuel rounds 0 (start + missWait s) norm s.

Definition isBinary (path : bytes) : bool :=
  HasPrefix path "/images/"%string || HasPrefix path "/machine-resources/"%string ||
  Contains path "maas-scripts"%string.

Definition isoErrorStatus (efi : bytes) : Z := if zlen efi =? 0 then 503 else 500.

(** The part of [cachedISO] that composes an image and caches it. *)
Definition compose_iso (c : Cache.ISOCache) (key wantHash : bytes) (build : outcome imgError bytes)
    (t3 : Z) : Cache.ISOCache * outcome imgError Cache.loc :=
  match build with
  | Ret data => let '(c, l) := Cache.Set_ c key wantHash data t3 in (c, Ret l)
  | Err e => (c, Err e)
  | Panic => (c, Panic)
  end.

(** [cachedISO]; [t1], [t2] and [t3] are the clock readings of the cache. *)
Definition cachedISO (c : Cache.ISOCache) (key wantHash : bytes) (build : outcome imgError bytes)
    (t1 t2 t3 : Z) : Cache.ISOCache * outcome imgError Cache.loc :=
  let '(c, res) := Cache.Get c key t1 t2 in
  match res with
  | Some l =>
      if match Cache.heap c !! l with
         | Some e => bool_decide (ConfigHash e = wantHash)
         | None => false
         end
      then (c, Ret l) else compose_iso c key wantHash build t3
  | None => compose_iso c key wantHash build t3
  end.
End server.

(** ** The request handler *)

Record request := {
  Method : bytes;
  Path : bytes;
  RawQuery : bytes;
  Host : bytes;
  RemoteAddr : bytes;
  ReqHeader : header;
  ReqBody : bytes;
}.

(** The request to the rack controller. *)
Record upstreamReq := { up_method : bytes; up_url : bytes; up_header : header; up_body : bytes }.

(** What comes of it: no request can be made from the method and URL, the
    rack cannot be reached, or it answers; the body may break off. *)
Inductive upstreamRes :=
| UpInvalid
| UpUnreachable
| UpResponse (status : Z) (h : header) (body : bytes) (complete : bool).

Inductive response :=
| HttpError (status : Z) (msg : bytes)
| Content (ctype name : bytes) (modtime : Z) (data : bytes)  (* [http.ServeContent] *)
| Reply (status : Z) (h : header) (body : bytes)
| Aborted.                                                    (* the handler panicked *)

(** Everything a request observes from outside. *)
Record world := {
  w_fuel : nat;
  w_rounds : nat -> round;
  w_start : Z;
  w_t1 : Z;
  w_t2 : Z;
  w_t3 : Z;
  w_upstream : upstreamReq -> upstreamRes;
}.

Section handler.
Context `{Unicode, Json, Sha256, Archive}.

(** The overlay that is built at start-up. *)
Context (overlayCPIO : bytes).

Definition clientIP (r : request) : bytes :=
  let xff := Header.Get (ReqHeader r) "X-Forwarded-For"%string in
  if bool_decide (xff = []) then RemoteAddr r
  else
    let i := Index xff ","%string in
    if 0 <? i then TrimSpace (take (Z.to_nat i) xff) else TrimSpace xff.

(** The public base URL, derived from the request when it is not set. *)
Definition proxy_base (c : Config) (r : request) : bytes :=
  if bool_decide (ProxyBase c = []) then "http://"%string ++ Host r else ProxyBase c.

Definition iso_type : bytes := "application/x-iso9660-image"%string.

(** An image through the cache. *)
Definition serve_iso (s : Server) (w : world) (key hash : bytes) (build : outcome imgError bytes)
    (name : bytes) : Server * response :=
  let '(c, res) := cachedISO (isoCache s) key hash build (w_t1 w) (w_t2 w) (w_t3 w) in
  let s := with_cache s c in
  match res with
  | Ret l =>
      match Cache.heap c !! l with
      | Some e => (s, Content iso_type name (ModTime e) (Data e))
      | None => (s, Aborted)
      end
  | Err _ => (s, HttpError (isoErrorStatus (ipxeEFI s)) "failed to build ISO"%string)
  | Panic => (s, Aborted)
  end.

Definition serve_generic (s : Server) (w : world) (r : request) : Server * response :=
  let base := proxy_base (cfg s) r in
  serve_iso s w genericISOKey (GenericConfigHash base) (BuildGenericISO (ipxeEFI s) base)
    "generic-boot.iso"%string.

Definition serve_node (s : Server) (w : world) (r : request) (rawMAC : bytes)
    : option (Server * response) :=
  let c := cfg s in
  let n0 := normalizeMAC rawMAC in
  let normMAC := if bool_decide (n0 = []) then ToLower rawMAC else n0 in
  '(s, found) ← resolveNode (w_fuel w) (w_rounds w) (w_start w) normMAC s;
  match found with
  | None => Some (s, HttpError 404 ("node with MAC "%string ++ rawMAC ++ " not found"%string))
  | Some node =>
      let base := proxy_base c r in
      Some (serve_iso s w normMAC (ComputeNodeConfigHash node normMAC base)
        (BuildNodeISO (ipxeEFI s) node normMAC base) ("ipxe-"%string ++ normMAC ++ ".iso"%string))
  end.

(** The query for the rack and the address in the [genesis] parameter. *)
Definition split_query (raw : bytes) : bytes * bytes :=
  if bool_decide (raw = []) then (raw, [])
  else
    let q := Query.ParseQuery raw in
    let g := Header.Get q "genesis"%string in
    if bool_decide (g = []) then (raw, [])
    else (Query.Encode (Query.Del q "genesis"%string), ToLower g).

Definition upstream_request (c : Config) (r : request) (upQuery : bytes) : upstreamReq :=
  let url := TrimRight (RackUpstream c) "/"%string ++ Path r in
  let url := if bool_decide (upQuery = []) then url else url ++ "?"%string ++ upQuery in
  let h := Header.copy (fun k => EqualFold k "Accept-Encoding"%string) (ReqHeader r) ∅ in
  {| up_method := Method r; up_url := url;
     up_header := Header.Set_ h "Accept-Encoding"%string "identity"%string;
     up_body := ReqBody r |}.

(** [copyHeaders] into the empty header of the response. *)
Definition copyHeaders (skipLen : bool) (h : header) : header :=
  Header.copy (fun k => skipLen && EqualFold k "Content-Length"%string) h ∅.

(** The node's kernel arguments and its overlay, in an iPXE configuration. *)
Definition inject_node (c : Config) (base body : bytes) (node : Node) : bytes :=
  let net := buildKernelNet node in
  let body := if Match ipCmdRe body then Re.ReplaceAll ipCmdRe body net else body in
  if bonded node then
    let url := if bool_decide (OverlayURL c = [])
               then TrimRight base "/"%string ++ overlayPath else OverlayURL c in
    injectOverlayInitrd body url
  else body.

(** The address an iPXE configuration is for. *)
Definition ipxe_mac (path genesisMAC : bytes) : bytes :=
  match Submatch ipxeRe path with Some m => m | None => genesisMAC end.

Definition rewrite_body (s : Server) (w : world) (c : Config) (r : request) (genesisMAC body : bytes)
    : option (Server * bytes) :=
  let base := proxy_base c r in
  let body := rewriteData body base (Rewrites c) in
  if Contains (Path r) "ipxe.cfg"%string then
    let mac := ipxe_mac (Path r) genesisMAC in
    if bool_decide (mac = []) then Some (s, body)
    else
      '(s, found) ← resolveNode (w_fuel w) (w_rounds w) (w_start w) mac s;
      match found with
      | Some node => Some (s, inject_node c base body node)
      | None => Some (s, body)
      end
  else Some (s, body).

Definition serve_proxy (s : Server) (w : world) (r : request) : option (Server * response) :=
  let c := cfg s in
  if bool_decide (RackUpstream c = []) then
    Some (s, HttpError 503 "upstream rack proxy not configured"%string)
  else
    let '(upQuery, genesisMAC) := split_query (RawQuery r) in
    match w_upstream w (upstream_request c r upQuery) with
    | UpInvalid => Some (s, HttpError 500 "bad upstream request"%string)
    | UpUnreachable => Some (s, HttpError 502 "upstream unreachable"%string)
    | UpResponse status h body complete =>
        if isBinary (Path r) || negb (bool_decide (Method r = "GET"%string)) then
          Some (s, Reply status (copyHeaders false h) body)
        else if complete then
          '(s, body) ← rewrite_body s w c r genesisMAC body;
          Some (s, Reply status
            (Header.Set_ (copyHeaders true h) "Content-Length"%string (fmt_d (zlen body))) body)
        else Some (s, HttpError 502 "read error from upstream"%string)
    end.

Definition ServeHTTP (s : Server) (w : world) (r : request) : option (Server * response) :=
  if bool_decide (Path r = genericISOPath) then Some (serve_generic s w r)
  else if bool_decide (Path r = overlayPath) || bool_decide (Path r = bondOverlayPath) then
    Some (s, Content "application/x-gzip"%string "genesis-overlay.cpio.gz"%string (bootTime s)
               overlayCPIO)
  else match Submatch isoRe (Path r) with
  | Some rawMAC => serve_node s w r rawMAC
  | None => serve_proxy s w r
  end.
End handler.

(** ** Start-up *)

(** [envDuration], with [time.ParseDuration] as a parameter. *)
Definition envDuration (ParseDuration : bytes -> option Z) (getenv : bytes -> bytes) (k : bytes)
    (d : Z) : Z :=
  if bool_decide (getenv k = []) then d
  else match ParseDuration (getenv k) with
  | Some p => if 0 <=? p then p else d
  | None => d
  end.

(** The server that [main] starts: [files] is the disk at start-up. *)
Definition main_server `{Unicode, Json, Sha256} (ParseDuration : bytes -> option Z)
    (getenv : bytes -> bytes) (files : bytes -> readResult) (o1 o2 o3 : order) (now : Z) : Server :=
  let configPath := env getenv "CONFIG_PATH"%string "/etc/genesis/config.json"%string in
  let nodesPath := env getenv "NODES_PATH"%string "/etc/maas-boot-proxy/nodes/nodes.json"%string in
  let ov := {| RackUpstream := env getenv "RACK_UPSTREAM"%string [];
               ProxyBase := env getenv "PROXY_BASE"%string [];
               OverlayURL := env getenv "OVERLAY_URL"%string []; Rewrites := []; Nodes := ∅ |} in
  let wait := envDuration ParseDuration getenv "NODE_MISS_WAIT"%string 0 in
  let c := match loadConfigFile o1 (files configPath) with Some c => c | None => Config_zero end in
  let c := applyOverrides c ov in
  let s := NewServer c configPath nodesPath (30 * Minute) (2 * Minute) now in
  let efi := match files (env getenv "IPXE_EFI_PATH"%string "/ipxe.efi"%string) with
             | ReadOk b => b | _ => [] end in
  let s := {| cfg := cfg s; cfgPath := cfgPath s; cfgHash := cfgHash s; cfgLoaded := cfgLoaded s;
              overrides := ov; nodes := nodes s; missWait := wait; isoCache := isoCache s;
              ipxeEFI := efi; bootTime := bootTime s |} in
  ReloadAll s {| ob_cfg := files configPath; ob_nodes := files nodesPath;
                 ob_cfg_order := o2; ob_nodes_order := o3 |}.

End Srv.
Import Srv.
