(* ===== verification/ServerFacts.v ===== *)
(** * What the server guarantees

    Reloading, resolving a node, the images it serves and the requests it
    proxies: the theorems about [Server.v]. *)

From S2P Require Import Prelude GoStrings MacAddr Types NodeStore IsoCache FatImage FatReader IsoReader KernelNet IpxeScript Regex Rewriter Http Server.
Import Mac Net Script Re Rewriting NodeStore.Store Srv.
Import SpaceFacts MacFacts HashFacts CacheFacts ReFacts RekeyFacts.

#[local] Set Warnings "-clear-no-such-hyp".

(** ** Configuration *)

Module ConfigFacts.
Section config.
Context `{Unicode, Json, Sha256}.

(** The settings kept in [overrides] are in force. *)
Definition overrides_win (s : Server) : Prop :=
  (RackUpstream (overrides s) <> [] -> RackUpstream (cfg s) = RackUpstream (overrides s)) /\
  (ProxyBase (overrides s) <> [] -> ProxyBase (cfg s) = ProxyBase (overrides s)) /\
  (OverlayURL (overrides s) <> [] -> OverlayURL (cfg s) = OverlayURL (overrides s)).

Lemma applyOverrides_win c o :
  (RackUpstream o <> [] -> RackUpstream (applyOverrides c o) = RackUpstream o) /\
  (ProxyBase o <> [] -> ProxyBase (applyOverrides c o) = ProxyBase o) /\
  (OverlayURL o <> [] -> OverlayURL (applyOverrides c o) = OverlayURL o).
Proof. split_and!; intros E; cbn; by rewrite bool_decide_false. Qed.

(** A reload either swaps in a whole new configuration or does nothing. *)
Lemma reloadConfig_cases o s file :
  reloadConfig o s file = s \/
  exists b c, cfgPath s <> [] /\ file = ReadOk b /\ unmarshal_Config b = inr c /\
    reloadConfig o s file =
      with_cfg s (applyOverrides (with_config_nodes c (rekey o (Nodes c))) (overrides s)) (sha256 b).
Proof.
  unfold reloadConfig. destruct (bool_decide_reflect (cfgPath s = [])); [by left|].
  destruct file as [b| |]; [|by left..].
  destruct (cfgLoaded s && _); [by left|].
  destruct (unmarshal_Config b) as [|c] eqn:E; [by left|]. right. by exists b, c.
Qed.

Lemma reloadConfig_overrides o s file :
  overrides (reloadConfig o s file) = overrides s /\ cfgPath (reloadConfig o s file) = cfgPath s /\
  missWait (reloadConfig o s file) = missWait s /\ ipxeEFI (reloadConfig o s file) = ipxeEFI s /\
  isoCache (reloadConfig o s file) = isoCache s /\ nodes (reloadConfig o s file) = nodes s.
Proof. destruct (reloadConfig_cases o s file) as [->|(b & c & _ & _ & _ & ->)]; done. Qed.

Lemma reloadConfig_win o s file : overrides_win s -> overrides_win (reloadConfig o s file).
Proof.
  intros Hw. destruct (reloadConfig_cases o s file) as [->|(b & c & _ & _ & _ & ->)]; [done|].
  unfold overrides_win. cbn [overrides with_cfg cfg]. apply applyOverrides_win.
Qed.

Lemma reloadConfig_twice o o' s file :
  reloadConfig o' (reloadConfig o s file) file = reloadConfig o s file.
Proof.
  unfold reloadConfig at 2 3. destruct (bool_decide_reflect (cfgPath s = [])) as [E|E].
  { unfold reloadConfig. by rewrite bool_decide_true. }
  destruct file as [b| |]; [|unfold reloadConfig; by rewrite bool_decide_false..].
  destruct (cfgLoaded s && bool_decide (sha256 b = cfgHash s)) eqn:Es.
  { unfold reloadConfig. by rewrite bool_decide_false, Es. }
  destruct (unmarshal_Config b) as [e|c] eqn:Ec; unfold reloadConfig.
  - by rewrite bool_decide_false, Es, Ec by done.
  - rewrite bool_decide_false by done. cbn [cfgLoaded cfgHash with_cfg andb].
    by rewrite bool_decide_true.
Qed.

Lemma ReloadAll_frame s ob :
  overrides (ReloadAll s ob) = overrides s /\ missWait (ReloadAll s ob) = missWait s /\
  ipxeEFI (ReloadAll s ob) = ipxeEFI s /\ isoCache (ReloadAll s ob) = isoCache s.
Proof.
  unfold ReloadAll. cbn. destruct (reloadConfig_overrides (ob_cfg_order ob) s (ob_cfg ob)) as
    (? & ? & ? & ? & ? & ?). done.
Qed.

Lemma ReloadAll_win s ob : overrides_win s -> overrides_win (ReloadAll s ob).
Proof. intros. by apply (reloadConfig_win (ob_cfg_order ob) s (ob_cfg ob)). Qed.

Lemma Watch_win s evs : overrides_win s -> overrides_win (Watch s evs).
Proof.
  revert s. induction evs as [|[ob|] evs IH]; intros s Hs; [done| |done].
  by apply IH, ReloadAll_win.
Qed.

Lemma main_server_win ParseDuration getenv files o1 o2 o3 now :
  overrides_win (main_server ParseDuration getenv files o1 o2 o3 now).
Proof.
  unfold main_server. cbv zeta. apply ReloadAll_win.
  unfold overrides_win. cbn [overrides cfg NewServer]. apply applyOverrides_win.
Qed.

(** ** The settings in force *)

Context (getenv : bytes -> bytes).

(** A variable of the environment wins over a setting of the file. *)
Definition effective (c : Config) : Config := {|
  RackUpstream := env getenv "RACK_UPSTREAM"%string (RackUpstream c);
  ProxyBase := env getenv "PROXY_BASE"%string (ProxyBase c);
  OverlayURL := env getenv "OVERLAY_URL"%string (OverlayURL c);
  Rewrites := Rewrites c;
  Nodes := Nodes c;
|}.

(** What [main] takes from the environment. *)
Definition env_overrides : Config := {|
  RackUpstream := env getenv "RACK_UPSTREAM"%string []; ProxyBase := env getenv "PROXY_BASE"%string [];
  OverlayURL := env getenv "OVERLAY_URL"%string []; Rewrites := []; Nodes := ∅ |}.

Lemma env_empty k d : (if bool_decide (env getenv k [] = []) then d else env getenv k []) = env getenv k d.
Proof. unfold env. by destruct (bool_decide_reflect (getenv k = [])); [|rewrite bool_decide_false]. Qed.

Lemma applyOverrides_env c : applyOverrides c env_overrides = effective c.
Proof.
  unfold applyOverrides, effective, env_overrides. cbn [RackUpstream ProxyBase OverlayURL].
  by rewrite !env_empty.
Qed.

(** Every variable that is set is the setting in force. *)
Definition env_wins (s : Server) : Prop :=
  (getenv "RACK_UPSTREAM"%string <> [] -> RackUpstream (cfg s) = getenv "RACK_UPSTREAM"%string) /\
  (getenv "PROXY_BASE"%string <> [] -> ProxyBase (cfg s) = getenv "PROXY_BASE"%string) /\
  (getenv "OVERLAY_URL"%string <> [] -> OverlayURL (cfg s) = getenv "OVERLAY_URL"%string).

Lemma effective_wins s c : cfg s = effective c -> env_wins s.
Proof.
  intros E. unfold env_wins. rewrite E. cbn. unfold env.
  split_and!; intros; by rewrite bool_decide_false.
Qed.

(** The settings and nodes of a document, with its keys canonical. *)
Definition of_doc (seen : list bytes) (b : bytes) (c : Config) : Prop :=
  b ∈ seen /\ exists o c0, valid_order o /\ unmarshal_Config b = inr c0 /\
    c = with_config_nodes c0 (rekey o (Nodes c0)).

(** The configuration is that of no document or of one that was seen, under
    the environment; and the digest that is compared is that of its document. *)
Definition config_inv (seen : list bytes) (s : Server) : Prop :=
  overrides s = env_overrides /\ cfgPath s <> [] /\
  (exists c, (c = Config_zero \/ exists b, of_doc seen b c) /\ cfg s = effective c) /\
  (cfgLoaded s = true -> exists b c, of_doc seen b c /\ cfgHash s = sha256 b /\ cfg s = effective c).

Lemma of_doc_mono seen seen' b c : seen ⊆ seen' -> of_doc seen b c -> of_doc seen' b c.
Proof. intros Hs [Hb Hc]. split; [by apply Hs|done]. Qed.

Lemma config_inv_mono seen seen' s : seen ⊆ seen' -> config_inv seen s -> config_inv seen' s.
Proof.
  intros Hs (K1 & K2 & (c & Hc & Ec) & K4). split_and!; [done|done| |].
  - exists c. split; [|done]. destruct Hc as [->|[b Hb]]; [by left|].
    right. exists b. by eapply of_doc_mono.
  - intros (b & c' & Hb & ?)%K4. exists b, c'. split; [by eapply of_doc_mono|done].
Qed.

Definition doc (r : readResult) : list bytes := match r with ReadOk b => [b] | _ => [] end.

(** A reload keeps this, and brings in the document it reads if that is valid
    (and no other one has the same digest). *)
Lemma reloadConfig_inv seen o s file :
  valid_order o -> config_inv seen s ->
  config_inv (seen ++ doc file) (reloadConfig o s file) /\
  forall b c0, file = ReadOk b -> unmarshal_Config b = inr c0 ->
    (forall b', b' ∈ seen -> sha256 b' = sha256 b -> b' = b) ->
    exists c, of_doc (seen ++ doc file) b c /\ cfg (reloadConfig o s file) = effective c.
Proof.
  intros Ho Hinv. assert (Hmono : config_inv (seen ++ doc file) s).
  { eapply config_inv_mono; [|exact Hinv]. set_solver. }
  pose proof Hinv as (K1 & K2 & _ & K4). unfold reloadConfig.
  rewrite bool_decide_false by done. destruct file as [b| |]; [|done..].
  destruct (cfgLoaded s && bool_decide (sha256 b = cfgHash s)) eqn:Es.
  - split; [done|]. intros b' c0 [= <-] Hu Hsep.
    apply andb_prop in Es as [El Eh%bool_decide_eq_true].
    destruct (K4 El) as (b1 & c1 & Hc1 & Hh1 & Ec1). exists c1. split; [|done].
    rewrite <- (Hsep b1); [|apply Hc1|congruence].
    eapply of_doc_mono; [|exact Hc1]. set_solver.
  - destruct (unmarshal_Config b) as [e|c0] eqn:Eu; [by split; [done|intros ? ? [= <-]; congruence]|].
    set (c := with_config_nodes c0 (rekey o (Nodes c0))).
    assert (Hc : of_doc (seen ++ doc (ReadOk b)) b c).
    { split; [cbn; set_solver|]. by exists o, c0. }
    fold (normalizeNodeKeys o (Nodes c0)) in c. rewrite K1, applyOverrides_env. split.
    + split_and!; [done|done|exists c; split; [right; by exists b|done]|].
      intros _. by exists b, c.
    + intros b' c1 [= <-] _ _. by exists c.
Qed.

Lemma ReloadAll_config seen s ob :
  valid_order (ob_cfg_order ob) -> config_inv seen s ->
  config_inv (seen ++ doc (ob_cfg ob)) (ReloadAll s ob).
Proof. intros Ho Hs. by apply (reloadConfig_inv seen (ob_cfg_order ob) s (ob_cfg ob)). Qed.

(** The documents [Watch] reads. *)
Fixpoint watched (events : list watch_event) : list bytes :=
  match events with
  | [] | WatchDone :: _ => []
  | WatchTick ob :: rest => doc (ob_cfg ob) ++ watched rest
  end.

Definition fair_event (e : watch_event) : Prop :=
  match e with
  | WatchTick ob => valid_order (ob_cfg_order ob) /\ valid_order (ob_nodes_order ob)
  | WatchDone => True
  end.

Lemma Watch_config seen s events :
  Forall fair_event events -> config_inv seen s ->
  config_inv (seen ++ watched events) (Watch s events).
Proof.
  intros Hf. revert seen s. induction Hf as [|[ob|] evs He _ IH]; intros seen s Hs; cbn [watched Watch].
  - by rewrite app_nil_r.
  - rewrite app_assoc. apply IH. apply ReloadAll_config; [apply He|done].
  - by rewrite app_nil_r.
Qed.

Definition config_path : bytes := env getenv "CONFIG_PATH"%string "/etc/genesis/config.json"%string.

Lemma main_server_config ParseDuration files o1 o2 o3 now :
  valid_order o1 -> valid_order o2 ->
  config_inv (doc (files config_path)) (main_server ParseDuration getenv files o1 o2 o3 now).
Proof.
  intros Ho1 Ho2. unfold main_server. cbv zeta.
  assert (Hp : config_path <> []).
  { unfold config_path, env. by destruct (bool_decide_reflect (getenv "CONFIG_PATH"%string = [])). }
  eapply config_inv_mono; [|apply ReloadAll_config with (seen := doc (files config_path)); [done|]].
  { cbn [ob_cfg]. fold config_path. set_solver. }
  split_and!; [reflexivity|exact Hp| |done].
  change (cfg _) with (applyOverrides match loadConfigFile o1 (files config_path) with
    Some c => c | None => Config_zero end env_overrides).
  rewrite applyOverrides_env. eexists. split; [|reflexivity]. unfold loadConfigFile.
  destruct (files config_path) as [b| |] eqn:Ef; [|by left..].
  destruct (unmarshal_Config b) as [|c0] eqn:Eu; [by left|]. right. exists b.
  split; [by left|]. by exists o1, c0.
Qed.
End config.
End ConfigFacts.
Import ConfigFacts.

(** C21: the settings in force.  From start-up on and through whatever
    [Watch] reloads, the configuration is, as a whole, that of no document or of
    one document the file held at start-up or at a reload, with every variable
    of the environment that is set in place of its setting.  In particular
    [RACK_UPSTREAM], [PROXY_BASE] and [OVERLAY_URL], when set, are what the
    server uses.  And a reload of a valid document brings that document into
    force, unless another document seen before has the same digest. *)
Theorem overrides_in_force `{Unicode, Json, Sha256} (ParseDuration : bytes -> option Z)
    (getenv : bytes -> bytes) (files : bytes -> readResult) (o1 o2 o3 : order) (now : Z)
    (events : list watch_event) (Ho1 : valid_order o1) (Ho2 : valid_order o2)
    (Hev : Forall fair_event events) :
  let s := Watch (main_server ParseDuration getenv files o1 o2 o3 now) events in
  let seen := doc (files (config_path getenv)) ++ watched events in
  env_wins getenv s /\
  (exists c, (c = Config_zero \/ exists b, of_doc seen b c) /\ cfg s = effective getenv c) /\
  (forall ob b c0, valid_order (ob_cfg_order ob) -> ob_cfg ob = ReadOk b ->
     unmarshal_Config b = inr c0 -> (forall b', b' ∈ seen -> sha256 b' = sha256 b -> b' = b) ->
     exists c, of_doc (seen ++ [b]) b c /\ cfg (ReloadAll s ob) = effective getenv c).
Proof.
  cbv zeta. set (s := Watch _ events).
  assert (Hs : config_inv getenv (doc (files (config_path getenv)) ++ watched events) s)
    by (apply Watch_config, main_server_config; done).
  pose proof Hs as (_ & _ & (c & Hc & Ec) & _).
  split_and!; [by eapply effective_wins|by exists c|].
  intros ob b c0 Ho Hob Hu Hsep.
  destruct (reloadConfig_inv getenv _ (ob_cfg_order ob) s (ob_cfg ob) Ho Hs) as [_ Hr].
  rewrite Hob in Hr. destruct (Hr b c0 eq_refl Hu Hsep) as (c1 & Hc1 & Ec1).
  exists c1. split; [done|]. rewrite <- Ec1, <- Hob. done.
Qed.

(** ** Resolving a node *)

Module ResolveFacts.
Section resolve.
Context `{Unicode, Json, Sha256}.

Lemma resolve_loop_result f rounds i deadline norm s s' res :
  resolve_loop f rounds i deadline norm s = Some (s', res) -> lookup s' norm = res.
Proof.
  revert i s. induction f as [|f IH]; intros i s; cbn [resolve_loop]; [done|].
  destruct (lookup s norm) as [n|] eqn:E1; [by intros [= <- <-]|].
  destruct (lookup (ReloadAll s (rd_ob (rounds i))) norm) as [n|] eqn:E2; [by intros [= <- <-]|].
  destruct (negb _); [by intros [= <- <-]|].
  destruct (rd_cancelled _); [by intros [= <- <-]|]. apply IH.
Qed.

Lemma resolve_loop_frame f rounds i deadline norm s s' res :
  resolve_loop f rounds i deadline norm s = Some (s', res) ->
  isoCache s' = isoCache s /\ ipxeEFI s' = ipxeEFI s.
Proof.
  revert i s. induction f as [|f IH]; intros i s; cbn [resolve_loop]; [done|].
  destruct (lookup s norm) as [n|]; [by intros [= <- <-]|].
  destruct (ReloadAll_frame s (rd_ob (rounds i))) as (_ & _ & F1 & F2).
  destruct (lookup (ReloadAll s (rd_ob (rounds i))) norm) as [n|]; [by intros [= <- <-]|].
  destruct (negb _); [by intros [= <- <-]|].
  destruct (rd_cancelled _); [by intros [= <- <-]|].
  intros Hr. destruct (IH _ _ Hr) as [-> ->]. done.
Qed.

Lemma resolve_loop_ends f rounds i deadline norm s (start : Z) :
  (forall j, (i <= j)%nat -> start + Z.of_nat j * missPollInterval <= rd_now (rounds j)) ->
  deadline <= start + Z.of_nat (i + f - 1) * missPollInterval -> (1 <= f)%nat ->
  is_Some (resolve_loop f rounds i deadline norm s).
Proof.
  revert i s. induction f as [|f IH]; intros i s Hclock Hd Hf; [lia|]. cbn [resolve_loop].
  destruct (lookup s norm); [done|].
  destruct (lookup (ReloadAll s (rd_ob (rounds i))) norm); [done|].
  destruct (Z.ltb_spec (rd_now (rounds i)) deadline) as [Hlt|]; cbn [negb]; [|done].
  destruct (rd_cancelled (rounds i)); [done|].
  destruct f as [|f].
  - exfalso. specialize (Hclock i ltac:(lia)). replace (i + 1 - 1)%nat with i in Hd by lia. lia.
  - apply IH; [intros j Hj; apply Hclock; lia| |lia].
    replace (S i + S f - 1)%nat with (i + S (S f) - 1)%nat by lia. done.
Qed.

Lemma resolveNode_ends (rounds : nat -> round) (start : Z) (mac : bytes) (s : Server) (fuel : nat) :
  (forall j, start + Z.of_nat j * missPollInterval <= rd_now (rounds j)) ->
  0 <= missWait s -> missWait s / missPollInterval + 2 <= Z.of_nat fuel ->
  exists s' res, resolveNode fuel rounds start mac s = Some (s', res) /\
    (normalizeKey mac = [] -> res = None) /\
    (normalizeKey mac <> [] ->
       res = match Get (nodes s') (normalizeKey mac) with
             | Some n => Some n
             | None => Nodes (cfg s') !! normalizeKey mac
             end).
Proof.
  intros Hclock Hwait Hfuel.
  unfold resolveNode. destruct (bool_decide_reflect (normalizeKey mac = [])) as [E|E].
  { eexists _, _. split; [done|]. split; [done|]. by intros []. }
  destruct (resolve_loop_ends fuel rounds 0 (start + missWait s) (normalizeKey mac) s start)
    as [[s' res] Hr].
  - intros j _. apply Hclock.
  - assert (0 < missPollInterval) by done. set (d := missPollInterval) in *.
    clearbody d. pose proof (Z.div_pos (missWait s) d Hwait ltac:(lia)).
    replace (Z.of_nat (0 + fuel - 1)) with (Z.of_nat fuel - 1) by lia.
    assert (missWait s <= (Z.of_nat fuel - 1) * d); [|lia].
    pose proof (Z.div_mod (missWait s) d ltac:(lia)) as Hdm.
    pose proof (Z.mod_pos_bound (missWait s) d ltac:(lia)). nia.
  - pose proof (Z.div_pos (missWait s) missPollInterval Hwait ltac:(done)). lia.
  - exists s', res. split; [done|]. split; [done|]. intros _.
    by rewrite <- (resolve_loop_result _ _ _ _ _ _ _ _ Hr).
Qed.
End resolve.
End ResolveFacts.
Import ResolveFacts.

(** C9: resolving a node ends: when every wait lasts at least its poll
    interval, a number of rounds proportional to the configured wait is enough
    for [resolveNode] to return, whatever the files contain; and its answer is
    what the stores say when it returns, the nodes file first, then the static
    configuration. *)
Theorem resolve_terminates `{Unicode, Json, Sha256} (rounds : nat -> round) (start : Z) (mac : bytes)
    (s : Server) (fuel : nat)
    (Hclock : forall j, start + Z.of_nat j * missPollInterval <= rd_now (rounds j))
    (Hwait : 0 <= missWait s) (Hfuel : missWait s / missPollInterval + 2 <= Z.of_nat fuel) :
  exists s' res, resolveNode fuel rounds start mac s = Some (s', res) /\
    (normalizeKey mac = [] -> res = None) /\
    (normalizeKey mac <> [] ->
       res = match Get (nodes s') (normalizeKey mac) with
             | Some n => Some n
             | None => Nodes (cfg s') !! normalizeKey mac
             end).
Proof. by apply resolveNode_ends. Qed.

(** ** A node that is registered while a request waits *)

Section late.
Context {U : Unicode} {UL : UnicodeLaws U} `{Json, Sha256}.

(** The two files are as they were when they were loaded, or cannot be read. *)
Definition unchanged (s : Server) (ob : observation) : Prop :=
  (forall b, ob_cfg ob = ReadOk b ->
     cfgPath s = [] \/ (cfgLoaded s = true /\ sha256 b = cfgHash s)) /\
  (forall b, ob_nodes ob = ReadOk b -> same_content (nodes s) (sha256 b) = true).

(** The configuration and the nodes are the same in both. *)
Definition same_data (s s' : Server) : Prop :=
  cfg s' = cfg s /\ cfgPath s' = cfgPath s /\ cfgHash s' = cfgHash s /\
  cfgLoaded s' = cfgLoaded s /\ keeps_data (nodes s) (nodes s').

Lemma same_data_refl s : same_data s s.
Proof. done. Qed.

Lemma unchanged_reload s s' ob :
  same_data s s' -> unchanged s ob -> same_data s (ReloadAll s' ob).
Proof.
  intros (E1 & E2 & E3 & E4 & (N1 & N2 & N3 & N4)) [Hc Hn]. unfold ReloadAll.
  assert (Er : reloadConfig (ob_cfg_order ob) s' (ob_cfg ob) = s').
  { unfold reloadConfig. destruct (bool_decide_reflect (cfgPath s' = [])); [done|].
    destruct (ob_cfg ob) as [b| |]; [|done..].
    destruct (Hc b eq_refl) as [Hp|[Hl Hh]]; [congruence|].
    by rewrite E3, E4, Hl, bool_decide_true. }
  rewrite Er. unfold same_data. cbn. split_and!; [done..|].
  unfold Reload. destruct (bool_decide (path (nodes s') = [])); [done|].
  destruct (ob_nodes ob) as [b| |]; [|done..]. cbv zeta.
  assert (Es : same_content (nodes s') (sha256 b) = true).
  { specialize (Hn b eq_refl). unfold same_content in *. by rewrite N3, N4. }
  by rewrite Es.
Qed.

Lemma same_data_lookup s s' norm : same_data s s' -> lookup s' norm = lookup s norm.
Proof.
  intros (E1 & _ & _ & _ & (_ & N2 & _)). unfold lookup, Get. by rewrite E1, N2.
Qed.

(** Rounds that find nothing new are waited through. *)
Lemma resolve_loop_waits fuel rounds deadline norm s j :
  forall i s', same_data s s' -> lookup s norm = None -> (i <= j)%nat ->
  (forall l, (i <= l < j)%nat -> unchanged s (rd_ob (rounds l)) /\
     rd_now (rounds l) < deadline /\ rd_cancelled (rounds l) = false) ->
  exists sj, same_data s sj /\
    resolve_loop (j - i + fuel) rounds i deadline norm s' = resolve_loop fuel rounds j deadline norm sj.
Proof.
  intros i. remember (j - i)%nat as d eqn:Ed. revert i Ed.
  induction d as [|d IH]; intros i Ed s' Hs Hmiss Hij Hq.
  { exists s'. split; [done|]. by replace i with j by lia. }
  destruct (Hq i ltac:(lia)) as (Hu & Hn & Hc).
  pose proof (unchanged_reload s s' _ Hs Hu) as Hs1.
  destruct (IH (S i) ltac:(lia) (ReloadAll s' (rd_ob (rounds i))) Hs1 Hmiss ltac:(lia))
    as (sj & Hsj & E); [intros l Hl; apply Hq; lia|].
  exists sj. split; [done|]. cbn [resolve_loop Nat.add].
  rewrite (same_data_lookup s s'), Hmiss by done.
  rewrite (same_data_lookup s _ norm Hs1), Hmiss.
  destruct (Z.ltb_spec (rd_now (rounds i)) deadline); [|lia]. cbn [negb]. by rewrite Hc.
Qed.
End late.

(** C14: a node that is not there yet is waited for.  A request for an unknown
    address polls the files; if round [j] is the first at which they change, no
    round before it is past the deadline or cancelled, and the nodes file then
    holds a valid document with one record for the address, in any spelling,
    the request gets exactly that record; with [j = 0] at once and without any
    configured wait.  If they never change, the request is told at the first
    round past the deadline that the node is unknown, and not before. *)
Theorem late_node_served {U : Unicode} {UL : UnicodeLaws U} `{Json, Sha256}
    (rounds : nat -> round) (start : Z) (mac : bytes) (s : Server) (fuel j : nat)
    (Hmac : normalizeKey mac <> []) (Hmiss : lookup s (normalizeKey mac) = None)
    (Hbefore : forall i, (i < j)%nat -> unchanged s (rd_ob (rounds i)) /\
       rd_now (rounds i) < start + missWait s /\ rd_cancelled (rounds i) = false) :
  (forall b f k n, path (nodes s) <> [] -> ob_nodes (rd_ob (rounds j)) = ReadOk b ->
     valid_order (ob_nodes_order (rd_ob (rounds j))) ->
     same_content (nodes s) (sha256 b) = false -> unmarshal_NodesFile b = inr f ->
     Version f <= NodesFileVersion -> no_clash (FileNodes f) ->
     FileNodes f !! k = Some n -> normalizeKey k = normalizeKey mac ->
     exists s', resolveNode (j + S fuel) rounds start mac s = Some (s', Some n)) /\
  (unchanged s (rd_ob (rounds j)) -> start + missWait s <= rd_now (rounds j) ->
     exists s', resolveNode (j + S fuel) rounds start mac s = Some (s', None)) /\
  resolveNode j rounds start mac s = None.
Proof.
  assert (Hwait : forall f, exists sj, same_data s sj /\
    resolveNode (j + f) rounds start mac s =
      resolve_loop f rounds j (start + missWait s) (normalizeKey mac) sj).
  { intros f. unfold resolveNode. rewrite bool_decide_false by done.
    destruct (resolve_loop_waits f rounds (start + missWait s) (normalizeKey mac) s j 0 s
      (same_data_refl s) Hmiss ltac:(lia)) as (sj & Hsj & E); [intros l Hl; apply Hbefore; lia|].
    exists sj. split; [done|]. by rewrite <- E, Nat.sub_0_r. }
  split_and!.
  - intros b f k n Hpath Hob Ho Hnew Hdoc Hver Hclash Hk Ek.
    destruct (Hwait (S fuel)) as (sj & Hsj & ->). cbn [resolve_loop].
    rewrite (same_data_lookup s sj _ Hsj), Hmiss.
    destruct Hsj as (_ & _ & _ & _ & (N1 & N2 & N3 & N4)).
    set (sc := reloadConfig (ob_cfg_order (rd_ob (rounds j))) sj (ob_cfg (rd_ob (rounds j)))).
    assert (Esc : nodes sc = nodes sj) by apply reloadConfig_overrides.
    assert (El : lookup (ReloadAll sj (rd_ob (rounds j))) (normalizeKey mac) = Some n).
    { unfold lookup, ReloadAll. fold sc. cbn [nodes with_nodes]. rewrite Hob, Esc.
      assert (Eg : Get (rl_store (Reload (ob_nodes_order (rd_ob (rounds j))) (nodes sj) (ReadOk b)))
        (normalizeKey mac) = Some n); [|by rewrite Eg].
      apply (Reload_Get _ _ b f); try done; [congruence|by unfold same_content in *; rewrite N3, N4|].
      exists k. by rewrite normalizeKey_twice. }
    rewrite El. by eexists.
  - intros Hu Hd. destruct (Hwait (S fuel)) as (sj & Hsj & ->). cbn [resolve_loop].
    rewrite (same_data_lookup s sj _ Hsj), Hmiss.
    rewrite (same_data_lookup s _ (normalizeKey mac) (unchanged_reload s sj _ Hsj Hu)), Hmiss.
    destruct (Z.ltb_spec (rd_now (rounds j)) (start + missWait s)); [lia|]. cbn [negb]. by eexists.
  - destruct (Hwait 0%nat) as (sj & Hsj & E). by rewrite Nat.add_0_r in E.
Qed.

(** ** Images *)

Module ImageFacts.

(** The entries of a heap, up to their access times. *)
Definition contents (h : list CachedISO) : list (bytes * bytes * Z) := content <$> h.

Section cached.
Context `{Unicode}.

Lemma Get_contents c mac t1 t2 : contents (Cache.heap (Cache.Get c mac t1 t2).1) = contents (Cache.heap c).
Proof.
  unfold Cache.Get. destruct (Cache.isos c !! _) as [l|]; [|done].
  destruct (Cache.expired c t1 l); [done|]. cbn. unfold contents. apply list_eq. intros i.
  rewrite !list_lookup_fmap. destruct (decide (i = l)) as [->|Hne].
  - rewrite list_lookup_alter_eq. by destruct (Cache.heap c !! l).
  - by rewrite list_lookup_alter_ne.
Qed.

Lemma Get_wf c mac t1 t2 : wf c -> wf (Cache.Get c mac t1 t2).1.
Proof. apply wf_step, cs_get. Qed.

(** The image under the pointer has the wanted hash and is one that was
    cached or the one that is built now; at most that one is added. *)
Definition cached_outcome (c c' : Cache.ISOCache) (hash : bytes) (build : outcome imgError bytes)
    (t3 : Z) (res : outcome imgError Cache.loc) : Prop :=
  wf c' /\
  (contents (Cache.heap c') = contents (Cache.heap c) \/
   exists data, build = Ret data /\
     contents (Cache.heap c') = contents (Cache.heap c) ++ [(data, hash, t3)]) /\
  match res with
  | Ret l => exists e, Cache.heap c' !! l = Some e /\ ConfigHash e = hash /\
      (content e ∈ contents (Cache.heap c) \/ build = Ret (Data e))
  | Err x => build = Err x
  | Panic => build = Panic
  end.

Lemma compose_iso_spec c c1 key hash build t3 :
  wf c1 -> contents (Cache.heap c1) = contents (Cache.heap c) ->
  let '(c', res) := compose_iso c1 key hash build t3 in cached_outcome c c' hash build t3 res.
Proof.
  intros Hw1 Hc1. unfold compose_iso, cached_outcome.
  destruct build as [data|x|]; [|by split_and!; auto..].
  assert (Hs : wf (Cache.Set_ c1 key hash data t3).1) by (by eapply wf_step; [apply cs_set|]).
  destruct (Cache.Set_ c1 key hash data t3) as [c2 l] eqn:ES. unfold Cache.Set_ in ES.
  injection ES as <- <-. split; [done|]. cbn. split.
  - right. exists data. split; [done|]. rewrite <- Hc1. unfold contents.
    by rewrite fmap_app.
  - eexists. split; [by apply list_lookup_middle|]. cbn. by split; [|right].
Qed.

Lemma cachedISO_spec c key hash build t1 t2 t3 :
  wf c ->
  let '(c', res) := cachedISO c key hash build t1 t2 t3 in cached_outcome c c' hash build t3 res.
Proof.
  intros Hwf. pose proof (Get_wf c key t1 t2 Hwf) as Hw1.
  pose proof (Get_contents c key t1 t2) as Hc1. unfold cachedISO.
  destruct (Cache.Get c key t1 t2) as [c1 res] eqn:EG. cbn [fst] in Hw1, Hc1.
  pose proof (compose_iso_spec c c1 key hash build t3 Hw1 Hc1) as Hcomp.
  destruct res as [l|]; [|exact Hcomp].
  destruct (Cache.heap c1 !! l) as [e|] eqn:El; [|exact Hcomp].
  destruct (bool_decide_reflect (ConfigHash e = hash)); [|exact Hcomp].
  split; [done|]. split; [by left|]. exists e. split; [done|]. split; [done|]. left.
  rewrite <- Hc1. unfold contents. apply list_elem_of_fmap. exists e. split; [done|].
  by apply list_elem_of_lookup_2 in El.
Qed.
End cached.

Section built.
Context `{Unicode, Sha256}.
Context (ipxe : bytes).

(** What an image in the cache was made from. *)
Definition made_for (x : bytes * bytes * Z) (n : Node) (mac base : bytes) : Prop :=
  hashable n mac base /\ x.1.2 = ComputeNodeConfigHash n mac base /\
  BuildNodeISO ipxe n mac base = Ret x.1.1.

Definition made_generic (x : bytes * bytes * Z) (base : bytes) : Prop :=
  x.1.2 = GenericConfigHash base /\ BuildGenericISO ipxe base = Ret x.1.1.

Definition made (x : bytes * bytes * Z) : Prop :=
  (exists n mac base, made_for x n mac base) \/ exists base, made_generic x base.

(** Every image in the cache is what its hash stands for. *)
Definition all_made (c : Cache.ISOCache) : Prop := wf c /\ Forall made (contents (Cache.heap c)).

Lemma all_made_new t r : all_made (Cache.NewISOCache t r).
Proof. split; [apply wf_new|apply Forall_nil_2]. Qed.

Lemma all_made_cached c key hash build t1 t2 t3 :
  all_made c -> (forall data, build = Ret data -> made (data, hash, t3)) ->
  all_made (cachedISO c key hash build t1 t2 t3).1.
Proof.
  intros [Hwf Hm] Hb. pose proof (cachedISO_spec c key hash build t1 t2 t3 Hwf) as Hs.
  destruct (cachedISO c key hash build t1 t2 t3) as [c' res]. destruct Hs as (Hw & Hc & _).
  split; [done|]. cbn. destruct Hc as [->|(data & Hd & ->)]; [done|].
  apply Forall_app. split; [done|]. apply Forall_cons_2; [by apply Hb|apply Forall_nil_2].
Qed.

(** No two images in question have the same hash by accident. *)
Definition separated (c : Cache.ISOCache) (n : Node) (mac base : bytes) : Prop :=
  forall x, x ∈ contents (Cache.heap c) -> x.1.2 = ComputeNodeConfigHash n mac base ->
  (forall n' mac' base', made_for x n' mac' base' ->
     hash_input n' mac' base' = hash_input n mac base) /\
  (forall base', ~ made_generic x base').

Lemma RenderNode_base n mac base base' :
  TrimRight base "/"%string = TrimRight base' "/"%string ->
  RenderNodeIPXEScript n mac base = RenderNodeIPXEScript n mac base'.
Proof. intros E. unfold RenderNodeIPXEScript, node_lines. by rewrite E. Qed.

Lemma cached_is_current c n mac base e :
  all_made c -> hashable n mac base -> separated c n mac base ->
  content e ∈ contents (Cache.heap c) -> ConfigHash e = ComputeNodeConfigHash n mac base ->
  BuildNodeISO ipxe n mac base = Ret (Data e).
Proof.
  intros [_ Hm] Hh Hsep Hin Hhash. rewrite Forall_forall in Hm.
  destruct (Hsep (content e) Hin Hhash) as [Hs1 Hs2].
  destruct (Hm (content e) Hin) as [(n' & mac' & base' & Hf)|(base' & Hg)].
  - pose proof Hf as (Hh' & _ & Hb). specialize (Hs1 n' mac' base' Hf).
    destruct (hash_input_inj n' n mac' mac base' base Hh' Hh Hs1) as (-> & -> & Eb).
    unfold BuildNodeISO in *. by rewrite <- (RenderNode_base n mac base' base Eb).
  - by apply Hs2 in Hg.
Qed.

Lemma cachedISO_current c n mac base t1 t2 t3 :
  all_made c -> hashable n mac base -> separated c n mac base ->
  let '(c', res) := cachedISO c mac (ComputeNodeConfigHash n mac base)
    (BuildNodeISO ipxe n mac base) t1 t2 t3 in
  all_made c' /\
  match res with
  | Ret l => exists e, Cache.heap c' !! l = Some e /\ BuildNodeISO ipxe n mac base = Ret (Data e)
  | Err x => BuildNodeISO ipxe n mac base = Err x
  | Panic => BuildNodeISO ipxe n mac base = Panic
  end.
Proof.
  intros Hc Hh Hsep. pose proof Hc as [Hwf _].
  pose proof (all_made_cached c mac (ComputeNodeConfigHash n mac base)
    (BuildNodeISO ipxe n mac base) t1 t2 t3 Hc) as Ha.
  pose proof (cachedISO_spec c mac (ComputeNodeConfigHash n mac base)
    (BuildNodeISO ipxe n mac base) t1 t2 t3 Hwf) as Hs.
  destruct (cachedISO _ _ _ _ _ _ _) as [c' res]. destruct Hs as (_ & _ & Hres). split.
  - apply Ha. intros data Hd. left. by exists n, mac, base.
  - destruct res as [l|x|]; [|done..]. destruct Hres as (e & He & Hhash & [Hin|Hb]).
    + exists e. split; [done|]. by eapply cached_is_current.
    + by exists e.
Qed.
End built.
End ImageFacts.
Import ImageFacts.

(** The address in the form the handler uses it. *)
Definition handler_mac `{Unicode} (rawMAC : bytes) : bytes :=
  if bool_decide (normalizeMAC rawMAC = []) then ToLower rawMAC else normalizeMAC rawMAC.

(** ** The running server

    Its goroutines as steps: the handler on a request, the reloads of [Watch]
    and the reaper of the cache. *)
Module Running.
Section running.
Context {U : Unicode} {UL : UnicodeLaws U} `{Json, Sha256, Archive}.
Context (overlayCPIO : bytes).

(** Maps are visited in some order. *)
Definition fair (ob : observation) : Prop :=
  valid_order (ob_cfg_order ob) /\ valid_order (ob_nodes_order ob).

(** A request for an image is for a node whose record the hash covers. *)
Definition answerable (s : Server) (w : world) (r : request) : Prop :=
  (forall j, fair (rd_ob (w_rounds w j))) /\
  forall rawMAC s1 node, Submatch isoRe (Path r) = Some rawMAC ->
    resolveNode (w_fuel w) (w_rounds w) (w_start w) (handler_mac rawMAC) s = Some (s1, Some node) ->
    hashable node (handler_mac rawMAC) (proxy_base (cfg s) r).

Inductive server_step : Server -> Server -> Prop :=
| st_request s w r s' resp :
    answerable s w r -> ServeHTTP overlayCPIO s w r = Some (s', resp) -> server_step s s'
| st_watch s ob : fair ob -> server_step s (Watch s [WatchTick ob])
| st_reaper s o e :
    visits o -> server_step s (with_cache s (Cache.startReaper_round o (isoCache s) e)).

Definition started (s : Server) : Prop :=
  exists ParseDuration getenv files o1 o2 o3 now,
    valid_order o1 /\ valid_order o2 /\ valid_order o3 /\
    s = main_server ParseDuration getenv files o1 o2 o3 now.

Definition reachable (s : Server) : Prop := exists s0, started s0 /\ rtc server_step s0 s.

(** The cache holds what its hashes say, the environment wins, and both node
    tables are under canonical keys. *)
Record server_inv (s : Server) : Prop := {
  si_made : all_made (ipxeEFI s) (isoCache s);
  si_win : overrides_win s;
  si_store : canonical (NodeStore.Store.nodes (nodes s));
  si_static : canonical (Nodes (cfg s));
}.

Lemma canonical_empty : canonical ∅.
Proof. intros k v. by rewrite lookup_empty. Qed.

Lemma Reload_canonical o (ns : NodeStore) file :
  valid_order o -> canonical (NodeStore.Store.nodes ns) ->
  canonical (NodeStore.Store.nodes (rl_store (Reload o ns file))).
Proof.
  intros Ho Hc. unfold Reload. destruct (bool_decide (path ns = [])); [done|].
  destruct file as [b| |]; [|done..]. cbv zeta. destruct (same_content ns _); [done|].
  unfold parseNodes. destruct (unmarshal_NodesFile b) as [e|d]; [done|].
  destruct (NodesFileVersion <? Version d); cbn; [done|by apply rekey_canonical].
Qed.

Lemma reloadConfig_canonical o s file :
  valid_order o -> canonical (Nodes (cfg s)) -> canonical (Nodes (cfg (reloadConfig o s file))).
Proof.
  intros Ho Hc. destruct (reloadConfig_cases o s file) as [->|(b & c & _ & _ & _ & ->)]; [done|].
  cbn. by apply rekey_canonical.
Qed.

Lemma ReloadAll_inv s ob : fair ob -> server_inv s -> server_inv (ReloadAll s ob).
Proof.
  intros [F1 F2] [K1 K2 K3 K4]. destruct (ReloadAll_frame s ob) as (_ & _ & Ee & Ec). split.
  - by rewrite Ee, Ec.
  - by apply ReloadAll_win.
  - apply Reload_canonical; [done|].
    by destruct (reloadConfig_overrides (ob_cfg_order ob) s (ob_cfg ob)) as (_ & _ & _ & _ & _ & ->).
  - by apply reloadConfig_canonical.
Qed.

Lemma resolveNode_inv fuel rounds start mac s s' res :
  (forall j, fair (rd_ob (rounds j))) -> server_inv s ->
  resolveNode fuel rounds start mac s = Some (s', res) -> server_inv s'.
Proof.
  intros Hf Hs. unfold resolveNode. destruct (bool_decide _); [by intros [= <- <-]|].
  generalize 0%nat as i. generalize (start + missWait s) as d. intros d i.
  revert i s Hs. induction fuel as [|f IH]; intros i s Hs; cbn [resolve_loop]; [done|].
  destruct (lookup s _); [by intros [= <- <-]|].
  pose proof (ReloadAll_inv s _ (Hf i) Hs) as Hs'.
  destruct (lookup (ReloadAll s _) _); [by intros [= <- <-]|].
  destruct (negb _); [by intros [= <- <-]|].
  destruct (rd_cancelled _); [by intros [= <- <-]|]. by apply IH.
Qed.

Lemma serve_iso_inv s w key hash build name :
  server_inv s -> (forall data t, build = Ret data -> made (ipxeEFI s) (data, hash, t)) ->
  server_inv (serve_iso s w key hash build name).1.
Proof.
  intros [K1 K2 K3 K4] Hb. unfold serve_iso.
  pose proof (all_made_cached (ipxeEFI s) (isoCache s) key hash build (w_t1 w) (w_t2 w) (w_t3 w) K1
    (fun data => Hb data (w_t3 w))) as Ha.
  destruct (cachedISO _ _ _ _ _ _ _) as [c res]. cbn [fst] in Ha.
  assert (Hc : server_inv (with_cache s c)) by (by split).
  destruct res as [l|x|]; [|done..]. by destruct (Cache.heap c !! l).
Qed.

Lemma serve_node_inv s w r rawMAC s' resp :
  answerable s w r -> Submatch isoRe (Path r) = Some rawMAC -> server_inv s ->
  serve_node s w r rawMAC = Some (s', resp) -> server_inv s'.
Proof.
  intros [Hf Hh] Hp Hs. unfold serve_node. fold (handler_mac rawMAC).
  destruct (resolveNode _ _ _ _ s) as [[s1 found]|] eqn:Er; [|done]. cbn [mbind option_bind].
  pose proof (resolveNode_inv _ _ _ _ _ _ _ Hf Hs Er) as Hs1.
  destruct found as [node|]; [|by intros [= <- <-]]. intros [= E].
  replace s' with (s', resp).1 by done. rewrite <- E. apply serve_iso_inv; [done|].
  intros data t Hd. left. eexists _, _, _. split; [|by split]. by eapply Hh.
Qed.

Lemma serve_proxy_inv s w r s' resp :
  (forall j, fair (rd_ob (w_rounds w j))) -> server_inv s ->
  serve_proxy s w r = Some (s', resp) -> server_inv s'.
Proof.
  intros Hf Hs. unfold serve_proxy. destruct (bool_decide _); [by intros [= <- <-]|].
  destruct (split_query _) as [q g].
  destruct (w_upstream w _) as [| |st h body complete]; [by intros [= <- <-]..|].
  destruct (isBinary (Path r) || _); [by intros [= <- <-]|].
  destruct complete; [|by intros [= <- <-]]. unfold rewrite_body.
  destruct (Contains _ _); [|by intros [= <- <-]].
  destruct (bool_decide _); [by intros [= <- <-]|].
  destruct (resolveNode _ _ _ _ s) as [[s1 found]|] eqn:Er; [|done]. cbn [mbind option_bind].
  pose proof (resolveNode_inv _ _ _ _ _ _ _ Hf Hs Er) as Hs1.
  destruct found; by intros [= <- <-].
Qed.

Lemma ServeHTTP_inv s w r s' resp :
  answerable s w r -> server_inv s -> ServeHTTP overlayCPIO s w r = Some (s', resp) -> server_inv s'.
Proof.
  intros Ha Hs. unfold ServeHTTP. destruct (bool_decide _).
  { intros [= E]. replace s' with (s', resp).1 by done. rewrite <- E. apply serve_iso_inv; [done|].
    intros data t Hd. right. eexists. by split. }
  destruct (bool_decide _ || _); [by intros [= <- <-]|].
  destruct (Submatch isoRe (Path r)) as [rawMAC|] eqn:Ep.
  - by apply serve_node_inv.
  - apply serve_proxy_inv; [apply Ha|done].
Qed.

Lemma step_inv s s' : server_step s s' -> server_inv s -> server_inv s'.
Proof.
  destruct 1 as [s w r s' resp Ha E|s ob Hf|s o e Ho]; intros Hs.
  - by eapply ServeHTTP_inv.
  - by apply ReloadAll_inv.
  - destruct Hs as [[Hw Hm] K2 K3 K4]. split; [|done..]. cbn [ipxeEFI isoCache with_cache]. split.
    + by eapply wf_step; [apply cs_round|].
    + replace (contents _) with (contents (Cache.heap (isoCache s))); [done|].
      unfold Cache.startReaper_round. destruct (Cache.reaping _); [|done].
      destruct e as [now|]; [by rewrite Reap_eq|by destruct (Cache.stopped _)].
Qed.

Lemma started_inv s : started s -> server_inv s.
Proof.
  intros (P & getenv & files & o1 & o2 & o3 & now & K1 & K2 & K3 & ->).
  unfold main_server. cbv zeta. apply ReloadAll_inv; [by split|]. split; cbn.
  - apply all_made_new.
  - apply applyOverrides_win.
  - apply canonical_empty.
  - unfold loadConfigFile. destruct (files _) as [b| |]; [|apply canonical_empty..].
    destruct (unmarshal_Config b) as [|c]; [apply canonical_empty|]. by apply rekey_canonical.
Qed.

Lemma reachable_inv s : reachable s -> server_inv s.
Proof.
  intros (s0 & Hs0%started_inv & Hsteps). induction Hsteps as [|s1 s2 s3 H12 _ IH]; [done|].
  by apply IH, (step_inv s1).
Qed.
End running.
End Running.
Import Running.

(** The running server: from start-up, through any requests (for images
    of nodes whose records the hash covers), reloads and sweeps of the cache, in
    any order, every image in the cache is the one its hash stands for, the
    overrides are in force, and both node tables are under canonical
    keys, so that [lookup], which canonicalizes its argument only for the first,
    treats them alike. *)
Theorem server_invariant {U : Unicode} {UL : UnicodeLaws U} `{Json, Sha256, Archive}
    (overlayCPIO : bytes) (s : Server) (Hreach : reachable overlayCPIO s) :
  server_inv s /\
  forall mac, lookup s (normalizeKey mac) =
    match Store.nodes (nodes s) !! normalizeKey mac with
    | Some n => Some n
    | None => Nodes (cfg s) !! normalizeKey mac
    end.
Proof.
  split; [by eapply reachable_inv|]. intros mac. unfold lookup, Get.
  by rewrite normalizeKey_twice.
Qed.


(** ** The reverse proxy *)

(** Header maps as they come from the network: no key without a value. *)
Definition full (h : header) : Prop := forall k, h !! k <> Some [].

Lemma copyHeaders_lookup skipLen h k :
  full h ->
  copyHeaders skipLen h !! k =
    if skipLen && EqualFold k "Content-Length"%string then None else h !! k.
Proof.
  intros Hf. unfold copyHeaders. rewrite HeaderFacts.copy_lookup.
  destruct (skipLen && _); [done|]. specialize (Hf k). by destruct (h !! k) as [[|v vs]|].
Qed.

(** Enough rounds for every node resolution of a request. *)
Definition enough_rounds (s : Server) (w : world) : Prop :=
  (forall j, w_start w + Z.of_nat j * missPollInterval <= rd_now (w_rounds w j)) /\
  0 <= missWait s /\ missWait s / missPollInterval + 2 <= Z.of_nat (w_fuel w).

Lemma rewrite_body_ends `{Unicode, Json, Sha256, Archive} s w c r genesisMAC body :
  enough_rounds s w -> is_Some (rewrite_body s w c r genesisMAC body).
Proof.
  intros (K1 & K2 & K3). unfold rewrite_body. destruct (Contains _ _); [|done].
  destruct (bool_decide _); [done|].
  destruct (resolveNode_ends (w_rounds w) (w_start w) (ipxe_mac (Path r) genesisMAC) s (w_fuel w)
    K1 K2 K3) as (s' & res & -> & _). cbn. by destruct res.
Qed.

(** C10: what the rack gets and what the client gets, case by case.  The rack
    is asked for the same path below its base URL, with the same method and
    body, the same header fields except that it must not compress.  The client
    always gets an answer: 503 exactly when no rack is configured; otherwise
    500 when no request can be made from the method and URL and 502 when the
    rack cannot be reached.  When the rack answers, binary paths and anything
    but GET come back with the rack's status, header fields and as much of its
    body as arrived, even when that breaks off.  On the other paths a body that
    breaks off gives 502; a complete one keeps its status and its header fields
    except for its length, which is that of the rewritten body.  Apart from that
    rewriting, which may reload the nodes, the server is left as it was. *)
Theorem proxy_contract `{Unicode, Json, Sha256, Archive} (s : Server) (w : world) (r : request)
    (Hfull : full (ReqHeader r))
    (Hfull' : forall q st h b c, w_upstream w q = UpResponse st h b c -> full h)
    (Hrounds : enough_rounds s w) :
  let '(upQuery, genesisMAC) := split_query (RawQuery r) in
  let up := upstream_request (cfg s) r upQuery in
  (up_method up = Method r /\ up_body up = ReqBody r /\
   up_url up = TrimRight (RackUpstream (cfg s)) "/"%string ++ Path r ++
     (if bool_decide (upQuery = []) then [] else "?"%string ++ upQuery) /\
   up_header up !! ("Accept-Encoding"%string : bytes) = Some [("identity"%string : bytes)] /\
   forall k, EqualFold k "Accept-Encoding"%string = false -> up_header up !! k = ReqHeader r !! k) /\
  exists s' resp, serve_proxy s w r = Some (s', resp) /\
   (RackUpstream (cfg s) = [] ->
      s' = s /\ resp = HttpError 503 "upstream rack proxy not configured"%string) /\
   (RackUpstream (cfg s) <> [] ->
    match w_upstream w up with
    | UpInvalid => s' = s /\ resp = HttpError 500 "bad upstream request"%string
    | UpUnreachable => s' = s /\ resp = HttpError 502 "upstream unreachable"%string
    | UpResponse st h0 body0 complete =>
        if isBinary (Path r) || negb (bool_decide (Method r = "GET"%string)) then
          s' = s /\ resp = Reply st h0 body0
        else if complete then
          exists h body, resp = Reply st h body /\
            rewrite_body s w (cfg s) r genesisMAC body0 = Some (s', body) /\
            h !! ("Content-Length"%string : bytes) = Some [fmt_d (zlen body)] /\
            forall k, EqualFold k "Content-Length"%string = false -> h !! k = h0 !! k
        else s' = s /\ resp = HttpError 502 "read error from upstream"%string
    end).
Proof.
  destruct (split_query (RawQuery r)) as [upQuery genesisMAC] eqn:Eq. cbv zeta. split.
  - split_and!; [done|done| | |].
    + cbn. destruct (bool_decide (upQuery = [])); [by rewrite app_nil_r|by rewrite <- app_assoc].
    + cbn. unfold Header.Set_. apply lookup_insert_eq.
    + intros k Hk. unfold upstream_request. cbn [up_header]. unfold Header.Set_.
      rewrite lookup_insert_ne.
      2: { intros <-. by vm_compute in Hk. }
      rewrite HeaderFacts.copy_lookup, Hk. specialize (Hfull k). by destruct (_ !! k) as [[|]|].
  - unfold serve_proxy. rewrite Eq.
    destruct (bool_decide_reflect (RackUpstream (cfg s) = [])) as [E|E].
    { eexists _, _. split; [reflexivity|]. by split. }
    destruct (w_upstream w _) as [| |st h body complete] eqn:Eu.
    { eexists _, _. split; [reflexivity|]. by split. }
    { eexists _, _. split; [reflexivity|]. by split. }
    pose proof (Hfull' _ _ _ _ _ Eu) as Hf.
    destruct (isBinary (Path r) || _) eqn:Eb.
    + eexists _, _. split; [reflexivity|]. split; [done|]. intros _. split; [done|].
      f_equal. apply map_eq. intros k. by rewrite copyHeaders_lookup.
    + destruct complete; [|eexists _, _; split; [reflexivity|]; by split].
      destruct (rewrite_body_ends s w (cfg s) r genesisMAC body Hrounds) as [[s2 body2] Er].
      rewrite Er. eexists _, _. split; [reflexivity|]. split; [done|]. intros _.
      eexists _, _. split_and!; [reflexivity|done|apply lookup_insert_eq|].
      intros k Hk. unfold Header.Set_. rewrite lookup_insert_ne.
      * rewrite copyHeaders_lookup by done. by rewrite Hk.
      * intros <-. by vm_compute in Hk.
Qed.

(** ** Witnesses *)

Module ServerSamples.
Import StoreSamples RewriteSamples.

Definition sample_mac_key : bytes := "02:5e:1c:9a:47:d3"%string.

(** A server with one node, an iPXE binary and nothing on disk. *)
Definition sample_server : Server :=
  let s := NewServer
    {| RackUpstream := "http://192.0.2.57:5248/"%string; ProxyBase := "http://maas.example.com/boot"%string;
       OverlayURL := []; Rewrites := []; Nodes := ∅ |} [] [] 0 0 (5 * 10 ^ 9) in
  {| cfg := cfg s; cfgPath := cfgPath s; cfgHash := cfgHash s; cfgLoaded := cfgLoaded s;
     overrides := overrides s; nodes := Put (nodes s) sample_mac_key sample_bonded;
     missWait := 10 ^ 9; isoCache := isoCache s; ipxeEFI := "MZ"%string; bootTime := bootTime s |}.

Definition quiet_observation : observation := {|
  ob_cfg := ReadNotExist; ob_nodes := ReadNotExist;
  ob_cfg_order := fun l => l; ob_nodes_order := fun l => l;
|}.

Definition sample_rounds (j : nat) : round := {|
  rd_ob := quiet_observation; rd_now := Z.of_nat j * missPollInterval; rd_cancelled := false;
|}.

Definition text_header : header := {[ ("Content-Type"%string : bytes) := [("text/plain"%string : bytes)] ]}.

Definition sample_world : world := {|
  w_fuel := 4; w_rounds := sample_rounds; w_start := 0; w_t1 := 0; w_t2 := 0; w_t3 := 0;
  w_upstream _ := UpResponse 200 text_header sample_text true;
|}.

Definition get_request (path : bytes) : request := {|
  Method := "GET"%string; Path := path; RawQuery := []; Host := "maas.example.com"%string;
  RemoteAddr := "192.0.2.9:4711"%string; ReqHeader := text_header; ReqBody := [];
|}.

Lemma text_header_full : full text_header.
Proof.
  intros k Hk. unfold text_header in Hk. apply lookup_singleton_Some in Hk as [_ Hk]. done.
Qed.
End ServerSamples.
Import StoreSamples RewriteSamples ServerSamples.

Lemma resolve_terminates_witness :
  exists s' res, resolveNode 4 sample_rounds 0 "00:00:00:00:00:01"%string sample_server = Some (s', res) /\
    (normalizeKey "00:00:00:00:00:01"%string = [] -> res = None) /\
    (normalizeKey "00:00:00:00:00:01"%string <> [] ->
       res = match Get (nodes s') (normalizeKey "00:00:00:00:00:01"%string) with
             | Some n => Some n
             | None => Nodes (cfg s') !! normalizeKey "00:00:00:00:00:01"%string
             end).
Proof.
  apply (resolve_terminates sample_rounds 0 "00:00:00:00:00:01"%string sample_server 4).
  - intros j. cbn. lia.
  - vm_compute. congruence.
  - vm_compute. congruence.
Defined.

(** A server started on a disk with one nodes file and an iPXE binary. *)
Definition sample_getenv (k : bytes) : bytes :=
  if bool_decide (k = "PROXY_BASE"%string) then sample_proxy
  else if bool_decide (k = "RACK_UPSTREAM"%string) then "http://192.0.2.57:5248/"%string
  else [].

Definition sample_files (p : bytes) : readResult :=
  if bool_decide (p = "/etc/maas-boot-proxy/nodes/nodes.json"%string) then ReadOk "one"%string
  else if bool_decide (p = "/ipxe.efi"%string) then ReadOk "MZ"%string
  else ReadNotExist.

Definition started_server : Server :=
  main_server (fun _ => None) sample_getenv sample_files (fun l => l) (fun l => l) (fun l => l)
    (5 * 10 ^ 9).

Lemma started_server_reachable : reachable [] started_server.
Proof.
  exists started_server. split; [|apply rtc_refl].
  eexists _, _, _, _, _, _, _. split_and!; [..|reflexivity]; apply valid_id.
Qed.

Lemma server_invariant_witness :
  server_inv started_server /\
  lookup started_server (normalizeKey "AABB.CC00.1122"%string) =
    match Store.nodes (nodes started_server) !! normalizeKey "AABB.CC00.1122"%string with
    | Some n => Some n
    | None => Nodes (cfg started_server) !! normalizeKey "AABB.CC00.1122"%string
    end.
Proof.
  pose proof (server_invariant [] started_server started_server_reachable) as [Hi Hl].
  split; [exact Hi|apply Hl].
Defined.

Lemma named_hashable h mac base :
  one_line h -> one_line mac -> one_line base -> hashable (node_named h) mac base.
Proof.
  intros Hh Hm Hb. split; [|apply Forall_nil_2].
  repeat (apply Forall_cons_2; [exact Hh || exact Hm || exact Hb || closed_forall|]).
  apply Forall_nil_2.
Qed.


(** A rack that breaks off. *)
Definition cut_world : world := {|
  w_fuel := 4; w_rounds := sample_rounds; w_start := 0; w_t1 := 0; w_t2 := 0; w_t3 := 0;
  w_upstream _ := UpResponse 200 text_header sample_text false;
|}.

Lemma proxy_contract_witness :
  serve_proxy sample_server cut_world (get_request "/images/ubuntu"%string) =
    Some (sample_server, Reply 200 text_header sample_text) /\
  serve_proxy sample_server cut_world (get_request "/MAAS/preseed"%string) =
    Some (sample_server, HttpError 502 "read error from upstream"%string).
Proof.
  assert (Hf : forall q st h b c, w_upstream cut_world q = UpResponse st h b c -> full h).
  { intros q st h b c E. injection E as _ <- _ _. apply text_header_full. }
  assert (Hr : enough_rounds sample_server cut_world).
  { split_and!; [intros j; cbn; lia|vm_compute; congruence|vm_compute; congruence]. }
  pose proof (proxy_contract sample_server cut_world (get_request "/images/ubuntu"%string)
    text_header_full Hf Hr) as H1.
  pose proof (proxy_contract sample_server cut_world (get_request "/MAAS/preseed"%string)
    text_header_full Hf Hr) as H2.
  destruct H1 as [_ (s1 & r1 & -> & _ & H1)]. destruct H2 as [_ (s2 & r2 & -> & _ & H2)].
  destruct (H1 ltac:(done)) as [-> ->]. destruct (H2 ltac:(done)) as [-> ->]. done.
Defined.

(** A second version of the configuration is watched, then a broken file. *)
Definition sample_events : list watch_event :=
  [WatchTick {| ob_cfg := ReadOk "v2"%string; ob_nodes := ReadNotExist;
                ob_cfg_order := fun l => l; ob_nodes_order := reverse |};
   WatchTick quiet_observation].

Lemma overrides_in_force_witness :
  RackUpstream (cfg (Watch started_server sample_events)) = "http://192.0.2.57:5248/"%string.
Proof.
  refine (proj1 (proj1 (overrides_in_force (fun _ => None) sample_getenv sample_files (fun l => l)
    (fun l => l) (fun l => l) (5 * 10 ^ 9) sample_events valid_id valid_id _)) _).
  - repeat (apply Forall_cons_2; [split; apply valid_id || apply valid_reverse|]).
    apply Forall_nil_2.
  - vm_compute. congruence.
Defined.

(** The file is missing twice, then brings the node. *)
Definition late_rounds (j : nat) : round :=
  if bool_decide (j < 2)%nat then sample_rounds j else {|
    rd_ob := {| ob_cfg := ReadNotExist; ob_nodes := ReadOk "one"%string;
                ob_cfg_order := fun l => l; ob_nodes_order := fun l => l |};
    rd_now := Z.of_nat j * missPollInterval; rd_cancelled := false |}.

Definition empty_server : Server :=
  let s := NewServer Config_zero [] sample_path 0 0 (5 * 10 ^ 9) in
  {| cfg := cfg s; cfgPath := cfgPath s; cfgHash := cfgHash s; cfgLoaded := cfgLoaded s;
     overrides := overrides s; nodes := nodes s; missWait := 10 ^ 9; isoCache := isoCache s;
     ipxeEFI := "MZ"%string; bootTime := bootTime s |}.

Lemma late_node_served_witness :
  exists s', resolveNode 3 late_rounds 0 "aabb.cc00.1122"%string empty_server =
    Some (s', Some (node_named "node-1"%string)).
Proof.
  refine (proj1 (late_node_served late_rounds 0 "aabb.cc00.1122"%string empty_server 0 2
    _ _ _) "one"%string doc_one key_upper (node_named "node-1"%string) _ _ _ _ _ _ _ _ _).
  - vm_compute. congruence.
  - vm_compute. reflexivity.
  - intros i Hi. unfold late_rounds. rewrite bool_decide_true by done. split_and!.
    + split; intros b; discriminate.
    + change (0 + missWait empty_server) with (10 ^ 9). cbn [rd_now sample_rounds].
      change missPollInterval with (5 * 10 ^ 8). lia.
    + reflexivity.
  - done.
  - reflexivity.
  - apply valid_id.
  - reflexivity.
  - reflexivity.
  - done.
  - apply no_clash_one.
  - apply lookup_singleton_eq.
  - vm_compute. reflexivity.
Defined.
