(* ===== verification/GoHeap.v ===== *)
(** * A typed Go heap and deep copies on it

    Values with pointers, slices and maps: a heap of cells, the Go operations
    on it, the loops that generated deep copies consist of, and what it means
    that a result is a deep copy.  The types of a program are a [Universe]. *)

From S2P Require Import Prelude.

Abbreviation loc := nat.

(** A slice is a window of a backing array; its capacity plays no part in
    reading it or in copying it. *)
Record window := Window { w_arr : loc; w_off : nat; w_len : nat }.

(** ** The layout of values *)

(** A value as it lies in memory: scalars, references with the type they
    refer to, and the fields of structs one after the other. *)
Inductive gval (T : Type) : Type :=
| GStr (s : bytes)
| GInt (z : Z)
| GBool (b : bool)
| GPtr (t : T) (p : option loc)
| GSlice (t : T) (s : option window)
| GMap (t : T) (m : option loc)
| GUnit
| GPair (a b : gval T).
Arguments GStr {T} s.
Arguments GInt {T} z.
Arguments GBool {T} b.
Arguments GPtr {T} t p.
Arguments GSlice {T} t s.
Arguments GMap {T} t m.
Arguments GUnit {T}.
Arguments GPair {T} a b.

(** The types of a program: their names, their values, the layout of a value
    and the zero value. *)
Class Universe := {
  ty : Type;
  ty_eq_dec :: EqDecision ty;
  den : ty -> Type;
  enc : forall t, den t -> gval ty;
  zero : forall t, den t;
}.

(** [*T], [[]T] and [map[string]T], [None] being nil. *)
Definition ptr {T : Type} (t : T) : Type := option loc.
Definition gslice {T : Type} (t : T) : Type := option window.
Definition gomap {T : Type} (t : T) : Type := option loc.

(** What one allocation holds. *)
Inductive cell `{Universe} :=
| Obj (t : ty) (v : den t)
| Arr (t : ty) (vs : list (den t))
| Tab (t : ty) (m : gmap bytes (den t)).

Abbreviation heap := (list cell).

(** The order in which [range] visits a map: any, and not always the same. *)
Class MapOrder := { visit_order : forall {A}, nat -> list (bytes * A) -> list (bytes * A) }.
Class MapOrderLaws (O : MapOrder) : Prop := {
  visit_all : forall A n (l : list (bytes * A)), visit_order n l ≡ₚ l;
}.

Section ops.
Context `{Universe}.

(** Reading a cell at a type. *)
Definition obj_at (h : heap) (t : ty) (l : loc) : option (den t) :=
  match h !! l with
  | Some (Obj t' v) =>
      match decide (t' = t) with left e => Some (eq_rect t' den v t e) | right _ => None end
  | _ => None
  end.

Definition arr_at (h : heap) (t : ty) (l : loc) : option (list (den t)) :=
  match h !! l with
  | Some (Arr t' v) =>
      match decide (t' = t) with
      | left e => Some (eq_rect t' (fun t => list (den t)) v t e) | right _ => None end
  | _ => None
  end.

Definition tab_at (h : heap) (t : ty) (l : loc) : option (gmap bytes (den t)) :=
  match h !! l with
  | Some (Tab t' v) =>
      match decide (t' = t) with
      | left e => Some (eq_rect t' (fun t => gmap bytes (den t)) v t e) | right _ => None end
  | _ => None
  end.

(** The elements of a slice. *)
Definition elems_at (h : heap) (t : ty) (w : window) : option (list (den t)) :=
  vs ← arr_at h t (w_arr w);
  if decide (w_off w + w_len w <= length vs)%nat
  then Some (take (w_len w) (drop (w_off w) vs)) else None.

(** ** Computations

    [None] is a panic. *)

Definition heapM (A : Type) : Type := heap -> option (heap * A).

#[global] Instance heapM_ret : MRet heapM := fun A a h => Some (h, a).
#[global] Instance heapM_bind : MBind heapM := fun A B f m h =>
  match m h with Some (h', a) => f a h' | None => None end.

Definition alloc (c : cell) : heapM loc := fun h => Some (h ++ [c], length h).

Definition write_cell (l : loc) (c : cell) : heapM unit := fun h => Some (<[l := c]> h, tt).

Definition gets {A} (f : heap -> option A) : heapM A := fun h => a ← f h; Some (h, a).

(** [new(T)], [*p], [*p = v] *)
Definition new (t : ty) : heapM (ptr t) := l ← alloc (Obj t (zero t)); mret (Some l).

Definition deref {t : ty} (p : ptr t) : heapM (den t) :=
  gets (fun h => l ← p; obj_at h t l).

Definition assign {t : ty} (p : ptr t) (v : den t) : heapM unit :=
  l ← gets (fun h => l ← p; _ ← obj_at h t l; Some l);
  write_cell l (Obj t v).

(** [make([]T, n)], [s[i]], [s[i] = v], [len(s)] *)
Definition make_slice (t : ty) (n : nat) : heapM (gslice t) :=
  l ← alloc (Arr t (replicate n (zero t))); mret (Some (Window l 0 n)).

Definition len {t : ty} (s : gslice t) : nat := match s with Some w => w_len w | None => 0%nat end.

Definition index {t : ty} (s : gslice t) (i : nat) : heapM (den t) :=
  gets (fun h => w ← s; vs ← elems_at h t w; vs !! i).

Definition set_index {t : ty} (s : gslice t) (i : nat) (v : den t) : heapM unit :=
  '(w, vs) ← gets (fun h => w ← s; vs ← arr_at h t (w_arr w);
                            if decide (i < w_len w)%nat then Some (w, vs) else None);
  write_cell (w_arr w) (Arr t (<[(w_off w + i)%nat := v]> vs)).

(** [copy(dst, src)] between slices of one length *)
Fixpoint copy_elems {t : ty} (dst src : gslice t) (i n : nat) : heapM unit :=
  match n with
  | O => mret tt
  | S n => v ← index src i; _ ← set_index dst i v; copy_elems dst src (S i) n
  end.

(** [make(map[string]T)] and [m[k] = v] *)
Definition make_map (t : ty) : heapM (gomap t) := l ← alloc (Tab t ∅); mret (Some l).

Definition entries {t : ty} (m : gomap t) : heapM (gmap bytes (den t)) :=
  gets (fun h => l ← m; tab_at h t l).

Definition set_key {t : ty} (m : gomap t) (k : bytes) (v : den t) : heapM unit :=
  '(l, kvs) ← gets (fun h => l ← m; kvs ← tab_at h t l; Some (l, kvs));
  write_cell l (Tab t (<[k := v]> kvs)).

(** ** The parts of a generated deep copy *)

(** [out := new(T); in.DeepCopyInto(out)], nil for nil.  [into] is
    [DeepCopyInto] as a function from [*in] to what it stores in [*out]. *)
Definition copy_ptr (t : ty) (into : den t -> heapM (den t)) (p : ptr t) : heapM (ptr t) :=
  match p with
  | None => mret None
  | Some _ =>
      out ← new t;
      v ← deref p; v' ← into v; _ ← assign out v';
      mret out
  end.

(** [*out = new(T); **out = **in] *)
Definition copy_ptr_plain (t : ty) (p : ptr t) : heapM (ptr t) :=
  match p with
  | None => mret None
  | Some _ => out ← new t; v ← deref p; _ ← assign out v; mret out
  end.

(** [make([]T, len(in)); copy(out, in)] *)
Definition copy_slice (t : ty) (s : gslice t) : heapM (gslice t) :=
  match s with
  | None => mret None
  | Some _ => out ← make_slice t (len s); _ ← copy_elems out s 0 (len s); mret out
  end.

(** [for i := range in { in[i].DeepCopyInto(&out[i]) }], from [i],
    with [n] elements left *)
Fixpoint into_elems {t : ty} (into : den t -> heapM (den t)) (dst src : gslice t) (i n : nat)
    : heapM unit :=
  match n with
  | O => mret tt
  | S n =>
      v ← index src i; v' ← into v; _ ← set_index dst i v';
      into_elems into dst src (S i) n
  end.

Definition copy_slice_into (t : ty) (into : den t -> heapM (den t)) (s : gslice t)
    : heapM (gslice t) :=
  match s with
  | None => mret None
  | Some _ => out ← make_slice t (len s); _ ← into_elems into out s 0 (len s); mret out
  end.

(** [range in], for a map *)
Definition range `{MapOrder} {t : ty} (m : gomap t) : heapM (list (bytes * den t)) :=
  kvs ← entries m; n ← gets (fun h => Some (length h)); mret (visit_order n (map_to_list kvs)).

(** [for key, val := range in { out[key] = val }] *)
Fixpoint set_keys {t : ty} (out : gomap t) (kvs : list (bytes * den t)) : heapM unit :=
  match kvs with
  | [] => mret tt
  | (k, v) :: kvs => _ ← set_key out k v; set_keys out kvs
  end.

Definition copy_map `{MapOrder} (t : ty) (m : gomap t) : heapM (gomap t) :=
  match m with
  | None => mret None
  | Some _ => out ← make_map t; kvs ← range m; _ ← set_keys out kvs; mret out
  end.

(** [for key, val := range in { out[key] = *val.DeepCopy() }]; the loop
    variable has an address, which is the receiver of the call. *)
Fixpoint into_keys {t : ty} (deepcopy : ptr t -> heapM (ptr t)) (out : gomap t)
    (kvs : list (bytes * den t)) : heapM unit :=
  match kvs with
  | [] => mret tt
  | (k, v) :: kvs =>
      val ← alloc (Obj t v);
      p ← deepcopy (Some val); v' ← deref p; _ ← set_key out k v';
      into_keys deepcopy out kvs
  end.

Definition copy_map_into `{MapOrder} (t : ty) (deepcopy : ptr t -> heapM (ptr t)) (m : gomap t)
    : heapM (gomap t) :=
  match m with
  | None => mret None
  | Some _ => out ← make_map t; kvs ← range m; _ ← into_keys deepcopy out kvs; mret out
  end.

End ops.

(** ** What a value stands for *)

(** A value with everything it refers to, as [reflect.DeepEqual] compares it:
    nil is different from empty, and it does not matter where things lie. *)
Inductive tree :=
| TStr (s : bytes)
| TInt (z : Z)
| TBool (b : bool)
| TNil
| TRef (x : tree)
| TUnit
| TPair (a b : tree).

Section deep.
Context `{Universe}.

Fixpoint collect (l : list (option tree)) : option tree :=
  match l with
  | [] => Some TUnit
  | x :: l => x ← x; y ← collect l; Some (TPair x y)
  end.

(** At most [n] references deep. *)
Fixpoint resolve (n : nat) (h : heap) (g : gval ty) {struct n} : option tree :=
  let fix go (g : gval ty) : option tree :=
    match g with
    | GStr s => Some (TStr s)
    | GInt z => Some (TInt z)
    | GBool b => Some (TBool b)
    | GUnit => Some TUnit
    | GPair a b => x ← go a; y ← go b; Some (TPair x y)
    | GPtr _ None | GSlice _ None | GMap _ None => Some TNil
    | GPtr t (Some l) =>
        match n with
        | O => None
        | S n => v ← obj_at h t l; x ← resolve n h (enc t v); Some (TRef x)
        end
    | GSlice t (Some w) =>
        match n with
        | O => None
        | S n => vs ← elems_at h t w; x ← collect ((fun v => resolve n h (enc t v)) <$> vs); Some (TRef x)
        end
    | GMap t (Some l) =>
        match n with
        | O => None
        | S n =>
            m ← tab_at h t l;
            x ← collect ((fun k => v ← m !! k; x ← resolve n h (enc t v); Some (TPair (TStr k) x))
                         <$> elements (dom m));
            Some (TRef x)
        end
    end in
  go g.

(** References of a value that point to cells of their types. *)
Fixpoint refs_typed (h : heap) (g : gval ty) : Prop :=
  match g with
  | GPtr t (Some l) => is_Some (obj_at h t l)
  | GSlice t (Some w) => is_Some (elems_at h t w)
  | GMap t (Some l) => is_Some (tab_at h t l)
  | GPair a b => refs_typed h a /\ refs_typed h b
  | _ => True
  end.

Definition cell_typed (h : heap) (c : cell) : Prop :=
  match c with
  | Obj t v => refs_typed h (enc t v)
  | Arr t vs => Forall (fun v => refs_typed h (enc t v)) vs
  | Tab t m => map_Forall (fun _ v => refs_typed h (enc t v)) m
  end.

(** A well-typed heap. *)
Definition heap_typed (h : heap) : Prop := Forall (cell_typed h) h.

(** A value without references. *)
Fixpoint plain (g : gval ty) : bool :=
  match g with
  | GPtr _ _ | GSlice _ _ | GMap _ _ => false
  | GPair a b => plain a && plain b
  | _ => true
  end.

(** References only to types whose rank is below [n]. *)
Fixpoint ranked (rank : ty -> nat) (n : nat) (g : gval ty) : Prop :=
  match g with
  | GPtr t _ | GSlice t _ | GMap t _ => (rank t < n)%nat
  | GPair a b => ranked rank n a /\ ranked rank n b
  | _ => True
  end.

(** Every cell of [h] from [b] on is in [k] too. *)
Definition keeps_from (b : nat) (h k : heap) : Prop :=
  forall l c, (b <= l)%nat -> h !! l = Some c -> k !! l = Some c.

(** [g] stands for [x] by way of the cells from [b] on alone. *)
Definition owned (b : nat) (h : heap) (n : nat) (g : gval ty) (x : tree) : Prop :=
  forall k, keeps_from b h k -> resolve n k g = Some x.

(** [m], run in [h], returns a value that stands for [x] and owns all it
    refers to, and leaves every cell of [h] as it is. *)
Definition makes {A} (la : A -> gval ty) (n : nat) (x : tree) (m : heapM A) (h : heap) : Prop :=
  exists h' a, m h = Some (h', a) /\ h `prefix_of` h' /\ owned (length h) h' n (la a) x.

(** [f] is a deep copy. *)
Definition deep_copies {A} (la : A -> gval ty) (f : A -> heapM A) : Prop :=
  forall n h a x, resolve n h (la a) = Some x -> makes la n x (f a) h.

End deep.
