(* ===== verification/GoHeapFacts.v ===== *)
(** * Deep copies on the Go heap: the facts

    Each part of a generated deep copy ([copy_ptr], [copy_slice_into],
    [copy_map_into] and their plain versions) is a deep copy when what it calls
    is one, and the copy of a struct is put together from those of its fields.
    On a well-typed heap whose types are not recursive every value stands for
    something. *)

From S2P Require Import Prelude GoHeap.
From Stdlib Require Import Eqdep_dec.
#[local] Set Warnings "-clear-no-such-hyp".

Section cells.
Context `{Universe}.
Implicit Types (h k : heap) (t : ty) (l : loc).

Lemma eq_rect_ty {P : ty -> Type} t (v : P t) (e : t = t) : eq_rect t P v t e = v.
Proof. by rewrite <- (eq_rect_eq_dec (fun x y => decide (x = y))). Qed.

Lemma existT_ty {P : ty -> Type} t (v v' : P t) : existT t v = existT t v' -> v = v'.
Proof. apply inj_pair2_eq_dec. intros x y. apply (decide (x = y)). Qed.

Lemma obj_at_Some h t l v : obj_at h t l = Some v <-> h !! l = Some (Obj t v).
Proof.
  unfold obj_at. destruct (h !! l) as [[t' v'|t' v'|t' v']|]; [|naive_solver..].
  destruct (decide (t' = t)) as [<-|Hne].
  - rewrite eq_rect_ty. split; [by intros [= ->]|]. intros [= E].
    by apply existT_ty in E as ->.
  - split; [done|]. by intros [= ? _].
Qed.

Lemma arr_at_Some h t l v : arr_at h t l = Some v <-> h !! l = Some (Arr t v).
Proof.
  unfold arr_at. destruct (h !! l) as [[t' v'|t' v'|t' v']|]; [naive_solver| |naive_solver..].
  destruct (decide (t' = t)) as [<-|Hne].
  - rewrite (eq_rect_ty (P := fun t => list (den t))). split; [by intros [= ->]|]. intros [= E].
    by apply existT_ty in E as ->.
  - split; [done|]. by intros [= ? _].
Qed.

Lemma tab_at_Some h t l v : tab_at h t l = Some v <-> h !! l = Some (Tab t v).
Proof.
  unfold tab_at. destruct (h !! l) as [[t' v'|t' v'|t' v']|]; [naive_solver|naive_solver| |naive_solver].
  destruct (decide (t' = t)) as [<-|Hne].
  - rewrite (eq_rect_ty (P := fun t => gmap bytes (den t))). split; [by intros [= ->]|].
    intros [= E]. by apply existT_ty in E as ->.
  - split; [done|]. by intros [= ? _].
Qed.

Lemma elems_at_Some h t w vs :
  elems_at h t w = Some vs <->
  exists us, h !! w_arr w = Some (Arr t us) /\ (w_off w + w_len w <= length us)%nat /\
    vs = take (w_len w) (drop (w_off w) us).
Proof.
  unfold elems_at. destruct (arr_at h t (w_arr w)) as [us|] eqn:E; cbn.
  - apply arr_at_Some in E. destruct (decide _); split.
    + intros [= <-]. eauto.
    + intros (us' & E' & _ & ->). rewrite E in E'. injection E' as E'.
      by apply existT_ty in E' as ->.
    + done.
    + intros (us' & E' & Hl & ->). rewrite E in E'. injection E' as E'.
      by apply existT_ty in E' as ->.
  - split; [done|]. intros (us & E' & _). apply arr_at_Some in E'. congruence.
Qed.

(** ** Resolution *)

Definition tree_list (xs : list tree) : tree := foldr TPair TUnit xs.

Lemma collect_Some (l : list (option tree)) x :
  collect l = Some x <-> exists xs, l = Some <$> xs /\ x = tree_list xs.
Proof.
  revert x. induction l as [|[y|] l IH]; intros x; cbn.
  - split; [intros [= <-]; by exists []|]. by intros ([|? xs] & E & ->).
  - destruct (collect l) as [z|] eqn:E; cbn.
    + split.
      * intros [= <-]. destruct (proj1 (IH z) eq_refl) as (xs & -> & ->). by exists (y :: xs).
      * intros ([|y' xs] & E' & ->); [done|]. injection E' as <- E'.
        assert (Some z = Some (tree_list xs)) as [= ->] by (apply IH; eauto). done.
    + split; [done|]. intros ([|y' xs] & E' & ->); [done|]. injection E' as <- E'.
      assert (None = Some (tree_list xs)) by (apply IH; eauto). done.
  - split; [done|]. intros ([|y' xs] & E' & _); done.
Qed.

Lemma collect_fmap {A} (f : A -> option tree) (l : list A) x :
  collect (f <$> l) = Some x <-> exists xs, Forall2 (fun a y => f a = Some y) l xs /\ x = tree_list xs.
Proof.
  rewrite collect_Some. split; intros (xs & E & ->); exists xs; (split; [|done]).
  - revert xs E. induction l as [|a l IH]; intros [|y xs] E; try done.
    injection E as E1 E2. constructor; auto.
  - induction E as [|a y l xs E1 _ IH]; [done|]. cbn. by rewrite E1, IH.
Qed.

Lemma resolve_pair n h a b :
  resolve n h (GPair a b) = (x ← resolve n h a; y ← resolve n h b; Some (TPair x y)).
Proof. by destruct n. Qed.

Lemma resolve_pair_Some n h a b x :
  resolve n h (GPair a b) = Some x <->
  exists xa xb, resolve n h a = Some xa /\ resolve n h b = Some xb /\ x = TPair xa xb.
Proof.
  rewrite resolve_pair. destruct (resolve n h a) as [xa|]; cbn; [|naive_solver].
  destruct (resolve n h b) as [xb|]; cbn; naive_solver.
Qed.

Lemma resolve_ptr_Some n h t l x :
  resolve n h (GPtr t (Some l)) = Some x <->
  exists m v y, n = S m /\ obj_at h t l = Some v /\ resolve m h (enc t v) = Some y /\ x = TRef y.
Proof.
  destruct n as [|n]; cbn; [naive_solver|].
  destruct (obj_at h t l) as [v|]; cbn; [|naive_solver].
  destruct (resolve n h (enc t v)) as [y|] eqn:E; cbn; naive_solver.
Qed.

Lemma resolve_slice_Some n h t w x :
  resolve n h (GSlice t (Some w)) = Some x <->
  exists m vs ys, n = S m /\ elems_at h t w = Some vs /\
    Forall2 (fun v y => resolve m h (enc t v) = Some y) vs ys /\ x = TRef (tree_list ys).
Proof.
  destruct n as [|n]; cbn; [naive_solver|].
  destruct (elems_at h t w) as [vs|]; cbn; [|naive_solver].
  destruct (collect _) as [y|] eqn:E; cbn.
  - apply collect_fmap in E as (ys & Hf & ->). split; [naive_solver|].
    intros (m & vs' & ys' & [= <-] & [= <-] & Hf' & ->).
    assert (collect ((fun v => resolve n h (enc t v)) <$> vs) = Some (tree_list ys)) as E1
      by (apply collect_fmap; eauto).
    assert (collect ((fun v => resolve n h (enc t v)) <$> vs) = Some (tree_list ys')) as E2
      by (apply collect_fmap; eauto). congruence.
  - split; [done|]. intros (m & vs' & ys' & [= <-] & [= <-] & Hf' & ->).
    enough (None = Some (tree_list ys')) by done. rewrite <- E. apply collect_fmap. eauto.
Qed.

(** The trees of the entries of a map, in the order of its keys. *)
Definition entry_tree (n : nat) h t (m : gmap bytes (den t)) (k : bytes) (y : tree) : Prop :=
  exists v x, m !! k = Some v /\ resolve n h (enc t v) = Some x /\ y = TPair (TStr k) x.

Lemma entry_tree_Some (n : nat) h t (m : gmap bytes (den t)) (k : bytes) y :
  (v ← m !! k; x ← resolve n h (enc t v); Some (TPair (TStr k) x)) = Some y <->
  entry_tree n h t m k y.
Proof.
  unfold entry_tree. destruct (m !! k) as [v|]; cbn; [|naive_solver].
  destruct (resolve n h (enc t v)) as [x|] eqn:E; cbn; naive_solver.
Qed.

Lemma resolve_map_Some n h t l x :
  resolve n h (GMap t (Some l)) = Some x <->
  exists p m ys, n = S p /\ tab_at h t l = Some m /\
    Forall2 (entry_tree p h t m) (elements (dom m)) ys /\ x = TRef (tree_list ys).
Proof.
  destruct n as [|n]; cbn; [naive_solver|].
  destruct (tab_at h t l) as [m|]; cbn; [|naive_solver].
  set (f := fun k : bytes => _). assert (Hf : forall ys,
    Forall2 (fun (k : bytes) y => f k = Some y) (elements (dom m)) ys <->
    Forall2 (entry_tree n h t m) (elements (dom m)) ys).
  { intros ys. split; intros Hx; (eapply Forall2_impl; [exact Hx|]); intros; by apply entry_tree_Some. }
  destruct (collect (f <$> elements (dom m))) as [y|] eqn:E; cbn.
  - apply collect_fmap in E as (ys & Hy & ->). split.
    + intros [= <-]. exists n, m, ys. by rewrite <- Hf.
    + intros (p & m' & ys' & [= <-] & [= <-] & Hy' & ->). apply Hf in Hy'.
      assert (collect (f <$> elements (dom m)) = Some (tree_list ys)) by (apply collect_fmap; eauto).
      assert (collect (f <$> elements (dom m)) = Some (tree_list ys')) by (apply collect_fmap; eauto).
      congruence.
  - split; [done|]. intros (p & m' & ys' & [= <-] & [= <-] & Hy' & ->). apply Hf in Hy'.
    enough (None = Some (tree_list ys')) by done. rewrite <- E. apply collect_fmap. eauto.
Qed.
End cells.

Section ownership.
Context `{Universe}.
Implicit Types (h k : heap) (t : ty) (l : loc) (g : gval ty).

(** ** What a resolution depends on *)

Lemma keeps_obj b h k t l v : keeps_from b h k -> (b <= l)%nat ->
  obj_at h t l = Some v -> obj_at k t l = Some v.
Proof. rewrite !obj_at_Some. auto. Qed.

Lemma keeps_elems b h k t w vs : keeps_from b h k -> (b <= w_arr w)%nat ->
  elems_at h t w = Some vs -> elems_at k t w = Some vs.
Proof. rewrite !elems_at_Some. naive_solver. Qed.

Lemma keeps_tab b h k t l m : keeps_from b h k -> (b <= l)%nat ->
  tab_at h t l = Some m -> tab_at k t l = Some m.
Proof. rewrite !tab_at_Some. auto. Qed.

Lemma resolve_keeps n h k g x :
  keeps_from 0 h k -> resolve n h g = Some x -> resolve n k g = Some x.
Proof.
  intros Hk. revert g x. induction n as [n IH] using lt_wf_ind.
  intros g. induction g as [s|z|b|t p|t s|t m| |a IHa b IHb]; intros x.
  - by destruct n.
  - by destruct n.
  - by destruct n.
  - destruct p as [l|]; [|by destruct n].
    intros (m & v & y & -> & Ho & Hr & ->)%resolve_ptr_Some. apply resolve_ptr_Some.
    exists m, v, y. split_and!; [done| |apply IH; [lia|done]|done].
    by apply (keeps_obj 0 h); [|lia|].
  - destruct s as [w|]; [|by destruct n].
    intros (m & vs & ys & -> & Ho & Hr & ->)%resolve_slice_Some. apply resolve_slice_Some.
    exists m, vs, ys. split_and!; [done|by apply (keeps_elems 0 h); [|lia|]| |done].
    eapply Forall2_impl; [exact Hr|]. intros. by apply IH; [lia|].
  - destruct m as [l|]; [|by destruct n].
    intros (p & m & ys & -> & Ho & Hr & ->)%resolve_map_Some. apply resolve_map_Some.
    exists p, m, ys. split_and!; [done|by apply (keeps_tab 0 h); [|lia|]| |done].
    eapply Forall2_impl; [exact Hr|]. intros key y (v & x & E & Hx & ->).
    exists v, x. split_and!; [done|by apply IH; [lia|]|done].
  - by destruct n.
  - rewrite !resolve_pair_Some. intros (xa & xb & Ha & Hb & ->). eauto 10.
Qed.

Lemma resolve_plain n m h k g : plain g = true -> resolve n h g = resolve m k g.
Proof.
  induction g as [s|z|b|t p|t s|t p| |a IHa b IHb]; cbn [plain]; intros Hp;
    try (by destruct n, m); try done.
  apply andb_prop in Hp as [Ha Hb]. by rewrite !resolve_pair, IHa, IHb.
Qed.

Lemma prefix_keeps b h k : h `prefix_of` k -> keeps_from b h k.
Proof. intros [r ->] l c _ Hl. by apply lookup_app_l_Some. Qed.

Lemma keeps_trans b h1 h2 h3 : keeps_from b h1 h2 -> keeps_from b h2 h3 -> keeps_from b h1 h3.
Proof. unfold keeps_from. eauto. Qed.

Lemma resolve_prefix n h k g x :
  h `prefix_of` k -> resolve n h g = Some x -> resolve n k g = Some x.
Proof. intros Hp. by apply resolve_keeps, prefix_keeps. Qed.

(** ** Ownership *)

Lemma owned_later b h h' n g x : h `prefix_of` h' -> owned b h n g x -> owned b h' n g x.
Proof. intros Hp Ho k Hk. apply Ho. eapply keeps_trans; [by apply prefix_keeps|done]. Qed.

Lemma owned_earlier b b' h n g x : (b <= b')%nat -> owned b' h n g x -> owned b h n g x.
Proof. intros Hb Ho k Hk. apply Ho. intros l c Hl. apply Hk. lia. Qed.

Lemma owned_now b h n g x : owned b h n g x -> resolve n h g = Some x.
Proof. intros Ho. apply Ho. by intros l c _. Qed.

Lemma owned_plain b h n g x : plain g = true -> resolve n h g = Some x -> owned b h n g x.
Proof. intros Hp Hr k _. by rewrite (resolve_plain n n k h). Qed.

Lemma owned_pair b h n g1 g2 x1 x2 :
  owned b h n g1 x1 -> owned b h n g2 x2 -> owned b h n (GPair g1 g2) (TPair x1 x2).
Proof. intros H1 H2 k Hk. rewrite resolve_pair. by rewrite (H1 k Hk), (H2 k Hk). Qed.

(** The cell at the boundary does not matter. *)
Lemma owned_swap h c c' r r' n g x :
  r `prefix_of` r' -> owned (S (length h)) (h ++ c :: r) n g x ->
  owned (S (length h)) (h ++ c' :: r') n g x.
Proof.
  intros Hr Ho k Hk. apply Ho. intros l d Hl E. apply Hk; [done|].
  rewrite lookup_app_r in E by lia. rewrite lookup_app_r by lia.
  destruct (l - length h)%nat as [|i] eqn:Ei; [lia|]. cbn in E |- *.
  destruct Hr as [q ->]. by apply lookup_app_l_Some.
Qed.

(** ** Copies of structs, field by field *)

(** [makes] in the middle of a computation that began in [h0]. *)
Definition makes_from h0 {A} (la : A -> gval ty) (n : nat) (x : tree) (m : heapM A) (h : heap) : Prop :=
  exists h' a, m h = Some (h', a) /\ h0 `prefix_of` h' /\ owned (length h0) h' n (la a) x.

Lemma makes_ret h0 {A} (la : A -> gval ty) n x h (a : A) :
  h0 `prefix_of` h -> owned (length h0) h n (la a) x -> makes_from h0 la n x (mret a) h.
Proof. intros. by exists h, a. Qed.

Lemma makes_bind h0 {A B} (la : A -> gval ty) (lb : B -> gval ty) (f : A -> heapM A)
    (k : A -> heapM B) n x y (a : A) h :
  deep_copies la f -> h0 `prefix_of` h -> resolve n h0 (la a) = Some x ->
  (forall h' a', h `prefix_of` h' -> h0 `prefix_of` h' -> owned (length h0) h' n (la a') x ->
     makes_from h0 lb n y (k a') h') ->
  makes_from h0 lb n y (a' ← f a; k a') h.
Proof.
  intros Hf Hp Hx Hk. destruct (Hf n h a x) as (h1 & a1 & E & Hp1 & Ho).
  { by eapply resolve_prefix. }
  destruct (Hk h1 a1) as (h2 & b & E2 & Hp2 & Ho2); [done|by etrans| |].
  { eapply owned_earlier; [|exact Ho]. by apply prefix_length. }
  exists h2, b. split; [|done]. unfold mbind, heapM_bind. by rewrite E.
Qed.

Lemma deep_copies_plain {A} (la : A -> gval ty) :
  (forall a, plain (la a) = true) -> deep_copies la mret.
Proof. intros Hp n h a x Hx. exists h, a. split_and!; [done..|by apply owned_plain]. Qed.

Lemma deep_copies_ext {A} (la : A -> gval ty) (f g : A -> heapM A) :
  (forall a h, f a h = g a h) -> deep_copies la f -> deep_copies la g.
Proof.
  intros E Hf n h a x Hx. destruct (Hf n h a x Hx) as (h' & a' & Ea & Hr).
  exists h', a'. split; [|done]. by rewrite <- E.
Qed.
End ownership.

(** ** The parts of a generated copy *)

Section parts.
Context `{Universe}.
Implicit Types (h r : heap) (t : ty) (l : loc).

Lemma lookup_mid h c r : (h ++ c :: r) !! length h = Some c.
Proof. by apply list_lookup_middle. Qed.

Lemma insert_mid h c c' r : <[length h := c']> (h ++ c :: r) = h ++ c' :: r.
Proof. rewrite insert_app_r_alt, Nat.sub_diag by lia. done. Qed.

Lemma lookup_old h r l c : h !! l = Some c -> (h ++ r) !! l = Some c.
Proof. apply lookup_app_l_Some. Qed.

Lemma bind_run {A B} (m : heapM A) (k : A -> heapM B) h h' a :
  m h = Some (h', a) -> (m ≫= k) h = k a h'.
Proof. intros E. unfold mbind, heapM_bind. by rewrite E. Qed.

Lemma new_run h t : new t h = Some (h ++ [Obj t (zero t)], Some (length h)).
Proof. done. Qed.

Lemma deref_run h t l v : h !! l = Some (Obj t v) -> deref (t := t) (Some l) h = Some (h, v).
Proof. intros E. unfold deref, gets. cbn. by rewrite (proj2 (obj_at_Some h t l v) E). Qed.

Lemma assign_run h r t v v' :
  assign (t := t) (Some (length h)) v' (h ++ Obj t v :: r) = Some (h ++ Obj t v' :: r, tt).
Proof.
  unfold assign, gets, mbind, heapM_bind. cbn.
  rewrite (proj2 (obj_at_Some _ t (length h) v) (lookup_mid _ _ _)). cbn.
  unfold write_cell. by rewrite insert_mid.
Qed.

Lemma prefix_mid h c r1 h2 :
  (h ++ c :: r1) `prefix_of` h2 -> exists r, h2 = h ++ c :: r /\ r1 `prefix_of` r.
Proof.
  intros [r ->]. exists (r1 ++ r). split; [by rewrite <- app_assoc|]. by exists r.
Qed.

(** Nothing to copy behind a nil reference. *)
Lemma makes_nil {A} (la : A -> gval ty) n x (a : A) h :
  (forall k, resolve n k (la a) = resolve n h (la a)) -> resolve n h (la a) = Some x ->
  makes la n x (mret a) h.
Proof. intros Ha Hx. exists h, a. split_and!; [done..|]. intros k _. by rewrite Ha. Qed.

(** The content of a cell that is filled in last. *)
Lemma owned_boxed h c c' r n g x :
  owned (length (h ++ [c])) (h ++ c :: r) n g x -> owned (length h) (h ++ c' :: r) n g x.
Proof.
  rewrite length_app, Nat.add_1_r. intros Ho. apply (owned_earlier _ (S (length h))); [lia|].
  by apply (owned_swap h c c' r r).
Qed.

Lemma copy_ptr_deep t into :
  deep_copies (enc t) into -> deep_copies (GPtr t) (copy_ptr t into).
Proof.
  intros Hi n h [l|] x Hx; [|by apply makes_nil; [by destruct n|]].
  apply resolve_ptr_Some in Hx as (m & v & y & -> & Hv & Hy & ->).
  set (h1 := h ++ [Obj t (zero t)]).
  destruct (Hi m h1 v y) as (h2 & v' & E & Hp2 & Ho); [by eapply resolve_prefix; [eexists|]|].
  destruct (prefix_mid h _ [] h2 Hp2) as (r & -> & _).
  exists (h ++ Obj t v' :: r), (Some (length h)). split_and!.
  - unfold copy_ptr. rewrite (bind_run _ _ _ _ _ (new_run h t)). fold h1.
    rewrite (bind_run _ _ _ _ _ (deref_run h1 t l v (lookup_old _ _ _ _ (proj1 (obj_at_Some _ _ _ _) Hv)))).
    rewrite (bind_run _ _ _ _ _ E), (bind_run _ _ _ _ _ (assign_run h r t _ v')). done.
  - by exists (Obj t v' :: r).
  - intros k Hk. apply resolve_ptr_Some. exists m, v', y. split_and!; [done| | |done].
    + apply obj_at_Some, Hk; [done|]. apply lookup_mid.
    + by apply (owned_boxed h _ (Obj t v') r) in Ho; apply Ho.
Qed.

Lemma copy_ptr_plain_deep t :
  (forall v, plain (enc t v) = true) -> deep_copies (GPtr t) (copy_ptr_plain t).
Proof.
  intros Hp. eapply deep_copies_ext; [|by apply copy_ptr_deep, deep_copies_plain].
  by intros [l|] h.
Qed.

(** *** Slices *)

Lemma index_run h t w vs i v :
  elems_at h t w = Some vs -> vs !! i = Some v -> index (t := t) (Some w) i h = Some (h, v).
Proof. intros E Ei. unfold index, gets. cbn. rewrite E. cbn. by rewrite Ei. Qed.

Lemma set_index_run h r t vs i n v :
  (i < n)%nat ->
  set_index (t := t) (Some (Window (length h) 0 n)) i v (h ++ Arr t vs :: r) =
  Some (h ++ Arr t (<[i := v]> vs) :: r, tt).
Proof.
  intros Hi. unfold set_index, gets, mbind, heapM_bind. cbn.
  rewrite (proj2 (arr_at_Some _ t (length h) vs) (lookup_mid _ _ _)). cbn.
  rewrite decide_True by done. cbn. unfold write_cell. cbn. by rewrite insert_mid.
Qed.

(** The loop over the elements: [done] is what it has filled in, [us] what is
    left of the source. *)
Lemma into_elems_run t into h w n vs : deep_copies (enc t) into -> elems_at h t w = Some vs ->
  forall us ys i done r, vs = take i vs ++ us -> i = length done ->
  Forall2 (fun v y => resolve n h (enc t v) = Some y) us ys ->
  exists new r', r `prefix_of` r' /\
    into_elems (t := t) into (Some (Window (length h) 0 (i + length us))) (Some w) i (length us)
      (h ++ Arr t (done ++ replicate (length us) (zero t)) :: r) =
      Some (h ++ Arr t (done ++ new) :: r', tt) /\
    Forall2 (fun v y => forall c, owned (S (length h)) (h ++ c :: r') n (enc t v) y) new ys.
Proof.
  intros Hi Hvs us ys. revert us. induction ys as [|y ys IH]; intros us i done r Hus -> Hf.
  - apply Forall2_nil_inv_r in Hf as ->. exists [], r. split_and!; [done|by cbn|constructor].
  - apply Forall2_cons_inv_r in Hf as (v & us' & Hv & Hf & ->).
    cbn [length into_elems]. set (arr := Arr t (done ++ replicate (S (length us')) (zero t))).
    assert (Hiv : vs !! length done = Some v).
    { rewrite Hus. apply list_lookup_middle. rewrite length_take.
      apply (f_equal length) in Hus. rewrite length_app, length_take in Hus. cbn in Hus. lia. }
    destruct (Hi n (h ++ arr :: r) v y) as (h2 & v' & E & Hp2 & Ho).
    { eapply resolve_prefix; [by eexists|done]. }
    destruct (prefix_mid h arr r h2 Hp2) as (r2 & -> & Hr2).
    destruct (IH us' (S (length done)) (done ++ [v']) r2) as (new & r3 & Hr3 & E3 & Hnew).
    { rewrite (take_S_r _ _ v) by done. by rewrite <- app_assoc. }
    { rewrite length_app. cbn. lia. }
    { done. }
    exists (v' :: new), r3. split_and!; [by etrans| |].
    + erewrite bind_run.
      2: { apply (index_run _ t w vs (length done) v); [|done].
           eapply (keeps_elems 0); [|lia|exact Hvs]. apply prefix_keeps. by eexists. }
      rewrite (bind_run _ _ _ _ _ E). erewrite bind_run by (apply set_index_run; lia).
      cbn [replicate].
      rewrite insert_app_r_alt, Nat.sub_diag by lia. cbn [insert list_insert].
      rewrite <- app_assoc in E3. cbn in E3. rewrite <- app_assoc in E3. cbn in E3.
      replace (length done + S (length us'))%nat with (S (length done) + length us')%nat by lia.
      exact E3.
    + constructor; [|done]. intros c.
      apply (owned_swap h arr c r2 r3); [done|].
      eapply owned_earlier; [|exact Ho]. rewrite length_app. cbn. lia.
Qed.

Lemma elems_at_mid h k t vs r :
  keeps_from (length h) (h ++ Arr t vs :: r) k ->
  elems_at k t (Window (length h) 0 (length vs)) = Some vs.
Proof.
  intros Hk. apply elems_at_Some. exists vs. cbn. split_and!.
  - apply Hk; [done|]. apply lookup_mid.
  - lia.
  - by rewrite drop_0, take_ge.
Qed.

Lemma copy_slice_into_deep t into :
  deep_copies (enc t) into -> deep_copies (GSlice t) (copy_slice_into t into).
Proof.
  intros Hi n h [w|] x Hx; [|by apply makes_nil; [by destruct n|]].
  apply resolve_slice_Some in Hx as (m & vs & ys & -> & Hv & Hy & ->).
  assert (Hlen : w_len w = length vs).
  { apply elems_at_Some in Hv as (us & _ & Hl & ->). rewrite length_take, length_drop. lia. }
  destruct (into_elems_run t into h w m vs Hi Hv vs ys 0 [] []) as (new & r & _ & E & Hnew);
    [done..|].
  exists (h ++ Arr t new :: r), (Some (Window (length h) 0 (length vs))). split_and!.
  - unfold copy_slice_into. cbn [len]. rewrite Hlen.
    erewrite bind_run by reflexivity. erewrite bind_run by exact E. done.
  - by eexists.
  - intros k Hk. apply resolve_slice_Some. exists m, new, ys. split_and!; [done| | |done].
    + rewrite (Forall2_length _ _ _ Hy), <- (Forall2_length _ _ _ Hnew). by eapply elems_at_mid.
    + eapply Forall2_impl; [exact Hnew|]. intros v y Ho. apply (Ho (Arr t new)).
      intros l c Hl. apply Hk. lia.
Qed.

Lemma copy_slice_deep t :
  (forall v, plain (enc t v) = true) -> deep_copies (GSlice t) (copy_slice t).
Proof.
  intros Hp. eapply deep_copies_ext; [|by apply copy_slice_into_deep, deep_copies_plain].
  intros [w|] h; [|done]. unfold copy_slice, copy_slice_into, mbind, heapM_bind.
  destruct (make_slice _ _ h) as [[h' out]|]; [|done].
  assert (E : forall n i h, into_elems mret out (Some w) i n h = copy_elems out (Some w) i n h).
  { clear. induction n as [|n IH]; intros i h; [done|]. cbn. unfold mbind, heapM_bind.
    destruct (index _ _ h) as [[h1 v]|]; [|done]. cbn. destruct (set_index _ _ _ h1) as [[h2 []]|]; auto. }
  by rewrite E.
Qed.

(** *** Maps *)

Lemma set_key_run h r t m key v :
  set_key (t := t) (Some (length h)) key v (h ++ Tab t m :: r) =
  Some (h ++ Tab t (<[key := v]> m) :: r, tt).
Proof.
  unfold set_key, gets, mbind, heapM_bind. cbn.
  rewrite (proj2 (tab_at_Some _ t (length h) m) (lookup_mid _ _ _)). cbn.
  unfold write_cell. by rewrite insert_mid.
Qed.

(** What is owned is not below the boundary. *)
Lemma owned_ptr b h n t p y :
  owned b h n (GPtr t p) (TRef y) ->
  exists m l v, n = S m /\ p = Some l /\ h !! l = Some (Obj t v) /\ owned b h m (enc t v) y.
Proof.
  intros Ho. pose proof (owned_now _ _ _ _ _ Ho) as Hr.
  destruct p as [l|]; [|by destruct n].
  apply resolve_ptr_Some in Hr as (m & v & y' & -> & Hv & _ & _).
  exists m, l, v. split_and!; [done|done|by apply obj_at_Some|].
  assert (Hl : (b <= l)%nat).
  { destruct (decide (b <= l)%nat); [done|]. exfalso.
    assert (Hk : keeps_from b h (<[l := Tab t ∅]> h)).
    { intros l' c Hl' E. rewrite list_lookup_insert_ne by lia. done. }
    apply Ho, resolve_ptr_Some in Hk as (m' & v' & _ & _ & Hv' & _).
    apply obj_at_Some in Hv, Hv'. rewrite list_lookup_insert_eq in Hv'; [done|].
    by eapply lookup_lt_Some. }
  intros k Hk. pose proof (Ho k Hk) as Hr.
  apply resolve_ptr_Some in Hr as (m' & v' & y2 & [= <-] & Hv' & Hy & [= <-]).
  apply (keeps_obj b h k) in Hv; [|done..]. rewrite Hv in Hv'. by injection Hv' as <-.
Qed.

Lemma into_keys_run t deepcopy h n : deep_copies (GPtr t) deepcopy ->
  forall kvs m r, NoDup kvs.*1 ->
  Forall (fun kv => is_Some (resolve n h (enc t kv.2))) kvs ->
  exists m' r', r `prefix_of` r' /\
    into_keys (t := t) deepcopy (Some (length h)) kvs (h ++ Tab t m :: r) =
      Some (h ++ Tab t m' :: r', tt) /\
    (forall key, key ∉ kvs.*1 -> m' !! key = m !! key) /\
    (forall key v x, (key, v) ∈ kvs -> resolve n h (enc t v) = Some x ->
       exists v', m' !! key = Some v' /\
         forall c, owned (S (length h)) (h ++ c :: r') n (enc t v') x).
Proof.
  intros Hd. induction kvs as [|[key v] kvs IH]; intros m r Hnd Hall.
  { exists m, r. split_and!; [done..|]. intros key v x Hin. by apply not_elem_of_nil in Hin. }
  cbn in Hnd. apply NoDup_cons in Hnd as [Hkey Hnd]. apply Forall_cons in Hall as [[x Hx] Hall].
  cbn in Hx. set (h1 := h ++ Tab t m :: r).
  destruct (Hd (S n) (h1 ++ [Obj t v]) (Some (length h1)) (TRef x)) as (h2 & p & E & Hp2 & Ho).
  { apply resolve_ptr_Some. exists n, v, x. split_and!; [done| | |done].
    - apply obj_at_Some, lookup_mid.
    - eapply resolve_prefix; [|exact Hx]. unfold h1. rewrite <- app_assoc. by eexists. }
  assert (Hp3 : (h ++ Tab t m :: (r ++ [Obj t v])) `prefix_of` h2).
  { etrans; [|exact Hp2]. unfold h1. rewrite <- app_assoc. done. }
  apply prefix_mid in Hp3 as (r2 & -> & Hr2).
  apply owned_ptr in Ho as (n' & l & v' & [= <-] & -> & Hl & Ho).
  destruct (IH (<[key := v']> m) r2 Hnd Hall) as (m' & r3 & Hr3 & E3 & Hother & Hin).
  exists m', r3. split_and!.
  - etrans; [|exact Hr3]. etrans; [|exact Hr2]. by eexists.
  - cbn [into_keys]. erewrite bind_run by reflexivity. fold h1.
    rewrite (bind_run _ _ _ _ _ E), (bind_run _ _ _ _ _ (deref_run _ _ _ _ Hl)).
    rewrite (bind_run _ _ _ _ _ (set_key_run h r2 t m key v')). exact E3.
  - intros key' [Hne Hk']%not_elem_of_cons. rewrite Hother by done. by rewrite lookup_insert_ne.
  - intros key' v2 x2 [[= -> ->]|Hk']%elem_of_cons Hx2.
    + exists v'. rewrite Hother, lookup_insert_eq by done. split; [done|]. intros c.
      apply (owned_swap h (Tab t m) c r2 r3); [done|]. rewrite Hx in Hx2. injection Hx2 as <-.
      eapply owned_earlier; [|exact Ho]. unfold h1. rewrite !length_app. cbn. lia.
    + by apply (Hin _ v2).
Qed.

Lemma set_keys_run t h : forall kvs m r,
  set_keys (t := t) (Some (length h)) kvs (h ++ Tab t m :: r) =
  Some (h ++ Tab t (foldl (fun m kv => <[kv.1 := kv.2]> m) m kvs) :: r, tt).
Proof.
  induction kvs as [|[key v] kvs IH]; intros m r; [done|]. cbn [set_keys].
  rewrite (bind_run _ _ _ _ _ (set_key_run h r t m key v)). apply IH.
Qed.

Lemma foldl_insert_lookup {A} (kvs : list (bytes * A)) (m : gmap bytes A) :
  NoDup kvs.*1 ->
  (forall key, key ∉ kvs.*1 -> foldl (fun m kv => <[kv.1 := kv.2]> m) m kvs !! key = m !! key) /\
  (forall key v, (key, v) ∈ kvs -> foldl (fun m kv => <[kv.1 := kv.2]> m) m kvs !! key = Some v).
Proof.
  revert m. induction kvs as [|[k0 v0] kvs IH]; intros m Hnd.
  { split; [done|]. intros key v Hin. by apply not_elem_of_nil in Hin. }
  cbn in Hnd. apply NoDup_cons in Hnd as [Hk Hnd].
  destruct (IH (<[k0 := v0]> m) Hnd) as [H1 H2]. split.
  - intros key [Hne Hk']%not_elem_of_cons. cbn. rewrite H1 by done. by rewrite lookup_insert_ne.
  - intros key v [[= -> ->]|Hk']%elem_of_cons; cbn; [|by apply H2].
    rewrite H1 by done. by rewrite lookup_insert_eq.
Qed.

(** A map whose entries, at the keys of another one, own what those stand for. *)
Lemma map_copied (n : nat) h (k : heap) t (m m' : gmap bytes (den t)) l ys :
  tab_at k t l = Some m' ->
  Forall2 (entry_tree n h t m) (elements (dom m)) ys ->
  (forall key, m !! key = None -> m' !! key = None) ->
  (forall key v x, m !! key = Some v -> resolve n h (enc t v) = Some x ->
     exists v', m' !! key = Some v' /\ resolve n k (enc t v') = Some x) ->
  resolve (S n) k (GMap t (Some l)) = Some (TRef (tree_list ys)).
Proof.
  intros Ht Hf Hnone Hsome. apply resolve_map_Some. exists n, m', ys. split_and!; [done|done| |done].
  assert (Hdom : dom m' = dom m).
  { assert (Hall : forall key, key ∈ elements (dom m) -> exists y, entry_tree n h t m key y).
    { clear -Hf. induction Hf as [|a y l ys Ha _ IH]; intros key Hin.
      - by apply not_elem_of_nil in Hin.
      - apply elem_of_cons in Hin as [->|Hin]; eauto. }
    apply set_eq. intros key. rewrite !elem_of_dom. split.
    - intros [v Hv]. destruct (m !! key) eqn:E; [by eexists|]. apply Hnone in E. congruence.
    - intros [v Hv]. destruct (Hall key) as (y & v2 & x & E & Hx & _).
      { apply elem_of_elements, elem_of_dom. by eexists. }
      destruct (Hsome key v2 x E Hx) as (v' & Hv' & _). by eexists. }
  rewrite Hdom. eapply Forall2_impl; [exact Hf|]. intros key y (v & x & E & Hx & ->).
  destruct (Hsome key v x E Hx) as (v' & Hv' & Hx'). by exists v', x.
Qed.

Lemma entries_resolve (n : nat) h t (m : gmap bytes (den t)) ys :
  Forall2 (entry_tree n h t m) (elements (dom m)) ys ->
  forall key v, m !! key = Some v -> is_Some (resolve n h (enc t v)).
Proof.
  intros Hf key v Hv. assert (Hin : key ∈ elements (dom m)).
  { apply elem_of_elements, elem_of_dom. by eexists. }
  apply list_elem_of_lookup in Hin as [i Hi].
  destruct (Forall2_lookup_l _ _ _ _ _ Hf Hi) as (y & _ & v' & x & E & Hx & _).
  rewrite Hv in E. injection E as <-. by eexists.
Qed.

Context {O : MapOrder} {OL : MapOrderLaws O}.

Lemma range_run h t l m :
  h !! l = Some (Tab t m) ->
  exists kvs, range (t := t) (Some l) h = Some (h, kvs) /\ kvs ≡ₚ map_to_list m.
Proof.
  intros E. eexists. split; [|apply (visit_all _ (length h))].
  unfold range, entries, gets, mbind, heapM_bind. cbn.
  by rewrite (proj2 (tab_at_Some h t l m) E).
Qed.

Lemma copy_map_into_deep t deepcopy :
  deep_copies (GPtr t) deepcopy -> deep_copies (GMap t) (copy_map_into t deepcopy).
Proof.
  intros Hd n h [l|] x Hx; [|by apply makes_nil; [by destruct n|]].
  apply resolve_map_Some in Hx as (p & m & ys & -> & Hm & Hy & ->).
  destruct (range_run (h ++ [Tab t ∅]) t l m) as (kvs & Er & Hkvs).
  { by apply lookup_old, tab_at_Some. }
  assert (Hin : forall key v, (key, v) ∈ kvs <-> m !! key = Some v)
    by (intros; by rewrite Hkvs, elem_of_map_to_list).
  destruct (into_keys_run t deepcopy h p Hd kvs ∅ []) as (m' & r & _ & E & Hother & Hcopied).
  { rewrite Hkvs. apply NoDup_fst_map_to_list. }
  { apply Forall_forall. intros [key v] Hkv. cbn. by eapply entries_resolve, Hin. }
  exists (h ++ Tab t m' :: r), (Some (length h)). split_and!.
  - unfold copy_map_into. erewrite bind_run by reflexivity.
    rewrite (bind_run _ _ _ _ _ Er), (bind_run _ _ _ _ _ E). done.
  - by eexists.
  - intros k Hk. eapply map_copied; [apply tab_at_Some, Hk; [done|apply lookup_mid]|exact Hy| |].
    + intros key Hnone. rewrite Hother; [apply lookup_empty|].
      intros ([k2 v2] & -> & Hin2)%list_elem_of_fmap. apply Hin in Hin2. cbn in Hnone. congruence.
    + intros key v x Hv Hx. apply Hin in Hv.
      destruct (Hcopied key v x Hv Hx) as (v' & Hv' & Ho). exists v'. split; [done|].
      apply (Ho (Tab t m')). intros l' c Hl'. apply Hk. lia.
Qed.

Lemma copy_map_deep t :
  (forall v, plain (enc t v) = true) -> deep_copies (GMap t) (copy_map t).
Proof.
  intros Hp n h [l|] x Hx; [|by apply makes_nil; [by destruct n|]].
  apply resolve_map_Some in Hx as (p & m & ys & -> & Hm & Hy & ->).
  destruct (range_run (h ++ [Tab t ∅]) t l m) as (kvs & Er & Hkvs).
  { by apply lookup_old, tab_at_Some. }
  assert (Hin : forall key v, (key, v) ∈ kvs <-> m !! key = Some v)
    by (intros; by rewrite Hkvs, elem_of_map_to_list).
  destruct (foldl_insert_lookup kvs ∅) as [Hother Hcopied].
  { rewrite Hkvs. apply NoDup_fst_map_to_list. }
  set (m' := foldl _ ∅ kvs) in *.
  exists (h ++ [Tab t m']), (Some (length h)). split_and!.
  - unfold copy_map. erewrite bind_run by reflexivity.
    rewrite (bind_run _ _ _ _ _ Er), (bind_run _ _ _ _ _ (set_keys_run t h kvs ∅ [])). done.
  - by eexists.
  - intros k Hk. eapply map_copied; [apply tab_at_Some, Hk; [done|apply lookup_mid]|exact Hy| |].
    + intros key Hnone. rewrite Hother; [apply lookup_empty|].
      intros ([k2 v2] & -> & Hin2)%list_elem_of_fmap. apply Hin in Hin2. cbn in Hnone. congruence.
    + intros key v x Hv Hx. exists v. split; [by apply Hcopied, Hin|].
      by rewrite (resolve_plain p p k h).
Qed.
End parts.

(** ** Well-typed heaps *)

Section typed.
Context `{Universe} (rank : ty -> nat).
Context (Hrank : forall t v, ranked rank (rank t) (enc t v)).

Lemma ranked_mono n m g : (n <= m)%nat -> ranked rank n g -> ranked rank m g.
Proof.
  intros Hnm. induction g as [s|z|b|t p|t s|t p| |a IHa b IHb]; cbn; [done..|lia|lia|lia|done|].
  intros [??]. auto.
Qed.

(** Types that are not recursive make references well-founded. *)
Lemma typed_resolves h n g :
  heap_typed h -> refs_typed h g -> ranked rank n g -> is_Some (resolve n h g).
Proof.
  intros Hh. revert g. induction n as [n IH] using lt_wf_ind.
  assert (Hcell : forall l c, h !! l = Some c -> cell_typed h c).
  { intros l c E. by eapply Forall_lookup_1 in E. }
  assert (Henc : forall m t v, (rank t < S m)%nat -> n = S m -> refs_typed h (enc t v) ->
    is_Some (resolve m h (enc t v))).
  { intros m t v Ht -> Hr. apply IH; [lia|done|]. by eapply ranked_mono, Hrank; lia. }
  induction g as [s|z|b|t p|t s|t p| |a IHa b IHb]; intros Hr Hk; cbn in Hr, Hk; try (by destruct n).
  - destruct p as [l|]; [|by destruct n]. destruct Hr as [v Hv]. destruct n as [|m]; [lia|].
    destruct (Henc m t v) as [y Hy]; [done|done|by apply (Hcell l (Obj t v)), obj_at_Some|].
    exists (TRef y). apply resolve_ptr_Some. eauto 10.
  - destruct s as [w|]; [|by destruct n]. destruct Hr as [vs Hv]. destruct n as [|m]; [lia|].
    assert (Hall : Forall (fun v => is_Some (resolve m h (enc t v))) vs).
    { pose proof Hv as (us & Hu & _ & ->)%elems_at_Some. apply Hcell in Hu.
      apply Forall_take, Forall_drop. eapply Forall_impl; [exact Hu|]. intros v. by apply Henc. }
    assert (exists ys, Forall2 (fun v y => resolve m h (enc t v) = Some y) vs ys) as [ys Hys].
    { clear -Hall. induction Hall as [|v vs [y Hy] _ [ys IH]]; [by exists []|].
      exists (y :: ys). by constructor. }
    exists (TRef (tree_list ys)). apply resolve_slice_Some. eauto 10.
  - destruct p as [l|]; [|by destruct n]. destruct Hr as [kvs Hv]. destruct n as [|m]; [lia|].
    assert (Hall : forall key, key ∈ elements (dom kvs) -> exists y, entry_tree m h t kvs key y).
    { intros key [v Hkv]%elem_of_elements%elem_of_dom.
      pose proof (proj1 (tab_at_Some h t l kvs) Hv) as Hu%Hcell. apply Hu in Hkv as Ht.
      destruct (Henc m t v) as [y Hy]; [done..|]. by exists (TPair (TStr key) y), v, y. }
    assert (exists ys, Forall2 (entry_tree m h t kvs) (elements (dom kvs)) ys) as [ys Hys].
    { clear -Hall. induction (elements (dom kvs)) as [|key ks IH]; [by exists []|].
      destruct (Hall key) as [y Hy]; [by left|]. destruct IH as [ys Hys].
      { intros k' Hk'. apply Hall. by right. }
      exists (y :: ys). by constructor. }
    exists (TRef (tree_list ys)). apply resolve_map_Some. eauto 10.
  - destruct IHa as [xa Ha], IHb as [xb Hb]; [naive_solver..|].
    exists (TPair xa xb). apply resolve_pair_Some. eauto 10.
Qed.
End typed.
