(* ===== verification/ApiTypes.v ===== *)
(** * The API types ([src/api/v1alpha1])

    The custom resource for machines: its structs with the source's fields, the
    layout of each in memory and its zero value.  A field that is a pointer, a
    slice or a map refers to a type by its name, so that the structs need not be
    defined all at once.  The types of the Kubernetes libraries are the interface
    [K8s]. *)

From S2P Require Import Prelude GoHeap.

(** The names of the types that can be allocated. *)
Inductive api_ty :=
| tString | tInt | tInt64 | tIdentity | tBMC | tOS | tResourceConstraints | tPlacement
| tDeviceAlias | tRoute | tSRIOVConfig | tDeviceMatch | tInterfaceCommon | tEthernetConfig
| tBondMemberAttachment | tBondParameters | tBondConfig | tVLANConfig | tFabricNetplanConfig
| tDNSConfig | tNetworkConfig | tFilesystem | tPartition | tDisk | tLogicalVolume
| tVolumeGroup | tStorageSpec | tProvisioningSpec | tHugePages | tPackageRepo
| tMAASMachineSpec | tMAASMachineStatus | tMAASMachine | tMAASMachineList | tSecretKeySelector
| tCondition | tExt (e : nat).

#[global] Instance api_ty_eq_dec : EqDecision api_ty.
Proof. solve_decision. Defined.

(** The fields of a struct, one after the other. *)
Definition struct (l : list (gval api_ty)) : gval api_ty := foldr GPair GUnit l.

(** What the Kubernetes libraries provide: the types that the API embeds or
    refers to, with further types ([tExt e]) behind their own references. *)
Class K8s := {
  SecretKeySelector : Type;
  Condition : Type;
  TypeMeta : Type;
  ObjectMeta : Type;
  ListMeta : Type;
  ext_den : nat -> Type;
  SecretKeySelector_enc : SecretKeySelector -> gval api_ty;
  Condition_enc : Condition -> gval api_ty;
  TypeMeta_enc : TypeMeta -> gval api_ty;
  ObjectMeta_enc : ObjectMeta -> gval api_ty;
  ListMeta_enc : ListMeta -> gval api_ty;
  ext_enc : forall e, ext_den e -> gval api_ty;
  SecretKeySelector_zero : SecretKeySelector;
  Condition_zero : Condition;
  TypeMeta_zero : TypeMeta;
  ObjectMeta_zero : ObjectMeta;
  ListMeta_zero : ListMeta;
  ext_zero : forall e, ext_den e;
}.

(** ** Named strings and their constants *)

Definition DesiredState : Type := bytes.
Definition BusType : Type := bytes.
Definition StorageLayout : Type := bytes.
Definition BootMode : Type := bytes.
Definition ProvisioningMethod : Type := bytes.
Definition MachinePhase : Type := bytes.

Definition StateCommissioned : DesiredState := "Commissioned"%string.
Definition StateReady : DesiredState := "Ready"%string.
Definition StateDeployed : DesiredState := "Deployed"%string.
Definition StateReleased : DesiredState := "Released"%string.
Definition ProvisioningAuto : ProvisioningMethod := "Auto"%string.
Definition ProvisioningNetwork : ProvisioningMethod := "Network"%string.
Definition ProvisioningVirtualMedia : ProvisioningMethod := "VirtualMedia"%string.
Definition MachinePhasePending : MachinePhase := "Pending"%string.
Definition MachinePhaseEnlisting : MachinePhase := "Enlisting"%string.
Definition MachinePhaseCommissioning : MachinePhase := "Commissioning"%string.
Definition MachinePhaseReady : MachinePhase := "Ready"%string.
Definition MachinePhaseDeploying : MachinePhase := "Deploying"%string.
Definition MachinePhaseDeployed : MachinePhase := "Deployed"%string.
Definition MachinePhaseReleasing : MachinePhase := "Releasing"%string.
Definition MachinePhaseReleased : MachinePhase := "Released"%string.
Definition MachinePhaseFailed : MachinePhase := "Failed"%string.

(** ** Structs *)

Record Identity := mkIdentity {
  Identity_SystemID : bytes;
  Identity_MACAddresses : gslice tString;
  Identity_Hostname : bytes;
  Identity_Architecture : bytes;
}.

Definition Identity_enc (v : Identity) : gval api_ty :=
  struct [GStr (Identity_SystemID v); GSlice tString (Identity_MACAddresses v);
    GStr (Identity_Hostname v); GStr (Identity_Architecture v)].

Definition Identity_zero : Identity := mkIdentity [] None [] [].

Record BMC := mkBMC {
  BMC_PowerType : bytes;
  BMC_Address : bytes;
  BMC_Username : bytes;
  BMC_Password : bytes;
  BMC_PasswordSecretRef : ptr tSecretKeySelector;
  BMC_Parameters : gomap tString;
}.

Definition BMC_enc (v : BMC) : gval api_ty :=
  struct [GStr (BMC_PowerType v); GStr (BMC_Address v); GStr (BMC_Username v);
    GStr (BMC_Password v); GPtr tSecretKeySelector (BMC_PasswordSecretRef v);
    GMap tString (BMC_Parameters v)].

Definition BMC_zero : BMC := mkBMC [] [] [] [] None None.

Record OS := mkOS {
  OS_Distro : bytes;
  OS_Release : bytes;
  OS_Kernel : bytes;
}.

Definition OS_enc (v : OS) : gval api_ty :=
  struct [GStr (OS_Distro v); GStr (OS_Release v); GStr (OS_Kernel v)].

Definition OS_zero : OS := mkOS [] [] [].

Record ResourceConstraints := mkResourceConstraints {
  ResourceConstraints_MinCPU : Z;
  ResourceConstraints_MinMemoryMB : Z;
  ResourceConstraints_MinDiskGB : Z;
}.

Definition ResourceConstraints_enc (v : ResourceConstraints) : gval api_ty :=
  struct [GInt (ResourceConstraints_MinCPU v); GInt (ResourceConstraints_MinMemoryMB v);
    GInt (ResourceConstraints_MinDiskGB v)].

Definition ResourceConstraints_zero : ResourceConstraints := mkResourceConstraints 0 0 0.

Record Placement := mkPlacement {
  Placement_Zone : bytes;
  Placement_ResourcePool : bytes;
  Placement_Tags : gslice tString;
}.

Definition Placement_enc (v : Placement) : gval api_ty :=
  struct [GStr (Placement_Zone v); GStr (Placement_ResourcePool v);
    GSlice tString (Placement_Tags v)].

Definition Placement_zero : Placement := mkPlacement [] [] None.

Record DeviceAlias := mkDeviceAlias {
  DeviceAlias_Name : bytes;
  DeviceAlias_Address : bytes;
  DeviceAlias_Bus : BusType;
  DeviceAlias_Dev : bytes;
}.

Definition DeviceAlias_enc (v : DeviceAlias) : gval api_ty :=
  struct [GStr (DeviceAlias_Name v); GStr (DeviceAlias_Address v); GStr (DeviceAlias_Bus v);
    GStr (DeviceAlias_Dev v)].

Definition DeviceAlias_zero : DeviceAlias := mkDeviceAlias [] [] [] [].

Record Route := mkRoute {
  Route_Destination : bytes;
  Route_Gateway : bytes;
  Route_Metric : ptr tInt;
}.

Definition Route_enc (v : Route) : gval api_ty :=
  struct [GStr (Route_Destination v); GStr (Route_Gateway v); GPtr tInt (Route_Metric v)].

Definition Route_zero : Route := mkRoute [] [] None.

Record SRIOVConfig := mkSRIOVConfig {
  SRIOVConfig_VFCount : Z;
  SRIOVConfig_TrustMode : bool;
}.

Definition SRIOVConfig_enc (v : SRIOVConfig) : gval api_ty :=
  struct [GInt (SRIOVConfig_VFCount v); GBool (SRIOVConfig_TrustMode v)].

Definition SRIOVConfig_zero : SRIOVConfig := mkSRIOVConfig 0 false.

Record DeviceMatch := mkDeviceMatch {
  DeviceMatch_DeviceAlias : bytes;
  DeviceMatch_MACAddress : bytes;
}.

Definition DeviceMatch_enc (v : DeviceMatch) : gval api_ty :=
  struct [GStr (DeviceMatch_DeviceAlias v); GStr (DeviceMatch_MACAddress v)].

Definition DeviceMatch_zero : DeviceMatch := mkDeviceMatch [] [].

Record InterfaceCommon := mkInterfaceCommon {
  InterfaceCommon_Network : bytes;
  InterfaceCommon_MTU : ptr tInt;
  InterfaceCommon_Addresses : gslice tString;
  InterfaceCommon_Gateway4 : bytes;
  InterfaceCommon_Routes : gslice tRoute;
  InterfaceCommon_LinkMode : bytes;
  InterfaceCommon_DNS : ptr tDNSConfig;
}.

Definition InterfaceCommon_enc (v : InterfaceCommon) : gval api_ty :=
  struct [GStr (InterfaceCommon_Network v); GPtr tInt (InterfaceCommon_MTU v);
    GSlice tString (InterfaceCommon_Addresses v); GStr (InterfaceCommon_Gateway4 v);
    GSlice tRoute (InterfaceCommon_Routes v); GStr (InterfaceCommon_LinkMode v);
    GPtr tDNSConfig (InterfaceCommon_DNS v)].

Definition InterfaceCommon_zero : InterfaceCommon := mkInterfaceCommon [] None None [] None [] None.

Record EthernetConfig := mkEthernetConfig {
  EthernetConfig_InterfaceCommon : InterfaceCommon;
  EthernetConfig_Match : ptr tDeviceMatch;
  EthernetConfig_SRIOV : ptr tSRIOVConfig;
}.

Definition EthernetConfig_enc (v : EthernetConfig) : gval api_ty :=
  struct [InterfaceCommon_enc (EthernetConfig_InterfaceCommon v);
    GPtr tDeviceMatch (EthernetConfig_Match v);
    GPtr tSRIOVConfig (EthernetConfig_SRIOV v)].

Definition EthernetConfig_zero : EthernetConfig := mkEthernetConfig InterfaceCommon_zero None None.

Record BondMemberAttachment := mkBondMemberAttachment {
  BondMemberAttachment_Match : DeviceMatch;
}.

Definition BondMemberAttachment_enc (v : BondMemberAttachment) : gval api_ty :=
  struct [DeviceMatch_enc (BondMemberAttachment_Match v)].

Definition BondMemberAttachment_zero : BondMemberAttachment := mkBondMemberAttachment DeviceMatch_zero.

Record BondParameters := mkBondParameters {
  BondParameters_Mode : bytes;
  BondParameters_LACPRate : bytes;
  BondParameters_TransmitHashPolicy : bytes;
  BondParameters_MIIMonitorInterval : ptr tInt;
  BondParameters_UpDelay : ptr tInt;
  BondParameters_DownDelay : ptr tInt;
}.

Definition BondParameters_enc (v : BondParameters) : gval api_ty :=
  struct [GStr (BondParameters_Mode v); GStr (BondParameters_LACPRate v);
    GStr (BondParameters_TransmitHashPolicy v);
    GPtr tInt (BondParameters_MIIMonitorInterval v);
    GPtr tInt (BondParameters_UpDelay v); GPtr tInt (BondParameters_DownDelay v)].

Definition BondParameters_zero : BondParameters := mkBondParameters [] [] [] None None None.

Record BondConfig := mkBondConfig {
  BondConfig_InterfaceCommon : InterfaceCommon;
  BondConfig_Interfaces : gslice tBondMemberAttachment;
  BondConfig_Parameters : ptr tBondParameters;
}.

Definition BondConfig_enc (v : BondConfig) : gval api_ty :=
  struct [InterfaceCommon_enc (BondConfig_InterfaceCommon v);
    GSlice tBondMemberAttachment (BondConfig_Interfaces v);
    GPtr tBondParameters (BondConfig_Parameters v)].

Definition BondConfig_zero : BondConfig := mkBondConfig InterfaceCommon_zero None None.

Record VLANConfig := mkVLANConfig {
  VLANConfig_InterfaceCommon : InterfaceCommon;
  VLANConfig_ID : Z;
  VLANConfig_Link : bytes;
}.

Definition VLANConfig_enc (v : VLANConfig) : gval api_ty :=
  struct [InterfaceCommon_enc (VLANConfig_InterfaceCommon v); GInt (VLANConfig_ID v);
    GStr (VLANConfig_Link v)].

Definition VLANConfig_zero : VLANConfig := mkVLANConfig InterfaceCommon_zero 0 [].

Record FabricNetplanConfig := mkFabricNetplanConfig {
  FabricNetplanConfig_Ethernets : gomap tEthernetConfig;
  FabricNetplanConfig_Bonds : gomap tBondConfig;
  FabricNetplanConfig_VLANs : gomap tVLANConfig;
}.

Definition FabricNetplanConfig_enc (v : FabricNetplanConfig) : gval api_ty :=
  struct [GMap tEthernetConfig (FabricNetplanConfig_Ethernets v);
    GMap tBondConfig (FabricNetplanConfig_Bonds v);
    GMap tVLANConfig (FabricNetplanConfig_VLANs v)].

Definition FabricNetplanConfig_zero : FabricNetplanConfig := mkFabricNetplanConfig None None None.

Record DNSConfig := mkDNSConfig {
  DNSConfig_Nameservers : gslice tString;
  DNSConfig_Search : gslice tString;
}.

Definition DNSConfig_enc (v : DNSConfig) : gval api_ty :=
  struct [GSlice tString (DNSConfig_Nameservers v); GSlice tString (DNSConfig_Search v)].

Definition DNSConfig_zero : DNSConfig := mkDNSConfig None None.

Record NetworkConfig := mkNetworkConfig {
  NetworkConfig_PrimaryNetwork : bytes;
  NetworkConfig_DNS : ptr tDNSConfig;
  NetworkConfig_Fabrics : gomap tFabricNetplanConfig;
}.

Definition NetworkConfig_enc (v : NetworkConfig) : gval api_ty :=
  struct [GStr (NetworkConfig_PrimaryNetwork v); GPtr tDNSConfig (NetworkConfig_DNS v);
    GMap tFabricNetplanConfig (NetworkConfig_Fabrics v)].

Definition NetworkConfig_zero : NetworkConfig := mkNetworkConfig [] None None.

Record Filesystem := mkFilesystem {
  Filesystem_Type : bytes;
  Filesystem_MountPoint : bytes;
  Filesystem_MountOptions : bytes;
  Filesystem_Label : bytes;
}.

Definition Filesystem_enc (v : Filesystem) : gval api_ty :=
  struct [GStr (Filesystem_Type v); GStr (Filesystem_MountPoint v);
    GStr (Filesystem_MountOptions v); GStr (Filesystem_Label v)].

Definition Filesystem_zero : Filesystem := mkFilesystem [] [] [] [].

Record Partition := mkPartition {
  Partition_Name : bytes;
  Partition_Number : ptr tInt;
  Partition_SizeGiB : ptr tInt64;
  Partition_Grow : bool;
  Partition_Bootable : bool;
  Partition_Labels : gomap tString;
  Partition_Filesystem : ptr tFilesystem;
}.

Definition Partition_enc (v : Partition) : gval api_ty :=
  struct [GStr (Partition_Name v); GPtr tInt (Partition_Number v);
    GPtr tInt64 (Partition_SizeGiB v); GBool (Partition_Grow v);
    GBool (Partition_Bootable v); GMap tString (Partition_Labels v);
    GPtr tFilesystem (Partition_Filesystem v)].

Definition Partition_zero : Partition := mkPartition [] None None false false None None.

Record Disk := mkDisk {
  Disk_DeviceAlias : bytes;
  Disk_Name : bytes;
  Disk_Bootable : bool;
  Disk_PartitionTable : bytes;
  Disk_Labels : gomap tString;
  Disk_Partitions : gslice tPartition;
}.

Definition Disk_enc (v : Disk) : gval api_ty :=
  struct [GStr (Disk_DeviceAlias v); GStr (Disk_Name v); GBool (Disk_Bootable v);
    GStr (Disk_PartitionTable v); GMap tString (Disk_Labels v);
    GSlice tPartition (Disk_Partitions v)].

Definition Disk_zero : Disk := mkDisk [] [] false [] None None.

Record LogicalVolume := mkLogicalVolume {
  LogicalVolume_Name : bytes;
  LogicalVolume_SizeGiB : ptr tInt64;
  LogicalVolume_Grow : bool;
  LogicalVolume_Filesystem : ptr tFilesystem;
}.

Definition LogicalVolume_enc (v : LogicalVolume) : gval api_ty :=
  struct [GStr (LogicalVolume_Name v); GPtr tInt64 (LogicalVolume_SizeGiB v);
    GBool (LogicalVolume_Grow v); GPtr tFilesystem (LogicalVolume_Filesystem v)].

Definition LogicalVolume_zero : LogicalVolume := mkLogicalVolume [] None false None.

Record VolumeGroup := mkVolumeGroup {
  VolumeGroup_Name : bytes;
  VolumeGroup_Members : gslice tString;
  VolumeGroup_LogicalVolumes : gslice tLogicalVolume;
}.

Definition VolumeGroup_enc (v : VolumeGroup) : gval api_ty :=
  struct [GStr (VolumeGroup_Name v); GSlice tString (VolumeGroup_Members v);
    GSlice tLogicalVolume (VolumeGroup_LogicalVolumes v)].

Definition VolumeGroup_zero : VolumeGroup := mkVolumeGroup [] None None.

Record StorageSpec := mkStorageSpec {
  StorageSpec_Layout : StorageLayout;
  StorageSpec_BootDeviceAlias : bytes;
  StorageSpec_Disks : gslice tDisk;
  StorageSpec_VolumeGroups : gslice tVolumeGroup;
}.

Definition StorageSpec_enc (v : StorageSpec) : gval api_ty :=
  struct [GStr (StorageSpec_Layout v); GStr (StorageSpec_BootDeviceAlias v);
    GSlice tDisk (StorageSpec_Disks v); GSlice tVolumeGroup (StorageSpec_VolumeGroups v)].

Definition StorageSpec_zero : StorageSpec := mkStorageSpec [] [] None None.

Record ProvisioningSpec := mkProvisioningSpec {
  ProvisioningSpec_Method : ProvisioningMethod;
}.

Definition ProvisioningSpec_enc (v : ProvisioningSpec) : gval api_ty :=
  struct [GStr (ProvisioningSpec_Method v)].

Definition ProvisioningSpec_zero : ProvisioningSpec := mkProvisioningSpec [].

Record HugePages := mkHugePages {
  HugePages_Name : bytes;
  HugePages_Size : bytes;
  HugePages_Count : Z;
}.

Definition HugePages_enc (v : HugePages) : gval api_ty :=
  struct [GStr (HugePages_Name v); GStr (HugePages_Size v); GInt (HugePages_Count v)].

Definition HugePages_zero : HugePages := mkHugePages [] [] 0.

Record PackageRepo := mkPackageRepo {
  PackageRepo_Name : bytes;
  PackageRepo_Type : bytes;
  PackageRepo_URL : bytes;
  PackageRepo_Distributions : gslice tString;
  PackageRepo_Components : gslice tString;
  PackageRepo_GPGKey : bytes;
  PackageRepo_Arches : gslice tString;
}.

Definition PackageRepo_enc (v : PackageRepo) : gval api_ty :=
  struct [GStr (PackageRepo_Name v); GStr (PackageRepo_Type v); GStr (PackageRepo_URL v);
    GSlice tString (PackageRepo_Distributions v);
    GSlice tString (PackageRepo_Components v); GStr (PackageRepo_GPGKey v);
    GSlice tString (PackageRepo_Arches v)].

Definition PackageRepo_zero : PackageRepo := mkPackageRepo [] [] [] None None [] None.

Record MAASMachineSpec := mkMAASMachineSpec {
  MAASMachineSpec_DesiredState : DesiredState;
  MAASMachineSpec_Identity : Identity;
  MAASMachineSpec_BMC : ptr tBMC;
  MAASMachineSpec_Placement : Placement;
  MAASMachineSpec_Resources : ptr tResourceConstraints;
  MAASMachineSpec_OS : OS;
  MAASMachineSpec_BootMode : BootMode;
  MAASMachineSpec_Provisioning : ProvisioningSpec;
  MAASMachineSpec_KernelParams : gomap tString;
  MAASMachineSpec_HugePages : gslice tHugePages;
  MAASMachineSpec_CPUSets : gomap tString;
  MAASMachineSpec_DeviceAliases : gslice tDeviceAlias;
  MAASMachineSpec_Network : ptr tNetworkConfig;
  MAASMachineSpec_Storage : ptr tStorageSpec;
  MAASMachineSpec_OwnerData : gomap tString;
  MAASMachineSpec_SSHAuthorizedKeys : gslice tString;
  MAASMachineSpec_PackageRepositories : gslice tPackageRepo;
  MAASMachineSpec_UserDataSecretRef : ptr tSecretKeySelector;
}.

Definition MAASMachineSpec_enc (v : MAASMachineSpec) : gval api_ty :=
  struct [GStr (MAASMachineSpec_DesiredState v); Identity_enc (MAASMachineSpec_Identity v);
    GPtr tBMC (MAASMachineSpec_BMC v); Placement_enc (MAASMachineSpec_Placement v);
    GPtr tResourceConstraints (MAASMachineSpec_Resources v);
    OS_enc (MAASMachineSpec_OS v); GStr (MAASMachineSpec_BootMode v);
    ProvisioningSpec_enc (MAASMachineSpec_Provisioning v);
    GMap tString (MAASMachineSpec_KernelParams v);
    GSlice tHugePages (MAASMachineSpec_HugePages v);
    GMap tString (MAASMachineSpec_CPUSets v);
    GSlice tDeviceAlias (MAASMachineSpec_DeviceAliases v);
    GPtr tNetworkConfig (MAASMachineSpec_Network v);
    GPtr tStorageSpec (MAASMachineSpec_Storage v);
    GMap tString (MAASMachineSpec_OwnerData v);
    GSlice tString (MAASMachineSpec_SSHAuthorizedKeys v);
    GSlice tPackageRepo (MAASMachineSpec_PackageRepositories v);
    GPtr tSecretKeySelector (MAASMachineSpec_UserDataSecretRef v)].

Definition MAASMachineSpec_zero : MAASMachineSpec := mkMAASMachineSpec [] Identity_zero None Placement_zero None OS_zero [] ProvisioningSpec_zero None None None None
None None None None None None.

Record MAASMachineStatus := mkMAASMachineStatus {
  MAASMachineStatus_Phase : MachinePhase;
  MAASMachineStatus_SystemID : bytes;
  MAASMachineStatus_ProviderID : bytes;
  MAASMachineStatus_PowerState : bytes;
  MAASMachineStatus_Addresses : gslice tString;
  MAASMachineStatus_MACAddresses : gslice tString;
  MAASMachineStatus_ResolvedAliases : gomap tString;
  MAASMachineStatus_ObservedGeneration : Z;
  MAASMachineStatus_ProvisioningMethod : ProvisioningMethod;
  MAASMachineStatus_ISOObjectKey : bytes;
  MAASMachineStatus_Conditions : gslice tCondition;
}.

Definition MAASMachineStatus_enc (v : MAASMachineStatus) : gval api_ty :=
  struct [GStr (MAASMachineStatus_Phase v); GStr (MAASMachineStatus_SystemID v);
    GStr (MAASMachineStatus_ProviderID v); GStr (MAASMachineStatus_PowerState v);
    GSlice tString (MAASMachineStatus_Addresses v);
    GSlice tString (MAASMachineStatus_MACAddresses v);
    GMap tString (MAASMachineStatus_ResolvedAliases v);
    GInt (MAASMachineStatus_ObservedGeneration v);
    GStr (MAASMachineStatus_ProvisioningMethod v);
    GStr (MAASMachineStatus_ISOObjectKey v);
    GSlice tCondition (MAASMachineStatus_Conditions v)].

Definition MAASMachineStatus_zero : MAASMachineStatus := mkMAASMachineStatus [] [] [] [] None None None 0 [] [] None.

Record MAASMachine `{K8s} := mkMAASMachine {
  MAASMachine_TypeMeta : TypeMeta;
  MAASMachine_ObjectMeta : ObjectMeta;
  MAASMachine_Spec : MAASMachineSpec;
  MAASMachine_Status : MAASMachineStatus;
}.

Arguments mkMAASMachine {_}.

Definition MAASMachine_enc `{K8s} (v : MAASMachine) : gval api_ty :=
  struct [TypeMeta_enc (MAASMachine_TypeMeta v); ObjectMeta_enc (MAASMachine_ObjectMeta v);
    MAASMachineSpec_enc (MAASMachine_Spec v);
    MAASMachineStatus_enc (MAASMachine_Status v)].

Definition MAASMachine_zero `{K8s} : MAASMachine := mkMAASMachine TypeMeta_zero ObjectMeta_zero MAASMachineSpec_zero MAASMachineStatus_zero.

Record MAASMachineList `{K8s} := mkMAASMachineList {
  MAASMachineList_TypeMeta : TypeMeta;
  MAASMachineList_ListMeta : ListMeta;
  MAASMachineList_Items : gslice tMAASMachine;
}.

Arguments mkMAASMachineList {_}.

Definition MAASMachineList_enc `{K8s} (v : MAASMachineList) : gval api_ty :=
  struct [TypeMeta_enc (MAASMachineList_TypeMeta v); ListMeta_enc (MAASMachineList_ListMeta v);
    GSlice tMAASMachine (MAASMachineList_Items v)].

Definition MAASMachineList_zero `{K8s} : MAASMachineList := mkMAASMachineList TypeMeta_zero ListMeta_zero None.

(** ** The universe of the API *)

Section universe.
Context `{K8s}.

Definition api_den (t : api_ty) : Type :=
  match t with
  | tString => bytes
  | tInt | tInt64 => Z
  | tIdentity => Identity
  | tBMC => BMC
  | tOS => OS
  | tResourceConstraints => ResourceConstraints
  | tPlacement => Placement
  | tDeviceAlias => DeviceAlias
  | tRoute => Route
  | tSRIOVConfig => SRIOVConfig
  | tDeviceMatch => DeviceMatch
  | tInterfaceCommon => InterfaceCommon
  | tEthernetConfig => EthernetConfig
  | tBondMemberAttachment => BondMemberAttachment
  | tBondParameters => BondParameters
  | tBondConfig => BondConfig
  | tVLANConfig => VLANConfig
  | tFabricNetplanConfig => FabricNetplanConfig
  | tDNSConfig => DNSConfig
  | tNetworkConfig => NetworkConfig
  | tFilesystem => Filesystem
  | tPartition => Partition
  | tDisk => Disk
  | tLogicalVolume => LogicalVolume
  | tVolumeGroup => VolumeGroup
  | tStorageSpec => StorageSpec
  | tProvisioningSpec => ProvisioningSpec
  | tHugePages => HugePages
  | tPackageRepo => PackageRepo
  | tMAASMachineSpec => MAASMachineSpec
  | tMAASMachineStatus => MAASMachineStatus
  | tMAASMachine => MAASMachine
  | tMAASMachineList => MAASMachineList
  | tSecretKeySelector => SecretKeySelector
  | tCondition => Condition
  | tExt e => ext_den e
  end.

Definition api_enc (t : api_ty) : api_den t -> gval api_ty :=
  match t with
  | tString => GStr
  | tInt | tInt64 => GInt
  | tIdentity => Identity_enc
  | tBMC => BMC_enc
  | tOS => OS_enc
  | tResourceConstraints => ResourceConstraints_enc
  | tPlacement => Placement_enc
  | tDeviceAlias => DeviceAlias_enc
  | tRoute => Route_enc
  | tSRIOVConfig => SRIOVConfig_enc
  | tDeviceMatch => DeviceMatch_enc
  | tInterfaceCommon => InterfaceCommon_enc
  | tEthernetConfig => EthernetConfig_enc
  | tBondMemberAttachment => BondMemberAttachment_enc
  | tBondParameters => BondParameters_enc
  | tBondConfig => BondConfig_enc
  | tVLANConfig => VLANConfig_enc
  | tFabricNetplanConfig => FabricNetplanConfig_enc
  | tDNSConfig => DNSConfig_enc
  | tNetworkConfig => NetworkConfig_enc
  | tFilesystem => Filesystem_enc
  | tPartition => Partition_enc
  | tDisk => Disk_enc
  | tLogicalVolume => LogicalVolume_enc
  | tVolumeGroup => VolumeGroup_enc
  | tStorageSpec => StorageSpec_enc
  | tProvisioningSpec => ProvisioningSpec_enc
  | tHugePages => HugePages_enc
  | tPackageRepo => PackageRepo_enc
  | tMAASMachineSpec => MAASMachineSpec_enc
  | tMAASMachineStatus => MAASMachineStatus_enc
  | tMAASMachine => MAASMachine_enc
  | tMAASMachineList => MAASMachineList_enc
  | tSecretKeySelector => SecretKeySelector_enc
  | tCondition => Condition_enc
  | tExt e => ext_enc e
  end.

Definition api_zero (t : api_ty) : api_den t :=
  match t with
  | tString => []
  | tInt | tInt64 => 0
  | tIdentity => Identity_zero
  | tBMC => BMC_zero
  | tOS => OS_zero
  | tResourceConstraints => ResourceConstraints_zero
  | tPlacement => Placement_zero
  | tDeviceAlias => DeviceAlias_zero
  | tRoute => Route_zero
  | tSRIOVConfig => SRIOVConfig_zero
  | tDeviceMatch => DeviceMatch_zero
  | tInterfaceCommon => InterfaceCommon_zero
  | tEthernetConfig => EthernetConfig_zero
  | tBondMemberAttachment => BondMemberAttachment_zero
  | tBondParameters => BondParameters_zero
  | tBondConfig => BondConfig_zero
  | tVLANConfig => VLANConfig_zero
  | tFabricNetplanConfig => FabricNetplanConfig_zero
  | tDNSConfig => DNSConfig_zero
  | tNetworkConfig => NetworkConfig_zero
  | tFilesystem => Filesystem_zero
  | tPartition => Partition_zero
  | tDisk => Disk_zero
  | tLogicalVolume => LogicalVolume_zero
  | tVolumeGroup => VolumeGroup_zero
  | tStorageSpec => StorageSpec_zero
  | tProvisioningSpec => ProvisioningSpec_zero
  | tHugePages => HugePages_zero
  | tPackageRepo => PackageRepo_zero
  | tMAASMachineSpec => MAASMachineSpec_zero
  | tMAASMachineStatus => MAASMachineStatus_zero
  | tMAASMachine => MAASMachine_zero
  | tMAASMachineList => MAASMachineList_zero
  | tSecretKeySelector => SecretKeySelector_zero
  | tCondition => Condition_zero
  | tExt e => ext_zero e
  end.

#[global] Instance api : Universe := {|
  ty := api_ty; den := api_den; enc := api_enc; zero := api_zero;
|}.
End universe.
