(* ===== verification/DeepCopy.v ===== *)
(** * The generated deep copies ([src/api/v1alpha1/zz_generated.deepcopy.go])

    One function per method.  [T_DeepCopyInto] takes the value [*in] and returns
    what the method stores in [*out]; the caller stores it.  The two pointers
    never alias: [out] is always freshly allocated, or a part of what is. *)

From S2P Require Import Prelude GoHeap ApiTypes.

(** The deep copies of the Kubernetes types. *)
Class K8sCopy `{K8s} := {
  SecretKeySelector_DeepCopyInto : SecretKeySelector -> heapM SecretKeySelector;
  Condition_DeepCopyInto : Condition -> heapM Condition;
  ObjectMeta_DeepCopyInto : ObjectMeta -> heapM ObjectMeta;
  ListMeta_DeepCopyInto : ListMeta -> heapM ListMeta;
}.

Section deepcopy.
Context `{K8sCopy, MapOrder}.

Definition Identity_DeepCopyInto (in_ : Identity) : heapM Identity :=
  MACAddresses ← copy_slice tString (Identity_MACAddresses in_);
  mret (mkIdentity
    (Identity_SystemID in_) MACAddresses (Identity_Hostname in_) (Identity_Architecture in_)).

Definition Identity_DeepCopy (in_ : ptr tIdentity) : heapM (ptr tIdentity) :=
  copy_ptr tIdentity Identity_DeepCopyInto in_.

Definition BMC_DeepCopyInto (in_ : BMC) : heapM BMC :=
  PasswordSecretRef ←
    copy_ptr tSecretKeySelector SecretKeySelector_DeepCopyInto (BMC_PasswordSecretRef in_);
  Parameters ← copy_map tString (BMC_Parameters in_);
  mret (mkBMC
    (BMC_PowerType in_) (BMC_Address in_) (BMC_Username in_) (BMC_Password in_)
    PasswordSecretRef Parameters).

Definition BMC_DeepCopy (in_ : ptr tBMC) : heapM (ptr tBMC) :=
  copy_ptr tBMC BMC_DeepCopyInto in_.

Definition OS_DeepCopyInto (in_ : OS) : heapM OS :=
  mret in_.

Definition OS_DeepCopy (in_ : ptr tOS) : heapM (ptr tOS) :=
  copy_ptr tOS OS_DeepCopyInto in_.

Definition ResourceConstraints_DeepCopyInto (in_ : ResourceConstraints)
    : heapM ResourceConstraints :=
  mret in_.

Definition ResourceConstraints_DeepCopy (in_ : ptr tResourceConstraints)
    : heapM (ptr tResourceConstraints) :=
  copy_ptr tResourceConstraints ResourceConstraints_DeepCopyInto in_.

Definition Placement_DeepCopyInto (in_ : Placement) : heapM Placement :=
  Tags ← copy_slice tString (Placement_Tags in_);
  mret (mkPlacement
    (Placement_Zone in_) (Placement_ResourcePool in_) Tags).

Definition Placement_DeepCopy (in_ : ptr tPlacement) : heapM (ptr tPlacement) :=
  copy_ptr tPlacement Placement_DeepCopyInto in_.

Definition DeviceAlias_DeepCopyInto (in_ : DeviceAlias) : heapM DeviceAlias :=
  mret in_.

Definition DeviceAlias_DeepCopy (in_ : ptr tDeviceAlias) : heapM (ptr tDeviceAlias) :=
  copy_ptr tDeviceAlias DeviceAlias_DeepCopyInto in_.

Definition Route_DeepCopyInto (in_ : Route) : heapM Route :=
  Metric ← copy_ptr_plain tInt (Route_Metric in_);
  mret (mkRoute
    (Route_Destination in_) (Route_Gateway in_) Metric).

Definition Route_DeepCopy (in_ : ptr tRoute) : heapM (ptr tRoute) :=
  copy_ptr tRoute Route_DeepCopyInto in_.

Definition SRIOVConfig_DeepCopyInto (in_ : SRIOVConfig) : heapM SRIOVConfig :=
  mret in_.

Definition SRIOVConfig_DeepCopy (in_ : ptr tSRIOVConfig) : heapM (ptr tSRIOVConfig) :=
  copy_ptr tSRIOVConfig SRIOVConfig_DeepCopyInto in_.

Definition DeviceMatch_DeepCopyInto (in_ : DeviceMatch) : heapM DeviceMatch :=
  mret in_.

Definition DeviceMatch_DeepCopy (in_ : ptr tDeviceMatch) : heapM (ptr tDeviceMatch) :=
  copy_ptr tDeviceMatch DeviceMatch_DeepCopyInto in_.

Definition DNSConfig_DeepCopyInto (in_ : DNSConfig) : heapM DNSConfig :=
  Nameservers ← copy_slice tString (DNSConfig_Nameservers in_);
  Search ← copy_slice tString (DNSConfig_Search in_);
  mret (mkDNSConfig
    Nameservers Search).

Definition DNSConfig_DeepCopy (in_ : ptr tDNSConfig) : heapM (ptr tDNSConfig) :=
  copy_ptr tDNSConfig DNSConfig_DeepCopyInto in_.

Definition InterfaceCommon_DeepCopyInto (in_ : InterfaceCommon) : heapM InterfaceCommon :=
  MTU ← copy_ptr_plain tInt (InterfaceCommon_MTU in_);
  Addresses ← copy_slice tString (InterfaceCommon_Addresses in_);
  Routes ← copy_slice_into tRoute Route_DeepCopyInto (InterfaceCommon_Routes in_);
  DNS ← copy_ptr tDNSConfig DNSConfig_DeepCopyInto (InterfaceCommon_DNS in_);
  mret (mkInterfaceCommon
    (InterfaceCommon_Network in_) MTU Addresses (InterfaceCommon_Gateway4 in_) Routes
    (InterfaceCommon_LinkMode in_) DNS).

Definition InterfaceCommon_DeepCopy (in_ : ptr tInterfaceCommon) : heapM (ptr tInterfaceCommon) :=
  copy_ptr tInterfaceCommon InterfaceCommon_DeepCopyInto in_.

Definition EthernetConfig_DeepCopyInto (in_ : EthernetConfig) : heapM EthernetConfig :=
  InterfaceCommon ← InterfaceCommon_DeepCopyInto (EthernetConfig_InterfaceCommon in_);
  Match ← copy_ptr_plain tDeviceMatch (EthernetConfig_Match in_);
  SRIOV ← copy_ptr_plain tSRIOVConfig (EthernetConfig_SRIOV in_);
  mret (mkEthernetConfig
    InterfaceCommon Match SRIOV).

Definition EthernetConfig_DeepCopy (in_ : ptr tEthernetConfig) : heapM (ptr tEthernetConfig) :=
  copy_ptr tEthernetConfig EthernetConfig_DeepCopyInto in_.

Definition BondMemberAttachment_DeepCopyInto (in_ : BondMemberAttachment)
    : heapM BondMemberAttachment :=
  mret in_.

Definition BondMemberAttachment_DeepCopy (in_ : ptr tBondMemberAttachment)
    : heapM (ptr tBondMemberAttachment) :=
  copy_ptr tBondMemberAttachment BondMemberAttachment_DeepCopyInto in_.

Definition BondParameters_DeepCopyInto (in_ : BondParameters) : heapM BondParameters :=
  MIIMonitorInterval ← copy_ptr_plain tInt (BondParameters_MIIMonitorInterval in_);
  UpDelay ← copy_ptr_plain tInt (BondParameters_UpDelay in_);
  DownDelay ← copy_ptr_plain tInt (BondParameters_DownDelay in_);
  mret (mkBondParameters
    (BondParameters_Mode in_) (BondParameters_LACPRate in_)
    (BondParameters_TransmitHashPolicy in_) MIIMonitorInterval UpDelay DownDelay).

Definition BondParameters_DeepCopy (in_ : ptr tBondParameters) : heapM (ptr tBondParameters) :=
  copy_ptr tBondParameters BondParameters_DeepCopyInto in_.

Definition BondConfig_DeepCopyInto (in_ : BondConfig) : heapM BondConfig :=
  InterfaceCommon ← InterfaceCommon_DeepCopyInto (BondConfig_InterfaceCommon in_);
  Interfaces ← copy_slice tBondMemberAttachment (BondConfig_Interfaces in_);
  Parameters ← copy_ptr tBondParameters BondParameters_DeepCopyInto (BondConfig_Parameters in_);
  mret (mkBondConfig
    InterfaceCommon Interfaces Parameters).

Definition BondConfig_DeepCopy (in_ : ptr tBondConfig) : heapM (ptr tBondConfig) :=
  copy_ptr tBondConfig BondConfig_DeepCopyInto in_.

Definition VLANConfig_DeepCopyInto (in_ : VLANConfig) : heapM VLANConfig :=
  InterfaceCommon ← InterfaceCommon_DeepCopyInto (VLANConfig_InterfaceCommon in_);
  mret (mkVLANConfig
    InterfaceCommon (VLANConfig_ID in_) (VLANConfig_Link in_)).

Definition VLANConfig_DeepCopy (in_ : ptr tVLANConfig) : heapM (ptr tVLANConfig) :=
  copy_ptr tVLANConfig VLANConfig_DeepCopyInto in_.

Definition FabricNetplanConfig_DeepCopyInto (in_ : FabricNetplanConfig)
    : heapM FabricNetplanConfig :=
  Ethernets ←
    copy_map_into tEthernetConfig EthernetConfig_DeepCopy (FabricNetplanConfig_Ethernets in_);
  Bonds ← copy_map_into tBondConfig BondConfig_DeepCopy (FabricNetplanConfig_Bonds in_);
  VLANs ← copy_map_into tVLANConfig VLANConfig_DeepCopy (FabricNetplanConfig_VLANs in_);
  mret (mkFabricNetplanConfig
    Ethernets Bonds VLANs).

Definition FabricNetplanConfig_DeepCopy (in_ : ptr tFabricNetplanConfig)
    : heapM (ptr tFabricNetplanConfig) :=
  copy_ptr tFabricNetplanConfig FabricNetplanConfig_DeepCopyInto in_.

Definition NetworkConfig_DeepCopyInto (in_ : NetworkConfig) : heapM NetworkConfig :=
  DNS ← copy_ptr tDNSConfig DNSConfig_DeepCopyInto (NetworkConfig_DNS in_);
  Fabrics ←
    copy_map_into tFabricNetplanConfig FabricNetplanConfig_DeepCopy (NetworkConfig_Fabrics in_);
  mret (mkNetworkConfig
    (NetworkConfig_PrimaryNetwork in_) DNS Fabrics).

Definition NetworkConfig_DeepCopy (in_ : ptr tNetworkConfig) : heapM (ptr tNetworkConfig) :=
  copy_ptr tNetworkConfig NetworkConfig_DeepCopyInto in_.

Definition Filesystem_DeepCopyInto (in_ : Filesystem) : heapM Filesystem :=
  mret in_.

Definition Filesystem_DeepCopy (in_ : ptr tFilesystem) : heapM (ptr tFilesystem) :=
  copy_ptr tFilesystem Filesystem_DeepCopyInto in_.

Definition Partition_DeepCopyInto (in_ : Partition) : heapM Partition :=
  Number ← copy_ptr_plain tInt (Partition_Number in_);
  SizeGiB ← copy_ptr_plain tInt64 (Partition_SizeGiB in_);
  Labels ← copy_map tString (Partition_Labels in_);
  Filesystem ← copy_ptr_plain tFilesystem (Partition_Filesystem in_);
  mret (mkPartition
    (Partition_Name in_) Number SizeGiB (Partition_Grow in_) (Partition_Bootable in_) Labels
    Filesystem).

Definition Partition_DeepCopy (in_ : ptr tPartition) : heapM (ptr tPartition) :=
  copy_ptr tPartition Partition_DeepCopyInto in_.

Definition Disk_DeepCopyInto (in_ : Disk) : heapM Disk :=
  Labels ← copy_map tString (Disk_Labels in_);
  Partitions ← copy_slice_into tPartition Partition_DeepCopyInto (Disk_Partitions in_);
  mret (mkDisk
    (Disk_DeviceAlias in_) (Disk_Name in_) (Disk_Bootable in_) (Disk_PartitionTable in_) Labels
    Partitions).

Definition Disk_DeepCopy (in_ : ptr tDisk) : heapM (ptr tDisk) :=
  copy_ptr tDisk Disk_DeepCopyInto in_.

Definition LogicalVolume_DeepCopyInto (in_ : LogicalVolume) : heapM LogicalVolume :=
  SizeGiB ← copy_ptr_plain tInt64 (LogicalVolume_SizeGiB in_);
  Filesystem ← copy_ptr_plain tFilesystem (LogicalVolume_Filesystem in_);
  mret (mkLogicalVolume
    (LogicalVolume_Name in_) SizeGiB (LogicalVolume_Grow in_) Filesystem).

Definition LogicalVolume_DeepCopy (in_ : ptr tLogicalVolume) : heapM (ptr tLogicalVolume) :=
  copy_ptr tLogicalVolume LogicalVolume_DeepCopyInto in_.

Definition VolumeGroup_DeepCopyInto (in_ : VolumeGroup) : heapM VolumeGroup :=
  Members ← copy_slice tString (VolumeGroup_Members in_);
  LogicalVolumes ←
    copy_slice_into tLogicalVolume LogicalVolume_DeepCopyInto (VolumeGroup_LogicalVolumes in_);
  mret (mkVolumeGroup
    (VolumeGroup_Name in_) Members LogicalVolumes).

Definition VolumeGroup_DeepCopy (in_ : ptr tVolumeGroup) : heapM (ptr tVolumeGroup) :=
  copy_ptr tVolumeGroup VolumeGroup_DeepCopyInto in_.

Definition StorageSpec_DeepCopyInto (in_ : StorageSpec) : heapM StorageSpec :=
  Disks ← copy_slice_into tDisk Disk_DeepCopyInto (StorageSpec_Disks in_);
  VolumeGroups ←
    copy_slice_into tVolumeGroup VolumeGroup_DeepCopyInto (StorageSpec_VolumeGroups in_);
  mret (mkStorageSpec
    (StorageSpec_Layout in_) (StorageSpec_BootDeviceAlias in_) Disks VolumeGroups).

Definition StorageSpec_DeepCopy (in_ : ptr tStorageSpec) : heapM (ptr tStorageSpec) :=
  copy_ptr tStorageSpec StorageSpec_DeepCopyInto in_.

Definition ProvisioningSpec_DeepCopyInto (in_ : ProvisioningSpec) : heapM ProvisioningSpec :=
  mret in_.

Definition ProvisioningSpec_DeepCopy (in_ : ptr tProvisioningSpec)
    : heapM (ptr tProvisioningSpec) :=
  copy_ptr tProvisioningSpec ProvisioningSpec_DeepCopyInto in_.

Definition HugePages_DeepCopyInto (in_ : HugePages) : heapM HugePages :=
  mret in_.

Definition HugePages_DeepCopy (in_ : ptr tHugePages) : heapM (ptr tHugePages) :=
  copy_ptr tHugePages HugePages_DeepCopyInto in_.

Definition PackageRepo_DeepCopyInto (in_ : PackageRepo) : heapM PackageRepo :=
  Distributions ← copy_slice tString (PackageRepo_Distributions in_);
  Components ← copy_slice tString (PackageRepo_Components in_);
  Arches ← copy_slice tString (PackageRepo_Arches in_);
  mret (mkPackageRepo
    (PackageRepo_Name in_) (PackageRepo_Type in_) (PackageRepo_URL in_) Distributions
    Components (PackageRepo_GPGKey in_) Arches).

Definition PackageRepo_DeepCopy (in_ : ptr tPackageRepo) : heapM (ptr tPackageRepo) :=
  copy_ptr tPackageRepo PackageRepo_DeepCopyInto in_.

Definition MAASMachineSpec_DeepCopyInto (in_ : MAASMachineSpec) : heapM MAASMachineSpec :=
  Identity ← Identity_DeepCopyInto (MAASMachineSpec_Identity in_);
  BMC ← copy_ptr tBMC BMC_DeepCopyInto (MAASMachineSpec_BMC in_);
  Placement ← Placement_DeepCopyInto (MAASMachineSpec_Placement in_);
  Resources ← copy_ptr_plain tResourceConstraints (MAASMachineSpec_Resources in_);
  KernelParams ← copy_map tString (MAASMachineSpec_KernelParams in_);
  HugePages ← copy_slice tHugePages (MAASMachineSpec_HugePages in_);
  CPUSets ← copy_map tString (MAASMachineSpec_CPUSets in_);
  DeviceAliases ← copy_slice tDeviceAlias (MAASMachineSpec_DeviceAliases in_);
  Network ← copy_ptr tNetworkConfig NetworkConfig_DeepCopyInto (MAASMachineSpec_Network in_);
  Storage ← copy_ptr tStorageSpec StorageSpec_DeepCopyInto (MAASMachineSpec_Storage in_);
  OwnerData ← copy_map tString (MAASMachineSpec_OwnerData in_);
  SSHAuthorizedKeys ← copy_slice tString (MAASMachineSpec_SSHAuthorizedKeys in_);
  PackageRepositories ←
    copy_slice_into tPackageRepo PackageRepo_DeepCopyInto (MAASMachineSpec_PackageRepositories in_);
  UserDataSecretRef ←
    copy_ptr tSecretKeySelector SecretKeySelector_DeepCopyInto (MAASMachineSpec_UserDataSecretRef in_);
  mret (mkMAASMachineSpec
    (MAASMachineSpec_DesiredState in_) Identity BMC Placement Resources
    (MAASMachineSpec_OS in_) (MAASMachineSpec_BootMode in_) (MAASMachineSpec_Provisioning in_)
    KernelParams HugePages CPUSets DeviceAliases Network Storage OwnerData SSHAuthorizedKeys
    PackageRepositories UserDataSecretRef).

Definition MAASMachineSpec_DeepCopy (in_ : ptr tMAASMachineSpec) : heapM (ptr tMAASMachineSpec) :=
  copy_ptr tMAASMachineSpec MAASMachineSpec_DeepCopyInto in_.

Definition MAASMachineStatus_DeepCopyInto (in_ : MAASMachineStatus) : heapM MAASMachineStatus :=
  Addresses ← copy_slice tString (MAASMachineStatus_Addresses in_);
  MACAddresses ← copy_slice tString (MAASMachineStatus_MACAddresses in_);
  ResolvedAliases ← copy_map tString (MAASMachineStatus_ResolvedAliases in_);
  Conditions ←
    copy_slice_into tCondition Condition_DeepCopyInto (MAASMachineStatus_Conditions in_);
  mret (mkMAASMachineStatus
    (MAASMachineStatus_Phase in_) (MAASMachineStatus_SystemID in_)
    (MAASMachineStatus_ProviderID in_) (MAASMachineStatus_PowerState in_) Addresses
    MACAddresses ResolvedAliases (MAASMachineStatus_ObservedGeneration in_)
    (MAASMachineStatus_ProvisioningMethod in_) (MAASMachineStatus_ISOObjectKey in_) Conditions).

Definition MAASMachineStatus_DeepCopy (in_ : ptr tMAASMachineStatus)
    : heapM (ptr tMAASMachineStatus) :=
  copy_ptr tMAASMachineStatus MAASMachineStatus_DeepCopyInto in_.

Definition MAASMachine_DeepCopyInto (in_ : MAASMachine) : heapM MAASMachine :=
  ObjectMeta ← ObjectMeta_DeepCopyInto (MAASMachine_ObjectMeta in_);
  Spec ← MAASMachineSpec_DeepCopyInto (MAASMachine_Spec in_);
  Status ← MAASMachineStatus_DeepCopyInto (MAASMachine_Status in_);
  mret (mkMAASMachine
    (MAASMachine_TypeMeta in_) ObjectMeta Spec Status).

Definition MAASMachine_DeepCopy (in_ : ptr tMAASMachine) : heapM (ptr tMAASMachine) :=
  copy_ptr tMAASMachine MAASMachine_DeepCopyInto in_.

Definition MAASMachineList_DeepCopyInto (in_ : MAASMachineList) : heapM MAASMachineList :=
  ListMeta ← ListMeta_DeepCopyInto (MAASMachineList_ListMeta in_);
  Items ← copy_slice_into tMAASMachine MAASMachine_DeepCopyInto (MAASMachineList_Items in_);
  mret (mkMAASMachineList
    (MAASMachineList_TypeMeta in_) ListMeta Items).

Definition MAASMachineList_DeepCopy (in_ : ptr tMAASMachineList) : heapM (ptr tMAASMachineList) :=
  copy_ptr tMAASMachineList MAASMachineList_DeepCopyInto in_.

(** A [runtime.Object]: an interface value, nil or a pointer with its type. *)
Inductive Object :=
| NilObject
| MachineObject (p : ptr tMAASMachine)
| ListObject (p : ptr tMAASMachineList).

Definition MAASMachine_DeepCopyObject (in_ : ptr tMAASMachine) : heapM Object :=
  c ← MAASMachine_DeepCopy in_;
  mret (match c with Some _ => MachineObject c | None => NilObject end).

Definition MAASMachineList_DeepCopyObject (in_ : ptr tMAASMachineList) : heapM Object :=
  c ← MAASMachineList_DeepCopy in_;
  mret (match c with Some _ => ListObject c | None => NilObject end).
End deepcopy.
