(* ===== verification/DeepCopyFacts.v ===== *)
(** * The generated deep copies are deep copies

    Every [DeepCopyInto] of the API is a deep copy, given those of the
    Kubernetes libraries, and on a well-typed heap every copy succeeds. *)

From S2P Require Import Prelude GoHeap GoHeapFacts ApiTypes DeepCopy.

(** The documented behaviour of the Kubernetes types: their [DeepCopyInto]
    methods copy deeply, and a [TypeMeta] consists of strings. *)
Class K8sCopyLaws `{K8sCopy} : Prop := {
  SecretKeySelector_copies : deep_copies SecretKeySelector_enc SecretKeySelector_DeepCopyInto;
  Condition_copies : deep_copies Condition_enc Condition_DeepCopyInto;
  ObjectMeta_copies : deep_copies ObjectMeta_enc ObjectMeta_DeepCopyInto;
  ListMeta_copies : deep_copies ListMeta_enc ListMeta_DeepCopyInto;
  TypeMeta_plain : forall v, plain (TypeMeta_enc v) = true;
}.

Create HintDb deepcopy.
#[export] Hint Resolve copy_ptr_deep copy_ptr_plain_deep copy_slice_deep copy_slice_into_deep
  copy_map_deep copy_map_into_deep : deepcopy.
#[export] Hint Resolve SecretKeySelector_copies Condition_copies ObjectMeta_copies ListMeta_copies
  : deepcopy.
#[export] Hint Extern 0 (plain (TypeMeta_enc _) = true) => apply TypeMeta_plain : deepcopy.
#[export] Hint Extern 1 (plain _ = true) => reflexivity : deepcopy.

(** The hypothesis that a struct stands for a tree, field by field. *)
Ltac open_struct H :=
  lazymatch type of H with
  | resolve _ _ (GPair _ _) = Some _ =>
      let x := fresh "x" in let y := fresh "y" in let H1 := fresh "Hf" in let H2 := fresh "Hf" in
      destruct (proj1 (resolve_pair_Some _ _ _ _ _) H) as (x & y & H1 & H2 & ->); clear H;
      open_struct H2
  | _ => idtac
  end.

(** One field of the copy; what is owned already stays owned. *)
Ltac copy_field :=
  eapply makes_bind;
  [solve [eauto with deepcopy] | eassumption | eassumption |
   let h' := fresh "h" in let a' := fresh "a" in let Hn := fresh "Hn" in
   intros h' a' Hn ? ?;
   repeat match goal with
   | Ho : owned _ ?h _ _ _ |- _ =>
       lazymatch type of Hn with h `prefix_of` _ => apply (owned_later _ _ _ _ _ _ Hn) in Ho end
   end; clear Hn].

(** The fields of the copy put together again. *)
Ltac close_struct :=
  first
  [ eassumption
  | refine (owned_pair _ _ _ _ _ _ _ _ _); close_struct
  | refine (owned_plain _ _ _ _ _ _ _);
    [solve [auto with deepcopy] | eapply resolve_prefix; [eassumption | eassumption]] ].

Ltac head_of m := lazymatch m with ?f _ => head_of f | _ => m end.

Ltac copy_struct :=
  let x := fresh "x" in let Hx := fresh "Hx" in
  intros ? ? ? x Hx;
  lazymatch type of Hx with
  | resolve _ ?h (?en ?v) = _ =>
      let e := head_of en in
      let g := eval cbv [e struct foldr] in (en v) in change (en v) with g in Hx;
      lazymatch goal with
      | |- makes ?la ?n ?x ?m h => change (makes_from h la n x m h)
      end
  end;
  open_struct Hx;
  lazymatch goal with
  | |- makes_from ?h _ _ _ ?m _ =>
      let f := head_of m in unfold f; pose proof (reflexivity (R := prefix) h);
      repeat copy_field; apply makes_ret; [eassumption | close_struct]
  end.

Section copies.
Context `{K8sCopyLaws} {O : MapOrder} {OL : MapOrderLaws O}.

Lemma Identity_copies : deep_copies Identity_enc Identity_DeepCopyInto.
Proof. copy_struct. Qed.

#[local] Hint Resolve Identity_copies : deepcopy.

Lemma BMC_copies : deep_copies BMC_enc BMC_DeepCopyInto.
Proof. copy_struct. Qed.

#[local] Hint Resolve BMC_copies : deepcopy.

Lemma OS_copies : deep_copies OS_enc OS_DeepCopyInto.
Proof. by apply deep_copies_plain. Qed.

#[local] Hint Resolve OS_copies : deepcopy.

Lemma ResourceConstraints_copies : deep_copies ResourceConstraints_enc ResourceConstraints_DeepCopyInto.
Proof. by apply deep_copies_plain. Qed.

#[local] Hint Resolve ResourceConstraints_copies : deepcopy.

Lemma Placement_copies : deep_copies Placement_enc Placement_DeepCopyInto.
Proof. copy_struct. Qed.

#[local] Hint Resolve Placement_copies : deepcopy.

Lemma DeviceAlias_copies : deep_copies DeviceAlias_enc DeviceAlias_DeepCopyInto.
Proof. by apply deep_copies_plain. Qed.

#[local] Hint Resolve DeviceAlias_copies : deepcopy.

Lemma Route_copies : deep_copies Route_enc Route_DeepCopyInto.
Proof. copy_struct. Qed.

#[local] Hint Resolve Route_copies : deepcopy.

Lemma SRIOVConfig_copies : deep_copies SRIOVConfig_enc SRIOVConfig_DeepCopyInto.
Proof. by apply deep_copies_plain. Qed.

#[local] Hint Resolve SRIOVConfig_copies : deepcopy.

Lemma DeviceMatch_copies : deep_copies DeviceMatch_enc DeviceMatch_DeepCopyInto.
Proof. by apply deep_copies_plain. Qed.

#[local] Hint Resolve DeviceMatch_copies : deepcopy.

Lemma DNSConfig_copies : deep_copies DNSConfig_enc DNSConfig_DeepCopyInto.
Proof. copy_struct. Qed.

#[local] Hint Resolve DNSConfig_copies : deepcopy.

Lemma InterfaceCommon_copies : deep_copies InterfaceCommon_enc InterfaceCommon_DeepCopyInto.
Proof. copy_struct. Qed.

#[local] Hint Resolve InterfaceCommon_copies : deepcopy.

Lemma EthernetConfig_copies : deep_copies EthernetConfig_enc EthernetConfig_DeepCopyInto.
Proof. copy_struct. Qed.

#[local] Hint Resolve EthernetConfig_copies : deepcopy.

Lemma BondMemberAttachment_copies : deep_copies BondMemberAttachment_enc BondMemberAttachment_DeepCopyInto.
Proof. by apply deep_copies_plain. Qed.

#[local] Hint Resolve BondMemberAttachment_copies : deepcopy.

Lemma BondParameters_copies : deep_copies BondParameters_enc BondParameters_DeepCopyInto.
Proof. copy_struct. Qed.

#[local] Hint Resolve BondParameters_copies : deepcopy.

Lemma BondConfig_copies : deep_copies BondConfig_enc BondConfig_DeepCopyInto.
Proof. copy_struct. Qed.

#[local] Hint Resolve BondConfig_copies : deepcopy.

Lemma VLANConfig_copies : deep_copies VLANConfig_enc VLANConfig_DeepCopyInto.
Proof. copy_struct. Qed.

#[local] Hint Resolve VLANConfig_copies : deepcopy.

Lemma FabricNetplanConfig_copies : deep_copies FabricNetplanConfig_enc FabricNetplanConfig_DeepCopyInto.
Proof. copy_struct. Qed.

#[local] Hint Resolve FabricNetplanConfig_copies : deepcopy.

Lemma NetworkConfig_copies : deep_copies NetworkConfig_enc NetworkConfig_DeepCopyInto.
Proof. copy_struct. Qed.

#[local] Hint Resolve NetworkConfig_copies : deepcopy.

Lemma Filesystem_copies : deep_copies Filesystem_enc Filesystem_DeepCopyInto.
Proof. by apply deep_copies_plain. Qed.

#[local] Hint Resolve Filesystem_copies : deepcopy.

Lemma Partition_copies : deep_copies Partition_enc Partition_DeepCopyInto.
Proof. copy_struct. Qed.

#[local] Hint Resolve Partition_copies : deepcopy.

Lemma Disk_copies : deep_copies Disk_enc Disk_DeepCopyInto.
Proof. copy_struct. Qed.

#[local] Hint Resolve Disk_copies : deepcopy.

Lemma LogicalVolume_copies : deep_copies LogicalVolume_enc LogicalVolume_DeepCopyInto.
Proof. copy_struct. Qed.

#[local] Hint Resolve LogicalVolume_copies : deepcopy.

Lemma VolumeGroup_copies : deep_copies VolumeGroup_enc VolumeGroup_DeepCopyInto.
Proof. copy_struct. Qed.

#[local] Hint Resolve VolumeGroup_copies : deepcopy.

Lemma StorageSpec_copies : deep_copies StorageSpec_enc StorageSpec_DeepCopyInto.
Proof. copy_struct. Qed.

#[local] Hint Resolve StorageSpec_copies : deepcopy.

Lemma ProvisioningSpec_copies : deep_copies ProvisioningSpec_enc ProvisioningSpec_DeepCopyInto.
Proof. by apply deep_copies_plain. Qed.

#[local] Hint Resolve ProvisioningSpec_copies : deepcopy.

Lemma HugePages_copies : deep_copies HugePages_enc HugePages_DeepCopyInto.
Proof. by apply deep_copies_plain. Qed.

#[local] Hint Resolve HugePages_copies : deepcopy.

Lemma PackageRepo_copies : deep_copies PackageRepo_enc PackageRepo_DeepCopyInto.
Proof. copy_struct. Qed.

#[local] Hint Resolve PackageRepo_copies : deepcopy.

Lemma MAASMachineSpec_copies : deep_copies MAASMachineSpec_enc MAASMachineSpec_DeepCopyInto.
Proof. copy_struct. Qed.

#[local] Hint Resolve MAASMachineSpec_copies : deepcopy.

Lemma MAASMachineStatus_copies : deep_copies MAASMachineStatus_enc MAASMachineStatus_DeepCopyInto.
Proof. copy_struct. Qed.

#[local] Hint Resolve MAASMachineStatus_copies : deepcopy.

Lemma MAASMachine_copies : deep_copies MAASMachine_enc MAASMachine_DeepCopyInto.
Proof. copy_struct. Qed.

#[local] Hint Resolve MAASMachine_copies : deepcopy.

Lemma MAASMachineList_copies : deep_copies MAASMachineList_enc MAASMachineList_DeepCopyInto.
Proof. copy_struct. Qed.

#[local] Hint Resolve MAASMachineList_copies : deepcopy.

End copies.

#[export] Hint Resolve Identity_copies BMC_copies OS_copies ResourceConstraints_copies Placement_copies
  DeviceAlias_copies Route_copies SRIOVConfig_copies DeviceMatch_copies DNSConfig_copies
  InterfaceCommon_copies EthernetConfig_copies BondMemberAttachment_copies
  BondParameters_copies BondConfig_copies VLANConfig_copies FabricNetplanConfig_copies
  NetworkConfig_copies Filesystem_copies Partition_copies Disk_copies LogicalVolume_copies
  VolumeGroup_copies StorageSpec_copies ProvisioningSpec_copies HugePages_copies
  PackageRepo_copies MAASMachineSpec_copies MAASMachineStatus_copies MAASMachine_copies
  MAASMachineList_copies : deepcopy.

(** ** Every type of the API *)

Section all.
Context `{K8sCopy} {O : MapOrder}.

(** The [DeepCopy] method of a type. *)
Definition DeepCopy_of (t : api_ty) : option (ptr t -> heapM (ptr t)) :=
  match t with
  | tIdentity => Some Identity_DeepCopy
  | tBMC => Some BMC_DeepCopy
  | tOS => Some OS_DeepCopy
  | tResourceConstraints => Some ResourceConstraints_DeepCopy
  | tPlacement => Some Placement_DeepCopy
  | tDeviceAlias => Some DeviceAlias_DeepCopy
  | tRoute => Some Route_DeepCopy
  | tSRIOVConfig => Some SRIOVConfig_DeepCopy
  | tDeviceMatch => Some DeviceMatch_DeepCopy
  | tDNSConfig => Some DNSConfig_DeepCopy
  | tInterfaceCommon => Some InterfaceCommon_DeepCopy
  | tEthernetConfig => Some EthernetConfig_DeepCopy
  | tBondMemberAttachment => Some BondMemberAttachment_DeepCopy
  | tBondParameters => Some BondParameters_DeepCopy
  | tBondConfig => Some BondConfig_DeepCopy
  | tVLANConfig => Some VLANConfig_DeepCopy
  | tFabricNetplanConfig => Some FabricNetplanConfig_DeepCopy
  | tNetworkConfig => Some NetworkConfig_DeepCopy
  | tFilesystem => Some Filesystem_DeepCopy
  | tPartition => Some Partition_DeepCopy
  | tDisk => Some Disk_DeepCopy
  | tLogicalVolume => Some LogicalVolume_DeepCopy
  | tVolumeGroup => Some VolumeGroup_DeepCopy
  | tStorageSpec => Some StorageSpec_DeepCopy
  | tProvisioningSpec => Some ProvisioningSpec_DeepCopy
  | tHugePages => Some HugePages_DeepCopy
  | tPackageRepo => Some PackageRepo_DeepCopy
  | tMAASMachineSpec => Some MAASMachineSpec_DeepCopy
  | tMAASMachineStatus => Some MAASMachineStatus_DeepCopy
  | tMAASMachine => Some MAASMachine_DeepCopy
  | tMAASMachineList => Some MAASMachineList_DeepCopy
  | _ => None
  end.

Context {KL : K8sCopyLaws} {OL : MapOrderLaws O}.

Lemma DeepCopy_of_deep t f : DeepCopy_of t = Some f -> deep_copies (GPtr (t : ty)) f.
Proof.
  destruct t; intros E; try discriminate E; injection E as <-;
    apply copy_ptr_deep; eauto with deepcopy.
Qed.
End all.

(** ** Isolation *)

Section isolation.
Context `{Universe}.

(** Writes to nothing but what was there before the copy, and writes to nothing
    but what the copy allocated. *)
Definition writes_old (h h' k : heap) : Prop := forall l, (length h <= l)%nat -> k !! l = h' !! l.
Definition writes_new (h h' k : heap) : Prop := forall l, (l < length h)%nat -> k !! l = h' !! l.

Lemma deep_copies_isolated {A} (la : A -> gval ty) f n h (a : A) x :
  deep_copies la f -> resolve n h (la a) = Some x ->
  exists h' a', f a h = Some (h', a') /\
    resolve n h' (la a') = Some x /\
    (forall k, writes_old h h' k -> resolve n k (la a') = Some x) /\
    (forall k, writes_new h h' k -> resolve n k (la a) = Some x).
Proof.
  intros Hf Hx. destruct (Hf n h a x Hx) as (h' & a' & E & Hp & Ho).
  exists h', a'. split_and!; [done|by eapply owned_now|..].
  - intros k Hk. apply Ho. intros l c Hl Hc. by rewrite Hk.
  - intros k Hk. eapply resolve_keeps; [|exact Hx]. intros l c _ Hc.
    rewrite Hk by (by eapply lookup_lt_Some). by apply (prefix_keeps 0 h h'); [|lia|].
Qed.
End isolation.

(** ** Types without recursion *)

(** How deep the references of the Kubernetes types go. *)
Class K8sRanks `{K8s} := { ext_rank : nat -> nat; ext_depth : nat }.

Section ranks.
Context `{K8sRanks}.

Definition api_rank (t : api_ty) : nat :=
  match t with
  | tString | tInt | tInt64 => 0
  | tExt e => ext_rank e
  | tSecretKeySelector | tCondition => ext_depth
  | tOS | tResourceConstraints | tDeviceAlias | tSRIOVConfig | tDeviceMatch |
    tBondMemberAttachment | tFilesystem | tProvisioningSpec | tHugePages => 0 + ext_depth
  | tIdentity | tBMC | tPlacement | tRoute | tDNSConfig | tBondParameters | tPartition |
    tLogicalVolume | tPackageRepo | tMAASMachineStatus => 1 + ext_depth
  | tInterfaceCommon | tEthernetConfig | tBondConfig | tVLANConfig | tDisk | tVolumeGroup => 2 +
    ext_depth
  | tFabricNetplanConfig | tStorageSpec => 3 + ext_depth
  | tNetworkConfig => 4 + ext_depth
  | tMAASMachineSpec | tMAASMachine => 5 + ext_depth
  | tMAASMachineList => 6 + ext_depth
  end%nat.
End ranks.

Class K8sRankLaws `{K8sRanks} : Prop := {
  ext_ranked : forall e v, ranked api_rank (ext_rank e) (ext_enc e v);
  SecretKeySelector_ranked : forall v, ranked api_rank ext_depth (SecretKeySelector_enc v);
  Condition_ranked : forall v, ranked api_rank ext_depth (Condition_enc v);
  TypeMeta_ranked : forall v, ranked api_rank ext_depth (TypeMeta_enc v);
  ObjectMeta_ranked : forall v, ranked api_rank ext_depth (ObjectMeta_enc v);
  ListMeta_ranked : forall v, ranked api_rank ext_depth (ListMeta_enc v);
}.

Lemma api_ranked `{K8sRankLaws} (t : ty) (v : den t) : ranked api_rank (api_rank t) (enc t v).
Proof.
  assert (Hm : forall n g, (ext_depth <= n)%nat -> ranked api_rank ext_depth g -> ranked api_rank n g)
    by (intros n g; apply ranked_mono).
  destruct t; cbn; split_and?; try done; try lia;
    try (apply Hm; [lia|]);
    auto using ext_ranked, SecretKeySelector_ranked, Condition_ranked, TypeMeta_ranked,
      ObjectMeta_ranked, ListMeta_ranked.
Qed.

(** ** Theorems *)

(** C12: every generated [DeepCopy] makes an independent copy: on any heap,
    for a value that stands for some tree (which counts nil and empty as
    different, as [reflect.DeepEqual] does), the copy stands for the same tree;
    whatever is then written to memory that existed before does not change what
    the copy stands for, and whatever is written to the memory of the copy does
    not change the original. *)
Theorem api_deep_copy `{K8sCopyLaws} {O : MapOrder} {OL : MapOrderLaws O} (t : api_ty)
    (deepcopy : ptr t -> heapM (ptr t)) (h : heap) (p : ptr t) (n : nat) (x : tree)
    (Ht : DeepCopy_of t = Some deepcopy) (Hx : resolve n h (GPtr (t : ty) p) = Some x) :
  exists h' p', deepcopy p h = Some (h', p') /\
    resolve n h' (GPtr (t : ty) p') = Some x /\
    (forall k, writes_old h h' k -> resolve n k (GPtr (t : ty) p') = Some x) /\
    (forall k, writes_new h h' k -> resolve n k (GPtr (t : ty) p) = Some x).
Proof. apply deep_copies_isolated; [by apply DeepCopy_of_deep|done]. Qed.

(** C17: copying never fails on a well-typed heap.  Because no type of the API
    contains itself, a pointer to a value of any type with a [DeepCopy], in a
    heap whose references point to cells of their types, stands for a tree of
    bounded depth, and the copy returns, with the same tree. *)
Theorem deep_copy_total `{K8sCopyLaws, !K8sRanks, !K8sRankLaws} {O : MapOrder} {OL : MapOrderLaws O}
    (t : api_ty) (deepcopy : ptr t -> heapM (ptr t)) (h : heap) (p : ptr t)
    (Ht : DeepCopy_of t = Some deepcopy) (Hh : heap_typed h) (Hp : refs_typed h (GPtr (t : ty) p)) :
  exists x h' p', resolve (7 + ext_depth) h (GPtr (t : ty) p) = Some x /\
    deepcopy p h = Some (h', p') /\ resolve (7 + ext_depth) h' (GPtr (t : ty) p') = Some x.
Proof.
  destruct (@typed_resolves api api_rank api_ranked h (7 + ext_depth) (GPtr t p) Hh Hp)
    as [x Hx]; [clear Hp; destruct t; try discriminate Ht; cbn; lia|].
  destruct (@deep_copies_isolated api _ (GPtr t) deepcopy (7 + ext_depth) h p x) as
    (h' & p' & E & Hr & _); [by apply DeepCopy_of_deep|done|].
  by exists x, h', p'.
Qed.

(** [DeepCopyObject] of nil is the nil interface, not an interface that
    holds a nil pointer, and of a list it is a pointer to an independent list. *)
Theorem deep_copy_object `{K8sCopyLaws} {O : MapOrder} {OL : MapOrderLaws O} (h : heap)
    (p : ptr tMAASMachineList) (n : nat) (x : tree)
    (Hx : resolve n h (GPtr (tMAASMachineList : ty) p) = Some x) :
  exists h' obj, MAASMachineList_DeepCopyObject p h = Some (h', obj) /\
    match p with
    | None => obj = NilObject /\ h' = h
    | Some _ => exists l, obj = ListObject (Some l) /\
        (forall k, writes_old h h' k -> resolve n k (GPtr (tMAASMachineList : ty) (Some l)) = Some x) /\
        (forall k, writes_new h h' k -> resolve n k (GPtr (tMAASMachineList : ty) p) = Some x)
    end.
Proof.
  destruct p as [l|]; [|by exists h, NilObject].
  destruct (@deep_copies_isolated api _ (GPtr tMAASMachineList) MAASMachineList_DeepCopy n h (Some l) x)
    as (h' & p' & E & Hr & Hold & Hnew); [by apply DeepCopy_of_deep|done|].
  unfold MAASMachineList_DeepCopyObject. rewrite (bind_run _ _ _ _ _ E).
  destruct p' as [l'|].
  - exists h', (ListObject (Some l')). split; [done|]. exists l'. by split_and!.
  - exfalso. apply resolve_ptr_Some in Hx as (m & v & y & -> & _ & _ & ->). by cbn in Hr.
Qed.

(** ** Witnesses *)

(** The Kubernetes types in outline, with a pointer and a map among them. *)
Module ApiSamples.

Record KeySelector := { ks_name : bytes; ks_key : bytes; ks_optional : ptr (tExt 0) }.
Record Meta := { om_name : bytes; om_labels : gomap tString }.

Definition KeySelector_enc (v : KeySelector) : gval api_ty :=
  struct [GStr (ks_name v); GStr (ks_key v); GPtr (tExt 0) (ks_optional v)].
Definition Meta_enc (v : Meta) : gval api_ty := struct [GStr (om_name v); GMap tString (om_labels v)].

#[export] Instance sample_k8s : K8s := {|
  SecretKeySelector := KeySelector; Condition := bytes; TypeMeta := bytes * bytes;
  ObjectMeta := Meta; ListMeta := bytes; ext_den _ := bool;
  SecretKeySelector_enc := KeySelector_enc; Condition_enc := GStr;
  TypeMeta_enc v := struct [GStr v.1; GStr v.2]; ObjectMeta_enc := Meta_enc; ListMeta_enc := GStr;
  ext_enc _ := GBool;
  SecretKeySelector_zero := {| ks_name := []; ks_key := []; ks_optional := None |};
  Condition_zero := []; TypeMeta_zero := ([], []);
  ObjectMeta_zero := {| om_name := []; om_labels := None |}; ListMeta_zero := []; ext_zero _ := false;
|}.

#[export] Instance sample_order : MapOrder := {| visit_order A n l := if Nat.even n then l else reverse l |}.

#[export] Instance sample_order_laws : MapOrderLaws sample_order.
Proof.
  constructor. intros A n l. cbn. destruct (Nat.even n); [done|apply reverse_Permutation].
Qed.

Definition KeySelector_into (v : KeySelector) : heapM KeySelector :=
  o ← copy_ptr_plain (tExt 0 : ty) (ks_optional v);
  mret {| ks_name := ks_name v; ks_key := ks_key v; ks_optional := o |}.

Definition Meta_into (v : Meta) : heapM Meta :=
  m ← copy_map (tString : ty) (om_labels v);
  mret {| om_name := om_name v; om_labels := m |}.

#[export] Instance sample_copy : K8sCopy := {|
  SecretKeySelector_DeepCopyInto := KeySelector_into; Condition_DeepCopyInto := mret;
  ObjectMeta_DeepCopyInto := Meta_into; ListMeta_DeepCopyInto := mret;
|}.

Lemma KeySelector_copies : deep_copies KeySelector_enc KeySelector_into.
Proof. copy_struct. Qed.

#[local] Hint Resolve sample_order_laws : deepcopy.

Lemma Meta_copies : deep_copies Meta_enc Meta_into.
Proof. copy_struct. Qed.

#[export] Instance sample_copy_laws : K8sCopyLaws.
Proof.
  constructor; [apply KeySelector_copies|by apply deep_copies_plain|apply Meta_copies|
    by apply deep_copies_plain|done].
Qed.

#[export] Instance sample_ranks : K8sRanks := {| ext_rank _ := 0%nat; ext_depth := 1%nat |}.

#[export] Instance sample_rank_laws : K8sRankLaws.
Proof. constructor; cbn; intros; split_and?; done || lia. Qed.

(** A machine with a network configuration: one Ethernet with a route that has
    a metric, DNS servers that two places share, and labels. *)
Definition sample_route : Route := mkRoute "192.0.2.0/24"%string "198.51.100.1"%string (Some 4%nat).

Definition sample_common : InterfaceCommon :=
  mkInterfaceCommon [] None None [] (Some (Window 3 0 1)) [] (Some 5%nat).

Definition sample_fabric : FabricNetplanConfig := mkFabricNetplanConfig (Some 2%nat) None None.

Definition sample_spec : MAASMachineSpec :=
  mkMAASMachineSpec StateDeployed (mkIdentity [] (Some (Window 6 0 1)) "node-1"%string []) None
    Placement_zero None OS_zero [] ProvisioningSpec_zero None None None None (Some 0%nat) None None
    None None None.

Definition sample_machine : MAASMachine :=
  mkMAASMachine ("MAASMachine"%string : bytes, "v1alpha1"%string : bytes)
    {| om_name := "node-1"%string; om_labels := Some 7%nat |} sample_spec MAASMachineStatus_zero.

Definition sample_heap : heap := [
  Obj (tNetworkConfig : ty) (mkNetworkConfig "oam"%string (Some 5%nat) (Some 1%nat));
  Tab (tFabricNetplanConfig : ty) {[ ("fabric0"%string : bytes) := sample_fabric ]};
  Tab (tEthernetConfig : ty) {[ ("eth0"%string : bytes) := mkEthernetConfig sample_common None None ]};
  Arr (tRoute : ty) [sample_route];
  Obj (tInt : ty) 100;
  Obj (tDNSConfig : ty) (mkDNSConfig (Some (Window 6 1 1)) None);
  Arr (tString : ty) [("02:5e:1c:9a:47:d3"%string : bytes); ("203.0.113.5"%string : bytes)];
  Tab (tString : ty) {[ ("rack"%string : bytes) := ("r1"%string : bytes) ]};
  Arr (tMAASMachine : ty) [sample_machine];
  Obj (tMAASMachineList : ty) (mkMAASMachineList ([], []) ([] : bytes) (Some (Window 8 0 1)))
].
End ApiSamples.
Import ApiSamples.

Lemma sample_heap_typed : heap_typed sample_heap.
Proof.
  unfold heap_typed, sample_heap at 2.
  repeat match goal with |- Forall (cell_typed _) (_ :: _) => apply Forall_cons_2 end;
    [..|apply Forall_nil_2]; cbn [cell_typed].
  all: try (apply map_Forall_singleton).
  all: try (apply Forall_cons_2; [|try apply Forall_nil_2]).
  all: set (h := sample_heap); lazy [refs_typed enc api api_enc]; cbn; split_and?; try exact I.
  all: try (apply (bool_decide_unpack _); vm_compute; exact I).
Qed.

Lemma api_deep_copy_witness :
  exists h' p', MAASMachineList_DeepCopy (Some 9%nat) sample_heap = Some (h', p') /\
    is_Some (resolve 9 h' (GPtr (tMAASMachineList : ty) p')) /\
    forall k, writes_old sample_heap h' k ->
      resolve 9 k (GPtr (tMAASMachineList : ty) p') =
      resolve 9 sample_heap (GPtr (tMAASMachineList : ty) (Some 9%nat)).
Proof.
  destruct (@resolve api 9 sample_heap (GPtr tMAASMachineList (Some 9%nat))) as [x|] eqn:Hx.
  - destruct (api_deep_copy tMAASMachineList MAASMachineList_DeepCopy sample_heap (Some 9%nat) 9 x
      eq_refl Hx) as (h' & p' & E & Hr & Hold & _).
    exists h', p'. split; [exact E|]. split; [by exists x|].
    intros k Hk. etransitivity; [exact (Hold k Hk)|]. symmetry. exact Hx.
  - exfalso. by vm_compute in Hx.
Defined.

Lemma deep_copy_total_witness :
  exists x h' p',
    resolve (7 + ext_depth) sample_heap (GPtr (tMAASMachineList : ty) (Some 9%nat)) = Some x /\
    MAASMachineList_DeepCopy (Some 9%nat) sample_heap = Some (h', p') /\
    resolve (7 + ext_depth) h' (GPtr (tMAASMachineList : ty) p') = Some x.
Proof.
  apply (deep_copy_total tMAASMachineList MAASMachineList_DeepCopy sample_heap (Some 9%nat)).
  - reflexivity.
  - apply sample_heap_typed.
  - vm_compute. by eexists.
Defined.

Lemma deep_copy_object_witness :
  exists h', MAASMachineList_DeepCopyObject None sample_heap = Some (h', NilObject) /\ h' = sample_heap.
Proof.
  destruct (deep_copy_object sample_heap None 0 TNil eq_refl) as (h' & obj & E & Hobj & Hh).
  exists h'. rewrite Hobj in E. split; [exact E|exact Hh].
Defined.
