(* ===== verification/QueryFacts.v ===== *)
(** * Forwarding the query of a request

    The handler takes the [genesis] parameter out of the query and encodes
    the rest again for the rack ([main.go], [ServeHTTP]).  The
    round trip of [net/url]'s encoder and parser, and what the rack sees. *)

From stdpp Require Import sorting.
From S2P Require Import Prelude GoStrings Http Server.
Import Header Query HeaderFacts.

(** ** Escapes *)

(** The bytes an escaped string is made of. *)
Definition escaped (c : ascii) : Prop :=
  unreserved c = true \/ c = "+"%char \/ c = "%"%char.

Lemma unreserved_neq c d : unreserved c = true -> unreserved d = false -> ascii_eqb c d = false.
Proof. intros H1 H2. apply ascii_eqb_neq. congruence. Qed.

Lemma hex_digit_unreserved d : 0 <= d < 16 -> unreserved (hex_digit true d) = true.
Proof.
  intros Hd. assert (Ha : forallb (fun d => unreserved (hex_digit true d)) (seqZ 0 16) = true)
    by reflexivity.
  rewrite forallb_forall in Ha. apply Ha, list_elem_of_In, elem_of_seqZ. lia.
Qed.

Lemma byte_halves c : 0 <= b2z c / 16 < 16 /\ 0 <= b2z c mod 16 < 16 /\
  z2b (16 * (b2z c / 16) + b2z c mod 16) = c.
Proof.
  pose proof (b2z_range c). rewrite <- Z.div_mod, z2b_b2z by lia.
  split; [zify_div; lia|]. split; [zify_div; lia|done].
Qed.

Lemma escape_char_escaped c : Forall escaped (escape_char c).
Proof.
  destruct (byte_halves c) as (H1 & H2 & _). unfold escape_char, escaped.
  destruct (unreserved c) eqn:Eu; [constructor; [by left|constructor]|].
  destruct (ascii_eqb c " "); repeat (apply Forall_cons_2 || apply Forall_nil_2);
    eauto using hex_digit_unreserved.
Qed.

Lemma QueryEscape_escaped s : Forall escaped (QueryEscape s).
Proof.
  unfold QueryEscape. apply Forall_concat, Forall_fmap, Forall_forall.
  intros c _. apply escape_char_escaped.
Qed.

Lemma unescape_char c t :
  QueryUnescape (escape_char c ++ t) = (r ← QueryUnescape t; Some (c :: r)).
Proof.
  destruct (byte_halves c) as (H1 & H2 & H3). unfold escape_char.
  destruct (unreserved c) eqn:Eu.
  - cbn [app QueryUnescape]. by rewrite !(unreserved_neq c) by done.
  - destruct (ascii_eqb c " ") eqn:Es.
    + apply bool_decide_eq_true in Es as ->. done.
    + cbn [app QueryUnescape]. rewrite ascii_eqb_refl, !hex_val_digit by done.
      cbn [mbind option_bind]. by rewrite H3.
Qed.

Lemma unescape_escape s : QueryUnescape (QueryEscape s) = Some s.
Proof.
  unfold QueryEscape. induction s as [|c s IH]; [done|].
  cbn [fmap list_fmap concat]. by rewrite unescape_char, IH.
Qed.

(** ** Pieces *)

Lemma Cut_at a b sep : sep ∉ a -> Cut (a ++ sep :: b) sep = (a, b).
Proof.
  induction a as [|c a IH]; intros Hn; cbn [app Cut].
  - by rewrite ascii_eqb_refl.
  - apply not_elem_of_cons in Hn as [Hc Hn]. by rewrite ascii_eqb_neq, IH.
Qed.

Lemma Index_absent s c : c ∉ s -> Index s [c] = -1.
Proof.
  induction s as [|x s IH]; intros Hn; [done|]. apply not_elem_of_cons in Hn as [Hx Hn].
  cbn [Index HasPrefix]. by rewrite ascii_eqb_neq, IH.
Qed.

(** The piece [Encode] writes for a parameter. *)
Definition piece (kv : bytes * bytes) : bytes :=
  QueryEscape kv.1 ++ "="%string ++ QueryEscape kv.2.

Lemma piece_without c kv :
  unreserved c = false -> c <> "+"%char -> c <> "%"%char -> c <> "="%char -> c ∉ piece kv.
Proof.
  intros H1 H2 H3 H4. assert (Hc : forall s, c ∉ QueryEscape s).
  { intros s Hin. pose proof (QueryEscape_escaped s) as Hf. rewrite Forall_forall in Hf.
    destruct (Hf c Hin) as [?|[?|?]]; congruence. }
  unfold piece. rewrite !elem_of_app. intros [Hin|[Hin|Hin]]; [by eapply Hc| |by eapply Hc].
  by apply list_elem_of_singleton in Hin.
Qed.

Lemma escape_no_eq s : "="%char ∉ QueryEscape s.
Proof.
  intros Hin. pose proof (QueryEscape_escaped s) as Hf. rewrite Forall_forall in Hf.
  by destruct (Hf _ Hin) as [?|[?|?]].
Qed.

Lemma parse_piece_piece kv : parse_piece (piece kv) = Some kv.
Proof.
  unfold parse_piece, Contains. change (list_ascii_of_string ";") with [";"%char].
  rewrite Index_absent by (by apply piece_without).
  cbn [Z.leb Z.compare]. unfold piece. rewrite bool_decide_false by (by destruct (QueryEscape kv.1)).
  change (list_ascii_of_string "=") with ["="%char]. cbn [app].
  rewrite Cut_at by apply escape_no_eq. rewrite !unescape_escape. by destruct kv.
Qed.

(** ** Maps *)

(** A parsed query gives every key it has at least one value. *)
Definition valued (m : header) : Prop := map_Forall (fun _ vs => vs <> []) m.

Lemma ParseQuery_valued q : valued (ParseQuery q).
Proof.
  unfold ParseQuery. generalize (split_byte "&" [] q). intros ps.
  assert (H : valued ∅) by apply map_Forall_empty. revert H. generalize (∅ : header).
  induction ps as [|p ps IH]; intros m Hm; [done|]. cbn [foldl]. apply IH.
  destruct (parse_piece p) as [[k v]|]; [|done]. apply map_Forall_insert_2; [|done].
  by destruct (default [] (m !! k)).
Qed.

Lemma valued_delete m k : valued m -> valued (delete k m).
Proof. apply map_Forall_delete. Qed.

(** The parameters in the order [Encode] writes them. *)
Definition params (m : header) : list (bytes * list bytes) :=
  (fun k => (k, default [] (m !! k))) <$> merge_sort sorts_before (elements (dom m)).

Definition flatten (l : list (bytes * list bytes)) : list (bytes * bytes) :=
  concat ((fun kvs : bytes * list bytes => (fun v => (kvs.1, v)) <$> kvs.2) <$> l).

Lemma Encode_params m : Encode m = Join (piece <$> flatten (params m)) "&"%string.
Proof.
  unfold Encode, flatten, params. cbn zeta.
  apply (f_equal (fun l => Join l "&"%string)).
  induction (merge_sort sorts_before (elements (dom m))) as [|k ks IH]; [done|].
  rewrite !fmap_cons. cbn [concat]. rewrite fmap_app, <- IH. f_equal.
  by rewrite <- list_fmap_compose.
Qed.

Lemma ParseQuery_pieces l :
  ParseQuery (Join (piece <$> l) "&"%string)
  = foldl (fun (m : header) (kv : bytes * bytes) => Add m kv.1 kv.2) ∅ l.
Proof.
  unfold ParseQuery. destruct (decide (l = [])) as [->|Hl]; [done|].
  change ("&"%string : bytes) with ["&"%char].
  rewrite split_byte_Join; [|by destruct l|].
  - generalize (∅ : header). clear Hl. induction l as [|[k v] l IH]; intros m; [done|].
    cbn [fmap list_fmap foldl]. by rewrite parse_piece_piece, IH.
  - apply Forall_fmap, Forall_forall. intros kv _. by apply piece_without.
Qed.

Lemma foldl_flatten l m :
  foldl (fun (m : header) (kv : bytes * bytes) => Add m kv.1 kv.2) m (flatten l)
  = foldl (fun (d : header) (kv : bytes * list bytes) => foldl (fun d v => Add d kv.1 v) d kv.2) m l.
Proof.
  revert m. unfold flatten. induction l as [|[k vs] l IH]; intros m; [done|].
  cbn [fmap list_fmap concat foldl fst snd]. rewrite foldl_app, IH. f_equal.
  clear. revert m. induction vs as [|v vs IH]; intros m; [done|]. apply IH.
Qed.

Lemma params_keys m : (params m).*1 = merge_sort sorts_before (elements (dom m)).
Proof. unfold params. rewrite <- list_fmap_compose. apply list_fmap_id. Qed.

Lemma elem_of_params m k vs : (k, vs) ∈ params m <-> m !! k = Some vs.
Proof.
  unfold params. rewrite list_elem_of_fmap.
  assert (Hd : forall k, k ∈ merge_sort sorts_before (elements (dom m)) <-> is_Some (m !! k)).
  { intros k'. rewrite merge_sort_Permutation, elem_of_elements. apply elem_of_dom. }
  split.
  - intros (k' & [= -> ->] & Hk). apply Hd in Hk as [vs' E]. by rewrite E.
  - intros E. exists k. rewrite E. split; [done|]. apply Hd. by eexists.
Qed.

(** Encoding and parsing a map of parameters gives it back, with the values
    of each key in their order. *)
Lemma ParseQuery_Encode m : valued m -> ParseQuery (Encode m) = m.
Proof.
  intros Hm. rewrite Encode_params, ParseQuery_pieces, foldl_flatten.
  apply map_eq. intros k.
  etrans; [apply (copy_lookup_list (fun _ => false))|].
  { rewrite params_keys, merge_sort_Permutation. apply NoDup_elements. }
  cbn [orb]. rewrite lookup_empty.
  destruct (list_find _ (params m)) as [[i [k' vs]]|] eqn:Ef.
  - apply list_find_Some in Ef as (Hi & E & _). cbn in E. subst k'.
    apply list_elem_of_lookup_2, elem_of_params in Hi. cbn [snd].
    rewrite bool_decide_false by (by eapply Hm). by rewrite Hi.
  - destruct (m !! k) as [vs|] eqn:E; [|done]. apply list_find_None in Ef.
    rewrite Forall_forall in Ef. exfalso. by apply (Ef (k, vs)); [apply elem_of_params|].
Qed.

(** The bytes of an encoded query. *)
Definition query_byte (c : ascii) : Prop := escaped c \/ c = "="%char \/ c = "&"%char.

Lemma Join_bytes (P : ascii -> Prop) l sep :
  Forall (Forall P) l -> Forall P sep -> Forall P (Join l sep).
Proof.
  intros Hl Hs. induction Hl as [|p l Hp Hl IH]; [constructor|]. cbn [Join].
  destruct l; [done|]. by rewrite !Forall_app.
Qed.

Lemma Encode_bytes m : Forall query_byte (Encode m).
Proof.
  assert (He : forall s, Forall query_byte (QueryEscape s))
    by (intros s; eapply Forall_impl; [apply QueryEscape_escaped|by left]).
  rewrite Encode_params. apply Join_bytes.
  - apply Forall_fmap, Forall_forall. intros kv _. unfold compose, piece.
    rewrite !Forall_app. split; [apply He|]. split; [|apply He].
    apply Forall_cons_2; [by right; left|apply Forall_nil_2].
  - apply Forall_cons_2; [by right; right|apply Forall_nil_2].
Qed.

(** ** What the rack sees *)

(** C18: The query the rack receives is the client's. Without a [genesis]
    value the raw query goes through byte for byte; with one, the address
    is that value in lower case, and parsing the query that is sent gives
    exactly the client's parameters without [genesis], every other key with
    the same values in the same order, in a query made only of bytes that
    need no further escaping. *)
Theorem query_forwarded `{Unicode} (raw : bytes) :
  let sent := ParseQuery raw in
  let g := Get sent "genesis"%string in
  let '(upQuery, genesisMAC) := Srv.split_query raw in
  if bool_decide (g = []) then upQuery = raw /\ genesisMAC = []
  else genesisMAC = ToLower g /\
       ParseQuery upQuery = delete (list_ascii_of_string "genesis") sent /\
       Forall query_byte upQuery.
Proof.
  intros sent g. unfold Srv.split_query. destruct (bool_decide_reflect (raw = [])) as [->|Hr].
  { by subst g sent. }
  fold sent. fold g. destruct (bool_decide_reflect (g = [])); [done|].
  split; [done|]. split; [|apply Encode_bytes].
  apply ParseQuery_Encode, valued_delete, ParseQuery_valued.
Qed.

Example query_sample :
  Query.Encode (ParseQuery "b=2+3&a=x%2fy&genesis=AA&b=&a;c"%string)
  = list_ascii_of_string "a=x%2Fy&b=2+3&b=&genesis=AA".
Proof. vm_compute. reflexivity. Qed.
