(* ===== verification/Concurrent.v ===== *)
(** * The goroutines of the server

    [net/http] runs every request in a goroutine of its own, next to [Watch]
    and the reaper of the cache.  [Goroutine] gives such a goroutine as a
    program of actions: taking and releasing the three read-write locks, what
    is done in between, the reads of the disk and the clock, the requests to the
    rack and the waits.  [Conc] translates [main.go], [nodes_store.go] and
    [iso_cache.go] once more at this grain, and lets any number of goroutines
    run in any order while the disk changes and time passes. *)

From S2P Require Import Prelude GoStrings MacAddr Types NodeStore IsoCache FatImage KernelNet IpxeScript Regex Rewriter Http Server.
Import Mac Net Script Re Rewriting Srv.

(** ** Programs of actions *)

Module Goroutine.

(** What goroutines share: the server, the clock, the disk, and what the rack
    was asked and answered. *)
Record shared := {
  srv : Server;
  clock : Z;
  disk : bytes -> readResult;
  exchanges : list (upstreamReq * upstreamRes);
}.

(** What an action meets that the shared state does not determine: the order
    in which a map is visited, whether the request is cancelled, what the rack
    answers, and how long the clock runs on between two readings. *)
Record input := {
  i_order : order;
  i_visit : list (bytes * Cache.loc) -> list (bytes * Cache.loc);
  i_cancelled : bool;
  i_up : upstreamReq -> upstreamRes;
  i_delay : Z;
}.

(** The locks: [Server.cfgMu], [NodeStore.mu] and [ISOCache.mu], each a
    [sync.RWMutex]; [Shared] is [RLock] and [Exclusive] is [Lock]. *)
Inductive lock := cfgMu | nodesMu | cacheMu.
Inductive mode := Shared | Exclusive.
Record RWMutex := { writer : bool; readers : nat }.

#[export] Instance lock_eq_dec : EqDecision lock.
Proof. solve_decision. Defined.
#[export] Instance mode_eq_dec : EqDecision mode.
Proof. solve_decision. Defined.

(** What an action has to wait for: nothing, a time to come (unless it is
    cancelled), or a lock. *)
Inductive action :=
| Free
| SleepUntil (t : Z)
| Acquire (l : lock) (m : mode)
| Release (l : lock) (m : mode).

Inductive prog (A : Type) : Type :=
| Done (a : A)
| Act {B : Type} (a : action) (f : input -> shared -> shared * B) (k : B -> prog A).
Arguments Done {A} a.
Arguments Act {A B} a f k.

Fixpoint bind {A B} (p : prog A) (g : A -> prog B) : prog B :=
  match p with
  | Done a => g a
  | Act a f k => Act a f (fun b => bind (k b) g)
  end.

#[export] Instance prog_ret : MRet prog := @Done.
#[export] Instance prog_bind : MBind prog := fun A B g p => bind p g.

(** The time has come. *)
Definition ready (a : action) (i : input) (s : shared) : bool :=
  match a with SleepUntil t => i_cancelled i || (t <=? clock s) | _ => true end.

(** A lock can be taken: exclusively when nobody has it, shared when nobody
    has it exclusively.  Releasing a lock that is not held stops the program. *)
Definition admits (mu : lock -> RWMutex) (a : action) : bool :=
  match a with
  | Acquire l Shared => negb (writer (mu l))
  | Acquire l Exclusive => negb (writer (mu l)) && (readers (mu l) =? 0)%nat
  | Release l Shared => (1 <=? readers (mu l))%nat
  | Release l Exclusive => writer (mu l)
  | _ => true
  end.

Definition set_lock (mu : lock -> RWMutex) (l : lock) (w : RWMutex) : lock -> RWMutex :=
  fun l' => if decide (l' = l) then w else mu l'.

Definition locks_after (mu : lock -> RWMutex) (a : action) : lock -> RWMutex :=
  match a with
  | Acquire l Shared => set_lock mu l {| writer := writer (mu l); readers := S (readers (mu l)) |}
  | Acquire l Exclusive => set_lock mu l {| writer := true; readers := readers (mu l) |}
  | Release l Shared => set_lock mu l {| writer := writer (mu l); readers := pred (readers (mu l)) |}
  | Release l Exclusive => set_lock mu l {| writer := false; readers := readers (mu l) |}
  | _ => mu
  end.

(** All locks are free. *)
Definition unlocked : lock -> RWMutex := fun _ => {| writer := false; readers := 0 |}.

(** One action of a program, if it has one and its time has come. *)
Definition run1 {A} (p : prog A) (i : input) (s : shared) : option (action * shared * prog A) :=
  match p with
  | Done _ => None
  | Act a f k => if ready a i s then let '(s', b) := f i s in Some (a, s', k b) else None
  end.

Definition with_srv (s : shared) (v : Server) : shared :=
  {| srv := v; clock := clock s; disk := disk s; exchanges := exchanges s |}.

(** An action that changes the server, and one that only looks. *)
Definition atomically {B} (f : input -> Server -> Server * B) : prog B :=
  Act Free (fun i s => let '(v, b) := f i (srv s) in (with_srv s v, b)) Done.

Definition observe {B} (f : input -> shared -> B) : prog B :=
  Act Free (fun i s => (s, f i s)) Done.

(** [RLock], [Lock] and their counterparts. *)
Definition acquire (l : lock) (m : mode) : prog unit :=
  Act (Acquire l m) (fun _ s => (s, tt)) Done.
Definition release (l : lock) (m : mode) : prog unit :=
  Act (Release l m) (fun _ s => (s, tt)) Done.

(** A critical section. *)
Definition locked {B} (l : lock) (m : mode) (p : prog B) : prog B :=
  _ ← acquire l m; b ← p; _ ← release l m; mret b.

Definition Now : prog Z := observe (fun _ s => clock s).
Definition ReadFile (path : bytes) : prog readResult := observe (fun _ s => disk s path).
Definition map_order : prog order := observe (fun i _ => i_order i).

(** [select] between the end of the context and a timer. *)
Definition cancelled_before (t : Z) : prog bool :=
  Act (SleepUntil t) (fun i s => (s, i_cancelled i)) Done.

(** The rack is asked. *)
Definition ask (q : upstreamReq) : prog upstreamRes :=
  Act Free (fun i s =>
    ({| srv := srv s; clock := clock s; disk := disk s;
        exchanges := exchanges s ++ [(q, i_up i q)] |}, i_up i q)) Done.

End Goroutine.
Import Goroutine.

(** ** The goroutines *)

Module Conc.
Section programs.
Context `{Unicode, Json, Sha256}.

Definition getConfig : prog Config := locked cfgMu Shared (observe (fun _ s => cfg (srv s))).

Definition reloadConfig : prog unit :=
  path ← observe (fun _ s => cfgPath (srv s));
  if bool_decide (path = []) then mret tt
  else
    file ← ReadFile path;
    match file with
    | ReadOk b =>
        let sum := sha256 b in
        same ← locked cfgMu Shared
          (observe (fun _ s => cfgLoaded (srv s) && bool_decide (sum = cfgHash (srv s))));
        if (same : bool) then mret tt
        else match unmarshal_Config b with
        | inl _ => mret tt
        | inr c =>
            o ← map_order;
            let c := with_config_nodes c (normalizeNodeKeys o (Nodes c)) in
            locked cfgMu Exclusive
              (atomically (fun _ s => (with_cfg s (applyOverrides c (overrides s)) sum, tt)))
        end
    | _ => mret tt
    end.

(** [noteError] of the store. *)
Definition note (msg : bytes) : prog unit :=
  locked nodesMu Exclusive
    (atomically (fun _ s => (with_nodes s (Store.noteError (nodes s) msg).1, tt))).

(** [Reload] of the store, with its two results. *)
Definition store_Reload : prog (bool * option bytes) :=
  path ← observe (fun _ s => Store.path (nodes (srv s)));
  if bool_decide (path = []) then mret (false, None)
  else
    file ← ReadFile path;
    match file with
    | ReadNotExist =>
        msg ← locked nodesMu Shared (observe (fun _ s => Store.msg_missing (nodes (srv s))));
        _ ← note msg; mret (false, None)
    | ReadErr e =>
        msg ← observe (fun _ s => Store.msg_read (nodes (srv s)) e);
        _ ← note msg; mret (false, Some e)
    | ReadOk b =>
        let sum := sha256 b in
        same ← locked nodesMu Shared
          (observe (fun _ s => Store.same_content (nodes (srv s)) sum));
        if (same : bool) then mret (false, None)
        else
          o ← map_order;
          match Store.parseNodes o b with
          | inl e =>
              msg ← observe (fun _ s => Store.msg_invalid (nodes (srv s)) e);
              _ ← note msg; mret (false, Some e)
          | inr ns =>
              _ ← locked nodesMu Exclusive
                (atomically (fun _ s => (with_nodes s (Store.commit (nodes s) sum ns), tt)));
              mret (true, None)
          end
    end.

Definition Reload : prog unit := _ ← reloadConfig; _ ← store_Reload; mret tt.

(** [Watch] through [ticks] ticks. *)
Fixpoint Watch (ticks : nat) : prog unit :=
  match ticks with O => mret tt | S n => _ ← Reload; Watch n end.

Definition lookup (norm : bytes) : prog (option Node) :=
  n ← locked nodesMu Shared (observe (fun _ s => Store.Get (nodes (srv s)) norm));
  match n with
  | Some n => mret (Some n)
  | None => c ← getConfig; mret (Nodes c !! norm)
  end.

(** The retry loop; [None] when [rounds] rounds were not enough. *)
Fixpoint resolve_loop (rounds : nat) (deadline : Z) (norm : bytes) : prog (option (option Node)) :=
  match rounds with
  | O => mret None
  | S rounds =>
      n ← lookup norm;
      match n with
      | Some n => mret (Some (Some n))
      | None =>
          _ ← Reload;
          n ← lookup norm;
          match n with
          | Some n => mret (Some (Some n))
          | None =>
              now ← Now;
              if negb (now <? deadline) then mret (Some None)
              else
                t ← Now;
                cancelled ← cancelled_before (t + missPollInterval);
                if (cancelled : bool) then mret (Some None)
                else resolve_loop rounds deadline norm
          end
      end
  end.

Definition resolveNode (rounds : nat) (mac : bytes) : prog (option (option Node)) :=
  let norm := normalizeKey mac in
  if bool_decide (norm = []) then mret (Some None)
  else
    start ← Now;
    wait ← observe (fun _ s => missWait (srv s));
    resolve_loop rounds (start + wait) norm.

(** [Get] of the cache, under its lock; the clock is read twice. *)
Definition cache_Get (key : bytes) : prog (option Cache.loc) :=
  locked cacheMu Exclusive (Act Free (fun i s =>
    let t2 := clock s + i_delay i in
    let '(c, res) := Cache.Get (isoCache (srv s)) key (clock s) t2 in
    ({| srv := with_cache (srv s) c; clock := t2; disk := disk s; exchanges := exchanges s |},
     res)) Done).

(** [Set] of the cache: the time is read before the lock is taken. *)
Definition cache_Set (key hash data : bytes) : prog Cache.loc :=
  now ← Now;
  locked cacheMu Exclusive (atomically (fun _ s =>
    let '(c, l) := Cache.Set_ (isoCache s) key hash data now in (with_cache s c, l))).

(** The entry a pointer points to. *)
Definition entry (l : Cache.loc) : prog (option CachedISO) :=
  observe (fun _ s => Cache.heap (isoCache (srv s)) !! l).

Definition compose_iso (key wantHash : bytes) (build : outcome imgError bytes)
    : prog (outcome imgError Cache.loc) :=
  match build with
  | Ret data => l ← cache_Set key wantHash data; mret (Ret l)
  | Err e => mret (Err e)
  | Panic => mret Panic
  end.

Definition cachedISO (key wantHash : bytes) (build : outcome imgError bytes)
    : prog (outcome imgError Cache.loc) :=
  res ← cache_Get key;
  match res with
  | Some l =>
      e ← entry l;
      if match e with Some e => bool_decide (ConfigHash e = wantHash) | None => false end
      then mret (Ret l) else compose_iso key wantHash build
  | None => compose_iso key wantHash build
  end.
End programs.

Section handler.
Context `{Unicode, Json, Sha256, Archive}.
Context (overlayCPIO : bytes).

Definition efi : prog bytes := observe (fun _ s => ipxeEFI (srv s)).

(** [build] is given the iPXE binary. *)
Definition serve_iso (key hash : bytes) (build : bytes -> outcome imgError bytes) (name : bytes)
    : prog response :=
  ipxe ← efi;
  res ← cachedISO key hash (build ipxe);
  match res with
  | Ret l =>
      e ← entry l;
      match e with
      | Some e => mret (Content iso_type name (ModTime e) (Data e))
      | None => mret Aborted
      end
  | Err _ => mret (HttpError (isoErrorStatus ipxe) "failed to build ISO"%string)
  | Panic => mret Aborted
  end.

Definition serve_generic (c : Config) (r : request) : prog response :=
  let base := proxy_base c r in
  serve_iso genericISOKey (GenericConfigHash base) (fun ipxe => BuildGenericISO ipxe base)
    "generic-boot.iso"%string.

Definition serve_node (rounds : nat) (c : Config) (r : request) (rawMAC : bytes)
    : prog (option response) :=
  let n0 := normalizeMAC rawMAC in
  let normMAC := if bool_decide (n0 = []) then ToLower rawMAC else n0 in
  found ← resolveNode rounds normMAC;
  match found with
  | None => mret None
  | Some None =>
      mret (Some (HttpError 404 ("node with MAC "%string ++ rawMAC ++ " not found"%string)))
  | Some (Some node) =>
      let base := proxy_base c r in
      resp ← serve_iso normMAC (ComputeNodeConfigHash node normMAC base)
        (fun ipxe => BuildNodeISO ipxe node normMAC base) ("ipxe-"%string ++ normMAC ++ ".iso"%string);
      mret (Some resp)
  end.

Definition rewrite_body (rounds : nat) (c : Config) (r : request) (genesisMAC body : bytes)
    : prog (option bytes) :=
  let base := proxy_base c r in
  let body := rewriteData body base (Rewrites c) in
  if Contains (Path r) "ipxe.cfg"%string then
    let mac := ipxe_mac (Path r) genesisMAC in
    if bool_decide (mac = []) then mret (Some body)
    else
      found ← resolveNode rounds mac;
      match found with
      | None => mret None
      | Some (Some node) => mret (Some (inject_node c base body node))
      | Some None => mret (Some body)
      end
  else mret (Some body).

Definition serve_proxy (rounds : nat) (c : Config) (r : request) : prog (option response) :=
  if bool_decide (RackUpstream c = []) then
    mret (Some (HttpError 503 "upstream rack proxy not configured"%string))
  else
    let '(upQuery, genesisMAC) := split_query (RawQuery r) in
    res ← ask (upstream_request c r upQuery);
    match res with
    | UpInvalid => mret (Some (HttpError 500 "bad upstream request"%string))
    | UpUnreachable => mret (Some (HttpError 502 "upstream unreachable"%string))
    | UpResponse status h body complete =>
        if isBinary (Path r) || negb (bool_decide (Method r = "GET"%string)) then
          mret (Some (Reply status (copyHeaders false h) body))
        else if complete then
          body ← rewrite_body rounds c r genesisMAC body;
          match body with
          | None => mret None
          | Some body =>
              mret (Some (Reply status
                (Header.Set_ (copyHeaders true h) "Content-Length"%string (fmt_d (zlen body))) body))
          end
        else mret (Some (HttpError 502 "read error from upstream"%string))
    end.

(** [None] when the rounds of the retry loop were not enough. *)
Definition ServeHTTP (rounds : nat) (r : request) : prog (option response) :=
  c ← getConfig;
  if bool_decide (Path r = genericISOPath) then resp ← serve_generic c r; mret (Some resp)
  else if bool_decide (Path r = overlayPath) || bool_decide (Path r = bondOverlayPath) then
    t ← observe (fun _ s => bootTime (srv s));
    mret (Some (Content "application/x-gzip"%string "genesis-overlay.cpio.gz"%string t overlayCPIO))
  else match Submatch isoRe (Path r) with
  | Some rawMAC => serve_node rounds c r rawMAC
  | None => serve_proxy rounds c r
  end.
End handler.

(** The reaper through some rounds of its [select]: [true] for a tick, at
    which it sweeps under the lock. *)
Definition reaper_action (tick : bool) : prog unit :=
  Act Free (fun i s =>
    let e := if tick then Cache.Tick (clock s) else Cache.Stop in
    (with_srv s (with_cache (srv s) (Cache.startReaper_round (i_visit i) (isoCache (srv s)) e)), tt))
    Done.

Definition reaper_round (tick : bool) : prog unit :=
  if tick then locked cacheMu Exclusive (reaper_action tick) else reaper_action tick.

Fixpoint startReaper (rounds : list bool) : prog unit :=
  match rounds with [] => mret tt | b :: bs => _ ← reaper_round b; startReaper bs end.

End Conc.
