(* ===== verification/RelyGuarantee.v ===== *)
(** * Rely-guarantee reasoning about goroutines

    A timeline is the shared state with the servers it went through.  [wp]
    says that a program keeps an invariant and a guarantee at each of its
    actions, and ends in a postcondition, as long as everything that happens
    between its actions keeps the invariant and satisfies its rely.  Goroutines
    that guarantee what the others rely on can run together: [pool_sound]. *)

From S2P Require Import Prelude GoStrings Types NodeStore IsoCache Http Server Concurrent.
Import CacheFacts Srv Goroutine.

(** ** Timelines *)

Record timeline := { cur : shared; past : list Server }.

Definition push (h : timeline) (s : shared) : timeline :=
  {| cur := s; past := past h ++ [srv s] |}.

(** At the start, only the present. *)
Definition begins (s : shared) : timeline := {| cur := s; past := [srv s] |}.

(** The disk changes and time passes. *)
Definition passes (s s' : shared) : Prop :=
  srv s' = srv s /\ exchanges s' = exchanges s /\ clock s <= clock s'.

Definition later (h : timeline) (s : shared) : timeline := {| cur := s; past := past h |}.

Definition fair_input (i : input) : Prop :=
  valid_order (i_order i) /\ visits (i_visit i) /\ 0 <= i_delay i.

(** ** Weakest preconditions *)

Section wp.
Context (Inv : timeline -> Prop) (Rely Guar : timeline -> timeline -> Prop).
Context `{HR : !PreOrder Rely}.

Fixpoint wp {A} (p : prog A) (Q : A -> timeline -> Prop) (h : timeline) : Prop :=
  match p with
  | Done a => forall h', Rely h h' -> Q a h'
  | Act a f k => forall h' i, Rely h h' -> Inv h' -> fair_input i ->
      ready a i (cur h') = true ->
      let '(s, b) := f i (cur h') in
      Inv (push h' s) /\ Guar h' (push h' s) /\ wp (k b) Q (push h' s)
  end.

Lemma wp_done {A} (a : A) (Q : A -> timeline -> Prop) h :
  (forall h', Rely h h' -> Q a h') -> wp (mret a) Q h.
Proof. done. Qed.

Lemma wp_rely {A} (p : prog A) Q h h' : Rely h h' -> wp p Q h -> wp p Q h'.
Proof.
  intros Hr. destruct p as [x|B a f k]; cbn [wp].
  - intros Hq h2 H2. apply Hq. by etrans.
  - intros Hk h2 i H2. apply Hk. by etrans.
Qed.

Lemma wp_mono {A} (p : prog A) (Q Q' : A -> timeline -> Prop) h :
  wp p Q h -> (forall a h', Q a h' -> Q' a h') -> wp p Q' h.
Proof.
  intros Hp HQ. revert h Hp. induction p as [x|B a f k IH]; intros h Hp; cbn [wp] in *.
  - intros h' Hr. by apply HQ, Hp.
  - intros h' i H1 H2 H3 H4. specialize (Hp h' i H1 H2 H3 H4).
    destruct (f i (cur h')) as [s b]. destruct Hp as (? & ? & ?). by auto.
Qed.

Lemma wp_bind {A B} (p : prog A) (g : A -> prog B) Q h :
  wp p (fun a h' => wp (g a) Q h') h -> wp (x ← p; g x) Q h.
Proof.
  change (x ← p; g x) with (bind p g).
  revert h. induction p as [x|C a f k IH]; intros h Hp; cbn [wp bind] in *.
  - apply Hp. reflexivity.
  - intros h' i H1 H2 H3 H4. specialize (Hp h' i H1 H2 H3 H4).
    destruct (f i (cur h')) as [s b]. destruct Hp as (? & ? & ?). by auto.
Qed.

(** What a program does is part of what it may rely on afterwards. *)
Lemma wp_frame {A} (p : prog A) Q h0 h :
  (forall h1 h2, Guar h1 h2 -> Rely h1 h2) -> Rely h0 h ->
  wp p Q h -> wp p (fun a h' => Q a h' /\ Rely h0 h') h.
Proof.
  intros HG. revert h. induction p as [x|B a f k IH]; intros h Hr Hp; cbn [wp] in *.
  - intros h' H1. split; [by apply Hp|by etrans].
  - intros h' i H1 H2 H3 H4. specialize (Hp h' i H1 H2 H3 H4).
    destruct (f i (cur h')) as [s b]. destruct Hp as (H5 & H6 & H7). split; [done|].
    split; [done|]. apply IH; [|done]. etrans; [exact Hr|]. etrans; [exact H1|]. by apply HG.
Qed.

(** One action. *)
Lemma wp_run1 {A} (p p' : prog A) Q h i a s :
  wp p Q h -> Inv h -> fair_input i -> run1 p i (cur h) = Some (a, s, p') ->
  Inv (push h s) /\ Guar h (push h s) /\ wp p' Q (push h s).
Proof.
  destruct p as [x|B a' f k]; cbn [run1 wp]; [done|]. intros Hp Hi Hf.
  destruct (ready a' i (cur h)) eqn:He; [|done].
  specialize (Hp h i (reflexivity h) Hi Hf He).
  destruct (f i (cur h)) as [s2 b]. by intros [= <- <- <-].
Qed.
End wp.

(** ** Pools of goroutines *)

Section pool.
Context {J : Type}.

(** Each goroutine with the job it was started for. *)
Record pool := {
  tl : timeline;
  mutexes : lock -> RWMutex;
  threads : list (J * prog (option response));
}.

Context (starts : J -> timeline -> prog (option response) -> Prop).

(** Goroutine [t] does its next action, if its time has come and the locks
    let it. *)
Inductive run_of (t : nat) : pool -> pool -> Prop :=
| run_thread c j p i a s p' :
    threads c !! t = Some (j, p) -> fair_input i -> run1 p i (cur (tl c)) = Some (a, s, p') ->
    admits (mutexes c) a = true ->
    run_of t c {| tl := push (tl c) s; mutexes := locks_after (mutexes c) a;
                  threads := <[t := (j, p')]> (threads c) |}.

Inductive time_passes : pool -> pool -> Prop :=
| pass_time c s :
    passes (cur (tl c)) s ->
    time_passes c {| tl := later (tl c) s; mutexes := mutexes c; threads := threads c |}.

Inductive pool_step : pool -> pool -> Prop :=
| ps_run c c' t : run_of t c c' -> pool_step c c'
| ps_pass c c' : time_passes c c' -> pool_step c c'
| ps_start c j p :
    starts j (tl c) p ->
    pool_step c {| tl := tl c; mutexes := mutexes c; threads := threads c ++ [(j, p)] |}.

Context (Inv : timeline -> Prop) (Rely : timeline -> timeline -> Prop) `{!PreOrder Rely}.
Context (Q : J -> option response -> timeline -> Prop).
Context (Hpass : forall h s, Inv h -> passes (cur h) s -> Inv (later h s) /\ Rely h (later h s)).
Context (Hstarts : forall j h p, Inv h -> starts j h p -> wp Inv Rely Rely p (Q j) h).

Definition pool_ok (c : pool) : Prop :=
  Inv (tl c) /\ Forall (fun jp => wp Inv Rely Rely jp.2 (Q jp.1) (tl c)) (threads c).

Lemma threads_rely ts h h' :
  Rely h h' -> Forall (fun jp : J * prog (option response) => wp Inv Rely Rely jp.2 (Q jp.1) h) ts ->
  Forall (fun jp => wp Inv Rely Rely jp.2 (Q jp.1) h') ts.
Proof. intros Hr Ht. eapply Forall_impl; [exact Ht|]. intros jp. by apply wp_rely. Qed.

Lemma pool_step_ok c c' : pool_step c c' -> pool_ok c -> pool_ok c'.
Proof.
  intros Hstep [Hi Ht].
  destruct Hstep as [c c' t [c0 j p i a s p' Hl Hf Hrun _]|c c' [c0 s Hp]|c j p Hs]; unfold pool_ok.
  - assert (Hw := Ht). rewrite Forall_lookup in Hw. specialize (Hw t _ Hl). cbn in Hw.
    destruct (wp_run1 _ _ _ _ _ _ _ _ _ _ Hw Hi Hf Hrun) as (Hi' & Hg & Hw').
    split; [done|]. apply Forall_insert; [by eapply threads_rely|done].
  - destruct (Hpass _ _ Hi Hp) as [Hi' Hr]. split; [done|]. by eapply threads_rely.
  - split; [done|]. apply Forall_app_2; [done|]. apply Forall_cons_2; [by apply Hstarts|apply Forall_nil_2].
Qed.

(** In every pool that can be reached, the invariant holds and every goroutine
    that has ended has kept its promise. *)
Lemma pool_sound c c' :
  pool_ok c -> rtc pool_step c c' ->
  Inv (tl c') /\ forall t j res, threads c' !! t = Some (j, Done res) -> Q j res (tl c').
Proof.
  intros Hc Hsteps. assert (Hc' : pool_ok c').
  { induction Hsteps as [|c1 c2 c3 H12 _ IH]; [done|]. by eapply IH, pool_step_ok. }
  destruct Hc' as [Hi Ht]. split; [done|]. intros t j res Hl.
  rewrite Forall_lookup in Ht. specialize (Ht t _ Hl). cbn in Ht. apply Ht. reflexivity.
Qed.

End pool.
Arguments pool J : clear implicits.
