(* ===== verification/Locks.v ===== *)
(** * Locks and deadlock

    Programs that take one lock at a time, never wait while they hold it, and
    release it again ([disciplined]); the state of the locks then says who is
    inside which section, sections exclude each other, and no goroutine is
    blocked for good. *)

From S2P Require Import Prelude GoStrings Types NodeStore IsoCache Http Server Concurrent RelyGuarantee.
Import CacheFacts Srv Goroutine.

(** ** Discipline *)

(** What a goroutine holds: a lock in a mode, or nothing. *)
Abbreviation holding := (option (lock * mode)).

(** From holding [H], the program does at most [n] actions and ends holding
    [H']; it takes a lock or sleeps only with empty hands, and releases only
    what it holds. *)
Fixpoint disciplined {A} (H : holding) (p : prog A) (H' : holding) (n : nat) : Prop :=
  match p with
  | Done _ => H = H'
  | Act a f k =>
      match n with
      | O => False
      | S n =>
          match a with
          | Free => forall b, disciplined H (k b) H' n
          | SleepUntil _ => H = None /\ forall b, disciplined None (k b) H' n
          | Acquire l m => H = None /\ forall b, disciplined (Some (l, m)) (k b) H' n
          | Release l m => H = Some (l, m) /\ forall b, disciplined None (k b) H' n
          end
      end
  end.

Lemma disciplined_more {A} (H H' : holding) (p : prog A) n n' :
  (n <= n')%nat -> disciplined H p H' n -> disciplined H p H' n'.
Proof.
  revert H n n'. induction p as [x|C a f k IH]; intros H n n' Hn; [done|].
  destruct n as [|n]; [done|]. destruct n' as [|n']; [lia|]. cbn [disciplined].
  assert (n <= n')%nat by lia.
  destruct a; [intros Hk b|intros [-> Hk]; split; [done|intros b]..]; by eapply IH.
Qed.

Section discipline.
Context {A B : Type}.

Lemma disciplined_bind (H H1 H2 : holding) (p : prog A) (g : A -> prog B) n m :
  disciplined H p H1 n -> (forall x, disciplined H1 (g x) H2 m) ->
  disciplined H (x ← p; g x) H2 (n + m).
Proof.
  change (x ← p; g x) with (bind p g).
  revert H n. induction p as [x|C a f k IH]; intros H n Hp Hg.
  - cbn in *. subst. eapply disciplined_more; [|apply Hg]. lia.
  - destruct n as [|n]; [done|]. cbn [bind disciplined Nat.add] in *.
    destruct a; [intros b|destruct Hp as [-> Hp]; split; [done|intros b]..]; by apply IH.
Qed.

(** The actions of the programs. *)
Lemma disc_free (H H' : holding) (f : input -> shared -> shared * A) (g : A -> prog B) n :
  (forall x, disciplined H (g x) H' n) ->
  disciplined H (x ← Act Free f Done; g x) H' (S n).
Proof. done. Qed.

Lemma disc_sleep t (g : bool -> prog B) H' n :
  (forall x, disciplined None (g x) H' n) ->
  disciplined None (x ← cancelled_before t; g x) H' (S n).
Proof. by split. Qed.

(** A section around one action. *)
Lemma disc_section l m (f : input -> shared -> shared * A) (g : A -> prog B) H' n :
  (forall x, disciplined None (g x) H' n) ->
  disciplined None (x ← locked l m (Act Free f Done); g x) H' (S (S (S n))).
Proof. intros Hg. split; [done|]. intros u x. split; [done|]. intros u2. apply Hg. Qed.
End discipline.

(** ** Holders and locks *)

(** How many goroutines hold a lock in a mode. *)
Definition holders (x : lock * mode) (hs : list holding) : nat :=
  length (filter (fun H => H = Some x) hs).

(** A lock is in the state its holders put it in: one writer and no readers,
    or any number of readers and no writer. *)
Definition lock_state (hs : list holding) (l : lock) (w : RWMutex) : Prop :=
  readers w = holders (l, Shared) hs /\
  (writer w = true -> holders (l, Exclusive) hs = 1%nat /\ readers w = 0%nat) /\
  (writer w = false -> holders (l, Exclusive) hs = 0%nat).

Definition weight (x : lock * mode) (H : holding) : nat :=
  if decide (H = Some x) then 1%nat else 0%nat.

Lemma weight_none x : weight x None = 0%nat.
Proof. done. Qed.

Lemma weight_same x : weight x (Some x) = 1%nat.
Proof. unfold weight. by rewrite decide_True. Qed.

Lemma weight_other x y : x <> y -> weight x (Some y) = 0%nat.
Proof. intros. unfold weight. rewrite decide_False; [done|]. congruence. Qed.

Lemma holders_cons x H hs : holders x (H :: hs) = (weight x H + holders x hs)%nat.
Proof. unfold holders, weight. rewrite filter_cons. by destruct (decide _). Qed.

Lemma holders_insert x hs t H H' :
  hs !! t = Some H ->
  (holders x (<[t := H']> hs) + weight x H = holders x hs + weight x H')%nat.
Proof.
  revert t. induction hs as [|H0 hs IH]; intros [|t] Ht; [done|done| |].
  - cbn in Ht. injection Ht as ->. change (<[0%nat := H']> (H :: hs)) with (H' :: hs).
    rewrite !holders_cons. lia.
  - cbn in Ht. specialize (IH t Ht).
    change (<[S t := H']> (H0 :: hs)) with (H0 :: <[t := H']> hs). rewrite !holders_cons. lia.
Qed.

Lemma holders_snoc x hs : holders x (hs ++ [None]) = holders x hs.
Proof.
  induction hs as [|H hs IH]; [done|]. cbn [app]. by rewrite !holders_cons, IH.
Qed.

Lemma holders_none x hs : Forall (fun H => H = None) hs -> holders x hs = 0%nat.
Proof.
  induction 1 as [|H hs -> _ IH]; [done|]. rewrite holders_cons, IH. unfold weight.
  by rewrite decide_False.
Qed.

Lemma holders_some x hs t : hs !! t = Some (Some x) -> (1 <= holders x hs)%nat.
Proof.
  revert t. induction hs as [|H hs IH]; intros [|t] Ht; [done|done| |];
    rewrite holders_cons; cbn in Ht.
  - injection Ht as ->. unfold weight. rewrite decide_True by done. lia.
  - apply IH in Ht. lia.
Qed.

(** ** Pools *)

Section locks.
Context {J : Type} (starts : J -> timeline -> prog (option response) -> Prop).
Context (limit : J -> nat).
Context (Hstarts : forall j h p, starts j h p -> disciplined None p None (limit j)).

(** Each goroutine is disciplined from what it holds, and the locks are in the
    state their holders put them in. *)
Definition locks_ok (c : pool J) (hs : list holding) : Prop :=
  Forall2 (fun jp H => disciplined H jp.2 None (limit jp.1)) (threads c) hs /\
  forall l, lock_state hs l (mutexes c l).

Lemma locks_ok_empty h : locks_ok {| tl := h; mutexes := unlocked; threads := [] |} [].
Proof. split; [by apply Forall2_nil_2|]. by intros l. Qed.

(** What a goroutine holds after an action. *)
Definition held_after (H : holding) (a : action) : holding :=
  match a with Acquire l m => Some (l, m) | Release _ _ => None | _ => H end.

(** An action that is in order and that the locks admit. *)
Lemma lock_state_after hs t H a mu :
  hs !! t = Some H -> admits mu a = true ->
  match a with Acquire _ _ => H = None | Release l m => H = Some (l, m) | _ => True end ->
  (forall l, lock_state hs l (mu l)) ->
  forall l, lock_state (<[t := held_after H a]> hs) l (locks_after mu a l).
Proof.
  intros Ht Ha Hd Hs l.
  pose proof (holders_insert (l, Shared) hs t H (held_after H a) Ht) as Es.
  pose proof (holders_insert (l, Exclusive) hs t H (held_after H a) Ht) as Ee.
  destruct (Hs l) as (Hr & Hw & Hf).
  destruct a as [|u|l' m|l' m]; cbn [held_after locks_after admits] in *.
  - rewrite list_insert_id by done. done.
  - rewrite list_insert_id by done. done.
  - subst H. rewrite weight_none in Es, Ee.
    unfold lock_state. destruct (decide (l = l')) as [->|Hne].
    + destruct m; unfold set_lock; rewrite !decide_True by done; cbn [writer readers].
      * rewrite weight_same in Es. rewrite weight_other in Ee by done.
        apply negb_true_iff in Ha. specialize (Hf Ha). split_and!; [lia|intros; congruence|intros; lia].
      * rewrite weight_other in Es by done. rewrite weight_same in Ee.
        apply andb_prop in Ha as [Ha%negb_true_iff Hz%Nat.eqb_eq]. specialize (Hf Ha).
        split_and!; [lia|intros; lia|done].
    + rewrite weight_other in Es, Ee by congruence.
      destruct m; unfold set_lock; rewrite !decide_False by done;
        (split_and!; [lia| |]; intros E; [destruct (Hw E)|specialize (Hf E)]; lia).
  - subst H. rewrite weight_none in Es, Ee.
    unfold lock_state. destruct (decide (l = l')) as [->|Hne].
    + destruct m; unfold set_lock; rewrite !decide_True by done; cbn [writer readers].
      * rewrite weight_same in Es. rewrite weight_other in Ee by done.
        split_and!; [lia| |]; intros E; [destruct (Hw E)|specialize (Hf E)]; lia.
      * rewrite weight_other in Es by done. rewrite weight_same in Ee.
        destruct (Hw Ha). split_and!; [lia|done|intros; lia].
    + rewrite weight_other in Es, Ee by congruence.
      destruct m; unfold set_lock; rewrite !decide_False by done;
        (split_and!; [lia| |]; intros E; [destruct (Hw E)|specialize (Hf E)]; lia).
Qed.

Lemma disciplined_run1 {A} (p p' : prog A) H H' n i s a s' :
  disciplined H p H' n -> run1 p i s = Some (a, s', p') ->
  match a with Acquire _ _ => H = None | Release l m => H = Some (l, m) | _ => True end /\
  disciplined (held_after H a) p' H' (pred n).
Proof.
  destruct p as [x|B a0 f k]; cbn [run1]; [done|]. intros Hd.
  destruct n as [|n]; [done|]. cbn [disciplined] in Hd.
  destruct (ready a0 i s); [|done]. destruct (f i s) as [s2 b]. intros [= <- <- <-].
  destruct a0; [done|destruct Hd as [-> Hd]; done..].
Qed.

Lemma locks_ok_run c c' hs t :
  run_of t c c' -> locks_ok c hs -> exists H', locks_ok c' (<[t := H']> hs).
Proof.
  intros [c0 j p i a s p' Hl Hf Hrun Ha] [Hd Hs].
  destruct (Forall2_lookup_l _ _ _ _ _ Hd Hl) as (H & Ht & Hp). cbn in Hp.
  destruct (disciplined_run1 _ _ _ _ _ _ _ _ _ Hp Hrun) as [Hok Hp'].
  exists (held_after H a). split; cbn [threads mutexes].
  - apply Forall2_insert; [done|]. cbn. eapply disciplined_more; [|exact Hp']. lia.
  - by apply lock_state_after.
Qed.

Lemma locks_ok_step c c' hs : pool_step starts c c' -> locks_ok c hs -> exists hs', locks_ok c' hs'.
Proof.
  intros Hstep Hok. destruct Hstep as [c c' t Hr|c c' [c0 s Hp]|c j p Hst].
  - destruct (locks_ok_run _ _ _ _ Hr Hok) as [H' ?]. by eexists.
  - by exists hs.
  - destruct Hok as [Hd Hs]. exists (hs ++ [None]). split; cbn [threads mutexes].
    + apply Forall2_app; [done|]. by repeat constructor; cbn; apply (Hstarts _ _ _ Hst).
    + intros l. destruct (Hs l) as (? & ? & ?). unfold lock_state. by rewrite !holders_snoc.
Qed.

Lemma locks_ok_reachable c c' hs :
  rtc (pool_step starts) c c' -> locks_ok c hs -> exists hs', locks_ok c' hs'.
Proof.
  intros Hr. revert hs. induction Hr as [c|c1 c2 c3 H12 _ IH]; intros hs Hok; [by exists hs|].
  destruct (locks_ok_step _ _ _ H12 Hok) as [hs' Hok']. by apply (IH hs').
Qed.

(** ** No deadlock *)

Definition some_input : input := {|
  i_order := fun l => l; i_visit := fun l => l; i_cancelled := false;
  i_up := fun _ => UpUnreachable; i_delay := 0;
|}.

Lemma some_input_fair : fair_input some_input.
Proof. split; [by intros l|]. split; [by intros l|done]. Qed.

(** A goroutine that is inside a section finishes it by its own actions. *)
Lemma finish_section c hs u x :
  locks_ok c hs -> hs !! u = Some (Some x) ->
  exists c', rtc (run_of u) c c' /\ locks_ok c' (<[u := None]> hs) /\
    forall t, t <> u -> threads c' !! t = threads c !! t.
Proof.
  intros [Hd Hs] Hu. destruct (Forall2_lookup_r _ _ _ _ _ Hd Hu) as ([j p] & Hl & Hp).
  cbn in Hp. revert c Hd Hs Hl. induction p as [y|B a f k IH]; intros c Hd Hs Hl; [done|].
  set (s := cur (tl c)). destruct (f some_input s) as [s' b] eqn:Ef.
  destruct (limit j) as [|n] eqn:En; [done|]. cbn [disciplined] in Hp.
  destruct a as [|t0|l m|l m]; [|by destruct Hp|by destruct Hp|].
  - assert (Hrun : run_of u c {| tl := push (tl c) s'; mutexes := mutexes c;
      threads := <[u := (j, k b)]> (threads c) |}).
    { eapply (run_thread u c j _ some_input Free s' (k b)); [exact Hl|apply some_input_fair| |done].
      cbn. fold s. by rewrite Ef. }
    assert (Hpk : disciplined (Some x) (k b) None (S n))
      by (eapply disciplined_more; [|apply Hp]; lia).
    destruct (IH b Hpk {| tl := push (tl c) s'; mutexes := mutexes c;
      threads := <[u := (j, k b)]> (threads c) |}) as (c' & Hr & Hok & Hsame).
    + cbn [threads]. rewrite <- (list_insert_id hs u (Some x) Hu).
      apply Forall2_insert; [done|]. cbn. by rewrite En.
    + done.
    + cbn. apply list_lookup_insert_eq. by eapply lookup_lt_Some.
    + exists c'. split; [by eapply rtc_l|]. split; [done|]. intros t Ht.
      rewrite (Hsame t Ht). cbn. by apply list_lookup_insert_ne.
  - destruct Hp as [[= ->] Hp].
    assert (Ha : admits (mutexes c) (Release l m) = true).
    { pose proof (holders_some _ _ _ Hu) as Hh. destruct (Hs l) as (Hr & Hw & Hf). cbn [admits].
      destruct m; [apply Nat.leb_le; lia|]. destruct (writer (mutexes c l)); [done|].
      specialize (Hf eq_refl). lia. }
    eexists. split; [apply rtc_once; eapply (run_thread u c j _ some_input (Release l m) s' (k b));
      [exact Hl|apply some_input_fair|cbn; fold s; by rewrite Ef|exact Ha]|]. split.
    + split; cbn [threads mutexes].
      * apply Forall2_insert; [done|]. cbn. rewrite En.
        eapply disciplined_more; [|apply Hp]. lia.
      * intros l'. by apply (lock_state_after hs u (Some (l, m)) (Release l m)).
    + intros t Ht. cbn. by apply list_lookup_insert_ne.
Qed.

(** Steps that leave goroutine [t] alone: others act, or time passes. *)
Definition aside (t : nat) (c c' : pool J) : Prop :=
  (exists u, u <> t /\ run_of u c c') \/ time_passes c c'.

Lemma aside_run t u c c' : u <> t -> rtc (run_of u) c c' -> rtc (aside t) c c'.
Proof. intros Hu. apply rtc_subrel. intros c1 c2 Hr. left. by exists u. Qed.

(** The goroutines inside sections. *)
Definition busy (hs : list holding) : nat := length (filter (fun H => H <> None) hs).

Lemma busy_insert hs u x : hs !! u = Some (Some x) -> (busy (<[u := None]> hs) < busy hs)%nat.
Proof.
  unfold busy. revert u. induction hs as [|H hs IH]; intros [|u] Hu; [done|done| |].
  - cbn in Hu. injection Hu as ->. change (<[0%nat := None]> (Some x :: hs)) with (None :: hs).
    rewrite !filter_cons, decide_False, decide_True by (done || by intros []). cbn. lia.
  - cbn in Hu. specialize (IH u Hu).
    change (<[S u := None]> (H :: hs)) with (H :: <[u := None]> hs). rewrite !filter_cons.
    destruct H as [y|]; [rewrite !decide_True by done|rewrite !decide_False by (by intros [])];
      cbn [length]; lia.
Qed.

Lemma busy_zero hs : busy hs = 0%nat -> Forall (fun H => H = None) hs.
Proof.
  unfold busy. induction hs as [|H hs IH]; [by intros; apply Forall_nil_2|].
  rewrite filter_cons. destruct H as [x|]; [rewrite decide_True by done; done|].
  rewrite decide_False by (by intros []). intros E. by apply Forall_cons_2; [|apply IH].
Qed.

Lemma busy_some hs : busy hs <> 0%nat -> exists u x, hs !! u = Some (Some x).
Proof.
  unfold busy. induction hs as [|H hs IH]; [done|]. destruct H as [x|]; [by exists 0%nat, x|].
  rewrite filter_cons, decide_False by (by intros []). intros (u & x & Hu)%IH. by exists (S u), x.
Qed.

(** If goroutine [t] holds nothing, the others can clear all sections. *)
Lemma clear_sections c hs t :
  locks_ok c hs -> hs !! t = Some None ->
  exists c' hs', rtc (aside t) c c' /\ locks_ok c' hs' /\ Forall (fun H => H = None) hs' /\
    threads c' !! t = threads c !! t.
Proof.
  intros Hok Ht. remember (busy hs) as n eqn:En. revert c hs Hok Ht En.
  induction n as [n IH] using (well_founded_induction lt_wf). intros c hs Hok Ht En.
  destruct (decide (busy hs = 0%nat)) as [Hz|Hz].
  { exists c, hs. split; [done|]. split; [done|]. by split; [apply busy_zero|]. }
  destruct (busy_some hs Hz) as (u & x & Hu).
  assert (Hut : u <> t) by congruence.
  destruct (finish_section c hs u x Hok Hu) as (c1 & Hr & Hok1 & Hsame).
  destruct (IH (busy (<[u := None]> hs))) with (c := c1) (hs := <[u := None : holding]> hs)
    as (c' & hs' & Hr' & Hok' & Hn & Ht'); [subst n; by eapply busy_insert|done| |done|].
  { by rewrite list_lookup_insert_ne. }
  exists c', hs'. split; [|by rewrite Ht', Hsame by congruence].
  etrans; [by eapply aside_run|done].
Qed.

(** A goroutine that is not done can go on once the others have left the
    sections they are in and enough time has passed. *)
Lemma not_blocked c hs t j {B} a (f : input -> shared -> shared * B) k :
  locks_ok c hs -> threads c !! t = Some (j, Act a f k) ->
  exists c1 c2 b, rtc (aside t) c c1 /\ threads c1 !! t = Some (j, Act a f k) /\
    run_of t c1 c2 /\ threads c2 !! t = Some (j, k b).
Proof.
  intros Hok Hl. destruct (Forall2_lookup_l _ _ _ _ _ (proj1 Hok) Hl) as (H & Ht & Hp). cbn in Hp.
  destruct (limit j) as [|n] eqn:En; [done|]. cbn [disciplined] in Hp.
  (* the locks let it *)
  assert (Hgo : exists c0, rtc (aside t) c c0 /\ threads c0 !! t = Some (j, Act a f k) /\
    admits (mutexes c0) a = true).
  { destruct a as [|t0|l m|l m]; [by exists c|by exists c| |].
    - destruct Hp as [-> _].
      destruct (clear_sections c hs t Hok Ht) as (c0 & hs0 & Hr & [_ Hs0] & Hn & Ht0).
      exists c0. split; [done|]. split; [by rewrite Ht0|]. destruct (Hs0 l) as (Hr0 & Hw0 & _).
      rewrite !(holders_none _ hs0 Hn) in *.
      assert (Ew : writer (mutexes c0 l) = false).
      { destruct (writer (mutexes c0 l)); [|done]. by destruct (Hw0 eq_refl). }
      cbn. rewrite Ew. destruct m; [done|]. cbn. by rewrite Hr0.
    - destruct Hp as [-> _]. exists c. split; [done|]. split; [done|].
      pose proof (holders_some _ _ _ Ht) as Hh. destruct ((proj2 Hok) l) as (Hr & Hw & Hf). cbn [admits].
      destruct m; [apply Nat.leb_le; lia|]. destruct (writer (mutexes c l)); [done|].
      specialize (Hf eq_refl). lia. }
  destruct Hgo as (c0 & Hr0 & Hl0 & Ha). set (s := cur (tl c0)).
  (* and the time has come *)
  set (s1 := {| srv := srv s; clock := Z.max (clock s) (match a with SleepUntil w => w | _ => 0 end);
                disk := disk s; exchanges := exchanges s |}).
  destruct (f some_input s1) as [s2 b] eqn:Ef.
  eexists {| tl := later (tl c0) s1; mutexes := mutexes c0; threads := threads c0 |}, _, b.
  split_and!.
  - eapply rtc_r; [exact Hr0|]. right. apply pass_time. split; [done|]. split; [done|].
    apply Z.le_max_l.
  - done.
  - eapply run_thread; [exact Hl0|apply some_input_fair| |exact Ha]. cbn [run1 tl later cur].
    assert (He : ready a some_input s1 = true).
    { destruct a; try done. apply Z.leb_le, Z.le_max_r. }
    rewrite He, Ef. reflexivity.
  - cbn. apply list_lookup_insert_eq. by eapply lookup_lt_Some.
Qed.

Lemma aside_steps t c c' : rtc (aside t) c c' -> rtc (pool_step starts) c c'.
Proof.
  apply rtc_subrel. intros c1 c2 [(u & _ & Hr)|Hp]; [by eapply ps_run|by apply ps_pass].
Qed.

(** So every goroutine can be run to its end. *)
Lemma run_to_end c hs t j p :
  locks_ok c hs -> threads c !! t = Some (j, p) ->
  exists c' res, rtc (pool_step starts) c c' /\ threads c' !! t = Some (j, Done res).
Proof.
  revert c hs. induction p as [res|B a f k IH]; intros c hs Hok Hl; [by exists c, res|].
  destruct (not_blocked c hs t j a f k Hok Hl) as (c1 & c2 & b & S1 & _ & S2 & Hl2).
  assert (S12 : rtc (pool_step starts) c c2).
  { etrans; [by eapply aside_steps|]. apply rtc_once. by eapply ps_run. }
  destruct (locks_ok_reachable c c2 hs S12 Hok) as [hs2 Hok2].
  destruct (IH b c2 hs2 Hok2 Hl2) as (c3 & res & S3 & Hl3). exists c3, res.
  split; [by etrans|done].
Qed.
End locks.
