(* ===== verification/Together.v ===== *)
(** * Goroutines that run together

    What the goroutines of [Concurrent.v] may rely on and what they guarantee
    to each other, and from that what each program of the server does while the
    others run: [wp_ServeHTTP] is the specification of a request. *)

From S2P Require Import Prelude GoStrings MacAddr Types NodeStore IsoCache FatImage FatReader IsoImage IsoReader KernelNet IpxeScript Regex Rewriter Http Server ServerFacts Concurrent RelyGuarantee Locks.
Import Mac Net Script Re Rewriting Srv Goroutine.
Import SpaceFacts MacFacts HashFacts CacheFacts ReFacts RekeyFacts ConfigFacts ImageFacts.

(** ** What images are made of *)

(** What an image is composed for: a node, under the address of the request
    and for a base URL, or any machine. *)
Inductive subject :=
| ForNode (n : Node) (mac base : bytes)
| ForGeneric (base : bytes).

Section subjects.
Context {U : Unicode} `{Sha256}.

Definition subject_key (K : subject) : bytes :=
  match K with ForNode _ mac _ => mac | ForGeneric _ => genericISOKey end.

Definition subject_script (K : subject) : bytes :=
  match K with
  | ForNode n mac base => RenderNodeIPXEScript n mac base
  | ForGeneric base => RenderGenericIPXEScript base
  end.

Definition subject_hash (K : subject) : bytes :=
  match K with
  | ForNode n mac base => ComputeNodeConfigHash n mac base
  | ForGeneric base => GenericConfigHash base
  end.

(** The text that is hashed. *)
Definition subject_input (K : subject) : bytes :=
  match K with
  | ForNode n mac base => hash_input n mac base
  | ForGeneric base =>
      "generic"%string ++ [nl] ++ "proxy_base="%string ++ TrimRight base "/"%string
  end.

(** The text tells the values apart: they are single lines, and the members
    have no commas and are not empty. *)
Definition subject_ok (K : subject) : Prop :=
  match K with ForNode n mac base => hashable n mac base | ForGeneric _ => True end.

Lemma subject_input_script K K' :
  subject_ok K -> subject_ok K' -> subject_input K' = subject_input K ->
  subject_script K' = subject_script K.
Proof.
  destruct K as [n mac base|base], K' as [n' mac' base'|base']; cbn [subject_ok subject_input subject_script].
  - intros Hk Hk' E. destruct (hash_input_inj n' n mac' mac base' base Hk' Hk E) as (-> & -> & Eb).
    by apply RenderNode_base.
  - intros _ _ E. exfalso. unfold hash_input, unlines in E. cbn in E. discriminate E.
  - intros _ _ E. exfalso. unfold hash_input, unlines in E. cbn in E. discriminate E.
  - intros _ _ E. do 3 apply app_inv_head in E. unfold RenderGenericIPXEScript, generic_lines.
    by rewrite E.
Qed.
End subjects.

(** ** What goroutines rely on *)

Module Together.
Section together.
Context {U : Unicode} {UL : UnicodeLaws U} `{Json, Sha256, Archive}.
Context (getenv : bytes -> bytes).

(** The images a server holds. *)
Definition images (v : Server) : list (bytes * bytes * Z) := contents (Cache.heap (isoCache v)).

(** The cache has its shape, the environment is in force, and the node tables
    have canonical keys. *)
Record server_ok (v : Server) : Prop := {
  so_cache : wf (isoCache v);
  so_over : overrides v = env_overrides getenv;
  so_win : env_wins getenv v;
  so_store : canonical (Store.nodes (nodes v));
  so_static : canonical (Nodes (cfg v));
}.

(** The fields that are set before the server runs. *)
Definition fixed (v : Server) : bytes * Config * Z * bytes * Z * bytes :=
  (cfgPath v, overrides v, missWait v, ipxeEFI v, bootTime v, Store.path (nodes v)).

Record evolves (v v' : Server) : Prop := {
  ev_fixed : fixed v' = fixed v;
  ev_images : images v `prefix_of` images v';
}.

#[export] Instance evolves_preorder : PreOrder evolves.
Proof.
  split; [by split|]. intros v1 v2 v3 [A1 A2] [B1 B2]. split; [congruence|by etrans].
Qed.

Record follows (h h' : timeline) : Prop := {
  fo_past : past h `prefix_of` past h';
  fo_clock : clock (cur h) <= clock (cur h');
  fo_srv : evolves (srv (cur h)) (srv (cur h'));
  fo_rack : exchanges (cur h) `prefix_of` exchanges (cur h');
}.

#[export] Instance follows_preorder : PreOrder follows.
Proof.
  split; [by split|]. intros h1 h2 h3 [A1 A2 A3 A4] [B1 B2 B3 B4].
  split; [by etrans|lia|by etrans|by etrans].
Qed.

(** Something that was true at a moment since a given one. *)
Definition seen (since : nat) (P : Server -> Prop) (h : timeline) : Prop :=
  exists i v, (since <= i)%nat /\ past h !! i = Some v /\ P v.

Lemma seen_follows since P h h' : follows h h' -> seen since P h -> seen since P h'.
Proof.
  intros [Hp _ _ _] (i & v & Hi & Hl & Hv). exists i, v. split; [done|]. split; [|done].
  by eapply prefix_lookup_Some.
Qed.

Lemma seen_since since since' P h : (since' <= since)%nat -> seen since P h -> seen since' P h.
Proof. intros Hle (i & v & Hi & ?). exists i, v. split; [lia|done]. Qed.

(** A record was found where [lookup] looks for it. *)
Definition registered (since : nat) (norm : bytes) (n : Node) : timeline -> Prop :=
  seen since (fun v => Store.nodes (nodes v) !! norm = Some n \/ Nodes (cfg v) !! norm = Some n).

(** A configuration was in force. *)
Definition config_seen (since : nat) (c : Config) : timeline -> Prop := seen since (fun v => cfg v = c).

(** At some moments of the timeline the node was registered under the address
    and the base URL was that of a request. *)
Definition configured (h : timeline) (K : subject) : Prop :=
  match K with
  | ForNode n mac base => registered 0 (normalizeKey mac) n h /\
      exists c r, config_seen 0 c h /\ base = proxy_base c r
  | ForGeneric base => exists c r, config_seen 0 c h /\ base = proxy_base c r
  end.

Lemma configured_follows h h' K : follows h h' -> configured h K -> configured h' K.
Proof.
  intros Hf. destruct K; cbn.
  - intros [Hr (c & r & Hc & E)]. split; [by eapply seen_follows|]. exists c, r.
    split; [by eapply seen_follows|done].
  - intros (c & r & Hc & E). exists c, r. split; [by eapply seen_follows|done].
Qed.

(** An image and its hash are those of a subject. *)
Definition composed (ipxe : bytes) (K : subject) (x : bytes * bytes * Z) : Prop :=
  x.1.2 = subject_hash K /\ Iso.buildBootISO ipxe (subject_script K) = Ret x.1.1.

(** The image at a location was composed for a subject that was configured on
    this timeline and goes with the key. *)
Definition made_at (h : timeline) (v : Server) (l : Cache.loc) (key : bytes) (x : bytes * bytes * Z)
    : Prop :=
  images v !! l = Some x /\
  exists K, configured h K /\ Cache.cache_key (subject_key K) = key /\ composed (ipxeEFI v) K x.

Definition cache_made (h : timeline) (v : Server) : Prop :=
  forall key l, Cache.isos (isoCache v) !! key = Some l -> exists x, made_at h v l key x.

Lemma made_at_follows h h' v v' l key x :
  follows h h' -> evolves v v' -> made_at h v l key x -> made_at h' v' l key x.
Proof.
  intros Hf [E Hp] (Hx & K & Hc & Hk & Hm). split; [by eapply prefix_lookup_Some|].
  exists K. split; [by eapply configured_follows|]. split; [done|].
  replace (ipxeEFI v') with (ipxeEFI v) by (unfold fixed in E; congruence). done.
Qed.

(** The invariant of a timeline. *)
Record sound (h : timeline) : Prop := {
  sd_ok : server_ok (srv (cur h));
  sd_last : last (past h) = Some (srv (cur h));
  sd_made : cache_made h (srv (cur h));
}.

Lemma seen_now since (P : Server -> Prop) h :
  sound h -> (since < length (past h))%nat -> P (srv (cur h)) -> seen since P h.
Proof.
  intros [_ Hl _] Hs Hv. exists (pred (length (past h))), (srv (cur h)).
  rewrite <- last_lookup. split; [lia|done].
Qed.

Lemma follows_since since h h' :
  follows h h' -> (since < length (past h))%nat -> (since < length (past h'))%nat.
Proof. intros [Hp _ _ _] Hs. apply prefix_length in Hp. lia. Qed.

Lemma follows_ipxe h h' : follows h h' -> ipxeEFI (srv (cur h')) = ipxeEFI (srv (cur h)).
Proof. intros [_ _ [E _] _]. unfold fixed in E. congruence. Qed.

Lemma follows_missWait h h' : follows h h' -> missWait (srv (cur h')) = missWait (srv (cur h)).
Proof. intros [_ _ [E _] _]. unfold fixed in E. congruence. Qed.

Lemma follows_bootTime h h' : follows h h' -> bootTime (srv (cur h')) = bootTime (srv (cur h)).
Proof. intros [_ _ [E _] _]. unfold fixed in E. congruence. Qed.

Lemma last_push h s : last (past (push h s)) = Some (srv s).
Proof. cbn. by rewrite last_snoc. Qed.

Lemma push_follows h s :
  clock (cur h) <= clock s -> evolves (srv (cur h)) (srv s) ->
  exchanges (cur h) `prefix_of` exchanges s -> follows h (push h s).
Proof. intros Hc He Hx. split; [by apply prefix_app_r|done|done|done]. Qed.

(** What a change of the server must keep. *)
Definition keeps (h : timeline) (v v' : Server) : Prop :=
  server_ok v' /\ evolves v v' /\ cache_made h v'.

(** After an action that keeps this, the timeline is sound again. *)
Lemma push_sound h s :
  clock (cur h) <= clock s -> exchanges (cur h) `prefix_of` exchanges s ->
  keeps h (srv (cur h)) (srv s) -> sound (push h s) /\ follows h (push h s).
Proof.
  intros Hc Hx (Ho & He & Hm). assert (Hf : follows h (push h s)) by (by apply push_follows).
  split; [|done]. split; [done|apply last_push|]. intros key l Hl.
  destruct (Hm key l Hl) as [x Hx']. exists x.
  eapply made_at_follows; [exact Hf|reflexivity|exact Hx'].
Qed.

Lemma keeps_refl h : sound h -> keeps h (srv (cur h)) (srv (cur h)).
Proof. intros [Ho _ Hm]. by split. Qed.

Lemma push_same h : sound h -> sound (push h (cur h)) /\ follows h (push h (cur h)).
Proof. intros Hs. apply push_sound; [done|done|by apply keeps_refl]. Qed.

Lemma pass_follows h s :
  sound h -> passes (cur h) s -> sound (later h s) /\ follows h (later h s).
Proof.
  intros [Ho Hl Hm] (Es & Ex & Hc).
  assert (Hf : follows h (later h s)).
  { split; cbn; [done|done|by rewrite Es|by rewrite Ex]. }
  split; [|done]. split; cbn; rewrite ?Es; [done..|]. intros key l Hk.
  destruct (Hm key l Hk) as [x Hx]. exists x.
  eapply made_at_follows; [exact Hf|reflexivity|exact Hx].
Qed.

(** Along the moments of a proof. *)
Ltac chain :=
  match goal with
  | |- follows ?a ?c =>
      first [ assumption | reflexivity
            | match goal with Hab : follows a ?b |- _ => solve [transitivity b; [exact Hab|chain]] end ]
  end.

Abbreviation twp := (wp sound follows follows).

(** ** Actions *)

Lemma wp_observe {A B} (f : input -> shared -> A) (g : A -> prog B) Q h :
  (forall h' i, follows h h' -> sound h' -> fair_input i -> twp (g (f i (cur h'))) Q h') ->
  twp (x ← observe f; g x) Q h.
Proof.
  intros Hg. cbn. intros h' i Hf Hs Hi _. destruct (push_same h' Hs) as [Hp Hf'].
  split; [done|]. split; [done|].
  apply (Hg (push h' (cur h')) i); [by etrans|done|done].
Qed.

Lemma wp_atomically {A B} (f : input -> Server -> Server * A) (g : A -> prog B) Q h :
  (forall h' i, follows h h' -> sound h' -> fair_input i ->
     keeps h' (srv (cur h')) (f i (srv (cur h'))).1 /\
     forall h2, follows h' h2 -> sound h2 -> srv (cur h2) = (f i (srv (cur h'))).1 ->
       twp (g (f i (srv (cur h'))).2) Q h2) ->
  twp (x ← atomically f; g x) Q h.
Proof.
  intros Hg. cbn. intros h' i Hf Hs Hi _. destruct (Hg h' i Hf Hs Hi) as [Hk Hq].
  destruct (f i (srv (cur h'))) as [v b]. cbn [fst snd] in *.
  destruct (push_sound h' (with_srv (cur h') v)) as [Hp Hf']; [done|done|done|].
  split; [done|]. split; [done|]. by apply Hq.
Qed.

(** The same for an action at the end of a program. *)
Lemma wp_last {A} (p : prog A) Q h :
  twp (x ← p; mret x) Q h -> twp p Q h.
Proof.
  change (x ← p; mret x) with (bind p Done). revert h.
  induction p as [y|B a f k IH]; intros h Hp; [done|]. cbn [bind wp] in *.
  intros h' i K1 K2 K3 K4. specialize (Hp h' i K1 K2 K3 K4).
  destruct (f i (cur h')) as [s b]. destruct Hp as (? & ? & ?). split; [done|]. by auto.
Qed.

(** A critical section is its body, as far as the server goes: taking and
    releasing the lock changes nothing else. *)
Lemma wp_released {A B} l m (p : prog A) (g : A -> prog B) Q h :
  twp (x ← p; g x) Q h -> twp (x ← p; _ ← release l m; g x) Q h.
Proof.
  change (x ← p; g x) with (bind p g).
  change (x ← p; _ ← release l m; g x)
    with (bind p (fun x => Act (Release l m) (fun _ s => (s, tt)) (fun _ => g x))).
  revert h. induction p as [y|C a f k IH]; intros h Hp; cbn [bind wp] in *.
  - intros h' i Hf Hs _ _. destruct (push_same h' Hs) as [Hp' Hf'].
    split; [done|]. split; [done|]. eapply wp_rely; [apply _| |exact Hp]. by etrans.
  - intros h' i K1 K2 K3 K4. specialize (Hp h' i K1 K2 K3 K4).
    destruct (f i (cur h')) as [s b]. destruct Hp as (? & ? & ?). split; [done|]. by auto.
Qed.

Lemma bind_assoc {A B C} (p : prog A) (f : A -> prog B) (g : B -> prog C) Q h :
  twp (x ← p; y ← f x; g y) Q h -> twp (y ← (x ← p; f x); g y) Q h.
Proof.
  change (twp (bind p (fun x => bind (f x) g)) Q h -> twp (bind (bind p f) g) Q h).
  revert h. induction p as [z|D a f0 k IH]; intros h Hp; [done|]. cbn [bind wp] in *.
  intros h' i K1 K2 K3 K4. specialize (Hp h' i K1 K2 K3 K4).
  destruct (f0 i (cur h')) as [s b]. destruct Hp as (? & ? & ?). split; [done|]. by auto.
Qed.

Lemma wp_locked {A B} l m (p : prog A) (g : A -> prog B) Q h :
  (forall h', follows h h' -> twp (x ← p; g x) Q h') -> twp (x ← locked l m p; g x) Q h.
Proof.
  intros Hp. intros h' i Hf Hs _ _. cbn.
  destruct (push_same h' Hs) as [Hs' Hf']. split; [done|]. split; [done|].
  apply (bind_assoc p (fun b => bind (release l m) (fun _ => Done b)) g).
  apply (wp_released l m p g), Hp. by etrans.
Qed.

Lemma wp_weaken {A} (p : prog A) (Q Q' : A -> timeline -> Prop) h :
  twp p Q h -> (forall a h', follows h h' -> Q a h' -> Q' a h') -> twp p Q' h.
Proof.
  intros Hp HQ. eapply wp_mono; [apply (wp_frame _ _ _ p Q h h); [done|done|exact Hp]|].
  intros a h' [Ha Hf]. by apply HQ.
Qed.

(** A program before another. *)
Lemma wp_seq {A B} (p : prog A) (P : A -> timeline -> Prop) (g : A -> prog B) Q h :
  twp p P h -> (forall a h', follows h h' -> P a h' -> twp (g a) Q h') -> twp (x ← p; g x) Q h.
Proof.
  intros Hp Hg. apply wp_bind; [apply _|]. by eapply wp_weaken.
Qed.

(** A question to the rack, among those since a given one. *)
Definition asked (since : nat) (q : upstreamReq) (res : upstreamRes) (h : timeline) : Prop :=
  exists i, (since <= i)%nat /\ exchanges (cur h) !! i = Some (q, res).

Lemma asked_follows since q res h h' : follows h h' -> asked since q res h -> asked since q res h'.
Proof.
  intros [_ _ _ Hx] (i & Hi & Hl). exists i. split; [done|]. by eapply prefix_lookup_Some.
Qed.

Lemma wp_ask {A} since q (g : upstreamRes -> prog A) Q h :
  (since <= length (exchanges (cur h)))%nat ->
  (forall h' res, follows h h' -> sound h' -> asked since q res h' -> twp (g res) Q h') ->
  twp (x ← ask q; g x) Q h.
Proof.
  intros Hl Hg. cbn. intros h' i Hf Hs _ _. set (s := {| srv := _; clock := _; disk := _; exchanges := _ |}).
  destruct (push_sound h' s) as [Hs' Hf']; [done|by apply prefix_app_r|by apply keeps_refl|].
  split; [done|]. split; [done|]. apply Hg; [by etrans|done|].
  exists (length (exchanges (cur h'))). split.
  - pose proof (prefix_length _ _ (fo_rack _ _ Hf)). lia.
  - cbn. by apply list_lookup_middle.
Qed.

(** ** Changes of the server *)

(** A change that leaves the cache alone. *)
Lemma keeps_rest h v v' :
  isoCache v' = isoCache v -> fixed v' = fixed v -> cache_made h v -> server_ok v' -> keeps h v v'.
Proof.
  intros Ec Ef Hm Ho.
  assert (He : evolves v v') by (split; [done|unfold images; by rewrite Ec]).
  split; [done|]. split; [done|]. intros key l Hl. rewrite Ec in Hl.
  destruct (Hm key l Hl) as [x Hx]. exists x. by eapply made_at_follows; [reflexivity|..].
Qed.

Lemma keeps_cfg h v o c sum :
  valid_order o -> server_ok v -> cache_made h v ->
  keeps h v (with_cfg v (applyOverrides (with_config_nodes c (Store.rekey o (Nodes c))) (overrides v)) sum).
Proof.
  intros Ho [K1 K2 K3 K4 K5] Hm. apply keeps_rest; [done|done|done|]. split; try done.
  - eapply effective_wins. cbn [cfg with_cfg]. rewrite K2. apply applyOverrides_env.
  - by apply rekey_canonical.
Qed.

Lemma keeps_note h v msg :
  server_ok v -> cache_made h v -> keeps h v (with_nodes v (Store.noteError (nodes v) msg).1).
Proof. intros [K1 K2 K3 K4 K5] Hm. by apply keeps_rest. Qed.

Lemma keeps_commit h v o b sum ns :
  valid_order o -> Store.parseNodes o b = inr ns -> server_ok v -> cache_made h v ->
  keeps h v (with_nodes v (Store.commit (nodes v) sum ns)).
Proof.
  intros Ho (d & _ & _ & ->)%parseNodes_inv [K1 K2 K3 K4 K5] Hm.
  apply keeps_rest; [done|done|done|]. split; try done. by apply rekey_canonical.
Qed.

(** A change of the cache alone, that forgets some images. *)
Lemma keeps_fewer h v c :
  server_ok v -> cache_made h v -> wf c -> contents (Cache.heap c) = images v ->
  Cache.isos c ⊆ Cache.isos (isoCache v) -> keeps h v (with_cache v c).
Proof.
  intros [K1 K2 K3 K4 K5] Hm Hw Hc Hi.
  assert (He : evolves v (with_cache v c)) by (split; [done|]; unfold images at 2; cbn; by rewrite Hc).
  split; [by split|]. split; [done|]. intros key l Hl. cbn in Hl.
  destruct (Hm key l) as [x Hx]; [by eapply lookup_weaken|]. exists x.
  by eapply made_at_follows; [reflexivity|..].
Qed.

Lemma Get_isos c key t1 t2 : Cache.isos (Cache.Get c key t1 t2).1 ⊆ Cache.isos c.
Proof.
  unfold Cache.Get. destruct (Cache.isos c !! _) as [l|]; [|done].
  destruct (Cache.expired c t1 l); [apply delete_subseteq|done].
Qed.

Lemma keeps_get h v key t1 t2 :
  server_ok v -> cache_made h v -> keeps h v (with_cache v (Cache.Get (isoCache v) key t1 t2).1).
Proof.
  intros Ho Hm. apply keeps_fewer; [done|done|apply Get_wf, Ho|apply Get_contents|apply Get_isos].
Qed.

Lemma keeps_set h v key hash data t K :
  server_ok v -> cache_made h v -> configured h K -> subject_key K = key ->
  composed (ipxeEFI v) K (data, hash, t) ->
  keeps h v (with_cache v (Cache.Set_ (isoCache v) key hash data t).1).
Proof.
  intros [K1 K2 K3 K4 K5] Hm Hc Hk Hx. set (c := (Cache.Set_ _ _ _ _ _).1).
  assert (Hi : contents (Cache.heap c) = images v ++ [(data, hash, t)])
    by (cbn; unfold images, contents; by rewrite fmap_app).
  assert (He : evolves v (with_cache v c)).
  { split; [done|]. unfold images at 2. cbn [isoCache with_cache]. rewrite Hi. by apply prefix_app_r. }
  split; [split; try done; by eapply wf_step; [apply cs_set|]|]. split; [done|].
  intros k l Hl. cbn in Hl. apply lookup_insert_Some in Hl as [[<- <-]|[_ Hl]].
  - exists (data, hash, t). split.
    + unfold images. cbn [isoCache with_cache]. rewrite Hi. apply list_lookup_middle.
      unfold images, contents. by rewrite length_fmap.
    + exists K. by rewrite Hk.
  - destruct (Hm k l Hl) as [x Hx']. exists x. by eapply made_at_follows; [reflexivity|..].
Qed.

Lemma keeps_reaper h v o e :
  visits o -> server_ok v -> cache_made h v ->
  keeps h v (with_cache v (Cache.startReaper_round o (isoCache v) e)).
Proof.
  intros Hv Ho Hm. apply keeps_fewer; [done|done| | |].
  - by eapply wf_step; [apply cs_round|apply Ho].
  - unfold images, Cache.startReaper_round. destruct (Cache.reaping _); [|done].
    destruct e as [now|]; [by rewrite Reap_eq|by destruct (Cache.stopped _)].
  - unfold Cache.startReaper_round. destruct (Cache.reaping _); [|done].
    destruct e as [now|]; [|by destruct (Cache.stopped _)]. rewrite Reap_eq by done.
    apply map_filter_subseteq.
Qed.

(** ** The programs *)

Abbreviation anyway := (fun _ _ => True).

Tactic Notation "look" simple_intropattern_list(ps) := apply wp_observe; intros ps.
(** The same inside a critical section. *)
Tactic Notation "section" ident(h) simple_intropattern(Hf) := apply wp_locked; intros h Hf.
Ltac finish := apply wp_done; intros; done.

Lemma wp_update {A} (f : Server -> Server) (g : unit -> prog A) Q h :
  (forall h', follows h h' -> sound h' -> keeps h' (srv (cur h')) (f (srv (cur h')))) ->
  (forall h', follows h h' -> twp (g tt) Q h') ->
  twp (x ← atomically (fun _ s => (f s, tt)); g x) Q h.
Proof.
  intros Hk Hg. apply wp_atomically. intros h' i Hf Hs _. split; [by apply Hk|].
  intros h2 Hf2 _ _. cbn. apply Hg. by etrans.
Qed.

Lemma wp_reloadConfig h : twp Conc.reloadConfig anyway h.
Proof.
  unfold Conc.reloadConfig. look h1 i1 _ _ _. destruct (bool_decide _); [finish|].
  look h2 i2 _ _ _. destruct (disk _ _) as [b| |]; [|finish..].
  section h2' _. look h3 i3 _ _ _. destruct (_ && _); [finish|].
  destruct (unmarshal_Config b) as [|c]; [finish|]. look h4 i4 _ _ [Ho _].
  apply wp_last. section h4' _.
  apply (wp_update (fun s => with_cfg s (applyOverrides _ (overrides s)) _)); [|intros; finish].
  intros h5 _ Hs. apply keeps_cfg; [done|apply Hs..].
Qed.

Lemma wp_note {A} msg (g : unit -> prog A) Q h :
  (forall h', follows h h' -> twp (g tt) Q h') -> twp (x ← Conc.note msg; g x) Q h.
Proof.
  intros Hg. unfold Conc.note. section h1 Hf1.
  apply (wp_update (fun s => with_nodes s (Store.noteError (nodes s) msg).1)).
  - intros h' _ Hs. apply keeps_note; apply Hs.
  - intros h' Hf'. apply Hg. by etrans.
Qed.

Lemma wp_store_Reload h : twp Conc.store_Reload anyway h.
Proof.
  unfold Conc.store_Reload. look h1 i1 _ _ _. destruct (bool_decide _); [finish|].
  look h2 i2 _ _ _. destruct (disk _ _) as [b| |e].
  - section h2' _. look h3 i3 _ _ _. destruct (Store.same_content _ _); [finish|].
    look h4 i4 _ _ [Ho _]. destruct (Store.parseNodes _ _) as [e|ns] eqn:Ep.
    + look h5 i5 _ _ _. apply wp_note. intros. finish.
    + section h4' _.
      apply (wp_update (fun s => with_nodes s (Store.commit (nodes s) _ ns))); [|intros; finish].
      intros h5 _ Hs. eapply keeps_commit; [done|done|apply Hs..].
  - section h2' _. look h3 i3 _ _ _. apply wp_note. intros. finish.
  - look h3 i3 _ _ _. apply wp_note. intros. finish.
Qed.

Lemma wp_Reload h : twp Conc.Reload anyway h.
Proof.
  unfold Conc.Reload. eapply wp_seq; [apply wp_reloadConfig|]. intros ? h1 _ _.
  eapply wp_seq; [apply wp_store_Reload|]. intros ? h2 _ _. finish.
Qed.

Lemma wp_Watch n h : twp (Conc.Watch n) anyway h.
Proof.
  revert h. induction n as [|n IH]; intros h; [finish|].
  eapply wp_seq; [apply wp_Reload|]. by intros.
Qed.

Lemma wp_reaper_action {A} b (g : unit -> prog A) Q h :
  (forall h', twp (g tt) Q h') -> twp (x ← Conc.reaper_action b; g x) Q h.
Proof.
  intros Hg h1 i Hf Hs (_ & Hv & _) _. cbv zeta beta.
  set (s := with_srv _ _). destruct (push_sound h1 s) as [Hs' Hf']; [done|done| |].
  { apply keeps_reaper; [done|apply Hs..]. }
  split; [done|]. split; [done|]. apply Hg.
Qed.

Lemma wp_startReaper bs h : twp (Conc.startReaper bs) anyway h.
Proof.
  revert h. induction bs as [|b bs IH]; intros h; [finish|]. cbn [Conc.startReaper].
  unfold Conc.reaper_round. destruct b; [section h1 _|]; by apply wp_reaper_action.
Qed.

(** ** Finding a node *)

(** The node was in neither place. *)
Definition missing (since : nat) (norm : bytes) (h : timeline) : Prop :=
  seen since (fun v => Store.nodes (nodes v) !! norm = None) h /\
  seen since (fun v => Nodes (cfg v) !! norm = None) h.

Definition lookup_ok (since : nat) (norm : bytes) (res : option Node) (h : timeline) : Prop :=
  match res with Some n => registered since norm n h | None => missing since norm h end.

Lemma lookup_ok_follows since norm res h h' :
  follows h h' -> lookup_ok since norm res h -> lookup_ok since norm res h'.
Proof.
  intros Hf. destruct res; cbn; [by apply seen_follows|].
  intros [? ?]. by split; eapply seen_follows.
Qed.

Lemma wp_lookup since mac h :
  (since < length (past h))%nat ->
  twp (Conc.lookup (normalizeKey mac)) (lookup_ok since (normalizeKey mac)) h.
Proof.
  intros Hl. unfold Conc.lookup, Store.Get. section h0 Hf0. look h1 i1 Hf1 Hs1 _.
  rewrite normalizeKey_twice. assert (Hf01 : follows h h1) by chain.
  apply (follows_since _ _ _ Hf01) in Hl.
  destruct (Store.nodes _ !! _) as [n|] eqn:En.
  - apply wp_done. intros h2 Hf2. eapply lookup_ok_follows; [done|].
    apply seen_now; [done..|by left].
  - assert (Hm : seen since (fun v => Store.nodes (nodes v) !! normalizeKey mac = None) h1)
      by (by apply seen_now).
    section h1' Hf1'. look h2 i2 Hf2 Hs2 _. assert (Hf12 : follows h1 h2) by chain.
    apply (follows_since _ _ _ Hf12) in Hl. apply wp_done. intros h3 Hf3.
    apply (lookup_ok_follows _ _ _ h2); [done|].
    destruct (Nodes _ !! _) as [n|] eqn:Ec; cbn.
    + apply seen_now; [done..|by right].
    + split; [by eapply seen_follows|by apply seen_now].
Qed.

(** Enough rounds from this time on. *)
Definition rounds_left (rounds : nat) (deadline : Z) (h : timeline) : Prop :=
  (0 < rounds)%nat /\ deadline <= clock (cur h) + (Z.of_nat rounds - 1) * missPollInterval.

Definition resolve_ok (since : nat) (norm : bytes) (res : option (option Node)) (h : timeline) : Prop :=
  exists found, res = Some found /\ lookup_ok since norm found h.

Lemma wp_found {since norm res h} :
  lookup_ok since norm res h -> twp (mret (Some res)) (resolve_ok since norm) h.
Proof.
  intros Hl. apply wp_done. intros h' Hf. exists res. split; [done|]. by eapply lookup_ok_follows.
Qed.

Lemma wp_sleep {A} t (g : bool -> prog A) Q h :
  (forall h', follows h h' -> twp (g true) Q h') ->
  (forall h', follows h h' -> t <= clock (cur h') -> twp (g false) Q h') ->
  twp (x ← cancelled_before t; g x) Q h.
Proof.
  intros Ht Hn. cbn. intros h1 i Hf Hs _ He. destruct (push_same h1 Hs) as [Hs' Hf'].
  split; [done|]. split; [done|].
  destruct (i_cancelled i); [apply Ht|apply Hn]; try by etrans.
  by apply Z.leb_le in He.
Qed.

Lemma wp_resolve_loop since mac rounds deadline h :
  (since < length (past h))%nat -> rounds_left rounds deadline h ->
  twp (Conc.resolve_loop rounds deadline (normalizeKey mac)) (resolve_ok since (normalizeKey mac)) h.
Proof.
  revert h. induction rounds as [|rounds IH]; intros h Hl [Hr Hd]; [lia|]. cbn [Conc.resolve_loop].
  eapply wp_seq; [by apply wp_lookup|]. intros [n|] h1 Hf1 Hk1; [by apply wp_found|].
  eapply wp_seq; [apply wp_Reload|]. intros _ h2 Hf2 _.
  eapply wp_seq; [apply (wp_lookup since), (follows_since _ h); [chain|done]|].
  intros [n|] h3 Hf3 Hk3; [by apply wp_found|].
  look h4 i4 Hf4 _ _. destruct (Z.ltb_spec (clock (cur h4)) deadline) as [Hlt|Hge]; cbn [negb].
  2: { apply wp_found. by eapply lookup_ok_follows. }
  look h5 i5 Hf5 _ _. apply wp_sleep; intros h6 Hf6.
  { apply wp_found. eapply lookup_ok_follows; [|exact Hk3]. chain. }
  intros Ht. assert (Hf : follows h h4) by (chain).
  apply IH; [apply (follows_since _ h); [chain|done]|].
  pose proof (fo_clock _ _ Hf). pose proof (fo_clock _ _ Hf5). unfold rounds_left, missPollInterval in *.
  unfold Millisecond in *. lia.
Qed.

Definition enough (rounds : nat) (v : Server) : Prop :=
  (0 < rounds)%nat /\ missWait v <= (Z.of_nat rounds - 1) * missPollInterval.

(** An address without a key is never looked up. *)
Definition resolved (since : nat) (norm : bytes) (res : option (option Node)) (h : timeline) : Prop :=
  exists found, res = Some found /\ (found = None /\ norm = [] \/ lookup_ok since norm found h).

Lemma wp_resolveNode since rounds mac h :
  (since < length (past h))%nat -> enough rounds (srv (cur h)) ->
  twp (Conc.resolveNode rounds mac) (resolved since (normalizeKey mac)) h.
Proof.
  intros Hl [Hr He]. unfold Conc.resolveNode. destruct (bool_decide_reflect (normalizeKey mac = [])).
  { apply wp_done. intros h' _. exists None. eauto. }
  look h1 i1 Hf1 _ _. look h2 i2 Hf2 _ _. eapply wp_mono.
  - apply (wp_resolve_loop since); [apply (follows_since _ h); [chain|done]|]. split; [done|].
    rewrite (follows_missWait h h2) by chain. pose proof (fo_clock _ _ Hf2). lia.
  - intros res h3 (found & -> & Hf). exists found. auto.
Qed.

(** ** Images *)

(** The image under a pointer has this hash and goes with this key. *)
Definition image_at (h : timeline) (l : Cache.loc) (key hash : bytes) : Prop :=
  exists x, made_at h (srv (cur h)) l (Cache.cache_key key) x /\ x.1.2 = hash.

Lemma image_at_follows h h' l key hash :
  follows h h' -> image_at h l key hash -> image_at h' l key hash.
Proof.
  intros Hf (x & Hx & Hh). exists x. split; [|done]. by eapply made_at_follows; [|apply Hf|].
Qed.

Lemma wp_cache_Get {A} key (g : option Cache.loc -> prog A) Q h :
  (forall h' res, follows h h' -> sound h' ->
     (forall l, res = Some l -> exists hash, image_at h' l key hash) -> twp (g res) Q h') ->
  twp (x ← Conc.cache_Get key; g x) Q h.
Proof.
  intros Hg. unfold Conc.cache_Get. section h0 Hf0.
  cbn. intros h1 i Hf Hs (_ & _ & Hd) _. set (v := srv (cur h1)).
  pose proof (keeps_get h1 v key (clock (cur h1)) (clock (cur h1) + i_delay i) (sd_ok _ Hs)
    (sd_made _ Hs)) as Hk.
  assert (Hr : forall l, (Cache.Get (isoCache v) key (clock (cur h1)) (clock (cur h1) + i_delay i)).2
    = Some l -> exists hash, image_at h1 l key hash).
  { intros l. unfold Cache.Get. destruct (Cache.isos _ !! _) as [l'|] eqn:El; [|done].
    destruct (Cache.expired _ _ _); [done|]. intros [= <-].
    destruct (sd_made _ Hs _ _ El) as [x Hx]. by exists x.1.2, x. }
  destruct (Cache.Get _ _ _ _) as [c res]. cbn [fst snd] in *.
  set (s := {| srv := _; clock := _; disk := _; exchanges := _ |}).
  destruct (push_sound h1 s) as [Hs' Hf']; [cbn; lia|done|done|].
  split; [done|]. split; [done|]. apply Hg; [chain|done|].
  intros l [hash Hx]%Hr. exists hash. by eapply image_at_follows.
Qed.

(** What a program that gets an image returns. *)
Definition got_image (key hash : bytes) (build : outcome imgError bytes)
    (res : outcome imgError Cache.loc) (h : timeline) : Prop :=
  match res with
  | Ret l => image_at h l key hash
  | Err e => build = Err e
  | Panic => build = Panic
  end.

Section composing.
Context (K : subject) (hash : bytes) (build : outcome imgError bytes).
Context (h : timeline) (HK : configured h K).
Context (Hb : forall data t, build = Ret data -> composed (ipxeEFI (srv (cur h))) K (data, hash, t)).

Lemma wp_compose_iso h' :
  follows h h' -> twp (Conc.compose_iso (subject_key K) hash build) (got_image (subject_key K) hash build) h'.
Proof.
  intros Hf. unfold Conc.compose_iso. destruct build as [data|e|]; [|finish..].
  unfold Conc.cache_Set. apply wp_bind; [apply _|]. look h1 i1 Hf1 _ _. apply wp_last.
  section h1' Hf1'. apply wp_atomically. intros h2 i2 Hf2 Hs2 _. set (v := srv (cur h2)).
  assert (Hc : composed (ipxeEFI v) K (data, hash, clock (cur h1))).
  { unfold v. rewrite (follows_ipxe h h2) by chain. by apply Hb. }
  assert (Hc2 : configured h2 K) by (eapply configured_follows; [|exact HK]; chain).
  assert (Hk := keeps_set h2 v (subject_key K) hash data (clock (cur h1)) K (sd_ok _ Hs2)
    (sd_made _ Hs2) Hc2 eq_refl Hc).
  destruct (Cache.Set_ _ _ _ _ _) as [c l] eqn:Ec. cbn [fst snd] in *. split; [done|].
  intros h3 Hf3 Hs3 Ev. apply wp_done. intros h4 Hf4. apply wp_done. intros h5 Hf5.
  apply (image_at_follows h3); [chain|].
  assert (El : Cache.isos (isoCache (srv (cur h3))) !! Cache.cache_key (subject_key K) = Some l).
  { rewrite Ev. unfold Cache.Set_ in Ec. injection Ec as <- <-. cbn. apply lookup_insert_eq. }
  assert (Ei : images (srv (cur h3)) !! l = Some (data, hash, clock (cur h1))).
  { rewrite Ev. unfold images, contents. unfold Cache.Set_ in Ec. injection Ec as <- <-. cbn.
    rewrite fmap_app. apply list_lookup_middle. by rewrite length_fmap. }
  destruct (sd_made _ Hs3 _ _ El) as [x Hx]. exists x. split; [done|].
  destruct Hx as [Hx _]. rewrite Ei in Hx. by injection Hx as <-.
Qed.
End composing.

Lemma wp_entry {A} l key hash (g : option CachedISO -> prog A) Q h :
  image_at h l key hash ->
  (forall h' e, follows h h' -> sound h' -> made_at h' (srv (cur h')) l (Cache.cache_key key) (content e) ->
     ConfigHash e = hash -> twp (g (Some e)) Q h') ->
  twp (x ← Conc.entry l; g x) Q h.
Proof.
  intros Hx Hg. apply wp_observe. intros h' i Hf Hs _.
  destruct (image_at_follows h h' _ _ _ Hf Hx) as (x & Hm & Hh).
  pose proof Hm as [Hx2 _]. unfold images, contents in Hx2. rewrite list_lookup_fmap in Hx2.
  destruct (Cache.heap (isoCache (srv (cur h'))) !! l) as [e|] eqn:He; [|done].
  injection Hx2 as <-. by apply Hg.
Qed.

Lemma wp_cachedISO K hash build h :
  configured h K ->
  (forall data t, build = Ret data -> composed (ipxeEFI (srv (cur h))) K (data, hash, t)) ->
  twp (Conc.cachedISO (subject_key K) hash build) (got_image (subject_key K) hash build) h.
Proof.
  intros HK Hb. unfold Conc.cachedISO. apply wp_cache_Get. intros h1 res Hf1 _ Hres.
  destruct res as [l|]; [|by eapply wp_compose_iso].
  destruct (Hres l eq_refl) as [hash0 Hx]. eapply wp_entry; [exact Hx|]. intros h2 e Hf2 _ Hm Hh.
  destruct (bool_decide_reflect (ConfigHash e = hash)); [|eapply wp_compose_iso; [done|done|chain]].
  apply wp_done. intros h3 Hf3. eapply image_at_follows; [exact Hf3|]. by exists (content e).
Qed.

(** What comes of a request for an image: the image was composed for the same
    key and has the same hash. *)
Definition iso_answer (ipxe : bytes) (K : subject) (build : outcome imgError bytes) (name : bytes)
    (resp : response) (h : timeline) : Prop :=
  match resp with
  | Content ty nm t data => ty = iso_type /\ nm = name /\
      exists K', configured h K' /\
        Cache.cache_key (subject_key K') = Cache.cache_key (subject_key K) /\
        composed ipxe K' (data, subject_hash K, t)
  | HttpError st msg =>
      st = isoErrorStatus ipxe /\ msg = "failed to build ISO"%string /\ exists e, build = Err e
  | _ => False
  end.

Lemma wp_serve_iso K build name h :
  let ipxe := ipxeEFI (srv (cur h)) in
  configured h K ->
  (forall data t, build ipxe = Ret data -> composed ipxe K (data, subject_hash K, t)) ->
  build ipxe <> Panic ->
  twp (Conc.serve_iso (subject_key K) (subject_hash K) build name)
    (iso_answer ipxe K (build ipxe) name) h.
Proof.
  intros ipxe HK Hb Hp. unfold Conc.serve_iso, Conc.efi. look h1 i1 Hf1 _ _.
  pose proof (follows_ipxe h h1 Hf1) as E1. rewrite E1. fold ipxe.
  eapply wp_seq; [apply wp_cachedISO; [by eapply configured_follows|by rewrite E1]|].
  intros [l|e|] h2 Hf2 Hres; [|apply wp_done; cbn; eauto|done].
  eapply wp_entry; [exact Hres|]. intros h3 e Hf3 Hs3 (_ & K' & HK' & Hk & Hc) Hh.
  rewrite (follows_ipxe h h3) in Hc by chain. unfold content in Hc. rewrite Hh in Hc.
  apply wp_done. intros h4 Hf4. split; [done|]. split; [done|]. exists K'.
  split; [by eapply configured_follows|]. split; [done|exact Hc].
Qed.

(** ** Requests *)

Definition boots (ipxe script data : bytes) : Prop :=
  exists esp, eltorito_image data = Some esp /\
    read_file esp efiPath = Some ipxe /\ read_file esp scriptPath = Some script.

(** The composer refuses this script. *)
Definition refused (ipxe script : bytes) : Prop :=
  ipxe = [] \/ script = [] \/
  Fat.fatMaxClusters < Fat.clusters (Fat.esp_layout (zlen ipxe) (zlen script)).

(** The answer to a request for an image.  An image boots the script of a
    subject that was configured on this timeline, was cached under the same key
    and has the same hash; and that is the script asked for, if the hashed text
    tells the values of both apart and their two texts do not collide.  An error
    means that the composer refuses the script. *)
Definition image_answer (ipxe : bytes) (K : subject) (name : bytes) (resp : response)
    (h : timeline) : Prop :=
  match resp with
  | Content ty nm _ data => ty = iso_type /\ nm = name /\
      exists K', configured h K' /\
        Cache.cache_key (subject_key K') = Cache.cache_key (subject_key K) /\
        subject_hash K' = subject_hash K /\ boots ipxe (subject_script K') data /\
        (subject_ok K -> subject_ok K' ->
         (subject_hash K' = subject_hash K -> subject_input K' = subject_input K) ->
         subject_script K' = subject_script K)
  | HttpError st msg =>
      st = isoErrorStatus ipxe /\ msg = "failed to build ISO"%string /\
      refused ipxe (subject_script K)
  | _ => False
  end.

Lemma image_answer_follows ipxe K name resp h h' :
  follows h h' -> image_answer ipxe K name resp h -> image_answer ipxe K name resp h'.
Proof.
  intros Hf. destruct resp; cbn; try done. intros (? & ? & K' & HK & ?). split; [done|].
  split; [done|]. exists K'. split; [by eapply configured_follows|done].
Qed.

Lemma buildBootISO_refuses ipxe script e : Iso.buildBootISO ipxe script = Err e -> refused ipxe script.
Proof.
  intros E. pose proof (buildBootISO_cases ipxe script) as Hc. cbv zeta in Hc. rewrite E in Hc.
  unfold refused. destruct e; destruct_and?; subst; auto with lia.
Qed.

Lemma buildBootISO_no_panic ipxe script : Iso.buildBootISO ipxe script <> Panic.
Proof.
  intros E. pose proof (buildBootISO_cases ipxe script) as Hc. cbv zeta in Hc. by rewrite E in Hc.
Qed.

Lemma wp_serve_image K name h :
  let ipxe := ipxeEFI (srv (cur h)) in
  configured h K ->
  twp (Conc.serve_iso (subject_key K) (subject_hash K)
         (fun ipxe => Iso.buildBootISO ipxe (subject_script K)) name)
    (image_answer ipxe K name) h.
Proof.
  intros ipxe HK. eapply wp_mono.
  - apply (wp_serve_iso K (fun ipxe => Iso.buildBootISO ipxe (subject_script K)));
      [done|by intros data t Hd|apply buildBootISO_no_panic].
  - intros [st m|ty nm t data|st hd body|] h'; cbn; [| |done..].
    + intros (-> & -> & e & He). split; [done|]. split; [done|]. by eapply buildBootISO_refuses.
    + intros (-> & -> & K' & HK' & Hk & Hh & Hb). cbn in Hh, Hb. split; [done|]. split; [done|].
      exists K'. split; [done|]. split; [done|]. split; [done|].
      split; [by apply buildBootISO_Ret in Hb|]. intros Ho Ho' Hi.
      apply subject_input_script; [done|done|by apply Hi].
Qed.

(** What the server knows of a request when it arrives: the moment, the
    number of questions to the rack so far, and how long it waits for a node. *)
Record arrival := { moment : nat; calls : nat; patience : Z }.

Definition generic_answer (a : arrival) (ipxe : bytes) (r : request) (resp : response)
    (h : timeline) : Prop :=
  exists c, config_seen (moment a) c h /\
    image_answer ipxe (ForGeneric (proxy_base c r)) "generic-boot.iso"%string resp h.

Definition node_answer (a : arrival) (ipxe : bytes) (r : request) (rawMAC : bytes) (resp : response)
    (h : timeline) : Prop :=
  let mac := handler_mac rawMAC in
  (resp = HttpError 404 ("node with MAC "%string ++ rawMAC ++ " not found"%string) /\
     (normalizeKey mac = [] \/ missing (moment a) (normalizeKey mac) h)) \/
  exists c node, config_seen (moment a) c h /\ registered (moment a) (normalizeKey mac) node h /\
    image_answer ipxe (ForNode node mac (proxy_base c r))
      ("ipxe-"%string ++ mac ++ ".iso"%string) resp h.

(** The body of an answer of the rack, rewritten; in an iPXE configuration
    for a node, with one record of the node, or without when it was missing. *)
Definition rewritten_answer (a : arrival) (c : Config) (r : request) (sent body : bytes)
    (h : timeline) : Prop :=
  let base := proxy_base c r in
  let plain := rewriteData sent base (Rewrites c) in
  let mac := ipxe_mac (Path r) (split_query (RawQuery r)).2 in
  if Contains (Path r) "ipxe.cfg"%string && negb (bool_decide (mac = [])) then
    (exists node, registered (moment a) (normalizeKey mac) node h /\
       body = inject_node c base plain node) \/
    ((normalizeKey mac = [] \/ missing (moment a) (normalizeKey mac) h) /\ body = plain)
  else body = plain.

(** What the reply of the rack demands of the answer. *)
Definition demanded (a : arrival) (c : Config) (r : request) (res : upstreamRes) (resp : response)
    (h : timeline) : Prop :=
  match res with
  | UpInvalid => resp = HttpError 500 "bad upstream request"%string
  | UpUnreachable => resp = HttpError 502 "upstream unreachable"%string
  | UpResponse st hd sent complete =>
      if isBinary (Path r) || negb (bool_decide (Method r = "GET"%string)) then
        resp = Reply st (copyHeaders false hd) sent
      else if complete then
        exists body, rewritten_answer a c r sent body h /\
          resp = Reply st (Header.Set_ (copyHeaders true hd) "Content-Length"%string
            (fmt_d (zlen body))) body
      else resp = HttpError 502 "read error from upstream"%string
  end.

(** A proxied request: with one configuration that was in force, and by what
    the rack answered to this request. *)
Definition proxy_answer (a : arrival) (r : request) (resp : response) (h : timeline) : Prop :=
  exists c, config_seen (moment a) c h /\
    if bool_decide (RackUpstream c = []) then
      resp = HttpError 503 "upstream rack proxy not configured"%string
    else exists res, asked (calls a) (upstream_request c r (split_query (RawQuery r)).1) res h /\
      demanded a c r res resp h.

Definition answer (overlayCPIO : bytes) (a : arrival) (r : request) (resp : response)
    (h : timeline) : Prop :=
  let ipxe := ipxeEFI (srv (cur h)) in
  if bool_decide (Path r = genericISOPath) then generic_answer a ipxe r resp h
  else if bool_decide (Path r = overlayPath) || bool_decide (Path r = bondOverlayPath) then
    resp = Content "application/x-gzip"%string "genesis-overlay.cpio.gz"%string
      (bootTime (srv (cur h))) overlayCPIO
  else match Submatch isoRe (Path r) with
  | Some rawMAC => node_answer a ipxe r rawMAC resp h
  | None => proxy_answer a r resp h
  end.

(** The request arrived on this timeline. *)
Definition arrived (a : arrival) (h : timeline) : Prop :=
  (moment a < length (past h))%nat /\ (calls a <= length (exchanges (cur h)))%nat.

Lemma arrived_follows a h h' : follows h h' -> arrived a h -> arrived a h'.
Proof.
  intros Hf [Hm Hc]. split; [by eapply follows_since|].
  pose proof (prefix_length _ _ (fo_rack _ _ Hf)). lia.
Qed.

Lemma missing_follows since norm h h' : follows h h' -> missing since norm h -> missing since norm h'.
Proof. intros Hf [? ?]. by split; eapply seen_follows. Qed.

Lemma config_configured a c r h : config_seen (moment a) c h -> configured h (ForGeneric (proxy_base c r)).
Proof. intros Hc. exists c, r. split; [|done]. eapply seen_since; [|exact Hc]. lia. Qed.

Lemma wp_serve_generic a c r h :
  config_seen (moment a) c h ->
  twp (Conc.serve_generic c r) (generic_answer a (ipxeEFI (srv (cur h))) r) h.
Proof.
  intros Hc. unfold Conc.serve_generic, BuildGenericISO. eapply wp_weaken.
  - apply (wp_serve_image (ForGeneric (proxy_base c r))). by apply (config_configured a).
  - intros resp h' Hf Hi. exists c. split; [by eapply seen_follows|done].
Qed.

Lemma wp_serve_node a rounds c r rawMAC h :
  arrived a h -> enough rounds (srv (cur h)) -> config_seen (moment a) c h ->
  twp (Conc.serve_node rounds c r rawMAC) (fun res h' =>
    exists resp, res = Some resp /\ node_answer a (ipxeEFI (srv (cur h))) r rawMAC resp h') h.
Proof.
  intros [Hl _] He Hc. unfold Conc.serve_node. fold (handler_mac rawMAC).
  eapply wp_seq; [by apply (wp_resolveNode (moment a))|]. intros res h1 Hf1 (found & -> & Hk).
  destruct found as [node|].
  - destruct Hk as [[? _]|Hk]; [done|]. unfold BuildNodeISO. cbv zeta. eapply wp_seq.
    + apply (wp_serve_image (ForNode node (handler_mac rawMAC) (proxy_base c r))). split.
      * eapply seen_since; [|exact Hk]. lia.
      * apply (config_configured a). by eapply seen_follows.
    + intros resp h2 Hf2 Hi. rewrite (follows_ipxe h h1) in Hi by done.
      apply wp_done. intros h3 Hf3. exists resp. split; [done|]. right. exists c, node.
      split; [eapply seen_follows; [|exact Hc]; chain|].
      split; [eapply seen_follows; [|exact Hk]; chain|by eapply image_answer_follows].
  - apply wp_done. intros h2 Hf2. eexists. split; [done|]. left. split; [done|].
    destruct Hk as [[_ Hn]|Hk]; [by left|]. right. by eapply missing_follows.
Qed.

Lemma rewritten_follows a c r sent body h h' :
  follows h h' -> rewritten_answer a c r sent body h -> rewritten_answer a c r sent body h'.
Proof.
  intros Hf. unfold rewritten_answer. cbv zeta. destruct (_ && _); [|done].
  intros [(node & Hk & ->)|[Hm ->]]; [left|right].
  - exists node. split; [by eapply seen_follows|done].
  - split; [|done]. destruct Hm as [?|Hm]; [by left|right]. by eapply missing_follows.
Qed.

Lemma demanded_follows a c r res resp h h' :
  follows h h' -> demanded a c r res resp h -> demanded a c r res resp h'.
Proof.
  intros Hf. destruct res as [| |st hd sent complete]; [done..|]. cbn [demanded].
  destruct (_ || _); [done|]. destruct complete; [|done]. intros (body & Hb & ->).
  exists body. split; [by eapply rewritten_follows|done].
Qed.

Lemma wp_rewrite_body a rounds c r sent h :
  arrived a h -> enough rounds (srv (cur h)) ->
  twp (Conc.rewrite_body rounds c r (split_query (RawQuery r)).2 sent) (fun res h' =>
    exists body, res = Some body /\ rewritten_answer a c r sent body h') h.
Proof.
  intros [Hl _] He. unfold Conc.rewrite_body, rewritten_answer. cbv zeta.
  destruct (Contains _ _); cbn [andb]; [|by apply wp_done; intros; eexists].
  destruct (bool_decide _); cbn [negb]; [by apply wp_done; intros; eexists|].
  eapply wp_seq; [by apply (wp_resolveNode (moment a))|]. intros res h1 Hf1 (found & -> & Hk).
  destruct found as [node|].
  - destruct Hk as [[? _]|Hk]; [done|]. apply wp_done. intros h2 Hf2. eexists. split; [done|].
    left. exists node. split; [by eapply seen_follows|done].
  - apply wp_done. intros h2 Hf2. eexists. split; [done|]. right. split; [|done].
    destruct Hk as [[_ Hn]|Hk]; [by left|]. right. by eapply missing_follows.
Qed.

Lemma wp_serve_proxy a rounds c r h :
  arrived a h -> enough rounds (srv (cur h)) -> config_seen (moment a) c h ->
  twp (Conc.serve_proxy rounds c r) (fun res h' =>
    exists resp, res = Some resp /\ proxy_answer a r resp h') h.
Proof.
  intros Ha [Hr He] Hc. unfold Conc.serve_proxy, proxy_answer.
  destruct (bool_decide (RackUpstream c = [])) eqn:Eu.
  { apply wp_done. intros h1 Hf1. eexists. split; [done|]. exists c.
    split; [by eapply seen_follows|]. by rewrite Eu. }
  destruct (split_query (RawQuery r)) as [q g] eqn:Eq. cbn [fst].
  apply (wp_ask (calls a)); [apply Ha|]. intros h1 res Hf1 _ Hask.
  (* an answer that is at hand *)
  assert (Hnow : forall resp h2, follows h1 h2 -> demanded a c r res resp h2 ->
    twp (mret (Some resp)) (fun res h' => exists resp, res = Some resp /\ exists c,
      config_seen (moment a) c h' /\
      if bool_decide (RackUpstream c = []) then
        resp = HttpError 503 "upstream rack proxy not configured"%string
      else exists res, asked (calls a) (upstream_request c r q) res h' /\
        demanded a c r res resp h') h2).
  { intros resp h2 Hf2 Hm. apply wp_done. intros h3 Hf3. exists resp. split; [done|]. exists c.
    split; [eapply seen_follows; [|exact Hc]; chain|]. rewrite Eu. exists res.
    split; [eapply asked_follows; [|exact Hask]; chain|by eapply demanded_follows]. }
  destruct res as [| |st hd sent complete]; [by apply Hnow..|]. cbn [demanded] in Hnow.
  destruct (isBinary (Path r) || _); [by apply Hnow|]. destruct complete; [|by apply Hnow].
  eapply wp_seq.
  - replace g with (split_query (RawQuery r)).2 by (by rewrite Eq).
    apply (wp_rewrite_body a); [by eapply arrived_follows|]. split; [done|].
    by rewrite (follows_missWait h h1).
  - intros res h2 Hf2 (body & -> & Hb). apply Hnow; [done|]. by exists body.
Qed.

Lemma wp_ServeHTTP overlayCPIO a rounds r h :
  arrived a h -> enough rounds (srv (cur h)) ->
  twp (Conc.ServeHTTP overlayCPIO rounds r) (fun res h' =>
    exists resp, res = Some resp /\ answer overlayCPIO a r resp h') h.
Proof.
  intros Ha [Hr He]. unfold Conc.ServeHTTP, Conc.getConfig. section h0 Hf0. look h1 i1 Hf1 Hs1 _.
  assert (Hf : follows h h1) by chain. apply (arrived_follows _ _ _ Hf) in Ha.
  assert (He1 : enough rounds (srv (cur h1))) by (split; [done|by rewrite (follows_missWait h h1)]).
  assert (Hc : config_seen (moment a) (cfg (srv (cur h1))) h1) by (apply seen_now; [done|apply Ha|done]).
  unfold answer. destruct (bool_decide (Path r = genericISOPath)).
  { eapply wp_seq; [by apply (wp_serve_generic a)|]. intros resp h2 Hf2 (c & Hc2 & Hi).
    apply wp_done. intros h3 Hf3. exists resp. split; [done|]. exists c.
    split; [by eapply seen_follows|]. rewrite (follows_ipxe h1 h3) by chain.
    by eapply image_answer_follows. }
  destruct (bool_decide _ || _).
  { look h2 i2 Hf2 _ _. apply wp_done. intros h3 Hf3. eexists. split; [done|].
    by rewrite (follows_bootTime h2 h3). }
  destruct (Submatch isoRe (Path r)); [|by apply wp_serve_proxy].
  eapply wp_weaken; [by apply (wp_serve_node a)|]. intros res h2 Hf2 (resp & -> & Hn).
  exists resp. by rewrite (follows_ipxe h1 h2).
Qed.
End together.
End Together.
