(* ===== verification/ConcurrentFacts.v ===== *)
(** * What the server guarantees under concurrency

    Any number of requests, reloads and sweeps run together, action by action,
    while the disk changes: what they answer, and that they come to an end. *)

From S2P Require Import Prelude GoStrings MacAddr Types NodeStore IsoCache FatImage IpxeScript Regex Rewriter Http Server ServerFacts Concurrent RelyGuarantee Locks Together.
Import Mac Re Rewriting Srv Goroutine.
Import CacheFacts ReFacts RekeyFacts ConfigFacts ImageFacts Together.

(** ** Discipline of the programs *)

Module Discipline.
Section discipline.
Context `{Unicode, Json, Sha256, Archive}.

Ltac disc :=
  repeat first
    [ reflexivity
    | apply disc_section; intros
    | apply disc_sleep; intros
    | apply disc_free; intros
    | match goal with |- disciplined _ (match ?x with _ => _ end) _ _ => destruct x end ].

(** A section at the end of a program. *)
Lemma disc_section_last {A} l m (f : input -> shared -> shared * A) n :
  disciplined None (locked l m (Act Free f Done)) None (S (S (S n))).
Proof. split; [done|]. intros u x. split; [done|]. by intros. Qed.

Lemma disc_reloadConfig : disciplined None Conc.reloadConfig None 9.
Proof. unfold Conc.reloadConfig. disc. apply disc_section_last. Qed.

Lemma disc_store_Reload : disciplined None Conc.store_Reload None 10.
Proof. unfold Conc.store_Reload, Conc.note. disc. Qed.

Lemma disc_Reload : disciplined None Conc.Reload None 19.
Proof.
  apply (disciplined_bind None None None _ _ 9 10 disc_reloadConfig). intros _.
  apply (disciplined_bind None None None _ _ 10 0 disc_store_Reload). done.
Qed.

Lemma disc_Watch n : disciplined None (Conc.Watch n) None (19 * n).
Proof.
  induction n as [|n IH]; [done|]. replace (19 * S n)%nat with (19 + 19 * n)%nat by lia.
  by apply (disciplined_bind None None None _ _ 19 (19 * n) disc_Reload).
Qed.

Lemma disc_startReaper bs : disciplined None (Conc.startReaper bs) None (3 * length bs).
Proof.
  induction bs as [|b bs IH]; [done|]. cbn [Conc.startReaper length].
  replace (3 * S (length bs))%nat with (3 + 3 * length bs)%nat by lia.
  apply (disciplined_bind None None None _ _ 3); [|done]. unfold Conc.reaper_round.
  destruct b; [apply disc_section_last|]. by intros x.
Qed.

Lemma disc_lookup norm : disciplined None (Conc.lookup norm) None 6.
Proof. unfold Conc.lookup, Conc.getConfig. disc. Qed.

Lemma disc_resolve_loop rounds deadline norm :
  disciplined None (Conc.resolve_loop rounds deadline norm) None (34 * rounds).
Proof.
  induction rounds as [|rounds IH]; [done|].
  replace (34 * S rounds)%nat with (6 + (19 + (6 + (3 + 34 * rounds))))%nat by lia.
  cbn [Conc.resolve_loop].
  apply (disciplined_bind None None None _ _ 6 _ (disc_lookup norm)). intros [n|]; [done|].
  apply (disciplined_bind None None None _ _ 19 _ disc_Reload). intros _.
  apply (disciplined_bind None None None _ _ 6 _ (disc_lookup norm)). intros [n|]; [done|].
  apply disc_free. intros now. destruct (negb _); [done|].
  apply disc_free. intros t. apply disc_sleep. intros [|]; [done|exact IH].
Qed.

Lemma disc_resolveNode rounds mac :
  disciplined None (Conc.resolveNode rounds mac) None (2 + 34 * rounds).
Proof.
  unfold Conc.resolveNode. destruct (bool_decide _); [done|].
  apply disc_free. intros start. apply disc_free. intros wait. apply disc_resolve_loop.
Qed.

Lemma disc_cachedISO key hash build : disciplined None (Conc.cachedISO key hash build) None 8.
Proof.
  unfold Conc.cachedISO, Conc.cache_Get. apply disc_section. intros res.
  assert (Hc : disciplined None (Conc.compose_iso key hash build) None 4).
  { unfold Conc.compose_iso. destruct build; [|done..].
    apply (disciplined_bind None None None _ _ 4 0); [|done]. unfold Conc.cache_Set.
    apply disc_free. intros now. apply disc_section_last. }
  destruct res as [l|]; [|apply (disciplined_more _ _ _ 4); [lia|done]].
  unfold Conc.entry. apply disc_free. intros e.
  destruct (match e with Some e => _ | None => _ end); done.
Qed.

Lemma disc_serve_iso key hash build name :
  disciplined None (Conc.serve_iso key hash build name) None 10.
Proof.
  unfold Conc.serve_iso, Conc.efi. apply disc_free. intros ipxe.
  apply (disciplined_bind None None None _ _ 8 1 (disc_cachedISO _ _ _)). intros res.
  destruct res as [l|e|]; [|done..]. unfold Conc.entry. apply disc_free. intros [e|]; done.
Qed.

(** A request takes fifteen actions and thirty-four in every round of the
    retry loop. *)
Lemma disc_ServeHTTP overlayCPIO rounds r :
  disciplined None (Conc.ServeHTTP overlayCPIO rounds r) None (15 + 34 * rounds).
Proof.
  unfold Conc.ServeHTTP, Conc.getConfig. apply disc_section. intros c.
  change (12 + 34 * rounds)%nat with (12 + 34 * rounds)%nat.
  destruct (bool_decide _).
  { apply (disciplined_more _ _ _ 10); [lia|].
    apply (disciplined_bind None None None _ _ 10 0); [|done]. apply disc_serve_iso. }
  destruct (bool_decide _ || _); [apply disc_free; done|].
  destruct (Submatch isoRe (Path r)) as [rawMAC|].
  - unfold Conc.serve_node. cbv zeta.
    apply (disciplined_more _ _ _ ((2 + 34 * rounds) + 10)); [lia|].
    apply (disciplined_bind None None None _ _ _ 10 (disc_resolveNode _ _)). intros [[n|]|]; [|done..].
    apply (disciplined_bind None None None _ _ 10 0); [apply disc_serve_iso|done].
  - unfold Conc.serve_proxy. destruct (bool_decide _); [done|]. destruct (split_query _) as [q g].
    apply (disciplined_more _ _ _ (S (2 + 34 * rounds))); [lia|].
    unfold ask. apply disc_free. intros [| |st hd body complete]; [done..|].
    destruct (isBinary _ || _); [done|]. destruct complete; [|done].
    replace (2 + 34 * rounds)%nat with ((2 + 34 * rounds) + 0)%nat by lia.
    apply (disciplined_bind None None None); [|by intros [b|]]. unfold Conc.rewrite_body. cbv zeta.
    destruct (Contains _ _); [|done]. destruct (bool_decide _); [done|].
    replace (2 + 34 * rounds)%nat with ((2 + 34 * rounds) + 0)%nat by lia.
    apply (disciplined_bind None None None _ _ _ 0 (disc_resolveNode _ _)). by intros [[n|]|].
Qed.
End discipline.
End Discipline.
Import Discipline.

(** ** The running server *)

(** Why a goroutine was started: for a request that arrived, to watch the
    files through some ticks, or to sweep the cache through some rounds. *)
Inductive job := JRequest (r : request) (a : arrival) | JWatch (ticks : nat) | JReaper (rounds : list bool).

(** Rounds of the retry loop that cover a wait. *)
Definition rounds_for (wait : Z) : nat := (Z.to_nat (wait / missPollInterval) + 2)%nat.

(** The actions a goroutine takes at most. *)
Definition job_limit (j : job) : nat :=
  match j with
  | JRequest _ a => (15 + 34 * rounds_for (patience a))%nat
  | JWatch n => (19 * n)%nat
  | JReaper bs => (3 * length bs)%nat
  end.

Section running.
Context {U : Unicode} {UL : UnicodeLaws U} `{Json, Sha256, Archive}.
Context (getenv : bytes -> bytes) (overlayCPIO : bytes).

(** A request arrives at the last moment of the timeline. *)
Definition arrival_at (h : timeline) : arrival := {|
  moment := pred (length (past h)); calls := length (exchanges (cur h));
  patience := missWait (srv (cur h));
|}.

Inductive go : job -> timeline -> prog (option response) -> Prop :=
| go_request r h :
    go (JRequest r (arrival_at h)) h
      (Conc.ServeHTTP overlayCPIO (rounds_for (missWait (srv (cur h)))) r)
| go_watch n h : go (JWatch n) h (_ ← Conc.Watch n; mret None)
| go_reaper bs h : go (JReaper bs) h (_ ← Conc.startReaper bs; mret None).

Definition run := pool_step go.

(** The server as [main] starts it, before the first request. *)
Definition boot (c : pool job) : Prop :=
  exists s ParseDuration files o1 o2 o3 now,
    valid_order o1 /\ valid_order o2 /\ valid_order o3 /\
    srv s = main_server ParseDuration getenv files o1 o2 o3 now /\
    c = {| tl := begins s; mutexes := unlocked; threads := [] |}.

Definition running (c : pool job) : Prop := exists c0, boot c0 /\ rtc run c0 c.

Definition job_done (j : job) (res : option response) (h : timeline) : Prop :=
  match j with
  | JRequest r a => exists resp, res = Some resp /\ answer overlayCPIO a r resp h
  | _ => res = None
  end.

Lemma rounds_enough v : enough (rounds_for (missWait v)) v.
Proof.
  unfold enough, rounds_for. split; [lia|]. set (w := missWait v). set (d := missPollInterval).
  assert (Hd : 0 < d) by done. clearbody w d.
  pose proof (Z.div_mod w d ltac:(lia)) as Hdm. pose proof (Z.mod_pos_bound w d Hd).
  replace (Z.of_nat (Z.to_nat (w / d) + 2) - 1) with (Z.max 0 (w / d) + 1) by lia. nia.
Qed.

Lemma go_wp j h p : sound getenv h -> go j h p -> wp (sound getenv) follows follows p (job_done j) h.
Proof.
  intros Hs Hgo. revert Hs. destruct Hgo as [r h1|n h1|bs h1]; intros Hs.
  - apply wp_ServeHTTP; [|apply rounds_enough]. destruct Hs as [_ Hl _].
    split; cbn; [|done]. destruct (past h1); [done|cbn; lia].
  - eapply wp_seq; [apply wp_Watch|]. intros. by apply wp_done.
  - eapply wp_seq; [apply wp_startReaper|]. intros. by apply wp_done.
Qed.

Lemma go_disciplined j h p : go j h p -> disciplined None p None (job_limit j).
Proof.
  intros [r h1|n h1|bs h1]; cbn [job_limit].
  - apply disc_ServeHTTP.
  - replace (19 * n)%nat with (19 * n + 0)%nat by lia.
    by apply (disciplined_bind None None None _ _ _ 0 (disc_Watch n)).
  - replace (3 * length bs)%nat with (3 * length bs + 0)%nat by lia.
    by apply (disciplined_bind None None None _ _ _ 0 (disc_startReaper bs)).
Qed.

Lemma boot_sound c : boot c -> sound getenv (tl c).
Proof.
  intros (s & PD & files & o1 & o2 & o3 & now & K1 & K2 & K3 & Es & ->).
  destruct (main_server_config getenv PD files o1 o2 o3 now K1 K2) as (Ko & _ & (c & _ & Kc) & _).
  assert (Hst : Running.started (srv s)) by (by exists PD, getenv, files, o1, o2, o3, now).
  destruct (Running.started_inv _ Hst) as [[Kw _] _ K4 K5].
  assert (Hi : Cache.isos (isoCache (srv s)) = ∅).
  { rewrite Es. unfold main_server. cbv zeta. set (s0 := {| cfg := _ |}).
    by destruct (ReloadAll_frame s0 {| ob_cfg := files (env getenv "CONFIG_PATH"%string
      "/etc/genesis/config.json"%string); ob_nodes := files (env getenv "NODES_PATH"%string
      "/etc/maas-boot-proxy/nodes/nodes.json"%string); ob_cfg_order := o2; ob_nodes_order := o3 |})
      as (_ & _ & _ & ->). }
  split; cbn [tl cur begins past]; [|done|].
  - split; [done|by rewrite Es|rewrite Es; by eapply effective_wins|done|done].
  - intros key l. by rewrite Hi, lookup_empty.
Qed.

Lemma running_ok c : running c -> pool_ok (sound getenv) follows job_done c.
Proof.
  intros (c0 & Hb & Hsteps).
  assert (Hc0 : pool_ok (sound getenv) follows job_done c0).
  { split; [by apply boot_sound|]. destruct Hb as (s & ? & ? & ? & ? & ? & ? & _ & _ & _ & _ & ->).
    apply Forall_nil_2. }
  revert Hc0. clear Hb. induction Hsteps as [|c1 c2 c3 H12 _ IH]; [done|]. intros Hc1.
  apply IH. eapply pool_step_ok; [apply _|apply pass_follows|exact go_wp|exact H12|exact Hc1].
Qed.

Lemma running_locks c : running c -> exists hs, locks_ok job_limit c hs.
Proof.
  intros (c0 & (s & ? & ? & ? & ? & ? & ? & _ & _ & _ & _ & ->) & Hsteps).
  eapply locks_ok_reachable; [exact go_disciplined|exact Hsteps|apply locks_ok_empty].
Qed.
End running.

(** ** Properties *)

(** C2: the whole server under concurrency.  Any number of requests, with
    [Watch] and the reaper, run interleaved action by action, while the files
    change and time passes.  At every moment each variable of the environment
    that is set is the setting in force, and both node tables have canonical
    keys.  Every request that has been answered got an answer that is right for
    moments within the request.  For a node's image: 404 only if the node was
    missing from both tables; otherwise, for a record registered and a
    configuration in force since the request came in, an error exactly of the
    composer, or an image that boots the server's iPXE binary with the script of
    something that was configured on this server under the same address and has
    the same hash, which is the script asked for whenever the values are hashable
    and the two hashed texts do not collide.  The same for the generic image.  The
    overlay is the overlay.  A proxied request is answered, with one
    configuration, exactly as the rack's reply to this very request demands: 503,
    500 and 502, the reply as it came, or its body rewritten with one record of
    the node.  No request aborts, and none is given up in the retry loop. *)
Theorem concurrent_answers {U : Unicode} {UL : UnicodeLaws U} `{Json, Sha256, Archive}
    (getenv : bytes -> bytes) (overlayCPIO : bytes) (c : pool job)
    (Hrun : running getenv overlayCPIO c) :
  server_ok getenv (srv (cur (tl c))) /\
  forall t r a res, threads c !! t = Some (JRequest r a, Done res) ->
    exists resp, res = Some resp /\ answer overlayCPIO a r resp (tl c).
Proof.
  destruct (running_ok getenv overlayCPIO c Hrun) as [Hs Ht]. split; [apply Hs|].
  intros t r a res Hl. rewrite Forall_lookup in Ht. specialize (Ht t _ Hl). by apply Ht.
Qed.


(** ** Witnesses *)

Module ConcurrentSamples.
Import StoreSamples RewriteSamples.

(** A server without any files, with a setting from the environment, and two
    goroutines: a request and a reload. *)
Definition bare_getenv (k : bytes) : bytes :=
  if bool_decide (k = "PROXY_BASE"%string) then "http://maas.example.com"%string else [].

Definition bare_server : Server :=
  main_server (fun _ => None) bare_getenv (fun _ => ReadNotExist) (fun l => l) (fun l => l)
    (fun l => l) 0.

Definition bare_shared : shared :=
  {| srv := bare_server; clock := 0; disk := fun _ => ReadNotExist; exchanges := [] |}.

Definition iso_request : request := {|
  Method := "GET"%string; Path := "/iso/02:5e:1c:9a:47:d3.iso"%string; RawQuery := [];
  Host := "maas.example.com"%string; RemoteAddr := []; ReqHeader := ∅; ReqBody := [];
|}.

Definition first_arrival : arrival := arrival_at (begins bare_shared).

Definition two_goroutines : pool job := {|
  tl := begins bare_shared; mutexes := unlocked;
  threads := [(JRequest iso_request first_arrival,
                Conc.ServeHTTP [] (rounds_for (missWait bare_server)) iso_request);
              (JWatch 1, _ ← Conc.Watch 1; mret None)];
|}.

Lemma two_goroutines_running : running bare_getenv [] two_goroutines.
Proof.
  exists {| tl := begins bare_shared; mutexes := unlocked; threads := [] |}. split.
  - exists bare_shared. eexists _, _, _, _, _, _.
    split_and!; [apply valid_id..|reflexivity|reflexivity].
  - eapply rtc_l; [apply ps_start; apply (go_request [] iso_request)|].
    eapply rtc_l; [apply ps_start; apply (go_watch [] 1)|]. apply rtc_refl.
Qed.
End ConcurrentSamples.
Import StoreSamples RewriteSamples ConcurrentSamples.


Lemma concurrent_answers_witness :
  exists c (resp : response), running bare_getenv [] c /\
    threads c !! 0%nat = Some (JRequest iso_request first_arrival, Done (Some resp)) /\
    answer [] first_arrival iso_request resp (tl c) /\
    ProxyBase (cfg (srv (cur (tl c)))) = "http://maas.example.com"%string.
Proof.
  destruct (running_locks bare_getenv [] two_goroutines two_goroutines_running) as [hs Hok].
  destruct (run_to_end _ _ (go_disciplined []) two_goroutines hs 0 _ _ Hok eq_refl)
    as (c & res & Hsteps & Hl).
  assert (Hrun : running bare_getenv [] c).
  { destruct two_goroutines_running as (c0 & Hb & Hc). exists c0. split; [done|]. by etrans. }
  destruct (concurrent_answers bare_getenv [] c Hrun) as [[_ _ (_ & Hw & _) _ _] Ha].
  destruct (Ha 0%nat iso_request first_arrival res Hl) as (resp & -> & Hok').
  exists c, resp. split; [done|]. split; [done|]. split; [done|]. apply Hw. vm_compute. congruence.
Defined.
