(* ===== verification/InjectFacts.v ===== *)
(** * The kernel arguments in a proxied iPXE configuration

    [inject_node] ([main.go], the end of [ServeHTTP]) puts the static network
    arguments of a node in the place of MAAS's [ip=...BOOTIF]. *)

From S2P Require Import Prelude GoStrings MacAddr Types KernelNet IpxeScript Regex Http Server.
Import Net Re ReFacts Srv.

(** The argument that MAAS writes: [ip=], no white space, [BOOTIF]. *)
Definition boot_arg (u : bytes) : Prop :=
  exists w, u = "ip="%string ++ w ++ "BOOTIF"%string /\ Forall (fun c => non_space c = true) w.

Lemma boot_arg_nonempty u : boot_arg u -> (1 <= length u)%nat.
Proof. intros (w & -> & _). cbn. lia. Qed.

Lemma lit_word s prv t cp : lit s (Pos prv (s ++ t) cp) <> None.
Proof.
  assert (E : lit s (Pos prv (s ++ t) cp) = Some (Pos (after prv s) t cp)); [|by rewrite E].
  apply lit_spec. split_and!; [done|done|]. unfold after. cbn. by destruct (last s).
Qed.

Lemma boot_arg_sound st e :
  match_at ipCmdRe st = Some e ->
  exists u, rest st = u ++ rest e /\ boot_arg u /\ preferred boot_arg true u (rest e).
Proof.
  unfold match_at, ipCmdRe. cbn [mt]. intros (st1 & L1 & Hs)%bind_Some.
  apply lit_spec in L1 as (E1 & _).
  destruct (star_greedy _ _ _ _ _ _ Hs) as (w & t & Ew & Hw & Hk & Hmax).
  apply bind_Some in Hk as (st2 & L2 & [= ->]). apply lit_spec in L2 as (E2 & _). cbn in E2.
  exists ("ip="%string ++ w ++ "BOOTIF"%string).
  assert (Er : rest st = ("ip="%string ++ w ++ "BOOTIF"%string) ++ rest e)
    by (rewrite E1, Ew, E2, <- !app_assoc; done).
  split; [done|]. split; [by exists w|].
  intros _ u' b' E (w' & -> & Hw'). rewrite !length_app.
  destruct (decide (length w' <= length w)%nat) as [|Hlt]; [lia|]. exfalso.
  rewrite <- Er, E1, <- !app_assoc in E. apply app_inv_head in E.
  assert (Hn := Hmax w' ("BOOTIF"%string ++ b') E Hw' ltac:(lia)).
  destruct (lit _ _) eqn:L3; [done|]. by apply lit_word in L3.
Qed.

Lemma boot_arg_complete prv u s : boot_arg u -> match_at ipCmdRe (Pos prv (u ++ s) None) <> None.
Proof.
  intros (w & -> & Hw) Hn. set (st := Pos prv _ None) in *.
  set (s1 := Pos (Some "="%char) (w ++ "BOOTIF"%string ++ s) None).
  assert (M1 : lit "ip="%string st = Some s1).
  { apply lit_spec. split_and!; [|done|done]. cbn [rest st s1]. by rewrite <- !app_assoc. }
  assert (M2 := run_word non_space (Some "="%char) w ("BOOTIF"%string ++ s) None Hw).
  destruct (lit "BOOTIF"%string (Pos (after (Some "="%char) w) ("BOOTIF"%string ++ s) None)) as [s3|] eqn:M3;
    [|by apply lit_word in M3].
  assert (Hm : matches ipCmdRe st s3).
  { eapply m_cat; [by apply m_lit|]. eapply m_cat; [by apply m_star|]. by apply m_lit. }
  by apply (mt_complete _ _ _ Hn) in Hm.
Qed.

(** Without a match the test before [ReplaceAll] makes no difference. *)
Lemma replace_unless_absent `{Unicode} r body repl :
  (if Match r body then ReplaceAll r body repl else body) = ReplaceAll r body repl.
Proof.
  unfold Match, ReplaceAll. destruct (length body) as [|n]; cbn [replace_loop].
  - by destruct (find r None body).
  - by destruct (find r None body) as [[[? ?] ?]|].
Qed.

(** C25: the kernel boots with the node's arguments: in an iPXE configuration
    every [ip=...BOOTIF] argument, from the left and each as long as white
    space allows, is replaced by the arguments of the node, which contain no
    dollar sign; nothing else changes, except that a bonded node also gets the
    line that loads its overlay. *)
Theorem kernel_args_injected `{Unicode} (c : Config) (base body : bytes) (node : Node)
    (Hd : no_dollar (buildKernelNet node)) :
  exists mid, substituted boot_arg true (buildKernelNet node) body mid /\
    inject_node c base body node =
      if bonded node then
        injectOverlayInitrd mid
          (if bool_decide (OverlayURL c = []) then TrimRight base "/"%string ++ overlayPath
           else OverlayURL c)
      else mid.
Proof.
  exists (ReplaceAll ipCmdRe body (buildKernelNet node)). split.
  - apply replace_words; [apply boot_arg_sound|apply boot_arg_complete|apply boot_arg_nonempty| |done].
    intros u. by apply expand_plain.
  - unfold inject_node. by rewrite replace_unless_absent.
Qed.

(** ** Variables in the replacement *)

Section variables.
Context `{Unicode}.

(** A name a template may refer to, and a text that ends it. *)
Definition variable (name : bytes) : Prop :=
  name <> [] /\ name <> ("0"%string : bytes) /\ Forall (fun c => word_char c = true) name.

Definition ends_name (t : bytes) : Prop :=
  match t with [] => True | c :: _ => is_ascii c = true /\ word_char c = false end.

Lemma expand_loop_plain f m a t :
  no_dollar a -> expand_loop (length a + f) m (a ++ t) = a ++ expand_loop f m t.
Proof.
  induction 1 as [|c a Hc _ IH]; [done|]. cbn [length Nat.add app expand_loop].
  rewrite ascii_eqb_neq by done. by rewrite IH.
Qed.

Lemma word_char_ascii c : word_char c = true -> b2z c < 128.
Proof.
  unfold word_char. intros Hc. pose proof (b2z_range c).
  repeat (apply orb_prop in Hc as [Hc|Hc]); try (apply andb_prop in Hc as [_ Hc]); lia.
Qed.

Lemma decode_ascii c t : b2z c < 128 -> decode_rune (c :: t) = (b2z c, 1%nat).
Proof. intros Hc. unfold decode_rune. destruct (Z.ltb_spec (b2z c) 128); [done|lia]. Qed.

Lemma name_len_word f name t :
  Forall (fun c => word_char c = true) name -> ends_name t -> (length name <= f)%nat ->
  name_len f (name ++ t) = length name.
Proof.
  intros Hn Ht. revert f. induction Hn as [|c name Hc _ IH]; intros f Hf.
  - cbn [app length]. destruct f as [|f]; [done|]. destruct t as [|c t]; [done|].
    destruct Ht as [Ha Hw]. cbn [name_len]. unfold is_ascii in Ha. apply Z.ltb_lt in Ha.
    rewrite decode_ascii by done. destruct (Z.ltb_spec (b2z c) 128); [|lia]. by rewrite Hw.
  - cbn [length] in *. destruct f as [|f]; [lia|]. cbn [app name_len].
    pose proof (word_char_ascii c Hc). rewrite decode_ascii by done.
    destruct (Z.ltb_spec (b2z c) 128); [|lia]. rewrite Hc. cbn [drop Nat.add].
    by rewrite IH by lia.
Qed.

Lemma extract_variable name t :
  variable name -> ends_name t -> extract (name ++ t) = Some (name, t).
Proof.
  intros (Hne & _ & Hw) Ht. destruct name as [|c name]; [done|].
  assert (Hb : ascii_eqb c "{" = false).
  { apply ascii_eqb_neq. intros ->. by apply Forall_cons in Hw as [? _]. }
  unfold extract. cbn [app]. rewrite Hb.
  change (c :: name ++ t) with ((c :: name) ++ t).
  rewrite name_len_word by (done || rewrite length_app; lia).
  rewrite bool_decide_false by done. by rewrite take_app_length, drop_app_length.
Qed.

(** A variable in the replacement vanishes. *)
Lemma expand_variable a name t m :
  no_dollar a -> variable name -> ends_name t -> no_dollar t ->
  expand (a ++ "$"%string ++ name ++ t) m = a ++ t.
Proof.
  intros Ha Hv Ht Hd. unfold expand. rewrite length_app, expand_loop_plain by done. f_equal.
  change ("$"%string ++ name ++ t) with ("$"%char :: name ++ t).
  cbn [length expand_loop]. rewrite ascii_eqb_refl.
  pose proof (extract_variable name t Hv Ht) as Hx. destruct Hv as (Hne & H0 & Hw).
  destruct name as [|c name]; [done|]. cbn [app] in Hx |- *.
  assert (Hc : ascii_eqb c "$" = false).
  { apply ascii_eqb_neq. intros ->. by apply Forall_cons in Hw as [? _]. }
  rewrite Hc, Hx. unfold name_value. rewrite bool_decide_false by done. cbn [app length].
  rewrite <- (app_nil_r t) at 2. rewrite length_app, (Nat.add_comm (length name)), <- Nat.add_succ_r.
  rewrite expand_loop_plain by done. cbn. by rewrite app_nil_r.
Qed.
End variables.

(** C38: the [kernel_net] of a node is documented as verbatim, but it is used
    as a replacement template: a [$name] in it vanishes.  Every [ip=...BOOTIF]
    argument of the configuration is replaced by the text of [kernel_net]
    without the dollar sign and the name after it. *)
Theorem kernel_net_not_verbatim `{Unicode} (c : Config) (base body : bytes) (node : Node)
    (a name t : bytes) (Hnet : KernelNet node = a ++ "$"%string ++ name ++ t)
    (Ha : no_dollar a) (Hname : variable name) (Hend : ends_name t) (Ht : no_dollar t) :
  exists mid, substituted boot_arg true (a ++ t) body mid /\
    inject_node c base body node =
      if bonded node then
        injectOverlayInitrd mid
          (if bool_decide (OverlayURL c = []) then TrimRight base "/"%string ++ overlayPath
           else OverlayURL c)
      else mid.
Proof.
  assert (Eb : buildKernelNet node = a ++ "$"%string ++ name ++ t).
  { unfold buildKernelNet. rewrite Hnet, bool_decide_false; [done|]. by destruct a. }
  exists (ReplaceAll ipCmdRe body (buildKernelNet node)). split.
  - apply replace_words; [apply boot_arg_sound|apply boot_arg_complete|apply boot_arg_nonempty| |done].
    intros u. rewrite Eb. by apply expand_variable.
  - unfold inject_node. by rewrite replace_unless_absent.
Qed.

(** ** Witness *)

Module InjectSamples.

Definition ipxe_config : bytes :=
  "kernel /vmlinuz ip=::::node:BOOTIF quiet"%string ++ [nl] ++ "boot"%string.

Definition plain_node : Node := {|
  IP := "192.0.2.10"%string; Netmask := "255.255.255.0"%string; GW := "192.0.2.1"%string;
  VLAN := []; Dev := "eth0"%string; Hostname := "n1"%string; DNS := []; DNS2 := [];
  BondMembers := []; BondName := []; BondMode := []; LACPRate := []; HashPolicy := [];
  KernelNet := [];
|}.

(** A node whose [kernel_net] names a shell variable. *)
Definition dollar_node : Node := {|
  IP := []; Netmask := []; GW := []; VLAN := []; Dev := []; Hostname := []; DNS := [];
  DNS2 := []; BondMembers := []; BondName := []; BondMode := []; LACPRate := [];
  HashPolicy := []; KernelNet := "ip=dhcp root=$dev rw"%string |}.
End InjectSamples.
Import InjectSamples.

Lemma kernel_args_injected_witness :
  exists mid,
    substituted boot_arg true (buildKernelNet plain_node) ipxe_config mid /\
    @inject_node plain_unicode Config_zero [] ipxe_config plain_node = mid /\
    mid = "kernel /vmlinuz ip=192.0.2.10::192.0.2.1:255.255.255.0:n1:eth0:none network-config=disabled quiet"%string
            ++ [nl] ++ "boot"%string.
Proof.
  destruct (@kernel_args_injected plain_unicode Config_zero [] ipxe_config plain_node) as (mid & Hs & E).
  - apply (bool_decide_unpack _). vm_compute. exact I.
  - exists mid. split; [done|]. change (@inject_node plain_unicode Config_zero [] ipxe_config plain_node = mid) in E. split; [exact E|]. rewrite <- E.
    vm_compute. reflexivity.
Defined.

Lemma kernel_net_not_verbatim_witness :
  exists mid,
    substituted boot_arg true ("ip=dhcp root="%string ++ " rw"%string) ipxe_config mid /\
    @inject_node plain_unicode Config_zero [] ipxe_config dollar_node = mid.
Proof.
  apply (@kernel_net_not_verbatim plain_unicode Config_zero [] ipxe_config dollar_node
    "ip=dhcp root="%string "dev"%string " rw"%string).
  - reflexivity.
  - apply (bool_decide_unpack _). vm_compute. exact I.
  - split_and!; [done|done|]. repeat (apply Forall_cons_2; [reflexivity|]). apply Forall_nil_2.
  - done.
  - apply (bool_decide_unpack _). vm_compute. exact I.
Defined.
